(* ===== verification/_CoqProject ===== *)
-Q . S2P
Prelude.v
Spinlock.v
Dll.v
Hhdm.v
Buddy.v
Pmm.v
PmmInv.v
PmmOps.v
PmmInit.v
PmmSpec.v
FrameAlloc.v
Paging.v
PagingSpec.v
PagingInit.v
PagingThms.v
Sched.v
SchedSpec.v
SchedOps.v
Mutex.v
SchedInv.v
SchedThms.v
PagingUnmap.v
Strings.v
Kheap.v
KheapSpec.v
KheapMem.v
KheapThms.v
Vmm.v
VmmSpec.v
VmmInv.v
VmmThms.v
Mmio.v
Npf.v
NpfSpec.v
NpfThms.v
Serial.v
Logging.v
Descriptors.v
Interrupts.v
Acpi.v
Lapic.v
Console.v
Kernel.v
Tasks.v
Timer.v
Boot.v
Threads.v
Kmain.v
