(* ===== verification/Prelude.v ===== *)
(** * Plos: verification of the Plos kernel

    Plos is a small x86-64 kernel in C (src/kernel). It boots through Limine, manages
    physical memory with a buddy allocator, builds its own page tables, has a kernel heap
    and a virtual memory manager with demand paging on top of them, and runs threads with
    a round-robin scheduler on one CPU. This library models the kernel's own logic as
    executable functions and proves what the components promise to each other.

    ** How the code is translated

    Every C function is a definition of the same name in the state-and-fault monad [M]
    of this file: a component's static variables are a record, the structs it keeps in
    memory are finite maps from addresses (or from indices) to records, and a function
    returns a value and a state, or a [fault] ([Halt] for [hcf()], [Undef] for a NULL or
    dangling pointer or an index out of range, [Spin] for a spinlock that nobody can
    release, [Block] for going to sleep). Machine integers are integers with the wrap-around
    ([u64], [u32], [u16], [u8]) written where the code's arithmetic can wrap. Inline
    assembly is what it does to the state: RFLAGS for the interrupt flag, CR3, CR4, the
    PAT and the TLB for paging. Calls of [log_line] and [lapic_send_EOI] are left out
    where they touch nothing of the component that makes them; the functions themselves
    are modelled. Hardware is a parameter: a class of the accesses the code makes, and
    where a theorem needs to know how the device answers, a second class that says so,
    with an instance that shows it can be met.

    ** The components and their files

    - Spinlock.v: scheduling/lock.c, the ticket lock with interrupts disabled
      ([spinlock_irq]), and the saving of RFLAGS of cpu.c. As functions on the lock and
      the CPU, and as interleaved steps of any number of agents.
    - Dll.v: common/dll.c, circular doubly linked lists.
    - Hhdm.v: memory/hhdm.c, the direct map.
    - Pmm.v (model), Buddy.v (arithmetic of buddies), PmmInv.v, PmmOps.v, PmmInit.v
      (invariant and its preservation), PmmSpec.v (the contract): memory/pmm.c.
    - FrameAlloc.v: what the physical memory manager promises the code above it, as the
      classes [FrameAlloc] and [FrameAllocSpec]; the instances show that it keeps the
      promise. Everything below is proved against the interface.
    - Paging.v (model, with the walk the MMU makes over the same memory), PagingSpec.v
      (the tree of tables), PagingInit.v (the kernel's address space), PagingUnmap.v
      (unmapping regions), PagingThms.v: memory/paging.c.
    - Sched.v (model), SchedSpec.v (the rings of tasks and threads), SchedOps.v (one
      lemma per operation), Mutex.v (the sleeping mutex), SchedInv.v (the kernel's
      steps), SchedThms.v: scheduling/scheduler.c, scheduling/task.c, the mutex of
      scheduling/lock.c and the timer interrupt of devices/timer.c.
    - Strings.v: libk/string.c over byte-addressed memory.
    - Kheap.v (model), KheapSpec.v (blocks), KheapMem.v (the pages behind them),
      KheapThms.v: memory/kheap.c, over the page tables and the frame allocator.
    - Vmm.v (model), VmmSpec.v (areas), VmmInv.v (all address spaces), VmmThms.v:
      memory/vmm.c, over the heap and the page tables.
    - Mmio.v: what the virtual memory manager promises the drivers, devices mapped into the
      kernel's address space, and how an access goes through the MMU.
    - Npf.v (model), NpfSpec.v (what a format means), NpfThms.v: nanoprintf.h as
      libk/stdio.c configures it, and [snprintf] and [vsnprintf].
    - Serial.v: drivers/serial.c and portsIO.c, [console_write_str], and [printf].
    - Logging.v: common/logging.c.
    - Descriptors.v: memory/gdt/gdt.c and interrupts/idt.c, with the assembly that loads
      the tables.
    - Interrupts.v: interrupts/isr.asm and isr.c, over the registers and stack words of
      the processor, the virtual memory manager and the scheduler.
    - Acpi.v: drivers/acpi.c.
    - Lapic.v: drivers/lapic.c and the registers of cpu.c; the device is reached through
      the page tables of the virtual memory manager.
    - Timer.v: devices/timer.c apart from its interrupt (in Sched.v), over the PIT, the
      local APIC and the time-stamp counter.
    - Console.v: drivers/console.c; flanterm, the terminal emulator, is a parameter, a
      program over the allocator it is handed.
    - Kernel.v: the memory of the running kernel: accesses that fault, who owns which
      frame ([accounts]), and one lemma per operation the threads use, each paid for
      with frames and heap addresses counted in credits ([kernel_at]).
    - Tasks.v: the functions of scheduler.c and task.c that allocate, composed with the
      heap and the virtual memory manager (Sched.v takes the pointers as arguments).
    - Boot.v: limine_requests.c and the start of [kmain], up to [vmm_init].
    - Threads.v: what a thread of the stress test in main.c does in a round, and how the
      idle thread returns the memory of a thread that has exited.
    - Kmain.v: all of [kmain], over the statics of all components.

    ** What is proved

    - Ticket lock: mutual exclusion in every interleaving, also across wrap-around of the
      tickets; it implements a first-come first-served queue; it does not get stuck.
    - Lists: the pointer operations implement a list of nodes.
    - Physical memory: after initialisation and any sequence of calls, allocated blocks
      are aligned, usable and disjoint, and all usable memory is free or allocated;
      allocation and freeing implement an abstract page allocator, freeing undoes
      allocation, reference counts work, bad calls change nothing.
    - Page tables: the tree stays well formed, and after mapping, unmapping or changing
      flags the MMU's walk differs at exactly the page in question; the TLB stays
      coherent; [paging_init] builds the intended kernel address space, in which no page
      of the image is both writable and executable.
    - Scheduler: in every reachable state the lists are well-formed rings and the running
      thread is listed; the next thread is the first ready one in round-robin order,
      which is fair; the search ends exactly when a thread is ready; timer ticks, sleeping,
      creation of threads and the reaper do what they should, with the cases in which the
      reaper or the search do not. The mutex excludes and hands over first-in first-out.
    - Heap: blocks held by clients are disjoint, inside the heap and mapped to frames of
      their own, after any sequence of calls; allocation succeeds when there is memory;
      freeing undoes allocation; sizes that wrap.
    - Virtual memory: areas of every address space stay sorted and disjoint after any
      sequence of calls, while others use the heap; allocation is first fit; a page
      fault maps a zeroed frame with the rights of its area or halts; freeing an area
      unmaps it and gives its frames back; new address spaces share the kernel's half;
      where the end of the region is not checked.
    - Strings: [memset] by words equals a fill by bytes, [memmove] copies also between
      overlapping regions, the comparisons compute dictionary order.
    - Output: the printf family renders every format as a reference definition does, never
      writes outside its buffer, and prints numbers that read back; [printf] and [log_line]
      send exactly that text; log lines that do not fit overrun the buffer.
    - Processor: the descriptor tables have the types the processor expects; an interrupt
      shows the handler the registers of the interrupted code and resumes, with all
      registers restored, the code whose context the handler returns; each vector runs
      the component it belongs to.
    - Devices: the framebuffer and the registers of the local APIC are mapped so that every
      access reaches its byte, with the right cache type, and nothing else changes; the
      terminal's memory is in heap blocks of its own; calibration finds the frequencies of the clocks up to a stated error;
      sleeping takes the time it should.
    - ACPI: the root pointer is validated and read as its bytes say; no table is found.
    - The kernel as a whole: on any machine that meets the boot protocol, with enough
      memory, [kmain] reaches its idle loop with every component consistent, the drivers
      working and six threads ready to run. Every frame taken from the physical memory
      manager is then used exactly once, as a page table, a page of the heap or a page
      of an area; a round of the stress test and the reaping of a thread keep it so and
      give back what was taken.

    Theorems that name a claim (C1, C2, ...) are the properties of the manifest; a lemma
    with the suffix [_witness] applies its theorem to a concrete machine.

    ** Fuel

    Loops are recursive functions on a fuel argument that the calling definition computes
    from the state, and the total-correctness lemmas show that it does not run out (but for
    the scheduler's search when no thread is ready, which does not end in the code either):
    [PMM_MAX_ORDER] steps for the loops over orders; one step per page of a region
    ([region_fuel], [range_fuel], the loop of [kheap_extend]); the number of structs in
    memory for walks over lists ([list_fuel], [areas_fuel], [search_fuel] and the like);
    the number of bytes of memory for strings and formats ([string_fuel]); 64 digits for a
    64-bit number; a turn per tick of the counter in [timer_sleep]; the number of megabytes
    asked for, for the extensions [kmalloc] makes ([kmalloc_fuel]); the number of polls
    after which the hardware is ready, which the class of the device gives.

    ** Bounds

    Where a theorem needs memory, it says how much: [frames_for] counts four frames for each
    page the heap grows by (the page and up to three tables), [extensions] the megabytes a
    request may make it grow by, [credit_frames] the frames one operation of the running
    kernel may take. [kmain] needs 23 credits beside the framebuffer and the terminal: one
    for the local APIC, two for the idle task, one for each process and three for each of
    the six threads (struct, stack, first page).

    ** What is not modelled

    - The branches of nanoprintf.h that stdio.c compiles out (floating point and others),
      [pmm_dump_state], [pmm_printUsableRegions] and [kheap_print_nodes], which only print.
    - The terminal emulator flanterm, which is not part of the repository, beyond the calls
      it makes to the allocator and the characters it is sent.
    - drivers/pic.h, which declares a function that is never defined.
    - Preemption inside the functions of Tasks.v and Threads.v: they run from one call of
      the scheduler to the next, as the locks of the components they call let them; the
      interleavings of threads are those of SchedInv.v and Mutex.v. The loop of
      [kernel_idle_thread] is modelled round by round ([idle_round]), and so is the loop of
      [stress_test_worker] ([stress_round]). [sti] sets the flag in the scheduler's view
      of RFLAGS.
    - The heap's mutex is a flag in Kheap.v (a caller that finds it taken sleeps); that
      the mutex itself is correct under preemption is proved in Mutex.v. In the mutex the
      step from releasing its internal lock to yielding is one step: a preemption in
      between only adds a yield.
    - Each lock of an address space saves the interrupt flag in a CPU state of its own,
      apart from that of the frame allocator's lock, which is always released inside. *)

From stdpp Require Import base gmap list numbers.
From stdpp Require Export ssreflect.
#[export] Set Default Goal Selector "!".
#[global] Open Scope Z_scope.

#[global] Arguments Z.testbit : simpl never.
#[global] Arguments Z.clearbit : simpl never.
#[global] Arguments Z.land : simpl never.
#[global] Arguments Z.lor : simpl never.
#[global] Arguments Z.lxor : simpl never.
#[global] Arguments Z.ldiff : simpl never.
#[global] Arguments Z.shiftl : simpl never.
#[global] Arguments Z.shiftr : simpl never.
#[global] Arguments Z.pow : simpl never.
#[global] Arguments Z.mul : simpl never.
#[global] Arguments Z.add : simpl never.
#[global] Arguments Z.sub : simpl never.
#[global] Arguments Z.div : simpl never.
#[global] Arguments Z.modulo : simpl never.
#[global] Arguments Z.of_nat : simpl never.
#[global] Arguments Z.to_nat : simpl never.

(** ** Outcomes of kernel code

    A kernel function either returns, or ends in one of the ways C code of this
    kernel can fail to return normally. *)
Inductive fault :=
  | Halt        (** [hcf()]: the CPU is parked for ever *)
  | Undef       (** a NULL or dangling pointer is dereferenced, an index is out of range *)
  | Spin        (** a loop that nothing can end (a spinlock nobody will release) *)
  | Block       (** the thread goes to sleep: control leaves through the scheduler *)
  | OutOfFuel.  (** the fuel of a loop of the model ran out *)

Inductive res (A : Type) :=
  | Ok (a : A)
  | Err (f : fault).
Arguments Ok {A} _.
Arguments Err {A} _.

#[export] Instance fault_eq_dec : EqDecision fault.
Proof. solve_decision. Defined.

(** The state-and-fault monad every stateful component is written in. *)
Definition M (S A : Type) : Type := S → res (A * S).

Definition ret {S A} (a : A) : M S A := λ s, Ok (a, s).
Definition fail {S A} (f : fault) : M S A := λ _, Err f.
Definition bind {S A B} (m : M S A) (k : A → M S B) : M S B := λ s,
  match m s with
  | Ok (a, s') => k a s'
  | Err f => Err f
  end.
Definition gets {S A} (f : S → A) : M S A := λ s, Ok (f s, s).
Definition modify {S} (f : S → S) : M S unit := λ s, Ok (tt, f s).
(** A read that is undefined behaviour when there is nothing to read. *)
Definition reads {S A} (f : S → option A) : M S A := λ s,
  match f s with Some a => Ok (a, s) | None => Err Undef end.

(** A computation that reads the state and may fault. *)
Definition ask {S A} (f : S → res A) : M S A := λ s,
  match f s with Ok a => Ok (a, s) | Err e => Err e end.
(** A computation without state, run in the monad. *)
Definition lift {S A} (r : res A) : M S A := ask (λ _, r).

Declare Scope kernel_scope.
Delimit Scope kernel_scope with K.
#[global] Open Scope kernel_scope.
Notation "x <- m ;; k" := (bind m (λ x, k))
  (at level 80, m at level 70, k at level 80, right associativity,
   format "'[v' x  <-  m ;; '/' k ']'") : kernel_scope.
Notation "m ;;; k" := (bind m (λ _, k))
  (at level 80, k at level 80, right associativity) : kernel_scope.

(** Total-correctness weakest precondition: [m] returns from [s], and [Q] holds
    of what it returns. *)
Definition wp {S A} (m : M S A) (Q : A → S → Prop) (s : S) : Prop :=
  match m s with
  | Ok (a, s') => Q a s'
  | Err _ => False
  end.

Section wp_rules.
Context {S : Type}.

Lemma wp_ret {A} (a : A) Q (s : S) : Q a s → wp (ret a) Q s.
Proof. done. Qed.

Lemma wp_bind {A B} (m : M S A) (k : A → M S B) Q (s : S) :
  wp m (λ a, wp (k a) Q) s → wp (bind m k) Q s.
Proof. rewrite /wp /bind. by destruct (m s) as [[a s']|]. Qed.

Lemma wp_gets {A} (f : S → A) Q (s : S) : Q (f s) s → wp (gets f) Q s.
Proof. done. Qed.

Lemma wp_modify (f : S → S) Q (s : S) : Q tt (f s) → wp (modify f) Q s.
Proof. done. Qed.

Lemma wp_reads {A} (f : S → option A) a Q (s : S) :
  f s = Some a → Q a s → wp (reads f) Q s.
Proof. rewrite /wp /reads. by intros ->. Qed.

Lemma wp_ask {A} (f : S → res A) a Q (s : S) :
  f s = Ok a → Q a s → wp (ask f) Q s.
Proof. rewrite /wp /ask. by intros ->. Qed.

Lemma wp_mono {A} (m : M S A) (Q R : A → S → Prop) (s : S) :
  wp m Q s → (∀ a s', Q a s' → R a s') → wp m R s.
Proof. rewrite /wp. destruct (m s) as [[a s']|]; auto. Qed.

(** What [wp] says about a run: it returns. *)
Lemma wp_run {A} (m : M S A) Q (s : S) :
  wp m Q s ↔ ∃ a s', m s = Ok (a, s') ∧ Q a s'.
Proof.
  rewrite /wp. destruct (m s) as [[a s']|] eqn:E; naive_solver.
Qed.

(** A sequence that returned. *)
Lemma bind_ok {A B} (m : M S A) (k : A → M S B) (s : S) r :
  bind m k s = Ok r → ∃ x s1, m s = Ok (x, s1) ∧ k x s1 = Ok r.
Proof. rewrite /bind. destruct (m s) as [[x s1]|]; [|done]. intros E. by exists x, s1. Qed.

(** Running the first of two computations. *)
Lemma bind_run {A B} (m : M S A) (k : A → M S B) s a s1 :
  m s = Ok (a, s1) → (x <- m;; k x) s = k a s1.
Proof. intros E. by rewrite /bind E. Qed.

Lemma wp_eq {A} (m : M S A) a s' Q (s : S) : m s = Ok (a, s') → Q a s' → wp m Q s.
Proof. rewrite /wp. by intros ->. Qed.
End wp_rules.

(** One step of symbolic execution of a [wp] goal. *)
Ltac wp_step :=
  lazymatch goal with
  | |- wp (bind _ _) _ _ => apply wp_bind
  | |- wp (ret _) _ _ => apply wp_ret
  | |- wp (gets _) _ _ => apply wp_gets
  | |- wp (modify _) _ _ => apply wp_modify
  end.
Ltac wp_steps := repeat (wp_step; cbn beta).

(** ** Machine integers *)
Definition u64 (z : Z) : Z := z mod 2 ^ 64.
Definition u32 (z : Z) : Z := z mod 2 ^ 32.
Definition u16 (z : Z) : Z := z mod 2 ^ 16.
Definition u8 (z : Z) : Z := z mod 2 ^ 8.

Lemma u64_small z : 0 ≤ z < 2 ^ 64 → u64 z = z.
Proof. apply Z.mod_small. Qed.
Lemma u64_range z : 0 ≤ u64 z < 2 ^ 64.
Proof. by apply Z.mod_pos_bound. Qed.
Lemma u32_small z : 0 ≤ z < 2 ^ 32 → u32 z = z.
Proof. apply Z.mod_small. Qed.
Lemma u32_range z : 0 ≤ u32 z < 2 ^ 32.
Proof. by apply Z.mod_pos_bound. Qed.
