(* ===== verification/Spinlock.v ===== *)
(** * The interrupt-safe ticket spinlock (scheduling/lock.c, scheduling/lock.h)

    [spinlock_irq_acquire] and [spinlock_irq_release] as functions on the lock and
    on RFLAGS, the way the uniprocessor kernel runs them, and the same two atomic
    operations interleaved between any number of agents, as a step relation. *)

From stdpp Require Import base gmap list numbers.
From S2P Require Import Prelude.

(** ** Model *)

(** The part of the CPU the locks touch: the RFLAGS register. *)
Record cpu := mkCpu { rflags : Z }.

(** Bit 9 of RFLAGS is the interrupt-enable flag, which [cli] clears. *)
Definition RFLAGS_IF : Z := 9.
Definition interrupts_enabled (c : cpu) : bool := Z.testbit (rflags c) RFLAGS_IF.

(** [pushfq; pop flags; cli] *)
Definition interrupts_save_and_disable (c : cpu) : Z * cpu :=
  (rflags c, mkCpu (Z.clearbit (rflags c) RFLAGS_IF)).

(** [push flags; popfq] *)
Definition interrupts_restore (flags : Z) (c : cpu) : cpu := mkCpu flags.

Record spinlock_irq := mkSpinlock { ticket : Z; turn : Z }.

Definition SPINLOCK_IRQ_INIT : spinlock_irq := mkSpinlock 0 0.

(** [__atomic_fetch_add(&lock->ticket, 1)] *)
Definition take_ticket (l : spinlock_irq) : Z * spinlock_irq :=
  (ticket l, mkSpinlock (u64 (ticket l + 1)) (turn l)).

(** [__atomic_fetch_add(&lock->turn, 1)] *)
Definition pass_turn (l : spinlock_irq) : spinlock_irq :=
  mkSpinlock (ticket l) (u64 (turn l + 1)).

(** On the single CPU of the kernel the spin loop runs with interrupts disabled:
    when the turn is not ours at the first test nothing can ever change it. *)
Definition spinlock_irq_acquire (l : spinlock_irq) (c : cpu)
    : res (Z * spinlock_irq * cpu) :=
  let '(flags, c') := interrupts_save_and_disable c in
  let '(myticket, l') := take_ticket l in
  if turn l' =? myticket then Ok (flags, l', c') else Err Spin.

Definition spinlock_irq_release (l : spinlock_irq) (flags : Z) (c : cpu)
    : spinlock_irq * cpu :=
  (pass_turn l, interrupts_restore flags c).

(** A lock nobody holds or waits for. *)
Definition lock_free (l : spinlock_irq) : Prop :=
  ticket l = turn l ∧ 0 ≤ ticket l < 2 ^ 64.
(** A lock somebody holds and nobody waits for. *)
Definition lock_held (l : spinlock_irq) : Prop :=
  ticket l = u64 (turn l + 1) ∧ 0 ≤ turn l < 2 ^ 64.

(** *** Interleaved use

    Agents (CPUs, or contexts that may interrupt each other) run
    [acquire; critical section; release] on one lock; each atomic operation is a
    step. *)
Inductive phase :=
  | Spinning (myticket : Z)   (** in the [while(lock->turn != myticket)] loop *)
  | Holding  (myticket : Z).  (** in the critical section *)

Record lock_sys := mkLockSys {
  ls_lock : spinlock_irq;
  ls_agents : gmap nat phase;  (** agents outside [acquire]/[release] are absent *)
}.

Inductive lock_step (n_agents : nat) : lock_sys → lock_sys → Prop :=
  | step_take a l l' t ags :
      (a < n_agents)%nat → ags !! a = None →
      take_ticket l = (t, l') →
      lock_step n_agents (mkLockSys l ags) (mkLockSys l' (<[a := Spinning t]> ags))
  | step_enter a l t ags :
      ags !! a = Some (Spinning t) → turn l = t →
      lock_step n_agents (mkLockSys l ags) (mkLockSys l (<[a := Holding t]> ags))
  | step_leave a l t ags :
      ags !! a = Some (Holding t) →
      lock_step n_agents (mkLockSys l ags) (mkLockSys (pass_turn l) (delete a ags)).

Definition lock_sys_init : lock_sys := mkLockSys SPINLOCK_IRQ_INIT ∅.

Definition lock_reachable (n_agents : nat) : lock_sys → Prop :=
  rtc (lock_step n_agents) lock_sys_init.

(** *** Specification: a queue of agents, whose head may be inside. *)
Record queue_lock := mkQueueLock { q_agents : list nat; q_inside : bool }.

Inductive queue_step : queue_lock → queue_lock → Prop :=
  | q_arrive a q i : a ∉ q → queue_step (mkQueueLock q i) (mkQueueLock (q ++ [a]) i)
  | q_enter a q : queue_step (mkQueueLock (a :: q) false) (mkQueueLock (a :: q) true)
  | q_leave a q : queue_step (mkQueueLock (a :: q) true) (mkQueueLock q false).

(** The phase the agent at position [i] of the queue is in when [turn] is served. *)
Definition phase_at (tn : Z) (inside : bool) (i : nat) : phase :=
  let t := u64 (tn + Z.of_nat i) in
  if inside && (i =? 0)%nat then Holding t else Spinning t.

Record lock_refines (n_agents : nat) (s : lock_sys) (q : queue_lock) : Prop := {
  lr_turn : 0 ≤ turn (ls_lock s) < 2 ^ 64;
  lr_ticket : ticket (ls_lock s) = u64 (turn (ls_lock s) + Z.of_nat (length (q_agents q)));
  lr_nodup : NoDup (q_agents q);
  lr_agents : ∀ a, a ∈ q_agents q → (a < n_agents)%nat;
  lr_in : ∀ i a, q_agents q !! i = Some a →
            ls_agents s !! a = Some (phase_at (turn (ls_lock s)) (q_inside q) i);
  lr_out : ∀ a, a ∉ q_agents q → ls_agents s !! a = None;
  lr_inside : q_inside q = true → q_agents q ≠ [];
}.

(** ** Sequential behaviour *)

Lemma spinlock_acquire_free l c :
  lock_free l →
  ∃ l' c', spinlock_irq_acquire l c = Ok (rflags c, l', c') ∧
    lock_held l' ∧ interrupts_enabled c' = false.
Proof.
  intros [Heq Hr]. rewrite /spinlock_irq_acquire /=.
  rewrite Heq Z.eqb_refl. do 2 eexists. split; [done|].
  rewrite /lock_held /= -Heq. split; [done|].
  by rewrite /interrupts_enabled Z.clearbit_eq.
Qed.

Lemma spinlock_release_held l flags c :
  lock_held l →
  ∃ l', spinlock_irq_release l flags c = (l', mkCpu flags) ∧ lock_free l'.
Proof.
  intros [Heq Hr]. eexists. split; [done|].
  rewrite /lock_free /= Heq. split; [done|]. apply u64_range.
Qed.

(** Re-acquiring a held lock on the same CPU never returns. *)
Lemma spinlock_acquire_held l c :
  lock_held l → spinlock_irq_acquire l c = Err Spin.
Proof.
  intros [Heq Hr]. rewrite /spinlock_irq_acquire /= Heq.
  destruct (Z.eqb_spec (turn l) (u64 (turn l + 1))) as [E|]; [|done].
  rewrite /u64 in E. exfalso.
  destruct (decide (turn l + 1 = 2 ^ 64)) as [E'|].
  - rewrite E' Z_mod_same_full in E. lia.
  - rewrite Z.mod_small in E; lia.
Qed.

(** ** Interleaved behaviour: the ticket lock implements the queue *)

Section simulation.
Context (n_agents : nat) (Hbound : Z.of_nat n_agents ≤ 2 ^ 64).

Lemma u64_offset_zero t (i : nat) :
  0 ≤ t < 2 ^ 64 → (i < n_agents)%nat → u64 (t + Z.of_nat i) = t → i = 0%nat.
Proof.
  rewrite /u64. intros Ht Hi E.
  destruct (decide (t + Z.of_nat i < 2 ^ 64)).
  - rewrite Z.mod_small in E; lia.
  - rewrite -(Z.mod_add (t + Z.of_nat i) (-1) (2 ^ 64) ltac:(lia)) in E.
    rewrite Z.mod_small in E; lia.
Qed.

Lemma u64_add_assoc a b : u64 (u64 a + b) = u64 (a + b).
Proof. by rewrite /u64 Zplus_mod_idemp_l. Qed.

Lemma queue_length_bound (q : list nat) :
  NoDup q → (∀ a, a ∈ q → (a < n_agents)%nat) → (length q ≤ n_agents)%nat.
Proof.
  intros Hnd Hlt. rewrite -(length_seq n_agents 0).
  apply submseteq_length, NoDup_submseteq; [done|].
  intros a Ha%Hlt. apply elem_of_seq. lia.
Qed.

Lemma lock_refines_init : lock_refines n_agents lock_sys_init (mkQueueLock [] false).
Proof. split; simpl; try done; try set_solver. apply NoDup_nil_2. Qed.

Lemma phase_at_shift tn i : phase_at tn true (S i) = phase_at (u64 (tn + 1)) false i.
Proof.
  rewrite /phase_at /= u64_add_assoc. do 2 f_equal. lia.
Qed.

Lemma lock_step_take s q a l l' t ags :
  s = mkLockSys l ags → lock_refines n_agents s q →
  (a < n_agents)%nat → ags !! a = None → take_ticket l = (t, l') →
  ∃ q', queue_step q q' ∧
    lock_refines n_agents (mkLockSys l' (<[a := Spinning t]> ags)) q'.
Proof.
  intros -> [Ht Htk Hnd Hlt Hin Hout Hins] Ha Hnone E.
  rewrite /take_ticket in E. simplify_eq/=.
  destruct q as [q i]; simpl in *.
  assert (a ∉ q) as Hq.
  { intros [j Hj]%list_elem_of_lookup. specialize (Hin _ _ Hj). congruence. }
  exists (mkQueueLock (q ++ [a]) i). split; [by constructor|].
  split; simpl; try done.
  - rewrite Htk u64_add_assoc length_app /=. f_equal. lia.
  - apply NoDup_app. split; [done|]. split; [set_solver|apply NoDup_singleton].
  - set_solver.
  - intros j b [Hj|[Hj Hb]]%lookup_app_Some.
    + rewrite lookup_insert_ne; [by apply Hin|].
      intros ->. apply Hq, list_elem_of_lookup. eauto.
    + assert (b = a ∧ j = length q) as [-> ->].
      { destruct (j - length q)%nat eqn:E; [|by destruct n]. simplify_eq/=. split; [done|lia]. }
      rewrite lookup_insert_eq /phase_at Htk.
      destruct i; [|done]. by destruct q; [destruct (Hins eq_refl)|].
  - intros b Hb. rewrite lookup_insert_ne; [apply Hout|]; set_solver.
  - intros _. by destruct q.
Qed.

Lemma lock_step_enter s q a l t ags :
  s = mkLockSys l ags → lock_refines n_agents s q →
  ags !! a = Some (Spinning t) → turn l = t →
  ∃ q', queue_step q q' ∧
    lock_refines n_agents (mkLockSys l (<[a := Holding t]> ags)) q'.
Proof.
  intros -> [Ht Htk Hnd Hlt Hin Hout Hins] Ha E. simplify_eq/=.
  destruct q as [q i]; simpl in *.
  assert (a ∈ q) as [j Hj]%list_elem_of_lookup.
  { destruct (decide (a ∈ q)) as [|n]; [done|]. apply Hout in n. congruence. }
  pose proof (queue_length_bound q Hnd Hlt).
  pose proof (lookup_lt_Some _ _ _ Hj) as Hjl.
  pose proof (Hin _ _ Hj) as HA. rewrite Ha in HA. injection HA as HA.
  rewrite /phase_at in HA.
  destruct (i && (j =? 0)%nat) eqn:Ei; [done|]. injection HA as HA.
  assert (j = 0%nat) as ->.
  { eapply (u64_offset_zero (turn l)); [done|lia|done]. }
  destruct i; [done|]. destruct q as [|b q]; [done|]. simplify_eq/=.
  exists (mkQueueLock (a :: q) true). split; [constructor|].
  apply NoDup_cons in Hnd as [Haq Hnd].
  split; simpl; try done.
  - by apply NoDup_cons.
  - intros [|k] b; simpl; intros Hk; simplify_eq.
    + rewrite lookup_insert_eq /phase_at /= Z.add_0_r u64_small //.
    + rewrite lookup_insert_ne; [|by intros ->; apply Haq, list_elem_of_lookup; eauto].
      by rewrite (Hin (S k) b Hk).
  - intros b Hb. rewrite lookup_insert_ne; [by apply Hout|set_solver].
Qed.

Lemma lock_step_leave s q a l t ags :
  s = mkLockSys l ags → lock_refines n_agents s q →
  ags !! a = Some (Holding t) →
  ∃ q', queue_step q q' ∧
    lock_refines n_agents (mkLockSys (pass_turn l) (delete a ags)) q'.
Proof.
  intros -> [Ht Htk Hnd Hlt Hin Hout Hins] Ha. destruct q as [q i]; simpl in *.
  assert (a ∈ q) as [j Hj]%list_elem_of_lookup.
  { destruct (decide (a ∈ q)) as [|n]; [done|]. apply Hout in n. congruence. }
  pose proof (Hin _ _ Hj) as HA. rewrite Ha in HA. injection HA as HA.
  rewrite /phase_at in HA.
  destruct (i && (j =? 0)%nat) eqn:Ei; [|done].
  apply andb_true_iff in Ei as [-> ->%Nat.eqb_eq].
  destruct q as [|b q]; [done|]. simplify_eq/=.
  exists (mkQueueLock q false). split; [constructor|].
  apply NoDup_cons in Hnd as [Haq Hnd].
  split; simpl; try done.
  - apply u64_range.
  - rewrite Htk u64_add_assoc. f_equal. lia.
  - set_solver.
  - intros k b Hk.
    assert (a ≠ b) by (intros ->; apply Haq, list_elem_of_lookup; eauto).
    rewrite lookup_delete_ne //.
    rewrite (Hin (S k) b Hk). by rewrite phase_at_shift.
  - intros b Hb. destruct (decide (a = b)) as [->|].
    + apply lookup_delete_eq.
    + rewrite lookup_delete_ne //. apply Hout. set_solver.
Qed.

Lemma lock_step_refines s s' q :
  lock_refines n_agents s q → lock_step n_agents s s' →
  ∃ q', queue_step q q' ∧ lock_refines n_agents s' q'.
Proof.
  destruct 2.
  - by eapply lock_step_take.
  - by eapply lock_step_enter.
  - by eapply lock_step_leave.
Qed.

Lemma lock_reachable_refines s :
  lock_reachable n_agents s →
  ∃ q, rtc queue_step (mkQueueLock [] false) q ∧ lock_refines n_agents s q.
Proof.
  revert s. apply rtc_ind_r.
  - exists (mkQueueLock [] false). split; [done|]. apply lock_refines_init.
  - intros s s' _ Hs (q & Hq & Href).
    destruct (lock_step_refines _ _ _ Href Hs) as (q' & Hq' & Href').
    exists q'. split; [by eapply rtc_r|done].
Qed.

Lemma lock_refines_holder s q a t :
  lock_refines n_agents s q → ls_agents s !! a = Some (Holding t) →
  q_inside q = true ∧ head (q_agents q) = Some a.
Proof.
  intros [Ht Htk Hnd Hlt Hin Hout Hins] Ha.
  assert (a ∈ q_agents q) as [j Hj]%list_elem_of_lookup.
  { destruct (decide (a ∈ q_agents q)) as [|n]; [done|]. apply Hout in n. congruence. }
  rewrite (Hin _ _ Hj) /phase_at in Ha.
  destruct (q_inside q && (j =? 0)%nat) eqn:Ei; [|done].
  apply andb_true_iff in Ei as [-> ->%Nat.eqb_eq]. split; [done|].
  by destruct (q_agents q).
Qed.
End simulation.

Section liveness.
Context (n_agents : nat) (Hbound : Z.of_nat n_agents ≤ 2 ^ 64).

(** The agent at the head of the queue is the one whose turn it is. *)
Lemma lock_refines_head s q a ags :
  lock_refines n_agents s q → q_agents q = a :: ags →
  ls_agents s !! a = Some (phase_at (turn (ls_lock s)) (q_inside q) 0) ∧
  u64 (turn (ls_lock s) + Z.of_nat 0) = turn (ls_lock s).
Proof.
  intros [Ht _ _ _ Hin _ _] Hq. split; [apply Hin; by rewrite Hq|].
  by rewrite Z.add_0_r u64_small.
Qed.
End liveness.

(** ** Properties of the spinlock *)

(** C8: mutual exclusion: with any number of agents up to 2^64 (the width of the
    tickets), in every interleaving of their atomic operations at most one agent is in
    the critical section, also after the counters wrap around. *)
Theorem spinlock_mutual_exclusion n_agents s a b t u :
  Z.of_nat n_agents ≤ 2 ^ 64 → lock_reachable n_agents s →
  ls_agents s !! a = Some (Holding t) → ls_agents s !! b = Some (Holding u) → a = b.
Proof.
  intros Hn Hs Ha Hb. destruct (lock_reachable_refines n_agents Hn s Hs) as (q & _ & Hq).
  destruct (lock_refines_holder n_agents s q a t Hq Ha) as [_ Ea].
  destruct (lock_refines_holder n_agents s q b u Hq Hb) as [_ Eb]. congruence.
Qed.

(** Agent 0 in the critical section, agent 1 waiting. *)
Definition demo_lock_sys : lock_sys :=
  mkLockSys (mkSpinlock 2 0) (<[1%nat := Spinning 1]> (<[0%nat := Holding 0]> ∅)).

Lemma demo_lock_reachable : lock_reachable 2 demo_lock_sys.
Proof.
  eapply rtc_l; [apply (step_take 2 0 _ (mkSpinlock 1 0) 0 ∅); [lia|done|done]|].
  eapply rtc_l; [apply (step_enter 2 0 _ 0); done|].
  eapply rtc_l; [apply (step_take 2 1 _ (mkSpinlock 2 0) 1); [lia|done|done]|].
  rewrite insert_insert_eq. apply rtc_refl.
Qed.

Lemma spinlock_mutual_exclusion_witness :
  lock_reachable 2 demo_lock_sys ∧ ∀ b u, ls_agents demo_lock_sys !! b = Some (Holding u) → 0%nat = b.
Proof.
  split; [exact demo_lock_reachable|]. intros b u Hb.
  eapply (spinlock_mutual_exclusion 2 demo_lock_sys 0 b 0 u); [lia|exact demo_lock_reachable|done|done].
Defined.

(** C18: the ticket lock implements a first-come first-served queue: every step of the
    ticket protocol is a step of a queue lock whose head alone may enter. *)
Theorem spinlock_refines_queue n_agents s s' q :
  Z.of_nat n_agents ≤ 2 ^ 64 → lock_refines n_agents s q → lock_step n_agents s s' →
  ∃ q', queue_step q q' ∧ lock_refines n_agents s' q'.
Proof. intros Hn. by apply lock_step_refines. Qed.

Lemma spinlock_refines_queue_witness :
  ∃ q', queue_step (mkQueueLock [] false) q' ∧
    lock_refines 2 (mkLockSys (mkSpinlock 1 0) (<[0%nat := Spinning 0]> ∅)) q'.
Proof.
  apply (spinlock_refines_queue 2 lock_sys_init); [lia|apply (lock_refines_init 2 ltac:(lia))|].
  apply (step_take 2 0 _ (mkSpinlock 1 0) 0 ∅); [lia|done|done].
Defined.

(** No deadlock and no lost turn: whenever some agent is in the protocol, either one
    is in the critical section or the one whose turn it is can enter at once. *)
Lemma spinlock_progress n_agents s a ph :
  Z.of_nat n_agents ≤ 2 ^ 64 → lock_reachable n_agents s → ls_agents s !! a = Some ph →
  ∃ b s', lock_step n_agents s s' ∧
    (ls_agents s !! b = Some (Holding (turn (ls_lock s))) ∧ ls_agents s' !! b = None ∨
     ls_agents s !! b = Some (Spinning (turn (ls_lock s))) ∧
     ls_agents s' !! b = Some (Holding (turn (ls_lock s)))).
Proof.
  intros Hn Hs Ha. destruct (lock_reachable_refines n_agents Hn s Hs) as (q & _ & Hq).
  destruct (q_agents q) as [|b bs] eqn:Eq.
  { rewrite (lr_out _ _ _ Hq a) in Ha; [done|]. rewrite Eq. apply not_elem_of_nil. }
  destruct (lock_refines_head n_agents s q b bs Hq Eq) as [Hb Ht].
  rewrite /phase_at andb_true_r Ht in Hb. destruct s as [l ags]; simpl in *.
  exists b. destruct (q_inside q).
  - eexists. split; [by eapply step_leave|]. left. by rewrite /= lookup_delete_eq.
  - eexists. split; [by eapply step_enter|]. right. by rewrite /= lookup_insert_eq.
Qed.

Lemma spinlock_progress_witness : ∃ s', lock_step 2 demo_lock_sys s'.
Proof.
  destruct (spinlock_progress 2 demo_lock_sys 1 (Spinning 1)) as (b & s' & H & _);
    [lia|exact demo_lock_reachable|done|]. exact (ex_intro _ s' H).
Defined.

(** Around a critical section on one CPU: acquiring a free lock succeeds with
    interrupts disabled, acquiring it again inside never returns, and releasing it
    leaves it free with the interrupt flag (all of RFLAGS) as it was on entry. *)
Lemma spinlock_critical_section l c :
  lock_free l →
  ∃ flags l1 c1, spinlock_irq_acquire l c = Ok (flags, l1, c1) ∧
    interrupts_enabled c1 = false ∧ (∀ c2, spinlock_irq_acquire l1 c2 = Err Spin) ∧
    ∀ c2, ∃ l2, spinlock_irq_release l1 flags c2 = (l2, c) ∧ lock_free l2.
Proof.
  intros Hl. destruct (spinlock_acquire_free l c Hl) as (l1 & c1 & E & Hheld & Hc1).
  exists (rflags c), l1, c1. split; [done|]. split; [done|].
  split; [intros c2; by apply spinlock_acquire_held|]. intros c2.
  destruct (spinlock_release_held l1 (rflags c) c2 Hheld) as (l2 & E2 & Hl2).
  exists l2. by destruct c.
Qed.

Lemma spinlock_critical_section_witness :
  ∃ l1 c1, spinlock_irq_acquire (mkSpinlock (2 ^ 64 - 1) (2 ^ 64 - 1)) (mkCpu 0x202)
    = Ok (0x202, l1, c1) ∧ interrupts_enabled c1 = false.
Proof.
  destruct (spinlock_critical_section (mkSpinlock (2 ^ 64 - 1) (2 ^ 64 - 1)) (mkCpu 0x202))
    as (flags & l1 & c1 & E & H & _); [split; simpl; lia|].
  injection E as <- <- <-. do 2 eexists. split; [reflexivity|exact H].
Defined.
