(* ===== verification/Dll.v ===== *)
(** * Circular doubly linked lists (common/dll.c, common/dll.h)

    The list operations of the kernel on a heap of [double_ll_node]s, the
    predicate that says which list a heap holds, and what each operation does to
    that list and to the rest of the heap. *)

From stdpp Require Import base gmap list numbers.
From S2P Require Import Prelude.

(** ** Model *)

(** [K] is the type of node addresses; a pointer is [Some k], or [None] for NULL. *)
Record double_ll_node (K : Type) := mkNode { prev : option K; next : option K }.
Arguments mkNode {K} _ _.
Arguments prev {K} _.
Arguments next {K} _.

Section dll.
Context {K : Type} `{!EqDecision K, !Countable K}.
Implicit Types (h : gmap K (double_ll_node K)) (p q : option K) (k : K).

(** [p->next], [p->prev], [p->next = q] and [p->prev = q] *)
Definition get_next h p : res (option K) :=
  match p ≫= (h !!.) with Some n => Ok (next n) | None => Err Undef end.
Definition get_prev h p : res (option K) :=
  match p ≫= (h !!.) with Some n => Ok (prev n) | None => Err Undef end.
Definition set_next h p q : res (gmap K (double_ll_node K)) :=
  match p with
  | Some k =>
      match h !! k with
      | Some n => Ok (<[k := mkNode (prev n) q]> h)
      | None => Err Undef
      end
  | None => Err Undef
  end.
Definition set_prev h p q : res (gmap K (double_ll_node K)) :=
  match p with
  | Some k =>
      match h !! k with
      | Some n => Ok (<[k := mkNode q (next n)]> h)
      | None => Err Undef
      end
  | None => Err Undef
  end.

(** Sequencing of heap operations. *)
Definition rbind {A B : Type} (m : res A) (f : A → res B) : res B :=
  match m with Ok a => f a | Err e => Err e end.

Definition dll_init h k : res (gmap K (double_ll_node K)) :=
  rbind (set_next h (Some k) (Some k)) (λ h, set_prev h (Some k) (Some k)).

Definition _dll_add h (new prev next : option K) : res (gmap K (double_ll_node K)) :=
  rbind (set_next h prev new) (λ h,
  rbind (set_prev h new prev) (λ h,
  rbind (set_next h new next) (λ h,
  set_prev h next new))).

Definition dll_add_after h (head new : K) : res (gmap K (double_ll_node K)) :=
  rbind (get_next h (Some head)) (λ nx, _dll_add h (Some new) (Some head) nx).

Definition dll_add_before h (head new : K) : res (gmap K (double_ll_node K)) :=
  rbind (get_prev h (Some head)) (λ pv, _dll_add h (Some new) pv (Some head)).

(** [node->prev->next = node->next; node->next->prev = node->prev] *)
Definition dll_delete h (node : K) : res (gmap K (double_ll_node K)) :=
  rbind (get_prev h (Some node)) (λ pv,
  rbind (get_next h (Some node)) (λ nx,
  rbind (set_next h pv nx) (λ h,
  rbind (get_next h (Some node)) (λ nx,
  rbind (get_prev h (Some node)) (λ pv,
  set_prev h nx pv))))).

Definition dll_empty h (head : K) : res bool :=
  rbind (get_next h (Some head)) (λ nx,
  rbind (get_prev h (Some head)) (λ pv,
  Ok (bool_decide (nx = Some head) && bool_decide (pv = Some head)))).

#[global] Arguments set_next : simpl never.
#[global] Arguments set_prev : simpl never.
#[global] Arguments get_next : simpl never.
#[global] Arguments get_prev : simpl never.

(** ** Specification *)

(** [dseg h a l b]: from [a] the nodes [l] follow in order, then [b]; every
    forward link has its backward link. *)
Fixpoint dseg h (a : K) (l : list K) (b : K) : Prop :=
  match l with
  | [] => next <$> h !! a = Some (Some b) ∧ prev <$> h !! b = Some (Some a)
  | x :: l => next <$> h !! a = Some (Some x) ∧ prev <$> h !! x = Some (Some a) ∧ dseg h x l b
  end.

(** The circular list with sentinel [hd] holds exactly the nodes [l]. *)
Definition dll_rep h (hd : K) (l : list K) : Prop :=
  NoDup (hd :: l) ∧ dseg h hd l hd.

(** The heaps agree outside the nodes [ks]. *)
Definition same_outside (ks : list K) h h' : Prop :=
  ∀ k, k ∉ ks → h' !! k = h !! k.

(** ** Segments *)

Lemma dseg_app h a l1 x l2 b :
  dseg h a (l1 ++ x :: l2) b ↔ dseg h a l1 x ∧ dseg h x l2 b.
Proof.
  revert a. induction l1 as [|y l1 IH]; intros a; simpl.
  - tauto.
  - rewrite IH. tauto.
Qed.

(** A segment depends only on the forward links of [a :: l] and on the backward
    links of [l ++ [b]]. *)
Lemma dseg_frame h h' a l b :
  (∀ k, k ∈ a :: l → next <$> h' !! k = next <$> h !! k) →
  (∀ k, k ∈ l ++ [b] → prev <$> h' !! k = prev <$> h !! k) →
  dseg h a l b → dseg h' a l b.
Proof.
  revert a. induction l as [|x l IH]; intros a Hn Hp; simpl.
  - rewrite Hn; [|set_solver]. rewrite Hp; [done|set_solver].
  - rewrite Hn; [|set_solver]. rewrite (Hp x); [|set_solver].
    intros (?&?&?). split; [done|]. split; [done|].
    apply IH; [set_solver|set_solver|done].
Qed.

Lemma dseg_dom h a l b k : dseg h a l b → k ∈ a :: l → is_Some (h !! k).
Proof.
  revert a. induction l as [|x l IH]; intros a; simpl.
  - intros [Ha _] ->%list_elem_of_singleton. destruct (h !! a); [eauto|done].
  - intros (Ha & _ & Hs) [->|Hk]%elem_of_cons; [destruct (h !! a); [eauto|done]|].
    by eapply IH.
Qed.

Lemma dll_rep_dom h hd l k : dll_rep h hd l → k ∈ hd :: l → is_Some (h !! k).
Proof. intros [_ Hs]. by eapply dseg_dom. Qed.

Lemma dll_rep_frame h h' hd l :
  (∀ k, k ∈ hd :: l → h' !! k = h !! k) → dll_rep h hd l → dll_rep h' hd l.
Proof.
  intros Heq [Hnd Hs]. split; [done|].
  eapply dseg_frame; [..|done]; intros k Hk; rewrite Heq //; set_solver.
Qed.

(** ** The two stores *)

Lemma set_next_ok h k n q :
  h !! k = Some n → set_next h (Some k) q = Ok (<[k := mkNode (prev n) q]> h).
Proof. rewrite /set_next. by intros ->. Qed.

Lemma set_prev_ok h k n q :
  h !! k = Some n → set_prev h (Some k) q = Ok (<[k := mkNode q (next n)]> h).
Proof. rewrite /set_prev. by intros ->. Qed.

(** The heap after linking [a] to [b]: [a->next = b] and [b->prev = a], as
    lookups. *)
Record linked h h' (a b : K) : Prop := {
  lk_next : next <$> h' !! a = Some (Some b);
  lk_prev : prev <$> h' !! b = Some (Some a);
  lk_next_ne : ∀ k, k ≠ a → next <$> h' !! k = next <$> h !! k;
  lk_prev_ne : ∀ k, k ≠ b → prev <$> h' !! k = prev <$> h !! k;
  lk_out : ∀ k, k ≠ a → k ≠ b → h' !! k = h !! k;
  lk_dom : ∀ k, is_Some (h' !! k) ↔ is_Some (h !! k);
}.

Lemma link_ok h a b :
  is_Some (h !! a) → is_Some (h !! b) →
  ∃ h', rbind (set_next h (Some a) (Some b)) (λ h, set_prev h (Some b) (Some a)) = Ok h' ∧
    linked h h' a b.
Proof.
  intros [na Ha] [nb Hb]. rewrite (set_next_ok _ _ _ _ Ha) /=.
  destruct (decide (a = b)) as [->|Hne].
  - erewrite set_prev_ok; [|apply lookup_insert_eq]. eexists. split; [done|].
    rewrite insert_insert_eq. simplify_eq/=.
    split; [by rewrite lookup_insert_eq|by rewrite lookup_insert_eq
           |by intros; rewrite lookup_insert_ne|by intros; rewrite lookup_insert_ne
           |by intros; rewrite lookup_insert_ne|].
    intros k. destruct (decide (k = b)) as [->|]; [|by rewrite lookup_insert_ne].
    by rewrite lookup_insert_eq Ha.
  - erewrite set_prev_ok; [|by rewrite lookup_insert_ne]. eexists. split; [done|].
    split.
    + by rewrite lookup_insert_ne // lookup_insert_eq.
    + by rewrite lookup_insert_eq.
    + intros k Hk. destruct (decide (k = b)) as [->|].
      * by rewrite lookup_insert_eq Hb.
      * by rewrite !lookup_insert_ne.
    + intros k Hk. destruct (decide (k = a)) as [->|].
      * by rewrite lookup_insert_ne // lookup_insert_eq Ha.
      * by rewrite !lookup_insert_ne.
    + intros k Hk1 Hk2. by rewrite !lookup_insert_ne.
    + intros k. destruct (decide (k = b)) as [->|].
      { by rewrite lookup_insert_eq Hb. }
      rewrite lookup_insert_ne //. destruct (decide (k = a)) as [->|].
      { by rewrite lookup_insert_eq Ha. }
      by rewrite lookup_insert_ne.
Qed.

Lemma linked_dll_nil h h' k : linked h h' k k → dll_rep h' k [].
Proof.
  intros []. split; [apply NoDup_singleton|]. done.
Qed.

Lemma rbind_assoc {A B C : Type} (m : res A) (f : A → res B) (g : B → res C) :
  rbind (rbind m f) g = rbind m (λ a, rbind (f a) g).
Proof. by destruct m. Qed.

Lemma _dll_add_ok h new a b :
  is_Some (h !! new) → is_Some (h !! a) → is_Some (h !! b) →
  ∃ h1 h2, _dll_add h (Some new) (Some a) (Some b) = Ok h2 ∧
    linked h h1 a new ∧ linked h1 h2 new b.
Proof.
  intros Hn Ha Hb. rewrite /_dll_add.
  destruct (link_ok h a new) as (h1 & E1 & L1); [done..|].
  destruct (link_ok h1 new b) as (h2 & E2 & L2); [by apply (lk_dom _ _ _ _ L1)..|].
  exists h1, h2. rewrite -rbind_assoc E1 /= E2. done.
Qed.

Lemma get_next_ok h k q : next <$> h !! k = Some q → get_next h (Some k) = Ok q.
Proof. rewrite /get_next /=. destruct (h !! k); naive_solver. Qed.
Lemma get_prev_ok h k q : prev <$> h !! k = Some q → get_prev h (Some k) = Ok q.
Proof. rewrite /get_prev /=. destruct (h !! k); naive_solver. Qed.

(** The first node after [a] and the last node before [b] in a segment. *)
Lemma dseg_first h a l b : dseg h a l b → next <$> h !! a = Some (Some (default b (head l))).
Proof. destruct l; simpl; tauto. Qed.

Lemma dseg_last h a l b : dseg h a l b → prev <$> h !! b = Some (Some (default a (last l))).
Proof.
  revert a. induction l as [|x l IH]; intros a; simpl; [tauto|].
  intros (_ & _ & Hs). rewrite (IH _ Hs). destruct l as [|y l]; [done|].
  by rewrite last_cons_cons (last_cons y l); destruct (last l).
Qed.

(** Giving a segment another end node: only the links at its end move. *)
Lemma dseg_retarget h h' a l x b :
  NoDup (a :: l) →
  (∀ k, k ∈ a :: l → k ≠ default a (last l) → next <$> h' !! k = next <$> h !! k) →
  (∀ k, k ∈ l → prev <$> h' !! k = prev <$> h !! k) →
  next <$> h' !! default a (last l) = Some (Some b) →
  prev <$> h' !! b = Some (Some (default a (last l))) →
  dseg h a l x → dseg h' a l b.
Proof.
  revert a. induction l as [|y l IH]; intros a Hnd Hn Hp Hl1 Hl2; simpl; [done|].
  intros (H1 & H2 & Hs). apply NoDup_cons in Hnd as [Ha Hnd].
  assert (default a (last (y :: l)) = default y (last l)) as E.
  { destruct l as [|z l]; [done|]. rewrite last_cons_cons last_cons. by destruct (last l). }
  assert (default y (last l) ∈ y :: l) as Hin.
  { destruct (last l) as [z|] eqn:Ez; simpl; [|set_solver].
    apply last_Some_elem_of in Ez. set_solver. }
  rewrite E in Hn, Hl1, Hl2.
  rewrite Hn; [|set_solver|by intros ->]. rewrite Hp; [|set_solver].
  split; [done|]. split; [done|].
  apply IH; [done|set_solver|set_solver|done..].
Qed.

Lemma last_or_head_elem (hd : K) l : default hd (last l) ∈ hd :: l.
Proof.
  destruct (last l) as [z|] eqn:Ez; simpl; [|set_solver].
  apply last_Some_elem_of in Ez. set_solver.
Qed.

(** ** The operations *)

Lemma dll_init_ok h k :
  is_Some (h !! k) →
  ∃ h', dll_init h k = Ok h' ∧ dll_rep h' k [] ∧ same_outside [k] h h' ∧
    (∀ j, is_Some (h' !! j) ↔ is_Some (h !! j)).
Proof.
  intros Hk. destruct (link_ok h k k) as (h' & E & L); [done..|].
  exists h'. split; [done|]. split; [by eapply linked_dll_nil|].
  split; [|apply L]. intros j Hj. apply L; set_solver.
Qed.

Lemma dll_add_after_ok h hd new l :
  dll_rep h hd l → new ∉ hd :: l → is_Some (h !! new) →
  ∃ h', dll_add_after h hd new = Ok h' ∧ dll_rep h' hd (new :: l) ∧
    same_outside (new :: hd :: l) h h' ∧ (∀ j, is_Some (h' !! j) ↔ is_Some (h !! j)).
Proof.
  intros [Hnd Hs] Hnew Hdom. set b := default hd (head l).
  assert (b ∈ hd :: l) as Hb by (destruct l; simpl; set_solver).
  destruct (_dll_add_ok h new hd b) as (h1 & h2 & E & L1 & L2); [done|..].
  { eapply dseg_dom; [done|set_solver]. }
  { by eapply dseg_dom. }
  exists h2. rewrite /dll_add_after (get_next_ok h hd (Some b) (dseg_first _ _ _ _ Hs)) /=.
  split; [done|]. apply NoDup_cons in Hnd as [Hhd Hnd].
  split; [|split].
  - split; [apply NoDup_cons; split; [set_solver|apply NoDup_cons; set_solver]|].
    simpl. rewrite (lk_next_ne _ _ _ _ L2); [|set_solver]. rewrite (lk_next _ _ _ _ L1).
    rewrite (lk_prev_ne _ _ _ _ L2); [|set_solver]. rewrite (lk_prev _ _ _ _ L1).
    split; [done|]. split; [done|].
    destruct l as [|x l]; simpl in *; [split; apply L2|].
    split; [apply L2|]. split; [apply L2|].
    apply NoDup_cons in Hnd as [Hx Hnd]. destruct Hs as (_ & _ & Hs).
    eapply dseg_frame; [..|done].
    + intros k Hk. rewrite (lk_next_ne _ _ _ _ L2); [|set_solver].
      apply L1. set_solver.
    + intros k Hk. assert (k ≠ x ∧ k ≠ new) as [? ?] by set_solver.
      rewrite (lk_prev_ne _ _ _ _ L2); [|set_solver]. by apply L1.
  - intros k Hk. rewrite (lk_out _ _ _ _ L2); [|set_solver|set_solver].
    apply L1; set_solver.
  - intros j. by rewrite (lk_dom _ _ _ _ L2) (lk_dom _ _ _ _ L1).
Qed.

Lemma dll_add_before_ok h hd new l :
  dll_rep h hd l → new ∉ hd :: l → is_Some (h !! new) →
  ∃ h', dll_add_before h hd new = Ok h' ∧ dll_rep h' hd (l ++ [new]) ∧
    same_outside (new :: hd :: l) h h' ∧ (∀ j, is_Some (h' !! j) ↔ is_Some (h !! j)).
Proof.
  intros [Hnd Hs] Hnew Hdom. set a := default hd (last l).
  assert (a ∈ hd :: l) as Ha by apply last_or_head_elem.
  destruct (_dll_add_ok h new a hd) as (h1 & h2 & E & L1 & L2); [done|..].
  { by eapply dseg_dom. }
  { eapply dseg_dom; [done|set_solver]. }
  exists h2. rewrite /dll_add_before (get_prev_ok h hd (Some a) (dseg_last _ _ _ _ Hs)) /=.
  split; [done|]. split; [|split].
  - split.
    { rewrite app_comm_cons. apply NoDup_app. split; [done|].
      split; [set_solver|apply NoDup_singleton]. }
    apply dseg_app. split; [|by split; apply L2].
    apply (dseg_retarget h h2 hd l hd new); try done.
    + intros k Hk Hka. rewrite (lk_next_ne _ _ _ _ L2); [|set_solver]. by apply L1.
    + intros k Hk. apply NoDup_cons in Hnd as [Hhd _].
      rewrite (lk_prev_ne _ _ _ _ L2); [|set_solver]. apply L1. set_solver.
    + rewrite (lk_next_ne _ _ _ _ L2); [|set_solver]. apply L1.
    + rewrite (lk_prev_ne _ _ _ _ L2); [|set_solver]. apply L1.
  - intros k Hk. rewrite (lk_out _ _ _ _ L2); [|set_solver|set_solver].
    apply L1; set_solver.
  - intros j. by rewrite (lk_dom _ _ _ _ L2) (lk_dom _ _ _ _ L1).
Qed.

Lemma dll_delete_ok h hd l1 x l2 :
  dll_rep h hd (l1 ++ x :: l2) →
  ∃ h', dll_delete h x = Ok h' ∧ dll_rep h' hd (l1 ++ l2) ∧
    same_outside (hd :: l1 ++ l2) h h' ∧ (∀ j, is_Some (h' !! j) ↔ is_Some (h !! j)).
Proof.
  intros [Hnd Hs]. set a := default hd (last l1). set b := default hd (head l2).
  rewrite app_comm_cons in Hnd. apply NoDup_app in Hnd as (Hnd1 & Hdis & Hnd2).
  apply NoDup_cons in Hnd2 as [Hx Hnd2].
  pose proof Hs as [Hs1 Hs2]%dseg_app.
  assert (a ∈ hd :: l1) as Ha by apply last_or_head_elem.
  assert (b ∈ hd :: l2) as Hb by (destruct l2; simpl; set_solver).
  assert (a ≠ x) as Hax by set_solver. assert (b ≠ x) as Hbx by set_solver.
  destruct (link_ok h a b) as (h' & E & L).
  { by eapply (dseg_dom h hd l1 x). }
  { eapply dseg_dom; [exact Hs|]. set_solver. }
  exists h'.
  split.
  { rewrite /dll_delete (get_prev_ok h x (Some a) (dseg_last _ _ _ _ Hs1)) /=.
    rewrite (get_next_ok h x (Some b) (dseg_first _ _ _ _ Hs2)) /=.
    destruct (dseg_dom h hd l1 x a) as [na Hna]; [done..|].
    rewrite (set_next_ok _ _ _ _ Hna) in E |- *. simpl in E |- *.
    rewrite (get_next_ok _ x (Some b)) /=;
      [|by rewrite lookup_insert_ne // (dseg_first _ _ _ _ Hs2)].
    rewrite (get_prev_ok _ x (Some a)) /=;
      [|by rewrite lookup_insert_ne // (dseg_last _ _ _ _ Hs1)].
    done. }
  split; [|split; [|apply L]].
  - split.
    { rewrite app_comm_cons. apply NoDup_app. set_solver. }
    assert (dseg h' hd l1 b) as H1.
    { apply (dseg_retarget h h' hd l1 x b); [done|..|apply L|apply L|done].
      - intros k Hk Hka. by apply L.
      - intros k Hk. apply L. apply NoDup_cons in Hnd1 as [? _].
        destruct l2; simpl in *; set_solver. }
    destruct l2 as [|y l2]; simpl in *; [by rewrite app_nil_r|].
    apply dseg_app. split; [done|]. destruct Hs2 as (_ & _ & Hs2).
    apply NoDup_cons in Hnd2 as [Hy Hnd2].
    eapply dseg_frame; [..|done].
    + intros k Hk. apply L. set_solver.
    + intros k Hk. apply L. set_solver.
  - intros k Hk. apply L; set_solver.
Qed.

(** [dll_empty] tests emptiness. *)
Lemma dll_empty_ok h hd l :
  dll_rep h hd l → dll_empty h hd = Ok (bool_decide (l = [])).
Proof.
  intros [Hnd Hs]. rewrite /dll_empty.
  rewrite (get_next_ok _ _ _ (dseg_first _ _ _ _ Hs)) /=.
  rewrite (get_prev_ok _ _ _ (dseg_last _ _ _ _ Hs)) /=.
  destruct l as [|x l]; simpl.
  - by rewrite !bool_decide_true.
  - apply NoDup_cons in Hnd as [Hhd _].
    rewrite (bool_decide_false (Some x = Some hd)) //. set_solver.
Qed.

(** The node after the sentinel is the first of the list. *)
Lemma dll_first_ok h hd x l :
  dll_rep h hd (x :: l) → get_next h (Some hd) = Ok (Some x).
Proof. intros [_ (H & _)]. by apply get_next_ok. Qed.
End dll.

(** ** Properties of the list *)

(** The operations of dll.c on one list, and the same on a Rocq list. *)
Inductive dll_op (K : Type) :=
  | AddAfterHead (k : K)
  | AddBeforeHead (k : K)
  | Delete (k : K).
Arguments AddAfterHead {K} _.
Arguments AddBeforeHead {K} _.
Arguments Delete {K} _.

Section ops.
Context {K : Type} `{Countable K}.

Definition run_op (hd : K) (op : dll_op K) (h : gmap K (double_ll_node K))
    : res (gmap K (double_ll_node K)) :=
  match op with
  | AddAfterHead k => dll_add_after h hd k
  | AddBeforeHead k => dll_add_before h hd k
  | Delete k => dll_delete h k
  end.

Definition abs_op (op : dll_op K) (l : list K) : list K :=
  match op with
  | AddAfterHead k => k :: l
  | AddBeforeHead k => l ++ [k]
  | Delete k => filter (λ j, j ≠ k) l
  end.

(** A node is added only when it is not in the list and deleted only when it is. *)
Definition op_ok (h : gmap K (double_ll_node K)) (hd : K) (op : dll_op K) (l : list K) : Prop :=
  match op with
  | AddAfterHead k | AddBeforeHead k => k ∉ hd :: l ∧ is_Some (h !! k)
  | Delete k => k ∈ l
  end.

Fixpoint run_ops (hd : K) (ops : list (dll_op K)) (h : gmap K (double_ll_node K)) :=
  match ops with
  | [] => Ok h
  | op :: ops => rbind (run_op hd op h) (run_ops hd ops)
  end.

Fixpoint ops_ok (h : gmap K (double_ll_node K)) (hd : K) (ops : list (dll_op K)) (l : list K) : Prop :=
  match ops with
  | [] => True
  | op :: ops => op_ok h hd op l ∧ ops_ok h hd ops (abs_op op l)
  end.

Lemma filter_ne_id (l : list K) x : x ∉ l → filter (λ j, j ≠ x) l = l.
Proof.
  induction l as [|y l IH]; [done|]. intros [Hy Hx]%not_elem_of_cons.
  rewrite filter_cons_True; [by rewrite IH|done].
Qed.

Lemma filter_delete (l1 l2 : list K) x :
  NoDup (l1 ++ x :: l2) → filter (λ j, j ≠ x) (l1 ++ x :: l2) = l1 ++ l2.
Proof.
  intros (_ & Hd & Hnd)%NoDup_app. apply NoDup_cons in Hnd as [Hx _].
  rewrite filter_app filter_cons_False; [|naive_solver].
  rewrite !filter_ne_id //. intros Hx1. by apply (Hd x Hx1), elem_of_cons; left.
Qed.

Lemma run_op_ok h hd op l :
  dll_rep h hd l → op_ok h hd op l →
  ∃ h', run_op hd op h = Ok h' ∧ dll_rep h' hd (abs_op op l) ∧
    (∀ j, is_Some (h' !! j) ↔ is_Some (h !! j)).
Proof.
  intros Hrep Hok. destruct op as [k|k|k]; simpl in *.
  - destruct Hok. destruct (dll_add_after_ok h hd k l) as (h' & ? & ? & _ & ?); eauto.
  - destruct Hok. destruct (dll_add_before_ok h hd k l) as (h' & ? & ? & _ & ?); eauto.
  - apply list_elem_of_split in Hok as (l1 & l2 & ->).
    destruct (dll_delete_ok h hd l1 k l2 Hrep) as (h' & ? & ? & _ & ?). exists h'.
    rewrite filter_delete; [done|]. by destruct Hrep as [[_ ?]%NoDup_cons _].
Qed.

Lemma ops_ok_dom h h' hd ops l :
  (∀ j, is_Some (h' !! j) ↔ is_Some (h !! j)) → ops_ok h hd ops l → ops_ok h' hd ops l.
Proof.
  intros Hd. revert l. induction ops as [|op ops IH]; intros l; simpl; [done|].
  intros [Hop Hops]. split; [|by apply IH]. destruct op; simpl in *; rewrite ?Hd; done.
Qed.

(** C19: the circular doubly linked list implements a list: any sequence of insertions of
    nodes that are not in it and deletions of nodes that are never dereferences a bad
    pointer, and leaves exactly the nodes, in the order, of the same operations on a
    Rocq list; [dll_empty] tells whether it is empty. *)
Theorem dll_implements_list h hd ops l :
  dll_rep h hd l → ops_ok h hd ops l →
  ∃ h', run_ops hd ops h = Ok h' ∧ dll_rep h' hd (foldl (λ l op, abs_op op l) l ops) ∧
    dll_empty h' hd = Ok (bool_decide (foldl (λ l op, abs_op op l) l ops = [])).
Proof.
  revert h l. induction ops as [|op ops IH]; intros h l Hrep; simpl.
  - intros _. exists h. split; [done|]. split; [done|]. by apply dll_empty_ok.
  - intros [Hop Hops]. destruct (run_op_ok h hd op l Hrep Hop) as (h1 & E & Hrep1 & Hd).
    rewrite E /=. apply IH; [done|]. by eapply ops_ok_dom.
Qed.
End ops.

Lemma dll_implements_list_witness :
  ∃ h', run_ops 0 [AddAfterHead 1; AddBeforeHead 2; AddAfterHead 3; Delete 1]
          (<[0 := mkNode (Some 0) (Some 0)]> (<[1 := mkNode None None]>
             (<[2 := mkNode None None]> (<[3 := mkNode None None]> ∅)))) = Ok h' ∧
    dll_rep h' 0 [3; 2] ∧ dll_empty h' 0 = Ok false.
Proof.
  destruct (dll_implements_list (<[0 := mkNode (Some 0) (Some 0)]> (<[1 := mkNode None None]>
             (<[2 := mkNode None None]> (<[3 := mkNode None None]> ∅)))) 0
    [AddAfterHead 1; AddBeforeHead 2; AddAfterHead 3; Delete 1] []) as (h' & E & Hrep & Hem).
  - split; [apply NoDup_singleton|done].
  - repeat split; try (rewrite ?elem_of_cons ?elem_of_nil; lia); try (by eexists);
    apply elem_of_cons; right; apply elem_of_cons; by left.
  - exists h'. split; [exact E|]. split; [exact Hrep|exact Hem].
Defined.
