(* ===== verification/Hhdm.v ===== *)
(** * The higher-half direct map (memory/hhdm.c)

    Conversion between physical addresses and their addresses in the direct map.
    The offset is the bootloader's answer ([hhdm_request.response->offset]) and is
    an argument here. *)

From stdpp Require Import base numbers.
From S2P Require Import Prelude.

Definition hhdm_physToVirt (offset physical_addr : Z) : Z := u64 (physical_addr + offset).

Definition hhdm_virtToPhys (offset virtual_addr : Z) : Z := u64 (virtual_addr - offset).

Lemma hhdm_phys_virt_phys offset p :
  0 ≤ p < 2 ^ 64 → hhdm_virtToPhys offset (hhdm_physToVirt offset p) = p.
Proof.
  intros Hp. rewrite /hhdm_virtToPhys /hhdm_physToVirt /u64 Zminus_mod_idemp_l.
  replace (p + offset - offset) with p by lia. by apply Z.mod_small.
Qed.

Lemma hhdm_virt_phys_virt offset v :
  0 ≤ v < 2 ^ 64 → hhdm_physToVirt offset (hhdm_virtToPhys offset v) = v.
Proof.
  intros Hp. rewrite /hhdm_virtToPhys /hhdm_physToVirt /u64 Zplus_mod_idemp_l.
  replace (v - offset + offset) with v by lia. by apply Z.mod_small.
Qed.

(** The direct map is a bijection of the 64-bit addresses: converting to virtual
    and back (or the other way round) is the identity, for every offset. *)
Lemma hhdm_round_trip offset a :
  0 ≤ a < 2 ^ 64 →
  hhdm_virtToPhys offset (hhdm_physToVirt offset a) = a ∧
  hhdm_physToVirt offset (hhdm_virtToPhys offset a) = a.
Proof. intros Ha. split; [by apply hhdm_phys_virt_phys|by apply hhdm_virt_phys_virt]. Qed.

Lemma hhdm_round_trip_witness :
  hhdm_virtToPhys 0xffff800000000000 (hhdm_physToVirt 0xffff800000000000 0xfee00000) = 0xfee00000.
Proof. apply (hhdm_round_trip 0xffff800000000000 0xfee00000). lia. Defined.
