(* ===== verification/Buddy.v ===== *)
(** * Buddy blocks

    Arithmetic of the aligned power-of-two blocks the physical allocator deals in,
    and the fact that makes its free lists a canonical form: a set of disjoint
    blocks in which no two buddies are free consists exactly of the largest free
    aligned blocks. *)

From stdpp Require Import base numbers list.
From S2P Require Import Prelude.

(** A block: its first page and its order. *)
Abbreviation block := (Z * Z)%type.

Definition in_block (p : Z) (b : block) : Prop := b.1 ≤ p < b.1 + 2 ^ b.2.
Definition aligned (b : block) : Prop := 0 ≤ b.2 ∧ (2 ^ b.2 | b.1).
(** The page number the code computes: [pfn ^ (1 << order)]. *)
Definition buddy_pfn (b : block) : Z := Z.lxor b.1 (Z.shiftl 1 b.2).
Definition buddy (b : block) : block := (buddy_pfn b, b.2).

(** A family of free blocks as the allocator keeps it. *)
Record canonical (max_order : Z) (F : block → Prop) : Prop := {
  can_aligned : ∀ b, F b → aligned b ∧ b.2 ≤ max_order;
  can_disjoint : ∀ b c p, F b → F c → in_block p b → in_block p c → b = c;
  can_coalesced : ∀ b, F b → b.2 < max_order → ¬ F (buddy b);
}.

Definition pages_of (F : block → Prop) (p : Z) : Prop := ∃ b, F b ∧ in_block p b.

#[global] Instance in_block_dec p b : Decision (in_block p b).
Proof. unfold in_block. apply _. Defined.

Lemma pow2_pos o : 0 < 2 ^ o ∨ o < 0.
Proof. destruct (decide (o < 0)); [by right|left]. apply Z.pow_pos_nonneg; lia. Qed.

Lemma block_head b : aligned b → in_block b.1 b.
Proof. intros [Ho _]. destruct (pow2_pos b.2); rewrite /in_block; lia. Qed.

Lemma shiftl_1_pow2 o : 0 ≤ o → Z.shiftl 1 o = 2 ^ o.
Proof. intros. rewrite Z.shiftl_1_l. done. Qed.

(** An aligned block is the set of pages with one quotient. *)
Lemma in_block_div p b : aligned b → in_block p b ↔ p / 2 ^ b.2 = b.1 / 2 ^ b.2.
Proof.
  intros [Ho [k Hk]]. destruct (pow2_pos b.2) as [Hp|]; [|lia].
  rewrite /in_block Hk Z.div_mul; [|lia]. split.
  - intros H. symmetry. apply (Z.div_unique p (2 ^ b.2) k (p - k * 2 ^ b.2)); lia.
  - intros <-. pose proof (Z.div_mod p (2 ^ b.2) ltac:(lia)).
    pose proof (Z.mod_pos_bound p (2 ^ b.2) ltac:(lia)). lia.
Qed.

Lemma div_pow2_coarser p q o1 o2 :
  0 ≤ o1 ≤ o2 → p / 2 ^ o1 = q / 2 ^ o1 → p / 2 ^ o2 = q / 2 ^ o2.
Proof.
  intros Ho E. replace o2 with (o1 + (o2 - o1)) by lia.
  rewrite Z.pow_add_r; [|lia|lia].
  destruct (pow2_pos o1); [|lia]. destruct (pow2_pos (o2 - o1)); [|lia].
  rewrite -!Z.div_div; [by rewrite E|lia|lia|lia|lia].
Qed.

(** Two aligned blocks that share a page are nested. *)
Lemma block_nested b c p :
  aligned b → aligned c → b.2 ≤ c.2 → in_block p b → in_block p c →
  ∀ q, in_block q b → in_block q c.
Proof.
  intros Hb Hc Hle Hpb Hpc q Hq.
  apply (in_block_div _ _ Hb) in Hpb, Hq. apply (in_block_div _ _ Hc).
  apply (in_block_div _ _ Hc) in Hpc. rewrite -Hpc. destruct Hb as [Hb _].
  apply (div_pow2_coarser _ _ b.2); [lia|congruence].
Qed.

Lemma block_same_order b c p :
  aligned b → aligned c → b.2 = c.2 → in_block p b → in_block p c → b = c.
Proof.
  intros [Hb [k Hk]] [Hc [l Hl]] E Hpb Hpc. destruct b as [b o], c as [c o']; simpl in *.
  subst o'. rewrite /in_block /= in Hpb, Hpc. destruct (pow2_pos o); [|lia].
  f_equal. subst. assert (k = l) as -> by nia. done.
Qed.

(** A block whose head lies in an aligned block of no larger order starts it. *)
Lemma block_head_in b c :
  aligned b → aligned c → c.2 ≤ b.2 → in_block b.1 c → b.1 = c.1.
Proof.
  intros [Hb [k Hk]] [Hc [l Hl]] Hle Hin. rewrite /in_block in Hin.
  assert (b.1 = (k * 2 ^ (b.2 - c.2)) * 2 ^ c.2) as E.
  { rewrite Hk -Z.mul_assoc -Z.pow_add_r; [|lia|lia]. do 2 f_equal. lia. }
  destruct (pow2_pos c.2); [|lia].
  rewrite E Hl in Hin. rewrite E Hl. assert (k * 2 ^ (b.2 - c.2) = l) as -> by nia. done.
Qed.

Lemma lxor_1 k : Z.lxor k 1 = if Z.odd k then k - 1 else k + 1.
Proof.
  assert (∀ m, Z.lxor (2 * m) 1 = 2 * m + 1) as Heven.
  { intros m. symmetry. apply Z.add_nocarry_lxor.
    apply Z.bits_inj'. intros n Hn. rewrite Z.land_spec Z.bits_0.
    destruct (decide (n = 0)) as [->|]; [by rewrite Z.testbit_even_0|].
    rewrite (Z.bits_above_log2 1 n) ?andb_false_r //; simpl; lia. }
  destruct (Z.odd k) eqn:E.
  - rewrite Zodd_bool_iff in E. destruct (Zodd_ex _ E) as [m ->].
    rewrite -Heven Z.lxor_assoc Z.lxor_nilpotent Z.lxor_0_r Heven. lia.
  - rewrite -Z.negb_even in E. apply negb_false_iff in E.
    rewrite Zeven_bool_iff in E. destruct (Zeven_ex _ E) as [m ->]. apply Heven.
Qed.

(** The buddy of a block, without bit operations. *)
Lemma buddy_pfn_eq b k :
  0 ≤ b.2 → b.1 = k * 2 ^ b.2 →
  buddy_pfn b = (if Z.odd k then k - 1 else k + 1) * 2 ^ b.2.
Proof.
  intros Ho Hk. rewrite /buddy_pfn Hk -Z.shiftl_mul_pow2; [|done].
  by rewrite -Z.shiftl_lxor lxor_1 Z.shiftl_mul_pow2.
Qed.

Lemma buddy_aligned b : aligned b → aligned (buddy b).
Proof.
  intros [Ho [k Hk]]. split; [done|]. simpl. rewrite (buddy_pfn_eq b k); [|done..].
  by eexists.
Qed.

Lemma buddy_involutive b : aligned b → buddy (buddy b) = b.
Proof.
  intros [Ho _]. destruct b as [p o]. rewrite /buddy /buddy_pfn /=.
  by rewrite Z.lxor_assoc Z.lxor_nilpotent Z.lxor_0_r.
Qed.

Lemma buddy_nonneg b : aligned b → 0 ≤ b.1 → 0 ≤ buddy_pfn b.
Proof.
  intros [Ho [k Hk]] Hp. rewrite (buddy_pfn_eq b k); [|done..].
  destruct (pow2_pos b.2); [|lia].
  assert (0 ≤ k) by nia. destruct (Z.odd k) eqn:E; [|nia].
  assert (k ≠ 0) by (intros ->; done). nia.
Qed.

Lemma buddy_ne b : aligned b → buddy_pfn b ≠ b.1.
Proof.
  intros [Ho [k Hk]]. rewrite (buddy_pfn_eq b k); [|done..]. rewrite Hk.
  destruct (pow2_pos b.2); [|lia]. destruct (Z.odd k); nia.
Qed.

Lemma buddy_disjoint b p : aligned b → in_block p b → ¬ in_block p (buddy b).
Proof.
  intros Hb Hp Hq. apply (buddy_ne b Hb).
  by rewrite -{2}(block_same_order _ _ _ (buddy_aligned _ Hb) Hb eq_refl Hq Hp).
Qed.

(** The block that a block and its buddy make up. *)
Definition parent (b : block) : block := (Z.min b.1 (buddy_pfn b), b.2 + 1).

Lemma parent_spec b :
  aligned b → aligned (parent b) ∧
  ∀ p, in_block p (parent b) ↔ in_block p b ∨ in_block p (buddy b).
Proof.
  intros [Ho [k Hk]]. rewrite /aligned /in_block /parent /=.
  rewrite (buddy_pfn_eq b k) //. rewrite Z.pow_add_r; [|lia|lia].
  destruct (pow2_pos b.2); [|lia]. rewrite Hk.
  destruct (Z.odd k) eqn:E.
  - rewrite Zodd_bool_iff in E. destruct (Zodd_ex _ E) as [m ->].
    rewrite Z.min_r; [|nia]. split; [|intros p; lia].
    split; [lia|]. exists m. lia.
  - rewrite -Z.negb_even in E. apply negb_false_iff in E.
    rewrite Zeven_bool_iff in E. destruct (Zeven_ex _ E) as [m ->].
    rewrite Z.min_l; [|nia]. split; [|intros p; lia].
    split; [lia|]. exists m. lia.
Qed.

(** The two halves of a block: the lower one and its buddy. *)
Lemma split_spec b o :
  aligned (b, o) → 1 ≤ o →
  aligned (b, o - 1) ∧ buddy_pfn (b, o - 1) = b + 2 ^ (o - 1) ∧
  parent (b, o - 1) = (b, o).
Proof.
  intros [Ho [k Hk]] Ho1. simpl in *. assert (2 ^ o = 2 * 2 ^ (o - 1)) as E.
  { rewrite -Z.pow_succ_r; [f_equal|]; lia. }
  assert (buddy_pfn (b, o - 1) = b + 2 ^ (o - 1)) as Hb.
  { rewrite (buddy_pfn_eq (b, o - 1) (k * 2)) /=; [|lia|lia].
    rewrite Z.odd_mul andb_false_r. lia. }
  split; [split; simpl; [lia|exists (k * 2); lia]|]. split; [done|].
  rewrite /parent Hb /=. destruct (pow2_pos (o - 1)); [|lia]. f_equal; lia.
Qed.

Section canonical_form.
Context (max_order : Z).

(** A run of free pages that makes up an aligned block is inside one free block. *)
Lemma canonical_covers F :
  canonical max_order F →
  ∀ k, 0 ≤ k → ∀ b, aligned (b, k) → k ≤ max_order →
  (∀ p, in_block p (b, k) → pages_of F p) →
  ∃ c, F c ∧ k ≤ c.2 ∧ ∀ p, in_block p (b, k) → in_block p c.
Proof.
  intros [Hal Hdis Hco]. apply (natlike_ind (λ k, ∀ b, aligned (b, k) → k ≤ max_order →
  (∀ p, in_block p (b, k) → pages_of F p) →
  ∃ c, F c ∧ k ≤ c.2 ∧ ∀ p, in_block p (b, k) → in_block p c)).
  - intros b Hb _ Hfree. destruct (Hfree b) as (c & Hc & Hin); [by apply (block_head (b, 0))|].
    destruct (Hal c Hc) as [Hca _].
    exists c. split; [done|]. split; [apply Hca|].
    apply (block_nested (b, 0) c b); [done|done|apply Hca|by apply (block_head (b, 0))|done].
  - intros k Hk IH b Hb Hmax Hfree.
    destruct (split_spec b (Z.succ k) Hb ltac:(lia)) as (Ha1 & Hbud & Hpar).
    replace (Z.succ k - 1) with k in * by lia.
    destruct (parent_spec (b, k) Ha1) as [_ Hpages]. rewrite Hpar in Hpages.
    destruct (IH b Ha1 ltac:(lia)) as (c1 & Hc1 & Hk1 & Hin1).
    { intros p Hp. apply Hfree, Hpages. by left. }
    destruct (IH (buddy_pfn (b, k)) (buddy_aligned _ Ha1) ltac:(lia)) as (c2 & Hc2 & Hk2 & Hin2).
    { intros p Hp. apply Hfree, Hpages. by right. }
    destruct (Hal _ Hc1) as [Hca1 _], (Hal _ Hc2) as [Hca2 _].
    assert (∀ c p, F c → Z.succ k ≤ c.2 → in_block p (b, Z.succ k) → in_block p c →
      ∃ c, F c ∧ Z.succ k ≤ c.2 ∧ ∀ p, in_block p (b, Z.succ k) → in_block p c) as Hgo.
    { intros c p Hc Hle Hp Hpc. exists c. split; [done|]. split; [done|].
      apply (block_nested _ _ p); [done|by apply Hal|done..]. }
    destruct (decide (Z.succ k ≤ c1.2)).
    { apply (Hgo c1 b); [done..|by apply (block_head (b, Z.succ k))|].
      by apply Hin1, (block_head (b, k)). }
    destruct (decide (Z.succ k ≤ c2.2)).
    { apply (Hgo c2 (buddy_pfn (b, k))); [done|done| |].
      - apply Hpages. right. by apply (block_head (buddy (b, k)) (buddy_aligned _ Ha1)).
      - by apply Hin2, (block_head (buddy (b, k)) (buddy_aligned _ Ha1)). }
    exfalso. assert (c1 = (b, k)) as ->.
    { symmetry. apply (block_same_order _ _ b); [done|done|simpl; lia| |].
      - by apply (block_head (b, k)).
      - by apply Hin1, (block_head (b, k)). }
    assert (c2 = buddy (b, k)) as ->.
    { symmetry. pose proof (block_head _ (buddy_aligned _ Ha1)) as Hh.
      apply (block_same_order _ _ (buddy_pfn (b, k))); [by apply buddy_aligned|done|simpl; lia|done|].
      by apply Hin2. }
    by apply (Hco (b, k) Hc1); [simpl; lia|].
Qed.

(** Two canonical families over the same pages are the same family. *)
Lemma canonical_unique F G :
  canonical max_order F → canonical max_order G →
  (∀ p, pages_of F p ↔ pages_of G p) → ∀ b, F b → G b.
Proof.
  intros HF HG Hp b Hb. destruct (can_aligned _ _ HF b Hb) as [Hba Hbm].
  assert (∀ p, in_block p b → pages_of G p) as Hfree.
  { intros p Hin. apply Hp. by exists b. }
  destruct b as [b o]; simpl in *. pose proof Hba as [Ho _]; simpl in Ho.
  destruct (canonical_covers G HG o Ho b Hba Hbm Hfree) as (c & Hc & Hoc & Hbc).
  destruct (can_aligned _ _ HG c Hc) as [Hca Hcm]. destruct c as [c oc].
  pose proof Hca as [Hoc0 _]; simpl in *.
  destruct (canonical_covers F HF oc Hoc0 c Hca Hcm) as (d & Hd & Hod & Hcd).
  { intros p Hin. apply Hp. by exists (c, oc). }
  assert ((b, o) = d) as E.
  { apply (can_disjoint _ _ HF _ _ b Hb Hd); [by apply (block_head (b, o))|].
    by apply Hcd, Hbc, (block_head (b, o)). }
  subst d. simpl in Hod. assert (oc = o) as -> by lia.
  assert ((b, o) = (c, o)) as [= ->]; [|done].
  apply (block_same_order _ _ b); [done|done|done|by apply (block_head (b, o))|].
  by apply Hbc, (block_head (b, o)).
Qed.
End canonical_form.
