(* ===== verification/Pmm.v ===== *)
(** * The physical memory manager: model (memory/pmm.c, memory/pmm.h)

    The buddy allocator as written: the array of page structs, the free lists
    threaded through it, the counters, the lock. Properties are in PmmInv.v and
    the files after it. *)

From stdpp Require Import base gmap list numbers.
From S2P Require Import Prelude Spinlock Dll Hhdm.

Definition PMM_PAGE_SIZE : Z := 4096.
Definition PMM_MAX_ORDER : Z := 11.
Definition PMM_FLAG_FREE : Z := 1.
Definition PMM_FLAG_USED : Z := Z.shiftl 1 1.
Definition PMM_FLAG_RESERVED : Z := Z.shiftl 1 2.

(** [struct pmm_page], less its [link], which other nodes point to and which
    therefore lives in the heap of list nodes. *)
Record pmm_page := mkPage { pg_flags : Z; pg_ref_count : Z; pg_order : Z }.

(** [sizeof(struct pmm_page)]: three 32-bit fields, padding, two pointers. *)
Definition sizeof_pmm_page : Z := 32.

(** The list nodes of the allocator: [&free_areas[order].head] and
    [&buddy_memmap[pfn].link]. *)
Inductive pmm_node :=
  | AreaHead (order : Z)
  | PageLink (pfn : Z).

#[export] Instance pmm_node_eq_dec : EqDecision pmm_node.
Proof. solve_decision. Defined.
#[export] Instance pmm_node_countable : Countable pmm_node.
Proof.
  apply (inj_countable' (λ n, match n with AreaHead o => inl o | PageLink p => inr p end)
    (λ s, match s with inl o => AreaHead o | inr p => PageLink p end)).
  by intros [].
Defined.

(** The entry types of the bootloader's memory map that the code names; every
    other type is [MEMMAP_OTHER]. *)
Inductive memmap_type :=
  | LIMINE_MEMMAP_USABLE
  | LIMINE_MEMMAP_BOOTLOADER_RECLAIMABLE
  | LIMINE_MEMMAP_EXECUTABLE_AND_MODULES
  | LIMINE_MEMMAP_FRAMEBUFFER
  | LIMINE_MEMMAP_ACPI_TABLES
  | LIMINE_MEMMAP_ACPI_RECLAIMABLE
  | LIMINE_MEMMAP_ACPI_NVS
  | MEMMAP_OTHER.

#[export] Instance memmap_type_eq_dec : EqDecision memmap_type.
Proof. solve_decision. Defined.

Record memmap_entry := mkEntry { me_base : Z; me_length : Z; me_type : memmap_type }.

Record pmm_state := mkPmm {
  pmm_cpu : cpu;
  pmm_lock : spinlock_irq;
  memmap : list memmap_entry;               (** [memmap_request.response->entries] *)
  buddy_memmap : gmap Z pmm_page;           (** the page structs, by index *)
  buddy_memmap_virt : Z;                    (** the pointer [buddy_memmap], 0 for NULL *)
  buddy_memmap_size : Z;
  nodes : gmap pmm_node (double_ll_node pmm_node);
  nr_free : gmap Z Z;                       (** [free_areas[order].nr_free] *)
  used_pages : Z;
  totalPages : Z;
  highestAddr : Z;
}.

(** ** Field updates *)
Definition with_lock (l : spinlock_irq) (c : cpu) (s : pmm_state) : pmm_state :=
  mkPmm c l (memmap s) (buddy_memmap s) (buddy_memmap_virt s) (buddy_memmap_size s)
    (nodes s) (nr_free s) (used_pages s) (totalPages s) (highestAddr s).
Definition with_memmap (m : list memmap_entry) (s : pmm_state) : pmm_state :=
  mkPmm (pmm_cpu s) (pmm_lock s) m (buddy_memmap s) (buddy_memmap_virt s)
    (buddy_memmap_size s) (nodes s) (nr_free s) (used_pages s) (totalPages s) (highestAddr s).
Definition with_pages (p : gmap Z pmm_page) (s : pmm_state) : pmm_state :=
  mkPmm (pmm_cpu s) (pmm_lock s) (memmap s) p (buddy_memmap_virt s)
    (buddy_memmap_size s) (nodes s) (nr_free s) (used_pages s) (totalPages s) (highestAddr s).
Definition with_virt (v : Z) (s : pmm_state) : pmm_state :=
  mkPmm (pmm_cpu s) (pmm_lock s) (memmap s) (buddy_memmap s) v
    (buddy_memmap_size s) (nodes s) (nr_free s) (used_pages s) (totalPages s) (highestAddr s).
Definition with_nodes (n : gmap pmm_node (double_ll_node pmm_node)) (s : pmm_state) : pmm_state :=
  mkPmm (pmm_cpu s) (pmm_lock s) (memmap s) (buddy_memmap s) (buddy_memmap_virt s)
    (buddy_memmap_size s) n (nr_free s) (used_pages s) (totalPages s) (highestAddr s).
Definition with_nr_free (n : gmap Z Z) (s : pmm_state) : pmm_state :=
  mkPmm (pmm_cpu s) (pmm_lock s) (memmap s) (buddy_memmap s) (buddy_memmap_virt s)
    (buddy_memmap_size s) (nodes s) n (used_pages s) (totalPages s) (highestAddr s).
Definition with_used (u : Z) (s : pmm_state) : pmm_state :=
  mkPmm (pmm_cpu s) (pmm_lock s) (memmap s) (buddy_memmap s) (buddy_memmap_virt s)
    (buddy_memmap_size s) (nodes s) (nr_free s) u (totalPages s) (highestAddr s).
Definition with_sizes (hi total size : Z) (s : pmm_state) : pmm_state :=
  mkPmm (pmm_cpu s) (pmm_lock s) (memmap s) (buddy_memmap s) (buddy_memmap_virt s)
    size (nodes s) (nr_free s) (used_pages s) total hi.

(** ** Primitive accesses *)
Definition pmm_lock_acquire : M pmm_state Z := λ s,
  match spinlock_irq_acquire (pmm_lock s) (pmm_cpu s) with
  | Ok (flags, l, c) => Ok (flags, with_lock l c s)
  | Err e => Err e
  end.
Definition pmm_lock_release (flags : Z) : M pmm_state unit := modify (λ s,
  let '(l, c) := spinlock_irq_release (pmm_lock s) flags (pmm_cpu s) in with_lock l c s).

(** [page->field] and [page->field = v] through a page pointer (an index here). *)
Definition read_page (pfn : Z) : M pmm_state pmm_page := reads (λ s, buddy_memmap s !! pfn).
Definition update_page (pfn : Z) (f : pmm_page → pmm_page) : M pmm_state unit :=
  pg <- read_page pfn;;
  modify (λ s, with_pages (<[pfn := f pg]> (buddy_memmap s)) s).

Definition on_nodes (f : gmap pmm_node (double_ll_node pmm_node) →
    res (gmap pmm_node (double_ll_node pmm_node))) : M pmm_state unit := λ s,
  match f (nodes s) with
  | Ok h => Ok (tt, with_nodes h s)
  | Err e => Err e
  end.

(** [free_areas[order].nr_free += d] on an unsigned 64-bit counter. *)
Definition nr_free_add (order d : Z) : M pmm_state unit :=
  n <- reads (λ s, nr_free s !! order);;
  modify (λ s, with_nr_free (<[order := u64 (n + d)]> (nr_free s)) s).

(** ** Utility functions *)
Definition pfn_to_page (pfn : Z) : M pmm_state (option Z) :=
  total <- gets totalPages;;
  ret (if total <=? pfn then None else Some pfn).

Definition page_to_phys (page : Z) : Z := u64 (page * PMM_PAGE_SIZE).

Definition phys_to_page (phys : Z) : M pmm_state (option Z) :=
  pfn_to_page (phys / PMM_PAGE_SIZE).

Definition is_page_free (pg : pmm_page) : bool :=
  negb (Z.land (pg_flags pg) PMM_FLAG_FREE =? 0).
Definition is_page_used (pg : pmm_page) : bool :=
  negb (Z.land (pg_flags pg) PMM_FLAG_USED =? 0).

(** ** Freeing *)

(** The [while(order < PMM_MAX_ORDER - 1)] loop of [pmm_free_pages]: merges the
    block with its buddy as long as the buddy is free and of the same order. It
    returns the final [pfn] and [order]; [page] is always [&buddy_memmap[pfn]]. *)
Fixpoint coalesce (fuel : nat) (pfn order : Z) : M pmm_state (Z * Z) :=
  match fuel with
  | O => fail OutOfFuel
  | S fuel =>
      if order <? PMM_MAX_ORDER - 1 then
        let buddy_pfn := Z.lxor pfn (Z.shiftl 1 order) in
        buddy_page <- pfn_to_page buddy_pfn;;
        total <- gets totalPages;;
        match buddy_page with
        | None => ret (pfn, order)
        | Some bp =>
            if total <=? buddy_pfn then ret (pfn, order)
            else
              pg <- read_page bp;;
              if negb (is_page_free pg) || negb (pg_order pg =? order)
              then ret (pfn, order)
              else
                on_nodes (λ h, dll_delete h (PageLink bp));;;
                nr_free_add order (-1);;;
                update_page bp (λ pg, mkPage (pg_flags pg) (pg_ref_count pg) 0);;;
                coalesce fuel (if buddy_pfn <? pfn then buddy_pfn else pfn) (order + 1)
        end
      else ret (pfn, order)
  end.

(** The part of [pmm_free_pages] under the lock, once the page exists. *)
Definition free_block (pfn order : Z) : M pmm_state unit :=
  po <- coalesce (Z.to_nat PMM_MAX_ORDER) pfn order;;
  let page := po.1 in let order := po.2 in
  update_page page (λ pg, mkPage (pg_flags pg) (pg_ref_count pg) order);;;
  update_page page (λ pg, mkPage PMM_FLAG_FREE (pg_ref_count pg) (pg_order pg));;;
  update_page page (λ pg, mkPage (pg_flags pg) 0 (pg_order pg));;;
  on_nodes (λ h, dll_add_after h (AreaHead order) (PageLink page));;;
  nr_free_add order 1;;;
  modify (λ s, with_used (u64 (used_pages s - Z.shiftl 1 order)) s).

Definition pmm_free_pages (phys order : Z) : M pmm_state unit :=
  if negb (phys mod PMM_PAGE_SIZE =? 0) then ret tt
  else
    irq_flags <- pmm_lock_acquire;;
    let pfn := phys / PMM_PAGE_SIZE in
    page <- pfn_to_page pfn;;
    match page with
    | None => pmm_lock_release irq_flags
    | Some page =>
        free_block page order;;;
        pmm_lock_release irq_flags
    end.

(** ** Allocating *)

(** The search for the first non-empty free list at [current_order] or above. *)
Fixpoint find_area (fuel : nat) (current_order : Z) : M pmm_state (option Z) :=
  match fuel with
  | O => fail OutOfFuel
  | S fuel =>
      if current_order <? PMM_MAX_ORDER then
        empty <- ask (λ s, dll_empty (nodes s) (AreaHead current_order));;
        if negb empty then ret (Some current_order)
        else find_area fuel (current_order + 1)
      else ret None
  end.

(** The [while(current_order > order)] splitting loop. *)
Fixpoint split_block (fuel : nat) (page current_order order : Z) : M pmm_state unit :=
  match fuel with
  | O => fail OutOfFuel
  | S fuel =>
      if order <? current_order then
        let current_order := current_order - 1 in
        let buddy_pfn := Z.lxor page (Z.shiftl 1 current_order) in
        buddy_page <- pfn_to_page buddy_pfn;;
        match buddy_page with
        | None => fail Undef
        | Some bp =>
            update_page bp (λ pg, mkPage (pg_flags pg) (pg_ref_count pg) current_order);;;
            update_page bp (λ pg, mkPage PMM_FLAG_FREE (pg_ref_count pg) (pg_order pg));;;
            update_page bp (λ pg, mkPage (pg_flags pg) 0 (pg_order pg));;;
            on_nodes (λ h, dll_add_after h (AreaHead current_order) (PageLink bp));;;
            nr_free_add current_order 1;;;
            split_block fuel page current_order order
        end
      else ret tt
  end.

(** [(struct pmm_page * )((uint8_t * )node - offsetof(struct pmm_page, link))] *)
Definition page_of_link (n : option pmm_node) : option Z :=
  match n with Some (PageLink pfn) => Some pfn | _ => None end.

Definition pmm_alloc_pages (order : Z) : M pmm_state Z :=
  if PMM_MAX_ORDER <=? order then ret 0
  else
    irq_flags <- pmm_lock_acquire;;
    found <- find_area (Z.to_nat PMM_MAX_ORDER + 1) order;;
    match found with
    | None => pmm_lock_release irq_flags;;; ret 0
    | Some current_order =>
        node <- ask (λ s, get_next (nodes s) (Some (AreaHead current_order)));;
        page <- reads (λ _, page_of_link node);;
        on_nodes (λ h, dll_delete h (PageLink page));;;
        nr_free_add current_order (-1);;;
        split_block (Z.to_nat PMM_MAX_ORDER) page current_order order;;;
        update_page page (λ pg, mkPage PMM_FLAG_USED (pg_ref_count pg) (pg_order pg));;;
        update_page page (λ pg, mkPage (pg_flags pg) 1 (pg_order pg));;;
        update_page page (λ pg, mkPage (pg_flags pg) (pg_ref_count pg) order);;;
        modify (λ s, with_used (u64 (used_pages s + Z.shiftl 1 order)) s);;;
        pmm_lock_release irq_flags;;;
        ret (page_to_phys page)
    end.

(** ** Sizes *)

(** [while((1ULL << order) < pages_needed) order++] *)
Fixpoint order_loop (fuel : nat) (order pages_needed : Z) : res Z :=
  match fuel with
  | O => Err OutOfFuel
  | S fuel =>
      if Z.shiftl 1 order <? pages_needed
      then order_loop fuel (order + 1) pages_needed
      else Ok order
  end.

Definition pmm_get_order_from_size (size : Z) : res Z :=
  let pages_needed := size / PMM_PAGE_SIZE in
  let pages_needed := if negb (size mod PMM_PAGE_SIZE =? 0) then pages_needed + 1
                      else pages_needed in
  order_loop 64 0 pages_needed.

Definition pmm_alloc (size : Z) : M pmm_state Z :=
  order <- lift (pmm_get_order_from_size size);;
  if PMM_MAX_ORDER <=? order then ret 0 else pmm_alloc_pages order.

Definition pmm_free (physAddr length : Z) : M pmm_state unit :=
  order <- lift (pmm_get_order_from_size length);;
  pmm_free_pages physAddr order.

(** ** Reference counts *)
Definition pmm_page_inc_ref (phys : Z) : M pmm_state unit :=
  irq_flags <- pmm_lock_acquire;;
  page <- phys_to_page phys;;
  match page with
  | Some p =>
      pg <- read_page p;;
      (if is_page_used pg
       then update_page p (λ pg, mkPage (pg_flags pg) (u32 (pg_ref_count pg + 1)) (pg_order pg))
       else ret tt);;;
      pmm_lock_release irq_flags
  | None => pmm_lock_release irq_flags
  end.

Definition pmm_page_dec_ref (phys : Z) : M pmm_state unit :=
  irq_flags <- pmm_lock_acquire;;
  page <- phys_to_page phys;;
  match page with
  | Some p =>
      pg <- read_page p;;
      if is_page_used pg then
        update_page p (λ pg, mkPage (pg_flags pg) (u32 (pg_ref_count pg - 1)) (pg_order pg));;;
        pg <- read_page p;;
        if pg_ref_count pg =? 0 then
          (* the lock is released before the call, which takes it again *)
          pmm_lock_release irq_flags;;;
          pg <- read_page p;;
          pmm_free_pages phys (pg_order pg)
        else pmm_lock_release irq_flags
      else pmm_lock_release irq_flags
  | None => pmm_lock_release irq_flags
  end.

(** ** Initialisation *)

Definition is_ram (t : memmap_type) : bool :=
  match t with MEMMAP_OTHER => false | _ => true end.

(** The first loop: the end of the last entry of one of the listed types. *)
Definition highest_addr (init : Z) (entries : list memmap_entry) : Z :=
  foldl (λ hi e, if is_ram (me_type e) then u64 (me_base e + me_length e) else hi)
    init entries.

(** The second loop: the first usable entry that can hold the page structs loses
    its first [size] bytes to them; the result also has its old base. *)
Fixpoint carve (size : Z) (entries : list memmap_entry)
    : option (Z * list memmap_entry) :=
  match entries with
  | [] => None
  | e :: es =>
      if bool_decide (me_type e = LIMINE_MEMMAP_USABLE) && (size <=? me_length e)
      then Some (me_base e,
                 mkEntry (u64 (me_base e + size)) (u64 (me_length e - size)) (me_type e) :: es)
      else match carve size es with
           | Some (b, es') => Some (b, e :: es')
           | None => None
           end
  end.

(** The orders [0 .. PMM_MAX_ORDER - 1] and the page numbers below [n]. *)
Definition orders : list Z := Z.of_nat <$> seq 0 (Z.to_nat PMM_MAX_ORDER).
Definition pfns (n : Z) : list Z := Z.of_nat <$> seq 0 (Z.to_nat n).

(** [memset(buddy_memmap, 0, buddy_memmap_size)] *)
Definition zero_pages (n : Z) : gmap Z pmm_page :=
  list_to_map ((λ p, (p, mkPage 0 0 0)) <$> pfns n).
Definition zero_links (n : Z) : gmap pmm_node (double_ll_node pmm_node) :=
  list_to_map ((λ p, (PageLink p, mkNode None None)) <$> pfns n).

(** The static array [free_areas], zero before [pmm_init]. *)
Definition boot_heads : gmap pmm_node (double_ll_node pmm_node) :=
  list_to_map ((λ o, (AreaHead o, mkNode None None)) <$> orders).
Definition boot_nr_free : gmap Z Z := list_to_map ((λ o, (o, 0)) <$> orders).

(** The largest order, from [order] down, whose block at [phys] is aligned and
    ends at or before [lim]. *)
Fixpoint fit_order (order : nat) (phys lim : Z) : Z :=
  match order with
  | O => 0
  | S o =>
      let size := PMM_PAGE_SIZE * Z.shiftl 1 (Z.of_nat order) in
      if (Z.land phys (size - 1) =? 0) && (u64 (phys + size) <=? lim)
      then Z.of_nat order
      else fit_order o phys lim
  end.

(** The [while(current_phys < end)] loop over one usable entry. *)
Fixpoint free_range (fuel : nat) (current_phys lim : Z) : M pmm_state unit :=
  match fuel with
  | O => fail OutOfFuel
  | S fuel =>
      if current_phys <? lim then
        let order := fit_order (Z.to_nat PMM_MAX_ORDER - 1) current_phys lim in
        pmm_free_pages current_phys order;;;
        free_range fuel (u64 (current_phys + PMM_PAGE_SIZE * Z.shiftl 1 order)) lim
      else ret tt
  end.

Definition range_start (e : memmap_entry) : Z :=
  let start := me_base e in
  let start := if negb (start mod PMM_PAGE_SIZE =? 0)
               then u64 (start + (PMM_PAGE_SIZE - start mod PMM_PAGE_SIZE)) else start in
  if start =? 0 then start + PMM_PAGE_SIZE else start.
Definition range_end (e : memmap_entry) : Z :=
  let lim := u64 (me_base e + me_length e) in
  if negb (lim mod PMM_PAGE_SIZE =? 0) then lim - lim mod PMM_PAGE_SIZE else lim.

(** Fuel for one entry: one iteration per page and one to leave the loop. *)
Definition range_fuel (e : memmap_entry) : nat :=
  S (Z.to_nat ((range_end e - range_start e) / PMM_PAGE_SIZE)).

Fixpoint free_entries (entries : list memmap_entry) : M pmm_state unit :=
  match entries with
  | [] => ret tt
  | e :: es =>
      (if bool_decide (me_type e = LIMINE_MEMMAP_USABLE)
       then free_range (range_fuel e) (range_start e) (range_end e)
       else ret tt);;;
      free_entries es
  end.

Fixpoint init_areas (os : list Z) : M pmm_state unit :=
  match os with
  | [] => ret tt
  | o :: os =>
      on_nodes (λ h, dll_init h (AreaHead o));;;
      modify (λ s, with_nr_free (<[o := 0]> (nr_free s)) s);;;
      init_areas os
  end.

(** [buddy_memmap[i].flags |= PMM_FLAG_RESERVED; buddy_memmap[i].ref_count = 1] *)
Definition reserve_page (pg : pmm_page) : pmm_page :=
  mkPage (Z.lor (pg_flags pg) PMM_FLAG_RESERVED) 1 (pg_order pg).

Definition pmm_init (hhdm_offset : Z) : M pmm_state unit :=
  entries <- gets memmap;;
  hi0 <- gets highestAddr;;
  let hi := highest_addr hi0 entries in
  let total := hi / PMM_PAGE_SIZE in
  let total := if negb (hi mod PMM_PAGE_SIZE =? 0) then total + 1 else total in
  let size := u64 (total * sizeof_pmm_page) in
  modify (with_sizes hi total size);;;
  (match carve size entries with
   | Some (base, entries') =>
       modify (with_virt (hhdm_physToVirt hhdm_offset base));;;
       modify (with_memmap entries');;;
       modify (with_pages (zero_pages total));;;
       modify (λ s, with_nodes (zero_links total ∪ nodes s) s)
   | None => ret tt
   end);;;
  virt <- gets buddy_memmap_virt;;
  if virt =? 0 then fail Halt
  else
    init_areas orders;;;
    modify (with_used total);;;
    modify (λ s, with_pages (reserve_page <$> buddy_memmap s) s);;;
    entries <- gets memmap;;
    free_entries entries.

Definition pmm_getHighestAddr : M pmm_state Z := gets highestAddr.

(** The state at boot: the statics are zero, the bootloader has filled in the map. *)
Definition pmm_boot (c : cpu) (entries : list memmap_entry) : pmm_state :=
  mkPmm c SPINLOCK_IRQ_INIT entries ∅ 0 0 boot_heads boot_nr_free 0 0 0.
