(* ===== verification/PmmInv.v ===== *)
(** * The physical memory manager: invariant

    What the page structs, the free lists and the counters have to do with each
    other, as a predicate on the four parts of the state it depends on, and how it
    moves when a block is taken from a free list, merged, split, given back,
    handed to a client or taken from one. *)

From stdpp Require Import base gmap list numbers functions.
From S2P Require Import Prelude Dll Buddy Pmm.

Create HintDb pmm.

(** The largest order a block can have. *)
Abbreviation top_order := (PMM_MAX_ORDER - 1).

(** [free_in FL b]: block [b] is on the free list of its order. *)
Definition free_in (FL : Z → list Z) (b : block) : Prop :=
  0 ≤ b.2 ≤ top_order ∧ b.1 ∈ FL b.2.

(** Every block there is: free, allocated ([A]), or in the hands of the running
    operation ([H]). *)
Definition live (FL : Z → list Z) (A H : gset block) (b : block) : Prop :=
  free_in FL b ∨ b ∈ A ∨ b ∈ H.

Lemma live_hand FL A H b : live FL A ({[b]} ∪ H) b.
Proof. right; right. set_solver. Qed.
Lemma live_hand_1 FL A b : live FL A {[b]} b.
Proof. right; right. set_solver. Qed.
Lemma hand_pair (x y : block) : {[y]} ∪ {[x]} = {[x; y]} ∪ (∅ : gset block).
Proof. set_solver. Qed.
Lemma live_empty FL b : live FL ∅ ∅ b → free_in FL b.
Proof. rewrite /live. set_solver. Qed.
#[export] Hint Resolve live_hand live_hand_1 : pmm.

Record block_wf (total : Z) (b : block) : Prop := {
  bw_aligned : aligned b;
  bw_order : b.2 ≤ top_order;
  bw_pos : 0 < b.1;           (** page 0 is never handed out *)
  bw_end : b.1 + 2 ^ b.2 ≤ total;
}.

Section inv.
Context (total : Z).
Implicit Types (pages : gmap Z pmm_page) (nd : gmap pmm_node (double_ll_node pmm_node))
  (nr : gmap Z Z) (FL : Z → list Z) (A H : gset block) (b c : block) (p o : Z).

Record pmm_inv pages nd nr FL A H : Prop := {
  inv_total : total ≤ 2 ^ 52;
  inv_lists : ∀ o, 0 ≤ o ≤ top_order → dll_rep nd (AreaHead o) (PageLink <$> FL o);
  inv_nr : ∀ o, 0 ≤ o ≤ top_order → nr !! o = Some (Z.of_nat (length (FL o)));
  inv_dom : ∀ p, 0 ≤ p < total → is_Some (pages !! p) ∧ is_Some (nd !! PageLink p);
  inv_wf : ∀ b, live FL A H b → block_wf total b;
  inv_disj : ∀ b c p, live FL A H b → live FL A H c →
    in_block p b → in_block p c → b = c;
  inv_free_hand : ∀ b, free_in FL b → b ∉ H;
  inv_used_hand : ∀ b, b ∈ A → b ∉ H;
  inv_free_page : ∀ b, free_in FL b → pages !! b.1 = Some (mkPage PMM_FLAG_FREE 0 b.2);
  inv_used_page : ∀ b, b ∈ A →
    ∃ r, pages !! b.1 = Some (mkPage PMM_FLAG_USED r b.2) ∧ 1 ≤ r < 2 ^ 32;
  inv_cover : ∀ p, 0 ≤ p < total →
    pages_of (live FL A H) p ∨ ∃ r o, pages !! p = Some (mkPage PMM_FLAG_RESERVED r o);
  inv_coalesced : ∀ b, free_in FL b → b.2 < top_order → ¬ free_in FL (buddy b);
}.

(** The pages no client and no reservation holds. *)
Definition free_page FL p : Prop := pages_of (free_in FL) p.

(** ** Consequences *)

Lemma live_in_block_pos pages nd nr FL A H b p :
  pmm_inv pages nd nr FL A H → live FL A H b → in_block p b → 0 < p < total.
Proof.
  intros Hi Hb Hp. destruct (inv_wf _ _ _ _ _ _ Hi b Hb). rewrite /in_block in Hp. lia.
Qed.

Lemma live_head pages nd nr FL A H b :
  pmm_inv pages nd nr FL A H → live FL A H b → in_block b.1 b.
Proof. intros Hi Hb. apply block_head, (inv_wf _ _ _ _ _ _ Hi b Hb). Qed.

Lemma inv_canonical pages nd nr FL A H :
  pmm_inv pages nd nr FL A H → canonical top_order (free_in FL).
Proof.
  intros Hi. split.
  - intros b Hb. destruct (inv_wf _ _ _ _ _ _ Hi b) as []; [by left|done].
  - intros b c p Hb Hc. by apply (inv_disj _ _ _ _ _ _ Hi); left.
  - apply Hi.
Qed.

Lemma free_not_used pages nd nr FL A H b :
  pmm_inv pages nd nr FL A H → free_in FL b → b ∉ A.
Proof.
  intros Hi Hf Hu. pose proof (inv_free_page _ _ _ _ _ _ Hi b Hf) as E.
  destruct (inv_used_page _ _ _ _ _ _ Hi b Hu) as (r & E' & _).
  rewrite E in E'. injection E' as E' _. discriminate E'.
Qed.

Lemma free_list_nodup pages nd nr FL A H o :
  pmm_inv pages nd nr FL A H → 0 ≤ o ≤ top_order → NoDup (FL o).
Proof.
  intros Hi Ho. destruct (inv_lists _ _ _ _ _ _ Hi o Ho) as [Hnd _].
  apply NoDup_cons in Hnd as [_ Hnd]. by eapply NoDup_fmap_1.
Qed.

Lemma free_list_length pages nd nr FL A H o :
  pmm_inv pages nd nr FL A H → 0 ≤ o ≤ top_order →
  Z.of_nat (length (FL o)) ≤ Z.max 0 total.
Proof.
  intros Hi Ho.
  assert (length (FL o) ≤ length (pfns total))%nat as Hle.
  { apply submseteq_length, NoDup_submseteq; [by eapply free_list_nodup|].
    intros p Hp. assert (free_in FL (p, o)) as Hf by done.
    destruct (live_in_block_pos _ _ _ _ _ _ (p, o) p Hi); [by left| |].
    - by apply (live_head _ _ _ _ _ _ (p, o) Hi); left.
    - apply list_elem_of_fmap. exists (Z.to_nat p). split; [lia|].
      apply elem_of_seq. lia. }
  rewrite /pfns length_fmap length_seq in Hle. lia.
Qed.

(** A page of the block in hand is the head of no other block. *)
Lemma hand_not_head pages nd nr FL A H b c p :
  pmm_inv pages nd nr FL A H → b ∈ H → in_block p b → free_in FL c ∨ c ∈ A → c.1 ≠ p.
Proof.
  intros Hi Hb Hp Hc E. assert (b = c) as ->.
  { apply (inv_disj _ _ _ _ _ _ Hi _ _ p); [by right; right|rewrite /live; tauto|done|].
    rewrite -E. eapply live_head; [done|]. rewrite /live; tauto. }
  destruct Hc as [Hc|Hc].
  - by apply (inv_free_hand _ _ _ _ _ _ Hi c Hc).
  - by apply (inv_used_hand _ _ _ _ _ _ Hi c Hc).
Qed.

(** What the code tests of the buddy of the block in hand decides whether that
    buddy is a free block. *)
Lemma buddy_test pages nd nr FL A b pg :
  pmm_inv pages nd nr FL A {[b]} → buddy_pfn b < total → pages !! buddy_pfn b = Some pg →
  free_in FL (buddy b) ↔ is_page_free pg = true ∧ pg_order pg = b.2.
Proof.
  intros Hi Hlt Hpg.
  assert (live FL A {[b]} b) as Hlb by (right; right; set_solver).
  destruct (inv_wf _ _ _ _ _ _ Hi b Hlb) as [Hba _ Hbpos _].
  pose proof (buddy_aligned b Hba) as Hbba.
  split.
  { intros Hf. pose proof (inv_free_page _ _ _ _ _ _ Hi _ Hf) as E. simpl in E.
    rewrite E in Hpg. by simplify_eq. }
  intros [Hfree Hord].
  destruct (inv_cover _ _ _ _ _ _ Hi (buddy_pfn b)) as [(c & Hc & Hin)|(r & o & E)].
  { pose proof (buddy_nonneg b Hba). lia. }
  - destruct (inv_wf _ _ _ _ _ _ Hi c Hc) as [Hca _ _ _].
    destruct (decide (c.2 ≤ b.2)) as [Hle|Hgt].
    + pose proof (block_head_in (buddy b) c Hbba Hca Hle Hin) as E. simpl in E.
      rewrite E in Hpg. destruct Hc as [Hc|[Hc| ->%elem_of_singleton]].
      * rewrite (inv_free_page _ _ _ _ _ _ Hi c Hc) in Hpg. simplify_eq/=.
        by replace (buddy b) with c; [|destruct c; rewrite /buddy; simpl in *; congruence].
      * destruct (inv_used_page _ _ _ _ _ _ Hi c Hc) as (r & E' & _).
        rewrite E' in Hpg. by simplify_eq.
      * by destruct (buddy_ne b Hba).
    + exfalso. destruct (parent_spec b Hba) as [Hpa Hpages].
      assert (c = b) as ->; [|lia].
      apply (inv_disj _ _ _ _ _ _ Hi _ _ b.1); [done|done| |by apply block_head].
      apply (block_nested (parent b) c (buddy_pfn b)); [done|done|simpl; lia| |done|].
      * apply Hpages. right. by apply (block_head (buddy b)).
      * apply Hpages. left. by apply block_head.
  - rewrite E in Hpg. by simplify_eq.
Qed.

(** ** Page structs of the block in hand may be written freely *)
Lemma inv_write_hand pages nd nr FL A H b p pg :
  pmm_inv pages nd nr FL A H → b ∈ H → in_block p b →
  pmm_inv (<[p := pg]> pages) nd nr FL A H.
Proof.
  intros Hi Hb Hp. pose proof (λ c, hand_not_head _ _ _ _ _ _ b c p Hi Hb Hp) as Hne.
  destruct Hi. split; try done.
  - intros q Hq. split; [|by apply inv_dom0].
    destruct (decide (p = q)) as [->|]; [by rewrite lookup_insert_eq|].
    rewrite lookup_insert_ne //. by apply inv_dom0.
  - intros c Hc. rewrite lookup_insert_ne; [by apply inv_free_page0|].
    intros E. apply (Hne c); [by left|done].
  - intros c Hc. rewrite lookup_insert_ne; [by apply inv_used_page0|].
    intros E. apply (Hne c); [by right|done].
  - intros q Hq. destruct (decide (p = q)) as [->|].
    + left. exists b. split; [by right; right|done].
    + rewrite lookup_insert_ne //. by apply inv_cover0.
Qed.

(** ** Moves between [FL], [A] and [H] that change no memory *)

(** The invariant only looks at [live], at the free lists and at [A]: a change of
    [A] and [H] that keeps every page where it was keeps the parts it does not
    mention. *)
Lemma inv_same_free pages nd nr FL A H A' H' :
  pmm_inv pages nd nr FL A H →
  (∀ b, b ∈ A' ∨ b ∈ H' → block_wf total b) →
  (∀ b c p, live FL A' H' b → live FL A' H' c → in_block p b → in_block p c → b = c) →
  (∀ b, free_in FL b → b ∉ H') → (∀ b, b ∈ A' → b ∉ H') →
  (∀ b, b ∈ A' → ∃ r, pages !! b.1 = Some (mkPage PMM_FLAG_USED r b.2) ∧ 1 ≤ r < 2 ^ 32) →
  (∀ p, pages_of (live FL A H) p → pages_of (live FL A' H') p) →
  pmm_inv pages nd nr FL A' H'.
Proof.
  intros [] Hwf Hd Hf Hu Hp Hr. split; try done.
  - intros b [Hb|Hb]; [apply inv_wf0; by left|by apply Hwf].
  - intros p Hlt. destruct (inv_cover0 p Hlt); [left; by apply Hr|by right].
Qed.

(** A client's block comes into hand. *)
Lemma inv_take_used pages nd nr FL A H b :
  pmm_inv pages nd nr FL A H → b ∈ A → pmm_inv pages nd nr FL (A ∖ {[b]}) ({[b]} ∪ H).
Proof.
  intros Hi Hb.
  assert (∀ c, live FL (A ∖ {[b]}) ({[b]} ∪ H) c ↔ live FL A H c) as Hl.
  { intros c. rewrite /live. destruct (decide (c = b)) as [->|]; set_solver. }
  apply (inv_same_free _ _ _ _ A H); [done|..].
  - intros c Hc. apply Hi. rewrite -Hl /live. tauto.
  - intros c d p Hc%Hl Hd%Hl. by apply Hi.
  - intros c Hc. pose proof (free_not_used _ _ _ _ _ _ c Hi Hc).
    pose proof (inv_free_hand _ _ _ _ _ _ Hi c Hc). set_solver.
  - intros c Hc. pose proof (inv_used_hand _ _ _ _ _ _ Hi c). set_solver.
  - intros c Hc. apply Hi. set_solver.
  - intros p (c & Hc & Hpc). exists c. by rewrite Hl.
Qed.

(** The block in hand goes to a client. *)
Lemma inv_give_used pages nd nr FL A H b r :
  pmm_inv pages nd nr FL A ({[b]} ∪ H) → b ∉ H →
  pages !! b.1 = Some (mkPage PMM_FLAG_USED r b.2) → 1 ≤ r < 2 ^ 32 →
  pmm_inv pages nd nr FL ({[b]} ∪ A) H.
Proof.
  intros Hi Hb Hp Hr.
  assert (∀ c, live FL ({[b]} ∪ A) H c ↔ live FL A ({[b]} ∪ H) c) as Hl.
  { intros c. rewrite /live. set_solver. }
  apply (inv_same_free _ _ _ _ A ({[b]} ∪ H)); [done|..].
  - intros c Hc. apply Hi. rewrite -Hl /live. tauto.
  - intros c d p Hc%Hl Hd%Hl. by apply Hi.
  - intros c Hc. pose proof (inv_free_hand _ _ _ _ _ _ Hi c Hc). set_solver.
  - intros c Hc. pose proof (inv_used_hand _ _ _ _ _ _ Hi c). set_solver.
  - intros c [->%elem_of_singleton|Hc]%elem_of_union; [by exists r|by apply Hi].
  - intros p (c & Hc & Hpc). exists c. by rewrite Hl.
Qed.

(** A run of reserved pages comes into hand (only at initialisation). *)
Lemma inv_take_reserved pages nd nr FL A H b :
  pmm_inv pages nd nr FL A H → block_wf total b →
  (∀ p c, in_block p b → live FL A H c → ¬ in_block p c) →
  pmm_inv pages nd nr FL A ({[b]} ∪ H).
Proof.
  intros Hi Hwf Hno. pose proof (block_head b (bw_aligned _ _ Hwf)) as Hh.
  assert (¬ live FL A H b) as Hnl by (intros Hl; by apply (Hno b.1 b)).
  assert (∀ c, live FL A ({[b]} ∪ H) c ↔ c = b ∨ live FL A H c) as Hl.
  { intros c. rewrite /live. set_solver. }
  apply (inv_same_free _ _ _ _ A H); [done|..].
  - intros c Hc. assert (live FL A ({[b]} ∪ H) c) as Hlc by (rewrite /live; tauto).
    apply Hl in Hlc as [->|Hc']; [done|by apply Hi].
  - intros c d p [->|Hc]%Hl [->|Hd]%Hl Hpc Hpd; [done|..].
    + by destruct (Hno p d).
    + by destruct (Hno p c).
    + by apply (inv_disj _ _ _ _ _ _ Hi _ _ p).
  - intros c Hc. pose proof (inv_free_hand _ _ _ _ _ _ Hi c Hc).
    rewrite /live in Hnl. set_solver.
  - intros c Hc. pose proof (inv_used_hand _ _ _ _ _ _ Hi c Hc).
    rewrite /live in Hnl. set_solver.
  - apply Hi.
  - intros p (c & Hc & Hp). exists c. rewrite Hl. by split; [right|].
Qed.

(** The blocks [X] in hand are regarded as the blocks [Y] over the same pages. *)
Lemma inv_rehand pages nd nr FL A H (X Y : gset block) :
  pmm_inv pages nd nr FL A (X ∪ H) → X ## H →
  (∀ b, b ∈ Y → block_wf total b) →
  (∀ b c p, b ∈ Y → c ∈ Y → in_block p b → in_block p c → b = c) →
  (∀ p, pages_of (.∈ X) p ↔ pages_of (.∈ Y) p) →
  pmm_inv pages nd nr FL A (Y ∪ H).
Proof.
  intros Hi HXH Hwf Hdisj Hpages.
  assert (∀ b c p, b ∈ Y → live FL A (X ∪ H) c → in_block p b → in_block p c → c ∈ X) as Hin.
  { intros b c p Hb Hc Hpb Hpc. destruct (proj2 (Hpages p)) as (x & Hx & Hpx); [by exists b|].
    replace c with x; [done|]. apply (inv_disj _ _ _ _ _ _ Hi _ _ p); [|done..].
    right; right. set_solver. }
  assert (∀ b c, b ∈ Y → live FL A (X ∪ H) c → b = c → c ∈ X) as Hsame.
  { intros b c Hb Hc ->. pose proof (block_head c (bw_aligned _ _ (Hwf c Hb))).
    by apply (Hin c c c.1). }
  assert (∀ c, live FL A (Y ∪ H) c → c ∈ Y ∨ live FL A (X ∪ H) c ∧ c ∉ X) as Hl.
  { intros c [Hc|[Hc|Hc]].
    - right. split; [by left|]. pose proof (inv_free_hand _ _ _ _ _ _ Hi c Hc). set_solver.
    - right. split; [by right; left|].
      pose proof (inv_used_hand _ _ _ _ _ _ Hi c Hc). set_solver.
    - apply elem_of_union in Hc as [Hc|Hc]; [by left|].
      right. split; [right; right; set_solver|]. set_solver. }
  apply (inv_same_free _ _ _ _ A (X ∪ H)); [done|..].
  - intros c Hc. destruct (Hl c) as [Hc'|[Hc' _]]; [rewrite /live; tauto|by apply Hwf|by apply Hi].
  - intros c d p [Hc|[Hc Hcx]]%Hl [Hd|[Hd Hdx]]%Hl Hpc Hpd; [by apply (Hdisj _ _ p)|..].
    + destruct Hdx. by apply (Hin c d p).
    + destruct Hcx. by apply (Hin d c p).
    + by apply (inv_disj _ _ _ _ _ _ Hi _ _ p).
  - intros c Hc. pose proof (inv_free_hand _ _ _ _ _ _ Hi c Hc).
    pose proof (Hsame c c). assert (live FL A (X ∪ H) c) by (by left). set_solver.
  - intros c Hc. pose proof (inv_used_hand _ _ _ _ _ _ Hi c Hc).
    pose proof (Hsame c c). assert (live FL A (X ∪ H) c) by (by right; left). set_solver.
  - apply Hi.
  - intros p (c & Hc & Hpc). destruct (decide (c ∈ X)) as [Hx|].
    + destruct (proj1 (Hpages p)) as (y & Hy & Hpy); [by exists c|].
      exists y. split; [right; right; set_solver|done].
    + exists c. split; [|done]. rewrite /live in Hc |- *. set_solver.
Qed.

(** A block and its buddy, both in hand, are one block of the next order. *)
Lemma inv_merge pages nd nr FL A H b :
  pmm_inv pages nd nr FL A ({[b; buddy b]} ∪ H) → b.2 < top_order →
  b ∉ H → buddy b ∉ H → pmm_inv pages nd nr FL A ({[parent b]} ∪ H).
Proof.
  intros Hi Hlt Hb Hbb.
  destruct (inv_wf _ _ _ _ _ _ Hi b) as [Hba _ Hbpos Hbend]; [right; right; set_solver|].
  destruct (inv_wf _ _ _ _ _ _ Hi (buddy b)) as [_ _ Hbbpos Hbbend];
    [right; right; set_solver|].
  destruct (parent_spec b Hba) as [Hpa Hpages]. simpl in *.
  apply (inv_rehand _ _ _ _ _ _ {[b; buddy b]}); [done|set_solver|..].
  - intros c ->%elem_of_singleton. split; [done|simpl; lia|simpl; lia|].
    rewrite /parent /= Z.pow_add_r; [|by destruct Hba|lia].
    destruct Hba as [Ho [k Hk]]. rewrite (buddy_pfn_eq b k) // in Hbbend.
    rewrite (buddy_pfn_eq b k) //. rewrite Hk in Hbend. rewrite Hk. destruct (Z.odd k); lia.
  - set_solver.
  - intros p. rewrite /pages_of. split.
    + intros (c & Hc & Hp). exists (parent b). split; [set_solver|]. apply Hpages. set_solver.
    + intros (c & ->%elem_of_singleton & [Hp|Hp]%Hpages); eexists; (split; [|done]); set_solver.
Qed.

(** A block in hand is two blocks of the previous order. *)
Lemma inv_split pages nd nr FL A H (b o : Z) :
  pmm_inv pages nd nr FL A ({[(b, o)]} ∪ H) → 1 ≤ o → (b, o) ∉ H →
  pmm_inv pages nd nr FL A ({[(b, o - 1); buddy (b, o - 1)]} ∪ H).
Proof.
  intros Hi Ho Hb.
  destruct (inv_wf _ _ _ _ _ _ Hi (b, o)) as [Hba Hbo Hbpos Hbend];
    [right; right; set_solver|]. simpl in *.
  destruct (split_spec b o Hba Ho) as (Ha1 & Hbud & Hpar).
  destruct (parent_spec (b, o - 1) Ha1) as [_ Hpages]. rewrite Hpar in Hpages.
  destruct (pow2_pos (o - 1)) as [Hpos|]; [|lia].
  assert (2 ^ o = 2 * 2 ^ (o - 1)) by (rewrite -Z.pow_succ_r; [f_equal|]; lia).
  apply (inv_rehand _ _ _ _ _ _ {[(b, o)]}); [done|set_solver|..].
  - intros c [->%elem_of_singleton| ->%elem_of_singleton]%elem_of_union.
    + split; simpl; [done|lia..].
    + split; [by apply buddy_aligned|simpl; lia..].
  - intros c d p Hc Hd Hpc Hpd. pose proof (buddy_disjoint (b, o - 1) p Ha1). set_solver.
  - intros p. rewrite /pages_of. split.
    + intros (c & ->%elem_of_singleton & [Hp|Hp]%Hpages); eexists; (split; [|done]); set_solver.
    + intros (c & Hc & Hp). exists (b, o). split; [set_solver|]. apply Hpages. set_solver.
Qed.

(** ** Moves that change the free lists *)

(** A page is on one free list at most. *)
Lemma free_list_unique pages nd nr FL A H o o' p :
  pmm_inv pages nd nr FL A H → 0 ≤ o ≤ top_order → 0 ≤ o' ≤ top_order →
  p ∈ FL o → p ∈ FL o' → o = o'.
Proof.
  intros Hi Ho Ho' Hp Hp'. assert (((p, o) : block) = (p, o')) as [= ->]; [|done].
  assert (free_in FL (p, o)) as H1 by done. assert (free_in FL (p, o')) as H2 by done.
  apply (inv_disj _ _ _ _ _ _ Hi _ _ p); [by left|by left|..].
  - by apply (live_head _ _ _ _ _ _ (p, o) Hi); left.
  - by apply (live_head _ _ _ _ _ _ (p, o') Hi); left.
Qed.

(** Nodes outside one free list keep the other free lists. *)
Lemma other_lists_frame pages nd nd' nr FL A H o l' (ps : list Z) :
  pmm_inv pages nd nr FL A H →
  same_outside (AreaHead o :: (PageLink <$> ps)) nd nd' →
  (∀ p o', p ∈ ps → 0 ≤ o' ≤ top_order → o' ≠ o → p ∉ FL o') →
  dll_rep nd' (AreaHead o) (PageLink <$> l') →
  ∀ o', 0 ≤ o' ≤ top_order →
    dll_rep nd' (AreaHead o') (PageLink <$> <[o := l']> FL o').
Proof.
  intros Hi Hout Hps Hrep o' Ho'. destruct (decide (o = o')) as [->|Hne].
  { by rewrite fn_lookup_insert. }
  rewrite fn_lookup_insert_ne //.
  apply (dll_rep_frame nd); [|by apply Hi].
  intros k Hk. apply Hout. intros Hbad.
  apply elem_of_cons in Hk as [->|(p & -> & Hp)%list_elem_of_fmap];
    apply elem_of_cons in Hbad as [E|(q & E & Hq)%list_elem_of_fmap]; simplify_eq.
  by apply (Hps q o').
Qed.

Lemma nr_free_frame nr FL o l' :
  (∀ o, 0 ≤ o ≤ top_order → nr !! o = Some (Z.of_nat (length (FL o)))) →
  ∀ o', 0 ≤ o' ≤ top_order →
    <[o := Z.of_nat (length l')]> nr !! o' = Some (Z.of_nat (length (<[o := l']> FL o'))).
Proof.
  intros Hnr o' Ho'. destruct (decide (o = o')) as [->|Hne].
  - by rewrite lookup_insert_eq fn_lookup_insert.
  - rewrite lookup_insert_ne // fn_lookup_insert_ne //. by apply Hnr.
Qed.

(** A block is taken out of its free list. *)
Lemma free_in_delete FL b l1 l2 c :
  0 ≤ b.2 ≤ top_order → FL b.2 = l1 ++ b.1 :: l2 → NoDup (FL b.2) →
  free_in (<[b.2 := l1 ++ l2]> FL) c ↔ free_in FL c ∧ c ≠ b.
Proof.
  intros Hb HFL Hnd. rewrite HFL in Hnd.
  apply NoDup_app in Hnd as (_ & Hd & [Hb2 _]%NoDup_cons).
  destruct b as [b o], c as [c o']; rewrite /free_in /= in HFL Hb Hb2 Hd |- *.
  destruct (decide (o = o')) as [->|].
  - rewrite fn_lookup_insert HFL. set_solver.
  - rewrite fn_lookup_insert_ne //. naive_solver.
Qed.

Lemma inv_unfree pages nd nr FL A H b l1 l2 :
  pmm_inv pages nd nr FL A H → 0 ≤ b.2 ≤ top_order → FL b.2 = l1 ++ b.1 :: l2 →
  ∃ nd', dll_delete nd (PageLink b.1) = Ok nd' ∧
    nr !! b.2 = Some (Z.of_nat (length (FL b.2))) ∧
    pmm_inv pages nd' (<[b.2 := u64 (Z.of_nat (length (FL b.2)) + -1)]> nr)
      (<[b.2 := l1 ++ l2]> FL) A ({[b]} ∪ H).
Proof.
  intros Hi Hb HFL.
  pose proof (free_list_nodup _ _ _ _ _ _ _ Hi Hb) as Hnd.
  pose proof (free_list_length _ _ _ _ _ _ _ Hi Hb) as Hlen.
  pose proof (inv_total _ _ _ _ _ _ Hi) as Htot.
  pose proof (inv_lists _ _ _ _ _ _ Hi _ Hb) as Hrep.
  rewrite {1}HFL fmap_app fmap_cons in Hrep.
  destruct (dll_delete_ok _ _ _ _ _ Hrep) as (nd' & E & Hrep' & Hout & Hdom).
  exists nd'. split; [done|]. split; [by apply Hi|].
  pose proof (λ c, free_in_delete FL b l1 l2 c Hb HFL Hnd) as Hf.
  assert (free_in FL b) as Hfb by (split; [done|rewrite HFL; set_solver]).
  assert (∀ c, live (<[b.2 := l1 ++ l2]> FL) A ({[b]} ∪ H) c ↔ live FL A H c) as Hl.
  { intros c. rewrite /live Hf. destruct (decide (c = b)) as [->|]; set_solver. }
  pose proof (free_not_used _ _ _ _ _ _ _ Hi Hfb) as HbA.
  pose proof Hi as []. split.
  - done.
  - apply (other_lists_frame pages nd nd' nr FL A H b.2 (l1 ++ l2) (FL b.2)); [done|..].
    + intros k Hk. apply Hout. rewrite HFL in Hk. rewrite fmap_app in Hk. set_solver.
    + intros p o' Hp Ho' Hne Hp'. apply Hne. by eapply free_list_unique.
    + by rewrite fmap_app.
  - replace (u64 _) with (Z.of_nat (length (l1 ++ l2))); [by apply nr_free_frame|].
    rewrite HFL !length_app /= in Hlen |- *. rewrite u64_small; lia.
  - intros p Hp. rewrite Hdom. by apply inv_dom0.
  - intros c Hc%Hl. by apply inv_wf0.
  - intros c d p Hc%Hl Hd%Hl. by apply inv_disj0.
  - intros c [Hc Hne]%Hf. pose proof (inv_free_hand0 c Hc). set_solver.
  - intros c Hc. pose proof (inv_used_hand0 c Hc). set_solver.
  - intros c [Hc Hne]%Hf. by apply inv_free_page0.
  - done.
  - intros p Hp. destruct (inv_cover0 p Hp) as [(c & Hc & Hpc)|]; [left|by right].
    exists c. by rewrite Hl.
  - intros c [Hc _]%Hf Hlt [Hbc _]%Hf. by apply (inv_coalesced0 c).
Qed.

(** The block in hand is put at the front of its free list. *)
Lemma free_in_insert FL b c :
  0 ≤ b.2 ≤ top_order →
  free_in (<[b.2 := b.1 :: FL b.2]> FL) c ↔ free_in FL c ∨ c = b.
Proof.
  intros Hb. destruct b as [b o], c as [c o']; rewrite /free_in /= in Hb |- *.
  destruct (decide (o = o')) as [->|].
  - rewrite fn_lookup_insert. set_solver.
  - rewrite fn_lookup_insert_ne //. naive_solver.
Qed.

Lemma inv_refree pages nd nr FL A H b :
  pmm_inv pages nd nr FL A ({[b]} ∪ H) → b ∉ H →
  pages !! b.1 = Some (mkPage PMM_FLAG_FREE 0 b.2) →
  (b.2 < top_order → ¬ free_in FL (buddy b)) →
  ∃ nd', dll_add_after nd (AreaHead b.2) (PageLink b.1) = Ok nd' ∧
    nr !! b.2 = Some (Z.of_nat (length (FL b.2))) ∧
    pmm_inv pages nd' (<[b.2 := u64 (Z.of_nat (length (FL b.2)) + 1)]> nr)
      (<[b.2 := b.1 :: FL b.2]> FL) A H.
Proof.
  intros Hi HbH Hpg Hbud.
  assert (live FL A ({[b]} ∪ H) b) as Hlb by (right; right; set_solver).
  destruct (inv_wf _ _ _ _ _ _ Hi b Hlb) as [Hba Hbo Hbpos Hbend].
  assert (0 ≤ b.2 ≤ top_order) as Hb by (destruct Hba; lia).
  pose proof (live_in_block_pos _ _ _ _ _ _ _ _ Hi Hlb (block_head _ Hba)) as Hrange.
  assert (∀ o, 0 ≤ o ≤ top_order → b.1 ∉ FL o) as Hnot.
  { intros o Ho Hin.
    eapply (hand_not_head _ _ _ _ _ _ b (b.1, o)); [done|set_solver|by apply block_head| |done].
    by left. }
  pose proof (free_list_length _ _ _ _ _ _ _ Hi Hb) as Hlen.
  pose proof (inv_total _ _ _ _ _ _ Hi) as Htot.
  destruct (dll_add_after_ok nd (AreaHead b.2) (PageLink b.1) (PageLink <$> FL b.2))
    as (nd' & E & Hrep' & Hout & Hdom).
  { by apply Hi. }
  { intros [|(q & ? & Hq)%list_elem_of_fmap]%elem_of_cons; simplify_eq. by apply (Hnot b.2). }
  { apply Hi. lia. }
  exists nd'. split; [done|]. split; [by apply Hi|].
  pose proof (λ c, free_in_insert FL b c Hb) as Hf.
  assert (∀ c, live (<[b.2 := b.1 :: FL b.2]> FL) A H c ↔ live FL A ({[b]} ∪ H) c) as Hl.
  { intros c. rewrite /live Hf. set_solver. }
  pose proof Hi as []. split.
  - done.
  - apply (other_lists_frame pages nd nd' nr FL A ({[b]} ∪ H) b.2 (b.1 :: FL b.2)
      (b.1 :: FL b.2)); [done|..].
    + intros k Hk. apply Hout. set_solver.
    + intros p o' [->|Hp]%elem_of_cons Ho' Hne Hp'; [by apply (Hnot o')|].
      apply Hne. by eapply free_list_unique.
    + done.
  - replace (u64 _) with (Z.of_nat (length (b.1 :: FL b.2))); [by apply nr_free_frame|].
    simpl. rewrite u64_small; lia.
  - intros p Hp. rewrite Hdom. by apply inv_dom0.
  - intros c Hc%Hl. by apply inv_wf0.
  - intros c d p Hc%Hl Hd%Hl. by apply inv_disj0.
  - intros c [Hc|Hc]%Hf; [pose proof (inv_free_hand0 c Hc)|]; set_solver.
  - intros c Hc. pose proof (inv_used_hand0 c Hc). set_solver.
  - intros c [Hc| ->]%Hf; [by apply inv_free_page0|done].
  - done.
  - intros p Hp. destruct (inv_cover0 p Hp) as [(c & Hc & Hpc)|]; [left|by right].
    exists c. by rewrite Hl.
  - intros c [Hc| ->]%Hf Hlt [Hbc|E']%Hf.
    + by apply (inv_coalesced0 c).
    + apply Hbud; [by rewrite -E'|]. rewrite -E' buddy_involutive //.
      apply inv_wf0. by left.
    + by apply Hbud.
    + apply (buddy_ne b Hba). by rewrite -{2}E'.
Qed.
End inv.
