(* ===== verification/PmmOps.v ===== *)
(** * The physical memory manager: what each operation does

    Every operation of Pmm.v returns (it never dereferences an invalid pointer,
    never deadlocks, never runs out of fuel) and moves blocks between the free
    lists and the allocated set as a buddy allocator should. *)

From stdpp Require Import base gmap list numbers functions.
From S2P Require Import Prelude Spinlock Dll Hhdm Buddy Pmm PmmInv.

(** The invariant of a state whose running operation has [H] in hand. *)
Definition pmm_ok (s : pmm_state) (FL : Z → list Z) (A H : gset block) : Prop :=
  pmm_inv (totalPages s) (buddy_memmap s) (nodes s) (nr_free s) FL A H.

(** The parts of the state the free lists and page structs have no part in. *)
Definition frame_of (s : pmm_state) :=
  (pmm_cpu s, pmm_lock s, memmap s, buddy_memmap_virt s, buddy_memmap_size s,
   totalPages s, highestAddr s).

(** ** Primitive steps *)

Lemma wp_read_page p pg Q s :
  buddy_memmap s !! p = Some pg → Q pg s → wp (read_page p) Q s.
Proof. intros. by eapply wp_reads. Qed.

Lemma wp_update_page p f pg Q s :
  buddy_memmap s !! p = Some pg →
  Q tt (with_pages (<[p := f pg]> (buddy_memmap s)) s) → wp (update_page p f) Q s.
Proof. intros Hp HQ. apply wp_bind. by eapply wp_read_page. Qed.

Lemma wp_on_nodes f h Q s :
  f (nodes s) = Ok h → Q tt (with_nodes h s) → wp (on_nodes f) Q s.
Proof. rewrite /wp /on_nodes. by intros ->. Qed.

Lemma wp_nr_free_add o d n Q s :
  nr_free s !! o = Some n →
  Q tt (with_nr_free (<[o := u64 (n + d)]> (nr_free s)) s) → wp (nr_free_add o d) Q s.
Proof. intros Hn HQ. apply wp_bind. by eapply wp_reads. Qed.

Lemma wp_pfn_to_page p Q s :
  Q (if totalPages s <=? p then None else Some p) s → wp (pfn_to_page p) Q s.
Proof. intros HQ. by apply wp_bind. Qed.

(** Three stores into one page struct, the way the code fills a struct in. *)
Lemma wp_fill_page {B} p fl r o pg Q s (k : M pmm_state B) (f1 f2 f3 : pmm_page → pmm_page) :
  buddy_memmap s !! p = Some pg → f3 (f2 (f1 pg)) = mkPage fl r o →
  wp k Q (with_pages (<[p := mkPage fl r o]> (buddy_memmap s)) s) →
  wp (update_page p f1;;; update_page p f2;;; update_page p f3;;; k) Q s.
Proof.
  intros Hp Hf Hk. apply wp_bind. eapply wp_update_page; [done|].
  apply wp_bind. eapply wp_update_page; [apply lookup_insert_eq|].
  apply wp_bind. eapply wp_update_page; [apply lookup_insert_eq|].
  rewrite Hf /with_pages /= !insert_insert_eq. done.
Qed.

Lemma free_page_delete FL b l1 l2 p :
  0 ≤ b.2 ≤ top_order → FL b.2 = l1 ++ b.1 :: l2 → NoDup (FL b.2) →
  free_page FL p ↔ free_page (<[b.2 := l1 ++ l2]> FL) p ∨ in_block p b.
Proof.
  intros Hb HFL Hnd. rewrite /free_page /pages_of.
  setoid_rewrite (λ c, free_in_delete FL b l1 l2 c Hb HFL Hnd).
  assert (free_in FL b) by (split; [done|]; rewrite HFL; set_solver).
  split; [|naive_solver]. intros (c & Hc & Hp).
  destruct (decide (c = b)) as [->|]; [by right|left]. by exists c.
Qed.

Lemma free_page_insert FL b p :
  0 ≤ b.2 ≤ top_order →
  free_page (<[b.2 := b.1 :: FL b.2]> FL) p ↔ free_page FL p ∨ in_block p b.
Proof.
  intros Hb. rewrite /free_page /pages_of.
  setoid_rewrite (λ c, free_in_insert FL b c Hb). naive_solver.
Qed.

(** The block in hand is marked free and put at the front of its free list. *)
Lemma wp_put_free b s FL A H Q (k : M pmm_state unit) (f1 f2 f3 : pmm_page → pmm_page) :
  pmm_ok s FL A ({[b]} ∪ H) → b ∉ H → (b.2 < top_order → ¬ free_in FL (buddy b)) →
  (∀ pg, f3 (f2 (f1 pg)) = mkPage PMM_FLAG_FREE 0 b.2) →
  (∀ s', pmm_ok s' (<[b.2 := b.1 :: FL b.2]> FL) A H → frame_of s' = frame_of s →
     used_pages s' = used_pages s → wp k Q s') →
  wp (update_page b.1 f1;;; update_page b.1 f2;;; update_page b.1 f3;;;
      on_nodes (λ h, dll_add_after h (AreaHead b.2) (PageLink b.1));;;
      nr_free_add b.2 1;;; k) Q s.
Proof.
  intros Hi HbH Hbud Hf Hk.
  assert (live FL A ({[b]} ∪ H) b) as Hlb by auto with pmm.
  pose proof (live_head _ _ _ _ _ _ _ _ Hi Hlb) as Hh.
  pose proof (live_in_block_pos _ _ _ _ _ _ _ _ _ Hi Hlb Hh) as Hrange.
  destruct (inv_dom _ _ _ _ _ _ _ Hi b.1) as [[pg Hpg] _]; [lia|].
  eapply wp_fill_page; [done|apply Hf|].
  destruct (inv_refree (totalPages s) (<[b.1 := mkPage PMM_FLAG_FREE 0 b.2]> (buddy_memmap s))
    (nodes s) (nr_free s) FL A H b) as (nd & Hadd & Hnr & Hi2).
  { apply (inv_write_hand _ _ _ _ _ _ _ b); [done|set_solver|done]. }
  { done. }
  { by rewrite lookup_insert_eq. }
  { done. }
  apply wp_bind. eapply wp_on_nodes; [done|].
  apply wp_bind. eapply wp_nr_free_add; [done|].
  by eapply Hk; [exact Hi2|..].
Qed.

(** ** Coalescing *)

(** The result of the coalescing loop: the block in hand has grown to [r], its
    buddy is not free, and no page was gained or lost. *)
Definition coalesced_to (s : pmm_state) (FL : Z → list Z) (A : gset block) (b r : block)
    (s' : pmm_state) : Prop :=
  ∃ FL', pmm_ok s' FL' A {[r]} ∧ frame_of s' = frame_of s ∧ used_pages s' = used_pages s ∧
    b.2 ≤ r.2 ∧ (r.2 < top_order → ¬ free_in FL' (buddy r)) ∧
    (∀ p, free_page FL' p ∨ in_block p r ↔ free_page FL p ∨ in_block p b).

Lemma coalesced_stop s FL A b :
  pmm_ok s FL A {[b]} → (b.2 < top_order → ¬ free_in FL (buddy b)) →
  coalesced_to s FL A b b s.
Proof. intros. by exists FL. Qed.

(** One iteration: the free buddy leaves its list and joins the block in hand. *)
Lemma coalesce_step s FL A b Q (k : M pmm_state block) :
  pmm_ok s FL A {[b]} → b.2 < top_order → free_in FL (buddy b) →
  (∀ s1 FL1, pmm_ok s1 FL1 A {[parent b]} → frame_of s1 = frame_of s →
     used_pages s1 = used_pages s →
     (∀ p, free_page FL1 p ∨ in_block p (parent b) ↔ free_page FL p ∨ in_block p b) →
     wp k Q s1) →
  wp (on_nodes (λ h, dll_delete h (PageLink (buddy_pfn b)));;;
      nr_free_add b.2 (-1);;;
      update_page (buddy_pfn b) (λ pg, mkPage (pg_flags pg) (pg_ref_count pg) 0);;; k) Q s.
Proof.
  intros Hi Hlt Hf Hk. pose proof Hf as [Ho Hin]. simpl in Ho, Hin.
  apply list_elem_of_split in Hin as (l1 & l2 & HFL).
  destruct (inv_unfree _ _ _ _ _ _ _ (buddy b) l1 l2 Hi Ho HFL) as (nd & Hdel & Hnr & Hi').
  simpl in *.
  assert (aligned b) as Hba by (apply (inv_wf _ _ _ _ _ _ _ Hi); auto with pmm).
  apply wp_bind. eapply wp_on_nodes; [done|].
  apply wp_bind. eapply wp_nr_free_add; [done|].
  apply wp_bind. eapply wp_update_page; [exact (inv_free_page _ _ _ _ _ _ _ Hi _ Hf)|].
  assert (pmm_inv (totalPages s) (<[buddy_pfn b := mkPage PMM_FLAG_FREE 0 0]> (buddy_memmap s))
    nd (<[b.2 := u64 (Z.of_nat (length (FL b.2)) + -1)]> (nr_free s))
    (<[b.2 := l1 ++ l2]> FL) A {[parent b]}) as Hm.
  { rewrite -(right_id_L ∅ (∪) {[parent b]}).
    apply inv_merge; [|done|set_solver|set_solver].
    apply (inv_write_hand _ _ _ _ _ _ _ (buddy b)); [|set_solver|by apply block_head, buddy_aligned].
    by rewrite -hand_pair. }
  eapply Hk; [exact Hm|done|done|]. intros p.
  rewrite (free_page_delete FL (buddy b) l1 l2 p Ho HFL); [|by eapply free_list_nodup].
  simpl. destruct (parent_spec b Hba) as [_ Hp]. rewrite Hp. tauto.
Qed.

Lemma coalesce_wp fuel b s FL A :
  pmm_ok s FL A {[b]} → (Z.to_nat (top_order - b.2) < fuel)%nat →
  wp (coalesce fuel b.1 b.2) (coalesced_to s FL A b) s.
Proof.
  revert b s FL. induction fuel as [|fuel IH]; [lia|]. intros b s FL Hi Hfuel. simpl.
  assert (block_wf (totalPages s) b) as [Hba Hbo Hbpos Hbend].
  { apply (inv_wf _ _ _ _ _ _ _ Hi). auto with pmm. }
  change (Z.lxor b.1 (Z.shiftl 1 b.2)) with (buddy_pfn b).
  destruct b as [b o]; simpl in *.
  destruct (Z.ltb_spec o top_order) as [Hlt|Hge].
  2: { apply wp_ret. apply coalesced_stop; [done|]. simpl. lia. }
  apply wp_bind, wp_pfn_to_page. wp_steps.
  destruct (Z.leb_spec (totalPages s) (buddy_pfn (b, o))) as [Hout|Hin].
  { apply wp_ret. apply coalesced_stop; [done|]. intros _ Hf.
    destruct (inv_wf _ _ _ _ _ _ _ Hi (buddy (b, o))) as [_ _ _ Hend]; [by left|].
    simpl in Hend. destruct (pow2_pos o); [lia|]. destruct Hba; simpl in *; lia. }
  destruct (inv_dom _ _ _ _ _ _ _ Hi (buddy_pfn (b, o))) as [[pg Hpg] _].
  { pose proof (buddy_nonneg (b, o) Hba). simpl in *. lia. }
  apply wp_bind. eapply wp_read_page; [done|].
  pose proof (buddy_test _ _ _ _ _ _ (b, o) pg Hi Hin Hpg) as Htest.
  destruct (negb (is_page_free pg) || negb (pg_order pg =? o)) eqn:Ht.
  { apply wp_ret. apply coalesced_stop; [done|]. intros _ [Hf E]%Htest.
    rewrite Hf E Z.eqb_refl in Ht. done. }
  apply orb_false_iff in Ht as [Hf%negb_false_iff E%negb_false_iff%Z.eqb_eq].
  apply (coalesce_step s FL A (b, o)); [done|done|by apply Htest|].
  intros s1 FL1 Hi1 Hfr Hus Hpages.
  replace (if buddy_pfn (b, o) <? b then buddy_pfn (b, o) else b) with (parent (b, o)).1.
  2: { simpl. destruct (Z.ltb_spec (buddy_pfn (b, o)) b); lia. }
  change (o + 1) with (parent (b, o)).2.
  eapply wp_mono; [apply IH; [done|simpl; lia]|].
  intros r s2 (FL2 & Hi2 & Hfr2 & Hus2 & Hr & Hbud & Hpages2). simpl in Hr.
  exists FL2. split; [done|]. split; [congruence|]. split; [congruence|]. split; [simpl; lia|].
  split; [done|]. intros p. by rewrite Hpages2.
Qed.

(** ** Freeing the block in hand *)

(** What freeing does: the block's pages join the free pages. *)
Definition freed (s : pmm_state) (FL : Z → list Z) (A : gset block) (b : block)
    (s' : pmm_state) : Prop :=
  ∃ FL' r, pmm_ok s' FL' A ∅ ∧ b.2 ≤ r ≤ top_order ∧
    used_pages s' = u64 (used_pages s - 2 ^ r) ∧
    (∀ p, free_page FL' p ↔ free_page FL p ∨ in_block p b).

Lemma free_block_wp b s FL A :
  pmm_ok s FL A {[b]} →
  wp (free_block b.1 b.2) (λ _ s', freed s FL A b s' ∧ frame_of s' = frame_of s) s.
Proof.
  intros Hi. pose proof (inv_wf _ _ _ _ _ _ _ Hi b) as Hwf.
  destruct Hwf as [[Hb0 _] Hb1 _ _]; [auto with pmm|].
  apply wp_bind. eapply wp_mono.
  { apply coalesce_wp; [done|]. rewrite /PMM_MAX_ORDER in Hb1 |- *. lia. }
  intros [b' r] s1 (FL1 & Hi1 & Hfr & Hus & Hr & Hbud & Hpages). simpl in *.
  rewrite -(right_id_L ∅ (∪) {[(b', r)]}) in Hi1.
  apply (wp_put_free (b', r) s1 FL1 A ∅); [done|set_solver|done|done|].
  intros s2 Hi2 Hfr2 Hus2. apply wp_modify. split; [|by rewrite -Hfr -Hfr2].
  destruct (inv_wf _ _ _ _ _ _ _ Hi1 (b', r)) as [_ Hro _ _]; [auto with pmm|].
  eexists _, r. split; [exact Hi2|]. split; [done|]. simpl in *.
  split; [by rewrite Hus2 Hus shiftl_1_pow2; [|lia]|].
  intros p. rewrite (free_page_insert FL1 (b', r)); [|simpl; lia]. apply Hpages.
Qed.

(** ** Taking and releasing the lock *)

Definition pmm_unlocked (s : pmm_state) : Prop := lock_free (pmm_lock s).

Lemma wp_acquire Q s :
  pmm_unlocked s →
  (∀ l c, lock_held l → interrupts_enabled c = false →
     Q (rflags (pmm_cpu s)) (with_lock l c s)) →
  wp pmm_lock_acquire Q s.
Proof.
  intros Hfree HQ.
  destruct (spinlock_acquire_free (pmm_lock s) (pmm_cpu s) Hfree) as (l & c & E & Hl & Hc).
  rewrite /wp /pmm_lock_acquire E. by apply HQ.
Qed.

Lemma wp_release flags Q s :
  lock_held (pmm_lock s) →
  (∀ l, lock_free l → Q tt (with_lock l (mkCpu flags) s)) →
  wp (pmm_lock_release flags) Q s.
Proof.
  intros Hheld HQ. apply wp_modify.
  destruct (spinlock_release_held (pmm_lock s) flags (pmm_cpu s) Hheld) as (l & E & Hl).
  rewrite E. by apply HQ.
Qed.

(** After an operation: the lock is free again, RFLAGS are the caller's, and the
    fixed part of the state is as it was. *)
Definition returned (s s' : pmm_state) : Prop :=
  pmm_unlocked s' ∧ pmm_cpu s' = pmm_cpu s ∧ memmap s' = memmap s ∧
  buddy_memmap_virt s' = buddy_memmap_virt s ∧ buddy_memmap_size s' = buddy_memmap_size s ∧
  totalPages s' = totalPages s ∧ highestAddr s' = highestAddr s.

Lemma returned_trans s s1 s2 : returned s s1 → returned s1 s2 → returned s s2.
Proof. rewrite /returned. intuition congruence. Qed.

Lemma returned_release s s1 l l' c :
  frame_of s1 = frame_of (with_lock l c s) → lock_free l' →
  returned s (with_lock l' (mkCpu (rflags (pmm_cpu s))) s1).
Proof.
  rewrite /frame_of /returned /=. intros [=] Hl. by destruct (pmm_cpu s).
Qed.

(** ** Freeing *)

Lemma free_pages_in_hand b s FL A :
  pmm_ok s FL A {[b]} → pmm_unlocked s →
  wp (pmm_free_pages (b.1 * PMM_PAGE_SIZE) b.2)
    (λ _ s', freed s FL A b s' ∧ returned s s') s.
Proof.
  intros Hi Hul. rewrite /pmm_free_pages Z.mod_mul // Z.div_mul //=.
  destruct (inv_wf _ _ _ _ _ _ _ Hi b) as [Hba Hbo Hbpos Hbend]; [auto with pmm|].
  destruct Hba as [Hb0 _]. destruct (pow2_pos b.2); [|lia].
  apply wp_bind, wp_acquire; [done|]. intros l c Hl Hc.
  apply wp_bind, wp_pfn_to_page. simpl.
  destruct (Z.leb_spec (totalPages s) b.1); [lia|].
  apply wp_bind. eapply wp_mono; [by apply (free_block_wp b _ FL A)|].
  intros [] s1 [Hf Hfr]. apply wp_release.
  { by injection Hfr as _ -> _ _ _ _ _. }
  intros l' Hl'. split; [done|]. by eapply returned_release.
Qed.

Lemma free_pages_used b s FL A :
  pmm_ok s FL A ∅ → pmm_unlocked s → b ∈ A →
  wp (pmm_free_pages (b.1 * PMM_PAGE_SIZE) b.2)
    (λ _ s', freed s FL (A ∖ {[b]}) b s' ∧ returned s s') s.
Proof.
  intros Hi Hul Hb. apply free_pages_in_hand; [|done].
  pose proof (inv_take_used _ _ _ _ _ _ _ b Hi Hb) as Hi'. by rewrite right_id_L in Hi'.
Qed.

(** Calls the code rejects: unaligned addresses and pages it does not manage. *)
Lemma free_pages_unaligned phys order s :
  phys mod PMM_PAGE_SIZE ≠ 0 → pmm_free_pages phys order s = Ok (tt, s).
Proof.
  intros H. rewrite /pmm_free_pages. by destruct (Z.eqb_spec (phys mod PMM_PAGE_SIZE) 0).
Qed.

Lemma free_pages_outside phys order s :
  phys mod PMM_PAGE_SIZE = 0 → totalPages s ≤ phys / PMM_PAGE_SIZE → pmm_unlocked s →
  wp (pmm_free_pages phys order) (λ _ s', returned s s' ∧
    buddy_memmap s' = buddy_memmap s ∧ nodes s' = nodes s ∧ nr_free s' = nr_free s ∧
    used_pages s' = used_pages s) s.
Proof.
  intros Ha Hout Hul. rewrite /pmm_free_pages Ha /=.
  apply wp_bind, wp_acquire; [done|]. intros l c Hl Hc.
  apply wp_bind, wp_pfn_to_page. simpl.
  destruct (Z.leb_spec (totalPages s) (phys / PMM_PAGE_SIZE)); [|lia].
  apply wp_release; [done|]. intros l' Hl'. split; [|done].
  by apply (returned_release s (with_lock l c s) l l' c).
Qed.

(** ** Allocating *)

Lemma find_area_wp fuel o s FL A H :
  pmm_ok s FL A H → 0 ≤ o ≤ PMM_MAX_ORDER → (Z.to_nat (PMM_MAX_ORDER - o) < fuel)%nat →
  wp (find_area fuel o) (λ r s', s' = s ∧
    match r with
    | Some c => o ≤ c ≤ top_order ∧ FL c ≠ []
    | None => ∀ c, o ≤ c ≤ top_order → FL c = []
    end) s.
Proof.
  intros Hi. revert o. induction fuel as [|fuel IH]; [lia|]. intros o Ho Hfuel. simpl.
  destruct (Z.ltb_spec o PMM_MAX_ORDER); [|apply wp_ret; split; [done|]; intros; lia].
  apply wp_bind. eapply wp_ask; [apply (dll_empty_ok _ _ (PageLink <$> FL o)), Hi; lia|].
  case_bool_decide as Hemp; simpl.
  - eapply wp_mono; [apply IH; lia|]. intros [c|] s' [-> Hc]; (split; [done|]).
    + destruct Hc. split; [lia|done].
    + intros c Hr. destruct (decide (c = o)) as [->|]; [by apply fmap_nil_inv in Hemp|].
      apply Hc. lia.
  - split; [done|]. split; [lia|]. intros E. by rewrite E in Hemp.
Qed.

(** The splitting loop: the upper halves go to the free lists, the block of the
    wanted order stays in hand. *)
Lemma split_block_wp fuel b c o s FL A :
  pmm_ok s FL A {[(b, c)]} → 0 ≤ o ≤ c → (Z.to_nat (c - o) < fuel)%nat →
  wp (split_block fuel b c o) (λ _ s', ∃ FL', pmm_ok s' FL' A {[(b, o)]} ∧
    frame_of s' = frame_of s ∧ used_pages s' = used_pages s ∧
    (∀ p, free_page FL' p ∨ in_block p (b, o) ↔ free_page FL p ∨ in_block p (b, c))) s.
Proof.
  revert c s FL. induction fuel as [|fuel IH]; [lia|]. intros c s FL Hi Ho Hfuel. simpl.
  destruct (Z.ltb_spec o c) as [Hlt|Hge].
  2: { assert (c = o) as -> by lia. apply wp_ret. by exists FL. }
  change (Z.lxor b (Z.shiftl 1 (c - 1))) with (buddy_pfn (b, c - 1)).
  destruct (inv_wf _ _ _ _ _ _ _ Hi (b, c)) as [Hba Hbo Hbpos Hbend];
    [auto with pmm|]. simpl in *.
  destruct (split_spec b c Hba ltac:(lia)) as (Ha1 & Hbud & Hpar).
  destruct (parent_spec (b, c - 1) Ha1) as [_ Hpages]. rewrite Hpar in Hpages.
  assert (pmm_ok s FL A ({[buddy (b, c - 1)]} ∪ {[(b, c - 1)]})) as Hi1.
  { rewrite hand_pair. apply inv_split; [|lia|apply not_elem_of_empty]. by rewrite right_id_L. }
  destruct (inv_wf _ _ _ _ _ _ _ Hi1 (buddy (b, c - 1))) as [Hbba Hbbo Hbbpos Hbbend];
    [auto with pmm|]. simpl in *.
  destruct (pow2_pos (c - 1)) as [Hpow|]; [|lia].
  apply wp_bind, wp_pfn_to_page.
  destruct (Z.leb_spec (totalPages s) (buddy_pfn (b, c - 1))); [lia|].
  apply (wp_put_free (buddy (b, c - 1)) s FL A {[(b, c - 1)]}); [done|..].
  { intros E%elem_of_singleton. apply (buddy_ne (b, c - 1) Ha1). by injection E. }
  { intros _ Hf. rewrite buddy_involutive // in Hf.
    apply (inv_free_hand _ _ _ _ _ _ _ Hi1 _ Hf).
    apply elem_of_union_r, elem_of_singleton. done. }
  { done. }
  intros s1 Hi2 Hfr1 Hus1. eapply wp_mono; [eapply IH; [exact Hi2|lia|lia]|].
  intros [] s2 (FL2 & Hi3 & Hfr & Hus & Hp2).
  exists FL2. split; [done|]. split; [congruence|]. split; [congruence|]. intros p.
  rewrite Hp2 (free_page_insert FL (buddy (b, c - 1))); [|simpl; lia].
  rewrite Hpages. tauto.
Qed.

(** The outcome of a successful allocation: block [b] has left the free pages for
    the allocated set. *)
Definition allocated (s : pmm_state) (FL : Z → list Z) (A : gset block) (b : block)
    (s' : pmm_state) : Prop :=
  ∃ FL', pmm_ok s' FL' ({[b]} ∪ A) ∅ ∧ b ∉ A ∧
    used_pages s' = u64 (used_pages s + 2 ^ b.2) ∧
    (∀ p, free_page FL p ↔ free_page FL' p ∨ in_block p b).

Lemma page_to_phys_small p : 0 ≤ p < 2 ^ 52 → page_to_phys p = p * PMM_PAGE_SIZE.
Proof. intros. rewrite /page_to_phys /PMM_PAGE_SIZE u64_small; lia. Qed.

(** The allocation proper, once a free list with a block has been found. *)
Lemma alloc_from_area c o s FL A Q (k : Z → M pmm_state Z) :
  pmm_ok s FL A ∅ → 0 ≤ o ≤ c → c ≤ top_order → FL c ≠ [] →
  (∀ b s', allocated s FL A (b, o) s' → frame_of s' = frame_of s → 0 < b < 2 ^ 52 →
     wp (k b) Q s') →
  wp (node <- ask (λ s, get_next (nodes s) (Some (AreaHead c)));;
      page <- reads (λ _, page_of_link node);;
      on_nodes (λ h, dll_delete h (PageLink page));;;
      nr_free_add c (-1);;;
      split_block (Z.to_nat PMM_MAX_ORDER) page c o;;;
      update_page page (λ pg, mkPage PMM_FLAG_USED (pg_ref_count pg) (pg_order pg));;;
      update_page page (λ pg, mkPage (pg_flags pg) 1 (pg_order pg));;;
      update_page page (λ pg, mkPage (pg_flags pg) (pg_ref_count pg) o);;;
      modify (λ s, with_used (u64 (used_pages s + Z.shiftl 1 o)) s);;;
      k page) Q s.
Proof.
  intros Hi Ho Hc Hne Hk. destruct (FL c) as [|b l] eqn:HFL; [done|].
  assert (0 ≤ c ≤ top_order) as Hc' by lia.
  pose proof (inv_lists _ _ _ _ _ _ _ Hi c Hc') as Hrep. rewrite HFL in Hrep.
  apply wp_bind. eapply wp_ask; [exact (dll_first_ok _ _ _ _ Hrep)|].
  apply wp_bind. eapply wp_reads; [done|].
  destruct (inv_unfree _ _ _ _ _ _ _ (b, c) [] l Hi Hc' HFL) as (nd & Hdel & Hnr & Hi1).
  pose proof (free_page_delete FL (b, c) [] l) as Hpd. simpl in Hdel, Hnr, Hi1, Hpd.
  rewrite right_id_L in Hi1.
  apply wp_bind. eapply wp_on_nodes; [done|].
  apply wp_bind. eapply wp_nr_free_add; [done|].
  apply wp_bind. eapply wp_mono.
  { eapply split_block_wp; [exact Hi1|lia|]. rewrite /PMM_MAX_ORDER in Hc |- *. lia. }
  intros [] s1 (FL1 & Hi2 & Hfr & Hus & Hpages).
  pose proof (live_hand_1 FL1 A (b, o)) as Hlb.
  pose proof (live_head _ _ _ _ _ _ _ _ Hi2 Hlb) as Hh. simpl in Hh.
  pose proof (live_in_block_pos _ _ _ _ _ _ _ _ _ Hi2 Hlb Hh) as Hrange.
  pose proof (inv_total _ _ _ _ _ _ _ Hi2) as Htot.
  destruct (inv_dom _ _ _ _ _ _ _ Hi2 b) as [[pg Hpg] _]; [lia|].
  eapply wp_fill_page; [done|done|]. apply wp_bind, wp_modify.
  apply Hk; [|done|lia]. exists FL1. simpl. split; [|split; [|split]].
  - eapply inv_give_used; [|apply not_elem_of_empty|by rewrite lookup_insert_eq|done].
    rewrite right_id_L. eapply inv_write_hand; [done|by apply elem_of_singleton|done].
  - intros HA. apply (inv_used_hand _ _ _ _ _ _ _ Hi2 _ HA). by apply elem_of_singleton.
  - rewrite shiftl_1_pow2; [|lia]. by rewrite Hus.
  - intros p. rewrite Hpages. apply Hpd; [done|done|]. by eapply free_list_nodup.
Qed.

(** No block of order [o] or more is free. *)
Definition exhausted (FL : Z → list Z) (o : Z) : Prop := ∀ c, o ≤ c ≤ top_order → FL c = [].

Lemma alloc_pages_wp o s FL A :
  pmm_ok s FL A ∅ → pmm_unlocked s → 0 ≤ o →
  wp (pmm_alloc_pages o) (λ r s', returned s s' ∧
    ((r = 0 ∧ exhausted FL o ∧ pmm_ok s' FL A ∅ ∧ used_pages s' = used_pages s) ∨
     (∃ b, r = b * PMM_PAGE_SIZE ∧ 0 < b ∧ allocated s FL A (b, o) s'))) s.
Proof.
  intros Hi Hul Ho. rewrite /pmm_alloc_pages.
  destruct (Z.leb_spec PMM_MAX_ORDER o).
  { apply wp_ret. split; [|left; split; [done|]; split; [intros c Hc; lia|done]].
    by destruct s. }
  apply wp_bind, wp_acquire; [done|]. intros l c Hl Hc.
  apply wp_bind. eapply wp_mono; [apply (find_area_wp _ _ _ FL A ∅); [done|lia|lia]|].
  intros [co|] s1 [-> Hfound].
  - destruct Hfound as [Hco Hne].
    apply (alloc_from_area co o (with_lock l c s) FL A); [done|lia|lia|done|].
    intros b s2 Hal Hfr Hb. apply wp_bind, wp_release.
    { by injection Hfr as _ -> _ _ _ _ _. }
    intros l' Hl'. apply wp_ret. split; [by eapply returned_release|].
    right. exists b. rewrite page_to_phys_small; [|lia]. split; [done|]. split; [lia|done].
  - apply wp_bind, wp_release; [done|]. intros l' Hl'. apply wp_ret.
    split; [by apply (returned_release s (with_lock l c s) l l' c)|]. by left.
Qed.

(** [exhausted] means that no aligned run of [2^o] pages is free: the allocator
    never fails while it could succeed. *)
Lemma exhausted_no_run total pages nd nr FL A H o b :
  pmm_inv total pages nd nr FL A H → 0 ≤ o ≤ top_order → exhausted FL o →
  aligned (b, o) → ¬ (∀ p, in_block p (b, o) → free_page FL p).
Proof.
  intros Hi Ho He Hb Hrun.
  destruct (canonical_covers _ _ (inv_canonical _ _ _ _ _ _ _ Hi) o ltac:(lia) b Hb
    ltac:(lia) Hrun) as (c & Hc & Hoc & _).
  destruct Hc as [Hco Hin]. rewrite He in Hin; [|lia]. by apply not_elem_of_nil in Hin.
Qed.

(** ** Sizes to orders *)

Lemma order_loop_ok fuel o n :
  0 ≤ o → n ≤ 2 ^ (o + Z.of_nat fuel - 1) → (1 ≤ fuel)%nat → (o = 0 ∨ 2 ^ (o - 1) < n) →
  ∃ r, order_loop fuel o n = Ok r ∧ o ≤ r ∧ n ≤ 2 ^ r ∧ (r = 0 ∨ 2 ^ (r - 1) < n).
Proof.
  revert o. induction fuel as [|fuel IH]; [lia|]. intros o Ho Hn _ Hlow. simpl.
  rewrite shiftl_1_pow2 //. destruct (Z.ltb_spec (2 ^ o) n) as [Hlt|Hge].
  - destruct (IH (o + 1)) as (r & E & Hr).
    + lia.
    + by replace (o + 1 + Z.of_nat fuel - 1) with (o + Z.of_nat (S fuel) - 1) by lia.
    + destruct fuel; [|lia]. replace (o + Z.of_nat 1 - 1) with o in Hn by lia. lia.
    + right. by replace (o + 1 - 1) with o by lia.
    + exists r. split; [done|]. split; [lia|]. tauto.
  - exists o. split; [done|]. split; [lia|]. done.
Qed.

(** The number of pages [size] bytes need. *)
Definition pages_for (size : Z) : Z := (size + PMM_PAGE_SIZE - 1) / PMM_PAGE_SIZE.

Lemma pages_for_eq size :
  0 ≤ size →
  (if negb (size mod PMM_PAGE_SIZE =? 0) then size / PMM_PAGE_SIZE + 1
   else size / PMM_PAGE_SIZE) = pages_for size.
Proof.
  intros Hs. rewrite /pages_for /PMM_PAGE_SIZE.
  destruct (Z.eqb_spec (size mod 4096) 0); simpl; Z.div_mod_to_equations; lia.
Qed.

Lemma get_order_ok size :
  0 ≤ size < 2 ^ 64 →
  ∃ o, pmm_get_order_from_size size = Ok o ∧ 0 ≤ o ∧ pages_for size ≤ 2 ^ o ∧
    (o = 0 ∨ 2 ^ (o - 1) < pages_for size).
Proof.
  intros Hs. rewrite /pmm_get_order_from_size pages_for_eq; [|lia].
  apply order_loop_ok; [lia| |lia|by left].
  change (0 + Z.of_nat 64 - 1) with 63.
  rewrite /pages_for /PMM_PAGE_SIZE. Z.div_mod_to_equations. lia.
Qed.

(** ** Allocation and release by size *)

Lemma alloc_wp size s FL A :
  pmm_ok s FL A ∅ → pmm_unlocked s → 0 ≤ size < 2 ^ 64 →
  ∃ o, pmm_get_order_from_size size = Ok o ∧ 0 ≤ o ∧
  wp (pmm_alloc size) (λ r s', returned s s' ∧
    ((r = 0 ∧ exhausted FL o ∧ pmm_ok s' FL A ∅ ∧ used_pages s' = used_pages s) ∨
     (∃ b, r = b * PMM_PAGE_SIZE ∧ 0 < b ∧ allocated s FL A (b, o) s'))) s.
Proof.
  intros Hi Hul Hs. destruct (get_order_ok size Hs) as (o & Eo & Ho & _).
  exists o. split; [done|]. split; [done|].
  apply wp_bind. eapply wp_ask; [done|].
  destruct (Z.leb_spec PMM_MAX_ORDER o) as [Hbig|]; [|by apply alloc_pages_wp].
  pose proof (alloc_pages_wp o s FL A Hi Hul Ho) as Hw.
  rewrite /pmm_alloc_pages in Hw. by destruct (Z.leb_spec PMM_MAX_ORDER o); [|lia].
Qed.

Lemma free_wp size b s FL A :
  pmm_ok s FL A ∅ → pmm_unlocked s → b ∈ A → pmm_get_order_from_size size = Ok b.2 →
  wp (pmm_free (b.1 * PMM_PAGE_SIZE) size)
    (λ _ s', freed s FL (A ∖ {[b]}) b s' ∧ returned s s') s.
Proof.
  intros Hi Hul Hb Hsize. apply wp_bind. eapply wp_ask; [done|]. by apply free_pages_used.
Qed.

(** ** Reference counts *)

(** [r] clients share the block [b]. *)
Definition refs (s : pmm_state) (b : block) (r : Z) : Prop :=
  buddy_memmap s !! b.1 = Some (mkPage PMM_FLAG_USED r b.2).

Lemma inv_set_ref total pages nd nr FL A b r :
  pmm_inv total pages nd nr FL A ∅ → b ∈ A → 1 ≤ r < 2 ^ 32 →
  pmm_inv total (<[b.1 := mkPage PMM_FLAG_USED r b.2]> pages) nd nr FL A ∅.
Proof.
  intros Hi Hb Hr. pose proof (inv_take_used _ _ _ _ _ _ _ b Hi Hb) as Hi'.
  assert (in_block b.1 b) as Hh.
  { eapply live_head; [exact Hi|]. by right; left. }
  apply (inv_write_hand _ _ _ _ _ _ _ b b.1 (mkPage PMM_FLAG_USED r b.2)) in Hi';
    [|apply elem_of_union_l; by apply elem_of_singleton|done].
  eapply inv_give_used in Hi'; [|apply not_elem_of_empty|by rewrite lookup_insert_eq|done].
  by rewrite -union_difference_singleton_L in Hi'.
Qed.

Lemma used_in_range s FL A H b :
  pmm_ok s FL A H → b ∈ A → 0 < b.1 < totalPages s.
Proof.
  intros Hi Hb. assert (live FL A H b) as Hl by (by right; left).
  eapply live_in_block_pos; [done|done|]. by eapply live_head.
Qed.

Lemma inc_ref_wp b r s FL A :
  pmm_ok s FL A ∅ → pmm_unlocked s → b ∈ A → refs s b r → r + 1 < 2 ^ 32 →
  wp (pmm_page_inc_ref (b.1 * PMM_PAGE_SIZE)) (λ _ s', returned s s' ∧
    pmm_ok s' FL A ∅ ∧ refs s' b (r + 1) ∧ used_pages s' = used_pages s) s.
Proof.
  intros Hi Hul Hb Hr Hbound.
  destruct (inv_used_page _ _ _ _ _ _ _ Hi b Hb) as (r' & Hr' & Hrr).
  rewrite /refs Hr' in Hr. simplify_eq.
  apply wp_bind, wp_acquire; [done|]. intros l c Hl Hc.
  apply wp_bind, wp_pfn_to_page. rewrite Z.div_mul //=.
  pose proof (used_in_range _ _ _ _ _ Hi Hb).
  destruct (Z.leb_spec (totalPages s) b.1); [lia|].
  apply wp_bind. eapply wp_read_page; [done|]. cbn -[pmm_lock_release].
  apply wp_bind. eapply wp_update_page; [done|]. cbn -[pmm_lock_release].
  apply wp_release; [done|]. intros l' Hl'.
  split; [by apply (returned_release s _ l l' c)|].
  rewrite u32_small; [|lia]. split; [by apply inv_set_ref; [..|lia]|].
  split; [|done]. by rewrite /refs /= lookup_insert_eq.
Qed.

Lemma dec_ref_shared_wp b r s FL A :
  pmm_ok s FL A ∅ → pmm_unlocked s → b ∈ A → refs s b r → r ≠ 1 →
  wp (pmm_page_dec_ref (b.1 * PMM_PAGE_SIZE)) (λ _ s', returned s s' ∧
    pmm_ok s' FL A ∅ ∧ refs s' b (r - 1) ∧ used_pages s' = used_pages s) s.
Proof.
  intros Hi Hul Hb Hr Hne.
  destruct (inv_used_page _ _ _ _ _ _ _ Hi b Hb) as (r' & Hr' & Hrr).
  rewrite /refs Hr' in Hr. simplify_eq.
  apply wp_bind, wp_acquire; [done|]. intros l c Hl Hc.
  apply wp_bind, wp_pfn_to_page. rewrite Z.div_mul //=.
  pose proof (used_in_range _ _ _ _ _ Hi Hb).
  destruct (Z.leb_spec (totalPages s) b.1); [lia|].
  apply wp_bind. eapply wp_read_page; [done|]. cbn -[pmm_lock_release pmm_free_pages].
  apply wp_bind. eapply wp_update_page; [done|].
  apply wp_bind. eapply wp_read_page; [apply lookup_insert_eq|].
  cbn -[pmm_lock_release pmm_free_pages]. rewrite u32_small; [|lia].
  destruct (Z.eqb_spec (r - 1) 0); [lia|].
  apply wp_release; [done|]. intros l' Hl'.
  split; [by apply (returned_release s _ l l' c)|].
  split; [by apply inv_set_ref; [..|lia]|].
  split; [|done]. by rewrite /refs /= lookup_insert_eq.
Qed.

(** The last reference goes: the block is freed, with the lock released first. *)
Lemma dec_ref_last_wp b s FL A :
  pmm_ok s FL A ∅ → pmm_unlocked s → b ∈ A → refs s b 1 →
  wp (pmm_page_dec_ref (b.1 * PMM_PAGE_SIZE)) (λ _ s', returned s s' ∧
    freed s FL (A ∖ {[b]}) b s') s.
Proof.
  intros Hi Hul Hb Hr.
  pose proof (used_in_range _ _ _ _ _ Hi Hb).
  pose proof (inv_take_used _ _ _ _ _ _ _ b Hi Hb) as Hi'. rewrite right_id_L in Hi'.
  apply wp_bind, wp_acquire; [done|]. intros l c Hl Hc.
  apply wp_bind, wp_pfn_to_page. rewrite Z.div_mul //=.
  destruct (Z.leb_spec (totalPages s) b.1); [lia|].
  apply wp_bind. eapply wp_read_page; [done|]. cbn -[pmm_lock_release pmm_free_pages].
  apply wp_bind. eapply wp_update_page; [done|].
  apply wp_bind. eapply wp_read_page; [apply lookup_insert_eq|].
  cbn -[pmm_lock_release pmm_free_pages].
  apply wp_bind, wp_release; [done|]. intros l' Hl'.
  apply wp_bind. eapply wp_read_page; [apply lookup_insert_eq|].
  set s1 := with_lock l' _ _. cbn -[pmm_free_pages s1].
  assert (returned s s1) as Hret by (by apply (returned_release s _ l l' c)).
  eapply wp_mono.
  - apply (free_pages_in_hand b s1 FL (A ∖ {[b]})); [|apply Hret].
    eapply inv_write_hand; [exact Hi'|by apply elem_of_singleton|].
    by apply (live_head _ _ _ _ _ _ _ _ Hi'), live_hand_1.
  - intros [] s2 [Hf Hret2]. split; [by eapply returned_trans|done].
Qed.

(** Pages that are not in use: reference counting leaves everything alone. *)
Lemma ref_not_used_wp (op : Z → M pmm_state unit) p pg s :
  op = pmm_page_inc_ref ∨ op = pmm_page_dec_ref →
  pmm_unlocked s → totalPages s ≤ p ∨ buddy_memmap s !! p = Some pg ∧ is_page_used pg = false →
  wp (op (p * PMM_PAGE_SIZE)) (λ _ s', returned s s' ∧
    buddy_memmap s' = buddy_memmap s ∧ nodes s' = nodes s ∧ nr_free s' = nr_free s ∧
    used_pages s' = used_pages s) s.
Proof.
  intros Hop Hul Hp.
  destruct Hop as [-> | ->]; apply wp_bind, wp_acquire; try done; intros l c Hl Hc;
    apply wp_bind, wp_pfn_to_page; rewrite Z.div_mul //=;
    (destruct (Z.leb_spec (totalPages s) p) as [|];
     [apply wp_release; [done|]; intros l' Hl'; split; [|done];
      by apply (returned_release s (with_lock l c s) l l' c)|]);
    destruct Hp as [|[Hpg Hu]]; try lia;
    (apply wp_bind; eapply wp_read_page; [done|]; rewrite Hu).
  - apply wp_bind, wp_ret, wp_release; [done|]. intros l' Hl'. split; [|done].
    by apply (returned_release s (with_lock l c s) l l' c).
  - apply wp_release; [done|]. intros l' Hl'. split; [|done].
    by apply (returned_release s (with_lock l c s) l l' c).
Qed.
