(* ===== verification/PmmInit.v ===== *)
(** * The physical memory manager: initialisation

    [pmm_init] on a memory map as the Limine protocol documents it establishes the
    invariant, and the pages it frees are exactly the whole usable pages that are
    left after the page structs have been placed, page 0 excepted. *)

From stdpp Require Import base gmap list numbers functions sorting.
From S2P Require Import Prelude Spinlock Dll Hhdm Buddy Pmm PmmInv PmmOps.

(** ** What the bootloader documents about its memory map *)

Definition usable (e : memmap_entry) : Prop := me_type e = LIMINE_MEMMAP_USABLE.

(** Entries are sorted by base, and a usable entry overlaps no other. *)
Definition before (e f : memmap_entry) : Prop :=
  usable e → is_ram (me_type f) = true → me_base e + me_length e ≤ me_base f.

(** Physical addresses have at most 52 bits. *)
Definition entry_ok (e : memmap_entry) : Prop :=
  0 ≤ me_base e ∧ 0 ≤ me_length e ∧ me_base e + me_length e ≤ 2 ^ 52.

Definition memmap_ok (entries : list memmap_entry) : Prop :=
  Forall entry_ok entries ∧ StronglySorted before entries.

(** Page [p] lies wholly inside entry [e] and is not page 0. *)
Definition entry_page (e : memmap_entry) (p : Z) : Prop :=
  0 < p ∧ me_base e ≤ p * PMM_PAGE_SIZE ∧ (p + 1) * PMM_PAGE_SIZE ≤ me_base e + me_length e.

Definition usable_page (entries : list memmap_entry) (p : Z) : Prop :=
  ∃ e, e ∈ entries ∧ usable e ∧ entry_page e p.

(** ** Choosing the order of the next block *)

Lemma block_bytes o : 0 ≤ o → PMM_PAGE_SIZE * Z.shiftl 1 o = 2 ^ (12 + o).
Proof. intros. rewrite shiftl_1_pow2 // Z.pow_add_r; [done|lia|lia]. Qed.

Lemma aligned_test phys o :
  0 ≤ o → Z.land phys (2 ^ (12 + o) - 1) = 0 ↔ (2 ^ (12 + o) | phys).
Proof.
  intros Ho. rewrite Z.sub_1_r -Z.ones_equiv Z.land_ones; [|lia].
  destruct (pow2_pos (12 + o)); [|lia]. apply Z.mod_divide. lia.
Qed.

Lemma fit_order_ok n q m :
  0 ≤ q < m → m ≤ 2 ^ 40 → (n ≤ 10)%nat →
  let o := fit_order n (q * PMM_PAGE_SIZE) (m * PMM_PAGE_SIZE) in
  0 ≤ o ≤ Z.of_nat n ∧ aligned (q, o) ∧ q + 2 ^ o ≤ m.
Proof.
  intros Hq Hm. induction n as [|n IH]; intros Hn.
  { cbn. rewrite /aligned /= Z.pow_0_r. split; [lia|]. split; [|lia].
    split; [lia|apply Z.divide_1_l]. }
  cbn -[Z.of_nat PMM_PAGE_SIZE]. rewrite block_bytes; [|lia].
  assert (2 ^ Z.of_nat (S n) ≤ 2 ^ 10) by (apply Z.pow_le_mono_r; lia).
  destruct (pow2_pos (Z.of_nat (S n))); [|lia].
  destruct (Z.eqb_spec (Z.land (q * PMM_PAGE_SIZE) (2 ^ (12 + Z.of_nat (S n)) - 1)) 0) as [Hd|_];
    cbn [andb]; [|destruct IH as (? & ? & ?); [lia|]; split; [lia|done]].
  apply aligned_test in Hd; [|lia]. rewrite /PMM_PAGE_SIZE in IH Hd |- *.
  rewrite Z.pow_add_r in Hd |- *; [|lia|lia].
  change (2 ^ 12) with 4096 in *. rewrite u64_small; [|lia].
  destruct (Z.leb_spec (q * 4096 + 4096 * 2 ^ Z.of_nat (S n)) (m * 4096)).
  - split; [lia|]. split; [split; simpl; [lia|]|lia].
    destruct Hd as [k Hk]. exists k. lia.
  - destruct IH as (? & ? & ?); [lia|]. split; [lia|done].
Qed.

(** ** Freeing one range *)

Lemma free_range_wp fuel q m s FL :
  pmm_ok s FL ∅ ∅ → pmm_unlocked s → 0 < q → m ≤ totalPages s → totalPages s ≤ 2 ^ 40 →
  (∀ p, q ≤ p < m → ¬ free_page FL p) →
  (Z.to_nat (m - q) < fuel)%nat →
  wp (free_range fuel (q * PMM_PAGE_SIZE) (m * PMM_PAGE_SIZE)) (λ _ s', ∃ FL',
    pmm_ok s' FL' ∅ ∅ ∧ returned s s' ∧
    ∀ p, free_page FL' p ↔ free_page FL p ∨ q ≤ p < m) s.
Proof.
  revert q s FL. induction fuel as [|fuel IH]; [lia|].
  intros q s FL Hi Hul Hq Hm Htot Hno Hfuel. cbn -[fit_order Z.to_nat].
  destruct (Z.ltb_spec (q * PMM_PAGE_SIZE) (m * PMM_PAGE_SIZE)) as [Hlt|Hge].
  2: { apply wp_ret. exists FL. split; [done|]. split; [by destruct s|].
       intros p. rewrite /PMM_PAGE_SIZE in Hge. split; [tauto|]. intros [|]; [done|lia]. }
  rewrite /PMM_PAGE_SIZE in Hlt.
  destruct (fit_order_ok (Z.to_nat PMM_MAX_ORDER - 1) q m) as (Ho & Hal & Hend);
    [lia|lia|rewrite /PMM_MAX_ORDER; lia|].
  set o := fit_order _ _ _ in Ho Hal Hend |- *. clearbody o.
  replace (Z.of_nat (Z.to_nat PMM_MAX_ORDER - 1)) with top_order in Ho by done.
  destruct (pow2_pos o) as [Hpos|]; [|lia].
  apply wp_bind. eapply wp_mono.
  { apply (free_pages_in_hand (q, o) s FL ∅); [|done].
    pose proof (inv_take_reserved (totalPages s) _ _ _ FL ∅ ∅ (q, o) Hi) as Ht.
    rewrite right_id_L in Ht. apply Ht.
    - split; simpl; [done|lia|lia|lia].
    - intros p b Hp Hb%live_empty Hpb.
      apply (Hno p); [rewrite /in_block /= in Hp; lia|by exists b]. }
  intros [] s1 [(FL1 & r & Hi1 & _ & _ & Hp1) Hret].
  pose proof Hret as (Hul1 & _ & _ & _ & _ & Ht1 & _).
  replace (u64 (q * PMM_PAGE_SIZE + PMM_PAGE_SIZE * Z.shiftl 1 o))
    with ((q + 2 ^ o) * PMM_PAGE_SIZE).
  2: { rewrite shiftl_1_pow2; [|lia]. rewrite /PMM_PAGE_SIZE u64_small; lia. }
  eapply wp_mono; [apply (IH (q + 2 ^ o) s1 FL1); [done|done|lia|lia|lia| |lia]|].
  - intros p Hp [Hf|Hin]%Hp1; [apply (Hno p); [lia|done]|rewrite /in_block /= in Hin; lia].
  - intros [] s2 (FL2 & Hi2 & Hret2 & Hp2). exists FL2. split; [done|].
    split; [by eapply returned_trans|]. intros p. rewrite Hp2 Hp1 /in_block /=.
    destruct (decide (p < q + 2 ^ o)); intuition lia.
Qed.

(** ** Freeing the usable entries *)

Lemma range_bounds e :
  entry_ok e →
  ∃ q m, range_start e = q * PMM_PAGE_SIZE ∧ range_end e = m * PMM_PAGE_SIZE ∧ 0 < q ∧
    m * PMM_PAGE_SIZE ≤ me_base e + me_length e ∧
    ∀ p, entry_page e p ↔ q ≤ p < m.
Proof.
  intros (Hb & Hl & Hend). rewrite /range_start /range_end /entry_page /PMM_PAGE_SIZE.
  rewrite (u64_small (me_base e + me_length e)); [|lia].
  exists (Z.max 1 ((me_base e + 4095) / 4096)), ((me_base e + me_length e) / 4096).
  assert ((if negb (me_base e mod 4096 =? 0) then u64 (me_base e + (4096 - me_base e mod 4096))
           else me_base e) = (me_base e + 4095) / 4096 * 4096) as ->.
  { destruct (Z.eqb_spec (me_base e mod 4096) 0); cbn [negb]; [Z.div_mod_to_equations; lia|].
    rewrite u64_small; Z.div_mod_to_equations; lia. }
  split.
  { destruct (Z.eqb_spec ((me_base e + 4095) / 4096 * 4096) 0); [lia|].
    assert (0 ≤ (me_base e + 4095) / 4096) by (apply Z.div_pos; lia). lia. }
  split.
  { destruct (Z.eqb_spec ((me_base e + me_length e) mod 4096) 0); cbn [negb];
      Z.div_mod_to_equations; lia. }
  split; [lia|]. split; [Z.div_mod_to_equations; lia|].
  intros p. Z.div_mod_to_equations. lia.
Qed.

Lemma free_entries_wp es s FL :
  pmm_ok s FL ∅ ∅ → pmm_unlocked s → totalPages s ≤ 2 ^ 40 → memmap_ok es →
  (∀ e, e ∈ es → usable e → me_base e + me_length e ≤ totalPages s * PMM_PAGE_SIZE) →
  (∀ p, usable_page es p → ¬ free_page FL p) →
  wp (free_entries es) (λ _ s', ∃ FL', pmm_ok s' FL' ∅ ∅ ∧ returned s s' ∧
    ∀ p, free_page FL' p ↔ free_page FL p ∨ usable_page es p) s.
Proof.
  revert s FL. induction es as [|e es IH]; intros s FL Hi Hul Htot [Hok Hsort] Hhi Hno.
  { apply wp_ret. exists FL. split; [done|]. split; [by destruct s|].
    intros p. split; [by left|]. intros [Hf|(e & He & _)]; [done|].
    by apply not_elem_of_nil in He. }
  apply Forall_cons in Hok as [Hoke Hok]. apply StronglySorted_inv in Hsort as [Hsort Hfa].
  assert (memmap_ok es) as Hmm by done.
  assert (∀ p, usable_page (e :: es) p ↔ usable e ∧ entry_page e p ∨ usable_page es p) as Hup.
  { intros p. rewrite /usable_page. split.
    - intros (f & [->|Hf]%elem_of_cons & Hu & Hp); [by left|right; by exists f].
    - intros [[Hu Hp]|(f & Hf & Hu & Hp)]; [exists e|exists f].
      + split; [by left|done].
      + split; [by right|done]. }
  cbn [free_entries]. apply wp_bind. case_bool_decide as Hu.
  - destruct (range_bounds e Hoke) as (q & m & Eq & Em & Hq & Hend & Hpages).
    rewrite /range_fuel Eq Em. eapply wp_mono.
    { pose proof (Hhi e ltac:(by left) Hu). rewrite /PMM_PAGE_SIZE in Hend H.
      apply (free_range_wp _ q m s FL); [done|done|done|lia|done| |].
      - intros p Hp%Hpages. apply Hno, Hup. by left.
      - rewrite -Z.mul_sub_distr_r Z.div_mul //. lia. }
    intros [] s1 (FL1 & Hi1 & Hret & Hp1).
    pose proof Hret as (Hul1 & _ & _ & _ & _ & Ht1 & _).
    eapply wp_mono; [apply (IH s1 FL1); [done|done|lia|done|..]|].
    + intros f Hf. rewrite Ht1. apply Hhi. by right.
    + intros p Hp [Hf|Hin]%Hp1; [apply (Hno p); [by apply Hup; right|done]|].
      destruct Hp as (f & Hf & Huf & Hpf). apply Hpages in Hin as (_ & _ & Hin).
      rewrite Forall_forall in Hfa. pose proof (Hfa f Hf Hu) as Hb.
      destruct Hpf as (_ & Hpf & _). rewrite /PMM_PAGE_SIZE in Hin Hpf.
      rewrite Huf in Hb. specialize (Hb eq_refl). lia.
    + intros [] s2 (FL2 & Hi2 & Hret2 & Hp2). exists FL2. split; [done|].
      split; [by eapply returned_trans|]. intros p. rewrite Hp2 Hp1 Hup -Hpages. tauto.
  - apply wp_ret. eapply wp_mono; [apply (IH s FL); [done..| |]|].
    + intros f Hf. apply Hhi. by right.
    + intros p Hp. apply Hno, Hup. by right.
    + intros [] s2 (FL2 & Hi2 & Hret2 & Hp2). exists FL2. split; [done|]. split; [done|].
      intros p. rewrite Hp2 Hup. rewrite /usable in Hu |- *. tauto.
Qed.

(** ** Placing the page structs *)

Lemma highest_addr_cons hi e es :
  entry_ok e →
  highest_addr hi (e :: es) =
  highest_addr (if is_ram (me_type e) then me_base e + me_length e else hi) es.
Proof. intros (? & ? & ?). rewrite /highest_addr /= u64_small; [done|lia]. Qed.

Lemma highest_addr_bounds es hi :
  Forall entry_ok es → 0 ≤ hi ≤ 2 ^ 52 → 0 ≤ highest_addr hi es ≤ 2 ^ 52.
Proof.
  revert hi. induction es as [|e es IH]; intros hi Hok Hhi; [done|].
  apply Forall_cons in Hok as [He Hok]. rewrite highest_addr_cons //. apply IH; [done|].
  destruct He as (? & ? & ?). destruct (is_ram (me_type e)); lia.
Qed.

(** The last RAM entry ends above everything usable. *)
Lemma highest_addr_mono es hi x :
  Forall entry_ok es → x ≤ hi → (∀ f, f ∈ es → is_ram (me_type f) = true → x ≤ me_base f) →
  x ≤ highest_addr hi es.
Proof.
  revert hi. induction es as [|e es IH]; intros hi Hok Hhi Hb; [done|].
  apply Forall_cons in Hok as [He Hok]. rewrite highest_addr_cons //. apply IH; [done| |set_solver].
  destruct (is_ram (me_type e)) eqn:E; [|done]. destruct He as (? & ? & ?).
  pose proof (Hb e ltac:(set_solver) E). lia.
Qed.

Lemma highest_addr_ge es hi e :
  memmap_ok es → e ∈ es → usable e → me_base e + me_length e ≤ highest_addr hi es.
Proof.
  intros [Hok Hsort]. revert hi. induction es as [|f es IH]; intros hi He Hu; [set_solver|].
  apply Forall_cons in Hok as [Hf Hok]. apply StronglySorted_inv in Hsort as [Hsort Hfa].
  rewrite highest_addr_cons //. apply elem_of_cons in He as [->|He]; [|by apply IH].
  rewrite Hu /=. apply highest_addr_mono; [done|lia|]. intros g Hg Hram.
  rewrite Forall_forall in Hfa. by apply (Hfa g Hg).
Qed.

(** The entry that gives up its first [size] bytes; the others stay. *)
Definition trimmed (es es' : list memmap_entry) : Prop :=
  ∀ e', e' ∈ es' → ∃ e, e ∈ es ∧ me_type e' = me_type e ∧ me_base e ≤ me_base e' ∧
    me_base e' + me_length e' = me_base e + me_length e.

Lemma carve_skip e es es' :
  entry_ok e → Forall (before e) es → memmap_ok es' → trimmed es es' →
  memmap_ok (e :: es') ∧ trimmed (e :: es) (e :: es').
Proof.
  intros He Hfa [Hok Hsort] Htr. rewrite Forall_forall in Hfa. split; [split|].
  - by constructor.
  - constructor; [done|]. apply Forall_forall. intros f' Hf' Hu Hram.
    destruct (Htr f' Hf') as (f & Hf & Ht & Hb & _). rewrite Ht in Hram.
    pose proof (Hfa f Hf Hu Hram). lia.
  - intros f' [->|Hf']%elem_of_cons; [exists e; set_solver by lia|].
    destruct (Htr f' Hf') as (f & Hf & ?). exists f. set_solver.
Qed.

Lemma carve_ok size es base es' :
  0 ≤ size → memmap_ok es → carve size es = Some (base, es') →
  memmap_ok es' ∧ trimmed es es' ∧ 0 ≤ base ≤ 2 ^ 52.
Proof.
  intros Hsize. revert es'. induction es as [|e es IH]; intros es' [Hok Hsort] E; [done|].
  apply Forall_cons in Hok as [He Hok]. apply StronglySorted_inv in Hsort as [Hsort Hfa].
  cbn [carve] in E.
  destruct (bool_decide (me_type e = LIMINE_MEMMAP_USABLE) && (size <=? me_length e)) eqn:Ht.
  - apply andb_true_iff in Ht as [Hu%bool_decide_eq_true Hle%Z.leb_le].
    pose proof He as (Hb & Hl & Hend).
    simplify_eq. rewrite !u64_small; [|lia|lia]. split; [split|split; [|lia]].
    + constructor; [split; simpl; lia|done].
    + constructor; [done|]. eapply Forall_impl; [done|]. intros f Hf Hu' Hram.
      simpl in *. specialize (Hf Hu' Hram). lia.
    + intros e' [->|He']%elem_of_cons; [exists e|exists e'].
      * split; [set_solver|]. split; [done|]. simpl. lia.
      * split; [set_solver|]. split; [done|]. lia.
  - destruct (carve size es) as [[b es0]|]; [|done]. simplify_eq.
    destruct (IH es0 (conj Hok Hsort) eq_refl) as (Hmm & Htr & Hb).
    destruct (carve_skip e es es0 He Hfa Hmm Htr). done.
Qed.

(** ** Empty free lists *)

Lemma init_areas_wp os s :
  NoDup os → (∀ o, o ∈ os → is_Some (nodes s !! AreaHead o)) →
  wp (init_areas os) (λ _ s', ∃ nd nr, s' = with_nr_free nr (with_nodes nd s) ∧
    (∀ o, o ∈ os → dll_rep nd (AreaHead o) [] ∧ nr !! o = Some 0) ∧
    (∀ k, is_Some (nd !! k) ↔ is_Some (nodes s !! k)) ∧
    (∀ k, (∀ o, o ∈ os → k ≠ AreaHead o) → nd !! k = nodes s !! k) ∧
    (∀ o, o ∉ os → nr !! o = nr_free s !! o)) s.
Proof.
  revert s. induction os as [|o os IH]; intros s Hnd Hdom.
  { apply wp_ret. exists (nodes s), (nr_free s). split; [by destruct s|]. set_solver. }
  apply NoDup_cons in Hnd as [Ho Hnd]. cbn [init_areas].
  destruct (dll_init_ok (nodes s) (AreaHead o)) as (nd & E & Hrep & Hout & Hd);
    [apply Hdom; by left|].
  apply wp_bind. eapply wp_on_nodes; [done|]. apply wp_bind, wp_modify.
  eapply wp_mono; [apply IH; [done|]|].
  { intros o' Ho'. simpl. apply Hd, Hdom. by right. }
  intros [] s' (nd' & nr' & -> & Hreps & Hd' & Hout' & Hnr'). simpl in *.
  exists nd', nr'. split; [done|]. split; [|split; [|split]].
  - intros o' [->|Ho']%elem_of_cons; [|by apply Hreps]. split.
    + apply (dll_rep_frame nd); [|done]. intros k ->%list_elem_of_singleton.
      apply Hout'. intros o' Ho' [= ->]. done.
    + rewrite Hnr' // lookup_insert_eq //.
  - intros k. by rewrite Hd'.
  - intros k Hk. rewrite Hout'.
    + apply Hout. intros ->%list_elem_of_singleton. by apply (Hk o); [left|].
    + intros o' Ho'. apply Hk. by right.
  - intros o' [Hne Ho']%not_elem_of_cons. by rewrite Hnr' // lookup_insert_ne.
Qed.

Lemma elem_of_pfns n p : p ∈ pfns n ↔ 0 ≤ p < n.
Proof.
  rewrite /pfns list_elem_of_fmap. split.
  - intros (k & -> & Hk%elem_of_seq). lia.
  - intros Hp. exists (Z.to_nat p). rewrite elem_of_seq. lia.
Qed.

Lemma nodup_pfns n : NoDup (pfns n).
Proof. apply NoDup_fmap_2; [apply _|apply NoDup_seq]. Qed.

Lemma elem_of_orders o : o ∈ orders ↔ 0 ≤ o ≤ top_order.
Proof. change orders with (pfns PMM_MAX_ORDER). rewrite elem_of_pfns. lia. Qed.

(** A map built from a list of distinct keys and one value. *)
Lemma const_map_lookup {K V : Type} `{Countable K} (f : Z → K) (v : V) l p :
  NoDup l → Inj (=) (=) f → p ∈ l →
  (list_to_map ((λ p, (f p, v)) <$> l) : gmap K V) !! f p = Some v.
Proof.
  intros Hnd Hinj Hp. apply elem_of_list_to_map_1.
  - rewrite -list_fmap_compose. by apply NoDup_fmap_2.
  - apply list_elem_of_fmap. by exists p.
Qed.

Lemma const_map_lookup_None {K V : Type} `{Countable K} (f : Z → K) (v : V) l k :
  (∀ p, p ∈ l → f p ≠ k) →
  (list_to_map ((λ p, (f p, v)) <$> l) : gmap K V) !! k = None.
Proof.
  intros Hk. apply not_elem_of_list_to_map_1. rewrite -list_fmap_compose.
  intros (p & -> & Hp)%list_elem_of_fmap. by apply (Hk p).
Qed.

(** The state just before the usable entries are freed satisfies the invariant
    with nothing free. *)
Lemma inv_all_reserved total nd nr :
  total ≤ 2 ^ 52 →
  (∀ o, 0 ≤ o ≤ top_order → dll_rep nd (AreaHead o) [] ∧ nr !! o = Some 0) →
  (∀ p, 0 ≤ p < total → is_Some (nd !! PageLink p)) →
  pmm_inv total (reserve_page <$> zero_pages total) nd nr (λ _, []) ∅ ∅.
Proof.
  intros Htot Hos Hlinks.
  assert (∀ b, ¬ live (λ _, []) ∅ ∅ b) as Hno.
  { intros b [_ Hb]%live_empty. by apply not_elem_of_nil in Hb. }
  assert (∀ b, ¬ free_in (λ _, []) b) as Hnf by (intros b Hb; apply (Hno b); by left).
  assert (∀ p, 0 ≤ p < total →
    (reserve_page <$> zero_pages total) !! p = Some (mkPage PMM_FLAG_RESERVED 1 0)) as Hpg.
  { intros p Hp. rewrite lookup_fmap.
    assert (zero_pages total !! p = Some (mkPage 0 0 0)) as ->; [|done].
    apply (const_map_lookup (λ p, p)); [apply nodup_pfns|by intros ??|by apply elem_of_pfns]. }
  split.
  - done.
  - intros o Ho. by apply Hos.
  - intros o Ho. by apply Hos.
  - intros p Hp. split; [by rewrite Hpg|by apply Hlinks].
  - intros b Hb. by destruct (Hno b).
  - intros b c p Hb. by destruct (Hno b).
  - intros b Hb. by destruct (Hnf b).
  - intros b Hb. by apply not_elem_of_empty in Hb.
  - intros b Hb. by destruct (Hnf b).
  - intros b Hb. by apply not_elem_of_empty in Hb.
  - intros p Hp. right. exists 1, 0. by apply Hpg.
  - intros b Hb. by destruct (Hnf b).
Qed.

(** The number of pages up to the highest RAM address. *)
Definition total_pages (entries : list memmap_entry) : Z :=
  pages_for (highest_addr 0 entries).

Lemma total_pages_bounds entries :
  Forall entry_ok entries → 0 ≤ total_pages entries ≤ 2 ^ 40 ∧
    highest_addr 0 entries ≤ total_pages entries * PMM_PAGE_SIZE.
Proof.
  intros Hok. destruct (highest_addr_bounds entries 0 Hok); [lia|].
  rewrite /total_pages /pages_for /PMM_PAGE_SIZE. Z.div_mod_to_equations. lia.
Qed.

#[local] Arguments highest_addr : simpl never.
#[local] Arguments carve : simpl never.
#[local] Arguments orders : simpl never.
#[local] Arguments free_entries : simpl never.
#[local] Arguments init_areas : simpl never.

Lemma init_wp offset c entries base es' :
  memmap_ok entries → 0 < offset → base + offset < 2 ^ 64 →
  carve (total_pages entries * sizeof_pmm_page) entries = Some (base, es') →
  wp (pmm_init offset) (λ _ s', ∃ FL, pmm_ok s' FL ∅ ∅ ∧ pmm_unlocked s' ∧
    pmm_cpu s' = c ∧ memmap s' = es' ∧ totalPages s' = total_pages entries ∧
    highestAddr s' = highest_addr 0 entries ∧
    buddy_memmap_virt s' = hhdm_physToVirt offset base ∧
    ∀ p, free_page FL p ↔ usable_page es' p) (pmm_boot c entries).
Proof.
  intros Hmm Hoff Hoff2 Hcarve. pose proof Hmm as [Hok Hsort].
  destruct (total_pages_bounds entries Hok) as [Htot Hhi].
  destruct (highest_addr_bounds entries 0 Hok); [lia|].
  assert (0 ≤ total_pages entries * sizeof_pmm_page) as Hsz by (rewrite /sizeof_pmm_page; lia).
  destruct (carve_ok _ _ _ _ Hsz Hmm Hcarve) as (Hmm' & Htr & Hbase).
  rewrite /pmm_init. wp_steps. simpl. rewrite pages_for_eq; [|lia].
  change (pages_for (highest_addr 0 entries)) with (total_pages entries).
  rewrite u64_small; [|rewrite /sizeof_pmm_page; lia]. rewrite Hcarve. wp_steps. simpl.
  destruct (Z.eqb_spec (hhdm_physToVirt offset base) 0) as [E|_].
  { rewrite /hhdm_physToVirt u64_small in E; lia. }
  apply wp_bind. eapply wp_mono.
  { apply init_areas_wp; [apply (nodup_pfns PMM_MAX_ORDER)|]. intros o Ho. simpl.
    rewrite lookup_union_r; [|by apply const_map_lookup_None].
    exists (mkNode None None). apply (const_map_lookup AreaHead); [|by intros ?? [= ->]|done].
    apply (nodup_pfns PMM_MAX_ORDER). }
  intros [] s1 (nd & nr & -> & Hos & Hdom & Hout & _). wp_steps. simpl.
  eapply wp_mono; [apply free_entries_wp with (FL := λ _, [])|].
  - apply (inv_all_reserved (total_pages entries) nd nr); [lia|by intros o Ho%elem_of_orders; apply Hos|].
    intros p Hp. apply Hdom. cbn. rewrite lookup_union.
    assert (zero_links (total_pages entries) !! PageLink p = Some (mkNode None None)) as ->.
    { apply (const_map_lookup PageLink); [apply nodup_pfns|by intros ?? [= ->]|].
      by apply elem_of_pfns. }
    by destruct (boot_heads !! PageLink p).
  - by split.
  - cbn. lia.
  - done.
  - intros e' He' Hu. cbn. destruct (Htr e' He') as (e & He & Ht & _ & ->).
    etrans; [apply (highest_addr_ge entries 0 e); [done|done|]|done]. by rewrite /usable -Ht.
  - intros p _ (b & [_ Hb] & _). by apply not_elem_of_nil in Hb.
  - intros [] s2 (FL & Hi & (Hul & Hcpu & Hmem & Hv & _ & Ht & Hh) & Hp). exists FL. cbn in *.
    split; [done|]. split; [done|]. split; [done|]. split; [done|]. split; [done|].
    split; [done|]. split; [done|].
    intros p. rewrite Hp. split; [|by right]. intros [(b & [_ Hb] & _)|]; [|done].
    by apply not_elem_of_nil in Hb.
Qed.

(** No usable entry is large enough: the kernel halts. *)
Lemma init_halts offset c entries :
  memmap_ok entries →
  carve (total_pages entries * sizeof_pmm_page) entries = None →
  pmm_init offset (pmm_boot c entries) = Err Halt.
Proof.
  intros [Hok _] Hcarve.
  destruct (total_pages_bounds entries Hok) as [Htot _].
  destruct (highest_addr_bounds entries 0 Hok); [lia|].
  rewrite /pmm_init /bind /gets /modify /=. rewrite pages_for_eq; [|lia].
  change (pages_for (highest_addr 0 entries)) with (total_pages entries).
  rewrite u64_small; [|rewrite /sizeof_pmm_page; lia]. by rewrite Hcarve.
Qed.
