(* ===== verification/PmmSpec.v ===== *)
(** * The physical memory manager: specification and theorems

    An abstract page allocator (a set of free pages, a set of allocated blocks),
    the proof that the buddy allocator of pmm.c implements it from boot on, and the
    consequences for its clients. *)

From stdpp Require Import base gmap list numbers functions sorting.
From S2P Require Import Prelude Spinlock Dll Hhdm Buddy Pmm PmmInv PmmOps PmmInit.

(** ** The abstract allocator *)

(** The state [s] holds exactly the free pages [free] and the allocated blocks [A];
    the lock is free. *)
Definition pmm_rep (s : pmm_state) (free : Z → Prop) (A : gset block) : Prop :=
  ∃ FL, pmm_ok s FL A ∅ ∧ pmm_unlocked s ∧ ∀ p, free p ↔ free_page FL p.

(** [abs_alloc o free A r free' A']: asked for [2^o] pages, the allocator may answer
    with the address [r] of any free aligned block, or with 0 when there is none
    (or when the order is beyond the largest it manages). *)
Inductive abs_alloc (o : Z) (free : Z → Prop) (A : gset block)
    : Z → (Z → Prop) → gset block → Prop :=
  | abs_alloc_some b :
      aligned (b, o) → 0 < b → o ≤ top_order → (∀ p, in_block p (b, o) → free p) →
      abs_alloc o free A (b * PMM_PAGE_SIZE)
        (λ p, free p ∧ ¬ in_block p (b, o)) ({[(b, o)]} ∪ A)
  | abs_alloc_none :
      (o ≤ top_order → ∀ b, aligned (b, o) → ¬ (∀ p, in_block p (b, o) → free p)) →
      abs_alloc o free A 0 free A.

(** ** A client of the allocator *)

Inductive pmm_client : pmm_state * gset block → pmm_state * gset block → Prop :=
  | client_alloc o r s s' A :
      0 ≤ o → pmm_alloc_pages o s = Ok (r, s') →
      pmm_client (s, A) (s', if r =? 0 then A else {[(r / PMM_PAGE_SIZE, o)]} ∪ A)
  | client_free b s s' A :
      b ∈ A → pmm_free_pages (b.1 * PMM_PAGE_SIZE) b.2 s = Ok (tt, s') →
      pmm_client (s, A) (s', A ∖ {[b]})
  | client_inc_ref b r s s' A :
      b ∈ A → refs s b r → r + 1 < 2 ^ 32 →
      pmm_page_inc_ref (b.1 * PMM_PAGE_SIZE) s = Ok (tt, s') →
      pmm_client (s, A) (s', A)
  | client_dec_ref b r s s' A :
      b ∈ A → refs s b r → pmm_page_dec_ref (b.1 * PMM_PAGE_SIZE) s = Ok (tt, s') →
      pmm_client (s, A) (s', if r =? 1 then A ∖ {[b]} else A).

(** All usable memory is either free or in exactly one allocated block. *)
Definition accounted (entries : list memmap_entry) (s : pmm_state) (A : gset block) : Prop :=
  ∃ free, pmm_rep s free A ∧
    ∀ p, usable_page entries p ↔ free p ∨ pages_of (.∈ A) p.

(** A small machine: 40 pages of RAM from address 0, then a hole, then ACPI data. *)
Definition demo_map : list memmap_entry :=
  [mkEntry 0 (40 * 4096) LIMINE_MEMMAP_USABLE;
   mkEntry (40 * 4096) 4096 MEMMAP_OTHER;
   mkEntry (41 * 4096) 4096 LIMINE_MEMMAP_ACPI_NVS].
Definition demo_offset : Z := 0xffff800000000000.
Definition demo_cpu : cpu := mkCpu 0x202.
Definition demo_state : pmm_state :=
  match pmm_init demo_offset (pmm_boot demo_cpu demo_map) with
  | Ok (_, s) => s
  | Err _ => pmm_boot demo_cpu demo_map
  end.

(** ** Lemmas *)

Lemma in_block_shared total pages nd nr FL A H b p :
  pmm_inv total pages nd nr FL A H → b ∈ A → in_block p b → ¬ free_page FL p.
Proof.
  intros Hi Hb Hp (c & Hc & Hpc). assert (b = c) as ->.
  { apply (inv_disj _ _ _ _ _ _ _ Hi _ _ p); [by right; left|by left|done..]. }
  by apply (free_not_used _ _ _ _ _ _ _ _ Hi Hc).
Qed.

Lemma alloc_refines o s free A :
  pmm_rep s free A → 0 ≤ o →
  ∃ r s' free' A', pmm_alloc_pages o s = Ok (r, s') ∧ returned s s' ∧
    abs_alloc o free A r free' A' ∧ pmm_rep s' free' A'.
Proof.
  intros (FL & Hi & Hul & Hfree) Ho.
  pose proof (alloc_pages_wp o s FL A Hi Hul Ho) as (r & s' & E & Hret & Hr)%wp_run.
  exists r, s'. destruct Hr as [(-> & Hex & Hi' & _)|(b & -> & Hb & FL' & Hi' & HbA & _ & Hp)].
  - exists free, A. split; [done|]. split; [done|]. split; [|exists FL; split; [done|]; split; [apply Hret|done]].
    apply abs_alloc_none. intros Hto b Hal Hrun.
    eapply (exhausted_no_run _ _ _ _ FL A ∅ o b); [done|lia|done|done|].
    intros p Hp. by apply Hfree, Hrun.
  - exists (λ p, free p ∧ ¬ in_block p (b, o)), ({[(b, o)]} ∪ A).
    destruct (inv_wf _ _ _ _ _ _ _ Hi' (b, o)) as [Hal Hto _ _];
      [right; left; set_solver|]. simpl in *.
    split; [done|]. split; [done|]. split.
    + apply abs_alloc_some; [done..|]. intros p Hpb. apply Hfree, Hp. by right.
    + exists FL'. split; [done|]. split; [apply Hret|]. intros p. rewrite Hfree Hp. split.
      * intros [[|] ?]; done.
      * intros Hf. split; [by left|]. intros Hin.
        eapply in_block_shared; [exact Hi'| |done|done]. set_solver.
Qed.

Lemma free_refines b s free A :
  pmm_rep s free A → b ∈ A →
  ∃ s', pmm_free_pages (b.1 * PMM_PAGE_SIZE) b.2 s = Ok (tt, s') ∧ returned s s' ∧
    pmm_rep s' (λ p, free p ∨ in_block p b) (A ∖ {[b]}).
Proof.
  intros (FL & Hi & Hul & Hfree) Hb.
  pose proof (free_pages_used b s FL A Hi Hul Hb) as ([] & s' & E & (FL' & r & Hi' & _ & _ & Hp) & Hret)%wp_run.
  exists s'. split; [done|]. split; [done|]. exists FL'. split; [done|].
  split; [apply Hret|]. intros p. by rewrite Hp Hfree.
Qed.

Lemma inc_ref_refines b r s free A :
  pmm_rep s free A → b ∈ A → refs s b r → r + 1 < 2 ^ 32 →
  ∃ s', pmm_page_inc_ref (b.1 * PMM_PAGE_SIZE) s = Ok (tt, s') ∧ returned s s' ∧
    pmm_rep s' free A ∧ refs s' b (r + 1).
Proof.
  intros (FL & Hi & Hul & Hfree) Hb Hr Hlt.
  pose proof (inc_ref_wp b r s FL A Hi Hul Hb Hr Hlt) as ([] & s' & E & Hret & Hi' & Hr' & _)%wp_run.
  exists s'. split; [done|]. split; [done|]. split; [|done]. exists FL. by split; [|split; [apply Hret|]].
Qed.

Lemma dec_ref_refines b r s free A :
  pmm_rep s free A → b ∈ A → refs s b r →
  ∃ s', pmm_page_dec_ref (b.1 * PMM_PAGE_SIZE) s = Ok (tt, s') ∧ returned s s' ∧
    if r =? 1 then pmm_rep s' (λ p, free p ∨ in_block p b) (A ∖ {[b]})
    else pmm_rep s' free A ∧ refs s' b (r - 1).
Proof.
  intros (FL & Hi & Hul & Hfree) Hb Hr. destruct (Z.eqb_spec r 1) as [->|Hne].
  - pose proof (dec_ref_last_wp b s FL A Hi Hul Hb Hr) as ([] & s' & E & Hret & FL' & q & Hi' & _ & _ & Hp)%wp_run.
    exists s'. split; [done|]. split; [done|]. exists FL'. split; [done|].
    split; [apply Hret|]. intros p. by rewrite Hp Hfree.
  - pose proof (dec_ref_shared_wp b r s FL A Hi Hul Hb Hr Hne) as ([] & s' & E & Hret & Hi' & Hr' & _)%wp_run.
    exists s'. split; [done|]. split; [done|]. split; [|done]. exists FL. by split; [|split; [apply Hret|]].
Qed.

Lemma demo_map_ok : memmap_ok demo_map.
Proof.
  split.
  - repeat constructor; simpl; lia.
  - repeat constructor; intros ??; simpl in *; done || lia.
Qed.

Lemma init_refines offset c entries base es' :
  memmap_ok entries → 0 < offset → base + offset < 2 ^ 64 →
  carve (total_pages entries * sizeof_pmm_page) entries = Some (base, es') →
  ∃ s, pmm_init offset (pmm_boot c entries) = Ok (tt, s) ∧
    pmm_rep s (usable_page es') ∅ ∧ pmm_cpu s = c ∧ memmap s = es' ∧
    totalPages s = total_pages entries.
Proof.
  intros Hmm Ho1 Ho2 Hc.
  pose proof (init_wp offset c entries base es' Hmm Ho1 Ho2 Hc)
    as ([] & s & E & FL & Hi & Hul & Hcpu & Hmem & Ht & _ & _ & Hp)%wp_run.
  exists s. split; [done|]. split; [|done]. exists FL. split; [done|]. split; [done|].
  intros p. by rewrite Hp.
Qed.

Lemma demo_rep :
  ∃ es', carve (total_pages demo_map * sizeof_pmm_page) demo_map = Some (0, es') ∧
    pmm_init demo_offset (pmm_boot demo_cpu demo_map) = Ok (tt, demo_state) ∧
    pmm_rep demo_state (usable_page es') ∅.
Proof.
  eexists. split; [vm_compute; reflexivity|].
  destruct (init_refines demo_offset demo_cpu demo_map 0 _ demo_map_ok eq_refl eq_refl eq_refl)
    as (s & E & Hrep & _).
  assert (demo_state = s) as Hs by (rewrite /demo_state E; exact eq_refl).
  rewrite Hs. exact (conj E Hrep).
Qed.

(** ** Reachable states *)

Lemma accounted_disjoint entries s A :
  accounted entries s A →
  (∀ b, b ∈ A → aligned b ∧ ∀ p, in_block p b → usable_page entries p) ∧
  (∀ b c p, b ∈ A → c ∈ A → in_block p b → in_block p c → b = c).
Proof.
  intros (free & (FL & Hi & _ & _) & Hacc). split.
  - intros b Hb. split; [apply (inv_wf _ _ _ _ _ _ _ Hi); by right; left|].
    intros p Hp. apply Hacc. right. by exists b.
  - intros b c p Hb Hc. apply (inv_disj _ _ _ _ _ _ _ Hi); by right; left.
Qed.

Lemma pages_of_insert (A : gset block) b p :
  pages_of (.∈ {[b]} ∪ A) p ↔ in_block p b ∨ pages_of (.∈ A) p.
Proof.
  rewrite /pages_of. split.
  - intros (c & [->%elem_of_singleton|Hc]%elem_of_union & Hp); [by left|right; by exists c].
  - intros [Hp|(c & Hc & Hp)]; [exists b|exists c]; set_solver.
Qed.

Lemma pages_of_split (A : gset block) b p :
  b ∈ A → pages_of (.∈ A) p ↔ in_block p b ∨ pages_of (.∈ A ∖ {[b]}) p.
Proof. intros Hb. by rewrite -pages_of_insert -union_difference_singleton_L. Qed.

(** Two runs of one operation from one state agree. *)
Ltac same_run :=
  match goal with
  | H1 : ?m = Ok _, H2 : ?m = Ok _ |- _ => rewrite H1 in H2; simplify_eq
  end.

Lemma accounted_step entries s A s' A' :
  accounted entries s A → pmm_client (s, A) (s', A') → accounted entries s' A'.
Proof.
  intros (free & Hrep & Hacc) Hstep. inversion Hstep; subst.
  - destruct (alloc_refines o s free A Hrep) as (r' & s1 & free' & A' & E & _ & Habs & Hrep');
      [done|]. same_run. exists free'.
    destruct Habs as [b Hal Hb Ho Hin|Hno]; [|by split].
    rewrite Z.div_mul //. destruct (Z.eqb_spec (b * PMM_PAGE_SIZE) 0) as [E0|_].
    { rewrite /PMM_PAGE_SIZE in E0. lia. }
    split; [done|]. intros p. rewrite Hacc pages_of_insert.
    destruct (decide (in_block p (b, o))) as [Hp|]; [|tauto]. specialize (Hin p Hp). tauto.
  - destruct (free_refines b s free _ Hrep) as (s1 & E & _ & Hrep'); [done|]. same_run.
    eexists. split; [done|]. intros p. rewrite Hacc (pages_of_split _ b) //. tauto.
  - destruct (inc_ref_refines b r s free _ Hrep) as (s1 & E & _ & Hrep' & _); [done..|].
    same_run. by exists free.
  - destruct (dec_ref_refines b r s free _ Hrep) as (s1 & E & _ & Hrep'); [done..|]. same_run.
    destruct (r =? 1).
    + eexists. split; [done|]. intros p. rewrite Hacc (pages_of_split _ b) //. tauto.
    + exists free. by split; [apply Hrep'|].
Qed.

Lemma accounted_reachable entries s A s' A' :
  accounted entries s A → rtc pmm_client (s, A) (s', A') → accounted entries s' A'.
Proof.
  intros H0 Hrtc. remember (s, A) as x eqn:Ex. remember (s', A') as y eqn:Ey.
  revert s A Ex H0. induction Hrtc as [x|x [s1 A1] y Hs _ IH]; intros s A -> H0.
  - by simplify_eq.
  - apply (IH Ey s1 A1 eq_refl). by eapply accounted_step.
Qed.

Lemma accounted_no_fault entries s A :
  accounted entries s A →
  (∀ o, 0 ≤ o → ∃ r s', pmm_alloc_pages o s = Ok (r, s')) ∧
  (∀ b, b ∈ A → (∃ s', pmm_free_pages (b.1 * PMM_PAGE_SIZE) b.2 s = Ok (tt, s')) ∧
     ∃ s', pmm_page_dec_ref (b.1 * PMM_PAGE_SIZE) s = Ok (tt, s')).
Proof.
  intros (free & Hrep & _). split.
  - intros o Ho. destruct (alloc_refines o s free A Hrep Ho) as (r & s' & _ & _ & E & _). eauto.
  - intros b Hb. split.
    + destruct (free_refines b s free A Hrep Hb) as (s' & E & _). eauto.
    + pose proof Hrep as (FL & Hi & _).
      destruct (inv_used_page _ _ _ _ _ _ _ Hi b Hb) as (r & Hr & _).
      destruct (dec_ref_refines b r s free A Hrep Hb Hr) as (s' & E & _). eauto.
Qed.

(** Freeing what was just allocated gives back the same free blocks. *)
Lemma alloc_free_same_blocks o s FL A :
  pmm_ok s FL A ∅ → pmm_unlocked s → 0 ≤ o →
  wp (a <- pmm_alloc_pages o;; if a =? 0 then ret tt else pmm_free_pages a o)
    (λ _ s', ∃ FL', pmm_ok s' FL' A ∅ ∧ pmm_unlocked s' ∧
       ∀ b, free_in FL' b ↔ free_in FL b) s.
Proof.
  intros Hi Hul Ho. apply wp_bind.
  eapply wp_mono; [by apply (alloc_pages_wp o s FL A)|].
  intros r s1 [Hret [(-> & _ & Hi1 & _)|(b & -> & Hb & FL1 & Hi1 & HbA & _ & Hp1)]].
  { apply wp_ret. exists FL. split; [done|]. split; [apply Hret|done]. }
  destruct (Z.eqb_spec (b * PMM_PAGE_SIZE) 0) as [E0|_].
  { rewrite /PMM_PAGE_SIZE in E0. lia. }
  eapply wp_mono; [apply (free_pages_used (b, o) s1 FL1); [exact Hi1|apply Hret|set_solver]|].
  intros [] s2 [(FL2 & r & Hi2 & _ & _ & Hp2) Hret2].
  replace (({[(b, o)]} ∪ A) ∖ {[(b, o)]}) with A in Hi2 by set_solver.
  exists FL2. split; [done|]. split; [apply Hret2|].
  assert (∀ p, free_page FL2 p ↔ free_page FL p) as Hsame by (intros p; rewrite Hp2 Hp1; done).
  pose proof (inv_canonical _ _ _ _ _ _ _ Hi) as Hc.
  pose proof (inv_canonical _ _ _ _ _ _ _ Hi2) as Hc2.
  intros c. split; eapply canonical_unique; try done; intros p; first [apply Hsame|symmetry; apply Hsame].
Qed.

Lemma alloc_size_refines size s free A :
  pmm_rep s free A → 0 ≤ size < 2 ^ 64 →
  ∃ o r s' free' A', pmm_get_order_from_size size = Ok o ∧ pmm_alloc size s = Ok (r, s') ∧
    returned s s' ∧ abs_alloc o free A r free' A' ∧ pmm_rep s' free' A'.
Proof.
  intros Hrep Hs. destruct (get_order_ok size Hs) as (o & Eo & Ho & _).
  destruct (alloc_refines o s free A Hrep Ho) as (r & s' & free' & A' & E & Hrest).
  exists o, r, s', free', A'. split; [done|]. split; [|done].
  rewrite /pmm_alloc /bind /lift /ask Eo. destruct (Z.leb_spec PMM_MAX_ORDER o) as [Hbig|]; [|done].
  rewrite -E /pmm_alloc_pages. by destruct (Z.leb_spec PMM_MAX_ORDER o); [|lia].
Qed.

(** The demonstration machine with one page allocated, and with one order-2 block. *)
Definition demo_alloc (o : Z) : Z * pmm_state :=
  match pmm_alloc_pages o demo_state with Ok rs => rs | Err _ => (0, demo_state) end.

Lemma demo_alloc_rep o b :
  0 ≤ o → (demo_alloc o).1 = b * PMM_PAGE_SIZE → 0 < b →
  ∃ free, pmm_rep (demo_alloc o).2 free {[(b, o)]} .
Proof.
  intros Ho Eb Hb. destruct demo_rep as (es' & _ & _ & Hrep).
  destruct (alloc_refines o demo_state _ ∅ Hrep Ho) as (r & s' & free' & A' & E & _ & Habs & Hrep').
  assert (demo_alloc o = (r, s')) as Ed by (rewrite /demo_alloc E; exact eq_refl).
  rewrite Ed in Eb |- *. cbn [fst snd] in *. exists free'. destruct Habs as [b' ? ? ? ?|].
  - rewrite right_id_L in Hrep'. assert (b' = b) as -> by (rewrite /PMM_PAGE_SIZE in Eb; lia). exact Hrep'.
  - rewrite /PMM_PAGE_SIZE in Eb. lia.
Qed.

(** [m] run [n] times. *)
Fixpoint times {S} (n : nat) (m : M S unit) : M S unit :=
  match n with O => ret tt | S n => m;;; times n m end.

Lemma pages_for_le size o : pages_for size ≤ 2 ^ o ↔ size ≤ 2 ^ o * PMM_PAGE_SIZE.
Proof. rewrite /pages_for /PMM_PAGE_SIZE. Z.div_mod_to_equations. lia. Qed.

Lemma in_block_first b o : aligned (b, o) → in_block b (b, o).
Proof. intros [? _]. rewrite /in_block /=. destruct (pow2_pos o); simpl in *; lia. Qed.

Lemma inc_ref_times n b r s free A :
  pmm_rep s free A → b ∈ A → refs s b r → r + Z.of_nat n < 2 ^ 32 →
  ∃ s', times n (pmm_page_inc_ref (b.1 * PMM_PAGE_SIZE)) s = Ok (tt, s') ∧
    pmm_rep s' free A ∧ refs s' b (r + Z.of_nat n).
Proof.
  revert r s. induction n as [|n IH]; intros r s Hrep Hb Hr Hn.
  - exists s. by rewrite Z.add_0_r.
  - destruct (inc_ref_refines b r s free A) as (s1 & E1 & _ & Hrep1 & Hr1); [done..|lia|].
    destruct (IH (r + 1) s1) as (s2 & E2 & Hrep2 & Hr2); [done..|lia|].
    exists s2. simpl. rewrite /bind E1. split; [done|]. split; [done|].
    by replace (r + Z.of_nat (S n)) with (r + 1 + Z.of_nat n) by lia.
Qed.

Lemma dec_ref_times n b r s free A :
  pmm_rep s free A → b ∈ A → refs s b (r + Z.of_nat n) → 1 ≤ r →
  ∃ s', times n (pmm_page_dec_ref (b.1 * PMM_PAGE_SIZE)) s = Ok (tt, s') ∧
    pmm_rep s' free A ∧ refs s' b r.
Proof.
  revert s. induction n as [|n IH]; intros s Hrep Hb Hr Hn.
  - exists s. by rewrite Z.add_0_r in Hr.
  - destruct (dec_ref_refines b _ s free A Hrep Hb Hr) as (s1 & E1 & _ & Hdec).
    destruct (Z.eqb_spec (r + Z.of_nat (S n)) 1) as [|_]; [lia|]. destruct Hdec as [Hrep1 Hr1].
    destruct (IH s1) as (s2 & E2 & Hrep2 & Hr2); [done|done| |done|].
    { by replace (r + Z.of_nat n) with (r + Z.of_nat (S n) - 1) by lia. }
    exists s2. simpl. by rewrite /bind E1.
Qed.

(** ** Properties of the physical memory manager *)

(** C17: [pmm_init] on any memory map whose usable entries are disjoint and in order,
    when one of them can hold the page structs, returns with exactly the whole pages of
    usable memory free (page 0 and the page structs themselves excepted) and nothing
    allocated; the lock is free and RFLAGS are as before. *)
Theorem pmm_init_correct offset c entries base es' :
  memmap_ok entries → 0 < offset → base + offset < 2 ^ 64 →
  carve (total_pages entries * sizeof_pmm_page) entries = Some (base, es') →
  ∃ s, pmm_init offset (pmm_boot c entries) = Ok (tt, s) ∧
    pmm_rep s (usable_page es') ∅ ∧ pmm_cpu s = c ∧ memmap s = es' ∧
    totalPages s = total_pages entries.
Proof. apply init_refines. Qed.

Lemma pmm_init_correct_witness :
  ∃ es' s, pmm_init demo_offset (pmm_boot demo_cpu demo_map) = Ok (tt, s) ∧
    pmm_rep s (usable_page es') ∅ ∧ pmm_cpu s = demo_cpu ∧ memmap s = es' ∧
    totalPages s = total_pages demo_map.
Proof.
  eexists. exact (pmm_init_correct demo_offset demo_cpu demo_map 0 _ demo_map_ok
    eq_refl eq_refl eq_refl).
Defined.

(** When no usable entry can hold the page structs, [pmm_init] halts the machine. *)
Lemma pmm_init_no_room offset c entries :
  memmap_ok entries →
  carve (total_pages entries * sizeof_pmm_page) entries = None →
  pmm_init offset (pmm_boot c entries) = Err Halt.
Proof. apply init_halts. Qed.

Lemma pmm_init_no_room_witness :
  pmm_init demo_offset (pmm_boot demo_cpu [mkEntry 0 16 LIMINE_MEMMAP_USABLE]) = Err Halt.
Proof.
  apply pmm_init_no_room; [|exact eq_refl].
  split; [repeat constructor; simpl; lia|]. repeat constructor.
Defined.

(** C15: [pmm_alloc_pages] implements the abstract allocator: it always returns, with
    the address of an aligned block of pages that were all free and no longer are, or
    with 0 only when no aligned free block of that size exists; it never hands out page
    0 and gives the lock and RFLAGS back. *)
Theorem pmm_alloc_pages_correct o s free A :
  pmm_rep s free A → 0 ≤ o →
  ∃ r s' free' A', pmm_alloc_pages o s = Ok (r, s') ∧ returned s s' ∧
    abs_alloc o free A r free' A' ∧ pmm_rep s' free' A'.
Proof. apply alloc_refines. Qed.

Lemma pmm_alloc_pages_correct_witness :
  ∃ free r s' free' A', pmm_rep demo_state free ∅ ∧ pmm_alloc_pages 3 demo_state = Ok (r, s') ∧
    abs_alloc 3 free ∅ r free' A' ∧ pmm_rep s' free' A'.
Proof.
  destruct demo_rep as (es' & _ & _ & Hrep).
  destruct (pmm_alloc_pages_correct 3 demo_state _ ∅ Hrep) as (r & s' & free' & A' & H1 & _ & H2 & H3);
    [lia|].
  exact (ex_intro _ _ (ex_intro _ r (ex_intro _ s' (ex_intro _ free' (ex_intro _ A'
    (conj Hrep (conj H1 (conj H2 H3)))))))).
Defined.

(** C16: [pmm_free_pages] of an allocated block always returns, makes exactly the block's
    pages free and removes it from the allocated blocks, coalescing included. *)
Theorem pmm_free_pages_correct b s free A :
  pmm_rep s free A → b ∈ A →
  ∃ s', pmm_free_pages (b.1 * PMM_PAGE_SIZE) b.2 s = Ok (tt, s') ∧ returned s s' ∧
    pmm_rep s' (λ p, free p ∨ in_block p b) (A ∖ {[b]}).
Proof. apply free_refines. Qed.

Lemma pmm_free_pages_correct_witness :
  ∃ s', pmm_free_pages (4 * PMM_PAGE_SIZE) 2 (demo_alloc 2).2 = Ok (tt, s').
Proof.
  destruct (demo_alloc_rep 2 4) as (free & Hrep); [lia|vm_compute; exact eq_refl|lia|].
  destruct (pmm_free_pages_correct (4, 2) _ free {[(4, 2)]} Hrep) as (s' & E & _);
    [by apply elem_of_singleton|].
  exact (ex_intro _ s' E).
Defined.

(** Allocating a block and freeing it again leaves the very same set of free
    blocks, whatever splitting and merging happened in between: the free blocks are
    always the maximal aligned runs of free pages. *)
Lemma pmm_alloc_free_roundtrip o s FL A :
  pmm_ok s FL A ∅ → pmm_unlocked s → 0 ≤ o →
  wp (a <- pmm_alloc_pages o;; if a =? 0 then ret tt else pmm_free_pages a o)
    (λ _ s', ∃ FL', pmm_ok s' FL' A ∅ ∧ pmm_unlocked s' ∧
       ∀ b, free_in FL' b ↔ free_in FL b) s.
Proof. apply alloc_free_same_blocks. Qed.

Lemma pmm_alloc_free_roundtrip_witness :
  ∃ FL, pmm_ok demo_state FL ∅ ∅ ∧
  wp (a <- pmm_alloc_pages 0;; if a =? 0 then ret tt else pmm_free_pages a 0)
    (λ _ s', ∃ FL', pmm_ok s' FL' ∅ ∅ ∧ pmm_unlocked s' ∧
       ∀ b, free_in FL' b ↔ free_in FL b) demo_state.
Proof.
  destruct demo_rep as (es' & _ & _ & FL & Hi & Hul & _).
  exact (ex_intro _ FL (conj Hi
    (pmm_alloc_free_roundtrip 0 demo_state FL ∅ Hi Hul (Z.le_refl 0)))).
Defined.

(** C1: safety for every client: after [pmm_init] and any sequence of allocations,
    frees of what was allocated and reference-count changes, the blocks handed out are
    aligned, made of usable pages only and pairwise disjoint; all usable memory is free
    or in one of them; and the next call returns too. *)
Theorem pmm_client_safe offset c entries base es' s0 s A :
  memmap_ok entries → 0 < offset → base + offset < 2 ^ 64 →
  carve (total_pages entries * sizeof_pmm_page) entries = Some (base, es') →
  pmm_init offset (pmm_boot c entries) = Ok (tt, s0) →
  rtc pmm_client (s0, ∅) (s, A) →
  accounted es' s A ∧
  (∀ b, b ∈ A → aligned b ∧ ∀ p, in_block p b → usable_page es' p) ∧
  (∀ b c p, b ∈ A → c ∈ A → in_block p b → in_block p c → b = c) ∧
  (∀ o, 0 ≤ o → ∃ r s', pmm_alloc_pages o s = Ok (r, s')) ∧
  (∀ b, b ∈ A → (∃ s', pmm_free_pages (b.1 * PMM_PAGE_SIZE) b.2 s = Ok (tt, s')) ∧
     ∃ s', pmm_page_dec_ref (b.1 * PMM_PAGE_SIZE) s = Ok (tt, s')).
Proof.
  intros Hmm Ho1 Ho2 Hc Hinit Hrtc.
  destruct (init_refines offset c entries base es' Hmm Ho1 Ho2 Hc) as (s1 & E & Hrep & _).
  same_run. assert (accounted es' s1 ∅) as H0.
  { eexists. split; [exact Hrep|]. intros p. split; [by left|].
    intros [?|(b & Hb & _)]; [done|]. by apply not_elem_of_empty in Hb. }
  pose proof (accounted_reachable es' _ _ _ _ H0 Hrtc) as Hacc.
  destruct (accounted_disjoint es' s A Hacc). destruct (accounted_no_fault es' s A Hacc).
  repeat (split; [done|]). done.
Qed.

Lemma pmm_client_safe_witness :
  ∃ es' s A, rtc pmm_client (demo_state, ∅) (s, A) ∧ A = {[(32, 3)]} ∧ accounted es' s A.
Proof.
  destruct demo_rep as (es' & Hc & Hinit & Hrep).
  destruct (alloc_refines 3 demo_state _ ∅ Hrep) as (r & s' & free' & A' & E & _); [lia|].
  assert (r = 32 * 4096) as ->.
  { assert ((demo_alloc 3).1 = 32 * 4096) as <- by (vm_compute; exact eq_refl).
    rewrite /demo_alloc E. exact eq_refl. }
  pose proof (client_alloc 3 _ _ _ ∅ ltac:(lia) E) as Hstep.
  assert (rtc pmm_client (demo_state, ∅) (s', {[(32, 3)]})) as Hrtc.
  { apply rtc_once. rewrite right_id_L in Hstep. exact Hstep. }
  destruct (pmm_client_safe demo_offset demo_cpu demo_map 0 es' demo_state s' {[(32, 3)]}
    demo_map_ok eq_refl eq_refl Hc Hinit Hrtc) as [Hacc _].
  exact (ex_intro _ es' (ex_intro _ s' (ex_intro _ _ (conj Hrtc (conj eq_refl Hacc))))).
Defined.

(** [pmm_alloc] picks the least order whose block holds [size] bytes (also when
    [size] is 0 or close to 2^64) and then behaves as the abstract allocator at that
    order. *)
Lemma pmm_alloc_correct size s free A :
  pmm_rep s free A → 0 ≤ size < 2 ^ 64 →
  ∃ o r s' free' A',
    0 ≤ o ∧ size ≤ 2 ^ o * PMM_PAGE_SIZE ∧
    (∀ o', 0 ≤ o' → size ≤ 2 ^ o' * PMM_PAGE_SIZE → o ≤ o') ∧
    pmm_alloc size s = Ok (r, s') ∧ returned s s' ∧
    abs_alloc o free A r free' A' ∧ pmm_rep s' free' A'.
Proof.
  intros Hrep Hs.
  destruct (alloc_size_refines size s free A Hrep Hs) as (o & r & s' & free' & A' & Eo & Hrest).
  destruct (get_order_ok size Hs) as (o1 & Eo1 & Ho & Hle & Hleast).
  assert (o1 = o) as -> by congruence.
  exists o, r, s', free', A'. split; [done|].
  pose proof (pages_for_le size). split; [by apply pages_for_le|]. split; [|done].
  intros o' Ho' Hfit%pages_for_le. destruct Hleast as [->|Hlt]; [done|].
  destruct (decide (o ≤ o')); [done|].
  assert (2 ^ o' ≤ 2 ^ (o - 1)) by (apply Z.pow_le_mono_r; lia). lia.
Qed.

Lemma pmm_alloc_correct_witness :
  ∃ r s', pmm_alloc 20000 demo_state = Ok (r, s').
Proof.
  destruct demo_rep as (es' & _ & _ & Hrep).
  destruct (pmm_alloc_correct 20000 demo_state _ ∅ Hrep)
    as (o & r & s' & free' & A' & _ & _ & _ & E & _); [lia|].
  exact (ex_intro _ r (ex_intro _ s' E)).
Defined.

(** [pmm_free] with the size a block was allocated for frees exactly that block. *)
Lemma pmm_alloc_free_by_size size s free A r s1 :
  pmm_rep s free A → 0 ≤ size < 2 ^ 64 → pmm_alloc size s = Ok (r, s1) → r ≠ 0 →
  ∃ s2, pmm_free r size s1 = Ok (tt, s2) ∧
    ∃ free', pmm_rep s2 free' A ∧ ∀ p, free' p ↔ free p.
Proof.
  intros Hrep Hs E Hr.
  destruct (alloc_size_refines size s free A Hrep Hs)
    as (o & r' & s1' & free1 & A1 & Eo & E' & _ & Habs & Hrep1).
  same_run. destruct Habs as [b Hal Hb Ho Hin|]; [|done].
  assert ((b, o) ∉ A) as HnA.
  { intros HA. destruct Hrep as (FL & Hi & _ & Hfree).
    eapply (in_block_shared _ _ _ _ _ _ _ _ b Hi HA); [|apply Hfree, Hin];
      apply in_block_first, Hal. }
  destruct (free_refines (b, o) _ _ _ Hrep1) as (s2 & E2 & _ & Hrep2); [set_solver|].
  exists s2. split; [by rewrite /pmm_free /bind /lift /ask Eo|].
  replace (({[(b, o)]} ∪ A) ∖ {[(b, o)]}) with A in Hrep2 by set_solver.
  eexists. split; [exact Hrep2|]. intros p. simpl.
  destruct (decide (in_block p (b, o))) as [Hp|]; [|tauto]. specialize (Hin p Hp). tauto.
Qed.

Lemma pmm_alloc_free_by_size_witness :
  ∃ r s1 s2, pmm_alloc 20000 demo_state = Ok (r, s1) ∧ pmm_free r 20000 s1 = Ok (tt, s2).
Proof.
  destruct demo_rep as (es' & _ & _ & Hrep).
  destruct (alloc_size_refines 20000 demo_state _ ∅ Hrep)
    as (o & r & s1 & free' & A' & _ & E & _); [lia|].
  assert (r ≠ 0) as Hr.
  { assert (match pmm_alloc 20000 demo_state with Ok (a, _) => a | Err _ => 0 end ≠ 0) as Hn
      by (vm_compute; discriminate).
    rewrite E in Hn. exact Hn. }
  destruct (pmm_alloc_free_by_size 20000 demo_state _ ∅ r s1 Hrep) as (s2 & E2 & _);
    [lia|exact E|exact Hr|].
  exact (ex_intro _ r (ex_intro _ s1 (ex_intro _ s2 (conj E E2)))).
Defined.

(** The life of a shared block: after [n] [pmm_page_inc_ref] and as many
    [pmm_page_dec_ref] it is still allocated with its first reference, and one more
    [pmm_page_dec_ref] frees exactly its pages. *)
Lemma pmm_refcount_life b n s free A :
  pmm_rep s free A → b ∈ A → refs s b 1 → Z.of_nat n + 1 < 2 ^ 32 →
  ∃ s1 s2, (times n (pmm_page_inc_ref (b.1 * PMM_PAGE_SIZE));;;
            times n (pmm_page_dec_ref (b.1 * PMM_PAGE_SIZE))) s = Ok (tt, s1) ∧
    pmm_rep s1 free A ∧ refs s1 b 1 ∧
    pmm_page_dec_ref (b.1 * PMM_PAGE_SIZE) s1 = Ok (tt, s2) ∧
    pmm_rep s2 (λ p, free p ∨ in_block p b) (A ∖ {[b]}).
Proof.
  intros Hrep Hb Hr Hn.
  destruct (inc_ref_times n b 1 s free A) as (s0 & E0 & Hrep0 & Hr0); [done..|lia|].
  destruct (dec_ref_times n b 1 s0 free A) as (s1 & E1 & Hrep1 & Hr1); [done..|lia|].
  destruct (dec_ref_refines b 1 s1 free A Hrep1 Hb Hr1) as (s2 & E2 & _ & Hrep2).
  exists s1, s2. by rewrite /bind E0.
Qed.

Lemma pmm_refcount_life_witness :
  ∃ s1 s2, (times 5 (pmm_page_inc_ref (4 * PMM_PAGE_SIZE));;;
            times 5 (pmm_page_dec_ref (4 * PMM_PAGE_SIZE))) (demo_alloc 2).2 = Ok (tt, s1) ∧
    pmm_page_dec_ref (4 * PMM_PAGE_SIZE) s1 = Ok (tt, s2).
Proof.
  destruct (demo_alloc_rep 2 4) as (free & Hrep); [lia|vm_compute; exact eq_refl|lia|].
  destruct (pmm_refcount_life (4, 2) 5 _ free {[(4, 2)]} Hrep)
    as (s1 & s2 & E1 & _ & _ & E2 & _);
    [by apply elem_of_singleton|vm_compute; exact eq_refl|lia|].
  exact (ex_intro _ s1 (ex_intro _ s2 (conj E1 E2))).
Defined.

(** What the code rejects it leaves alone: freeing an unaligned address or a page
    beyond the managed memory, and reference-counting a page that is not in use,
    change neither pages nor lists nor counters. *)
Lemma pmm_rejected_calls p pg phys order s :
  pmm_unlocked s → totalPages s ≤ p ∨ buddy_memmap s !! p = Some pg ∧ is_page_used pg = false →
  phys mod PMM_PAGE_SIZE ≠ 0 ∨ totalPages s ≤ phys / PMM_PAGE_SIZE →
  ∀ op, op = pmm_page_inc_ref (p * PMM_PAGE_SIZE) ∨ op = pmm_page_dec_ref (p * PMM_PAGE_SIZE) ∨
        op = pmm_free_pages phys order →
  ∃ s', op s = Ok (tt, s') ∧ returned s s' ∧ buddy_memmap s' = buddy_memmap s ∧
    nodes s' = nodes s ∧ nr_free s' = nr_free s ∧ used_pages s' = used_pages s.
Proof.
  intros Hul Hp Hphys op [-> | [-> | ->]].
  - pose proof (ref_not_used_wp pmm_page_inc_ref p pg s (or_introl eq_refl) Hul Hp)
      as ([] & s' & E & H)%wp_run. by exists s'.
  - pose proof (ref_not_used_wp pmm_page_dec_ref p pg s (or_intror eq_refl) Hul Hp)
      as ([] & s' & E & H)%wp_run. by exists s'.
  - destruct (decide (phys mod PMM_PAGE_SIZE = 0)) as [Ha|Ha].
    + destruct Hphys as [|Hout]; [done|].
      pose proof (free_pages_outside phys order s Ha Hout Hul) as ([] & s' & E & H)%wp_run.
      by exists s'.
    + exists s. by rewrite free_pages_unaligned.
Qed.

Lemma pmm_rejected_calls_witness :
  ∃ s', pmm_free_pages 4097 0 demo_state = Ok (tt, s') ∧ used_pages s' = used_pages demo_state.
Proof.
  destruct (pmm_rejected_calls 0 (mkPage 4 1 0) 4097 0 demo_state) with
    (op := pmm_free_pages 4097 0) as (s' & E & H).
  - split; vm_compute; [exact eq_refl|split; [discriminate|exact eq_refl]].
  - right. split; vm_compute; exact eq_refl.
  - left. vm_compute. discriminate.
  - right; right. exact eq_refl.
  - exact (ex_intro _ s' (conj E (proj2 (proj2 (proj2 (proj2 H)))))).
Defined.

(** [used_pages] is not a count of the pages in use. On the demonstration machine
    two pages are allocated and both freed again: a free that merges the page with its
    free buddy subtracts the size of the merged block, so the counter ends below its
    value at boot although the same blocks are allocated (none) as then. *)
Lemma pmm_used_pages_drifts :
  ∃ s', (a <- pmm_alloc_pages 0;; b <- pmm_alloc_pages 0;;
         pmm_free_pages b 0;;; pmm_free_pages a 0) demo_state = Ok (tt, s') ∧
    used_pages demo_state = 3 ∧ used_pages s' = 2.
Proof.
  pose (m := a <- pmm_alloc_pages 0;; b <- pmm_alloc_pages 0;;
             pmm_free_pages b 0;;; pmm_free_pages a 0).
  assert (match m demo_state with Ok (_, s) => used_pages s | Err _ => 0 end = 2) as H
    by (vm_compute; exact eq_refl).
  fold m. destruct (m demo_state) as [[[] s']|]; [|discriminate].
  exists s'. split; [exact eq_refl|]. split; [vm_compute; exact eq_refl|exact H].
Qed.
