(* ===== verification/FrameAlloc.v ===== *)
(** * The frame allocator as its clients see it

    The paging code, the kernel heap and the virtual memory manager only allocate and
    release single frames. [FrameAlloc] is the interface they are written against,
    [FrameAllocSpec] what it promises, and the instances at the end of the file show
    that the physical memory manager keeps the promise. *)

From stdpp Require Import base gmap list numbers functions sorting.
From S2P Require Import Prelude Spinlock Dll Hhdm Buddy Pmm PmmInv PmmOps PmmInit PmmSpec.

(** The calls of pmm.h that the other memory components make. *)
Class FrameAlloc (S : Type) := {
  fa_alloc : Z → M S Z;           (** [pmm_alloc] *)
  fa_dec_ref : Z → M S unit;      (** [pmm_page_dec_ref] *)
  fa_highest : M S Z;             (** [pmm_getHighestAddr] *)
}.

(** A frame address: page aligned, not 0, and below 2^52. *)
Definition frame (f : Z) : Prop := 0 < f < 2 ^ 52 ∧ f mod PMM_PAGE_SIZE = 0.

(** [owned s A n]: the frames [A] are allocated, and at least [n] more frames are
    free. *)
Class FrameAllocSpec (S : Type) `{FrameAlloc S} := {
  owned : S → gset Z → nat → Prop;
  fa_top : S → Z;                 (** the end of the managed memory, which never moves *)
  owned_frame s A n f : owned s A n → f ∈ A → frame f;
  owned_below s A n f : owned s A n → f ∈ A → f < fa_top s;
  owned_weaken s A n A' n' : owned s A n → A' ⊆ A → (n' ≤ n)%nat → owned s A' n';
  owned_alloc s A n :
    owned s A n →
    wp (fa_alloc PMM_PAGE_SIZE) (λ r s', fa_top s' = fa_top s ∧
      ((r = 0 ∧ n = 0%nat ∧ owned s' A 0) ∨
       (r ∉ A ∧ owned s' ({[r]} ∪ A) (pred n)))) s;
  owned_dec_ref s A n f :
    owned s A n → f ∈ A →
    wp (fa_dec_ref f) (λ _ s', fa_top s' = fa_top s ∧ owned s' (A ∖ {[f]}) n) s;
  owned_dec_ref_null s A n :
    owned s A n → wp (fa_dec_ref 0) (λ _ s', fa_top s' = fa_top s ∧ owned s' A n) s;
  owned_highest s A n :
    owned s A n → fa_highest s = Ok (fa_top s, s) ∧ 0 ≤ fa_top s < 2 ^ 64;
}.

Lemma owned_alloc_room {S} `{FrameAllocSpec S} (s : S) A n :
  owned s A (Datatypes.S n) →
  wp (fa_alloc PMM_PAGE_SIZE) (λ r s', fa_top s' = fa_top s ∧ r ∉ A ∧ frame r ∧
    owned s' ({[r]} ∪ A) n) s.
Proof.
  intros Ho. eapply wp_mono; [by apply owned_alloc|].
  intros r s' [Ht [(_ & ? & _)|[Hr Ho']]]; [done|]. split; [done|]. split; [done|]. split; [|done].
  eapply owned_frame; [exact Ho'|]. by apply elem_of_union_l, elem_of_singleton.
Qed.

(** ** The physical memory manager keeps the promise *)

#[export] Instance pmm_frame_alloc : FrameAlloc pmm_state := {|
  fa_alloc := pmm_alloc;
  fa_dec_ref := pmm_page_dec_ref;
  fa_highest := pmm_getHighestAddr;
|}.

(** The block a single frame is. *)
Definition frame_block (f : Z) : block := (f / PMM_PAGE_SIZE, 0).

(** x86 physical addresses have at most 52 bits. *)
Definition pmm_owned (s : pmm_state) (A : gset Z) (n : nat) : Prop :=
  0 ≤ highestAddr s < 2 ^ 64 ∧
  (totalPages s ≤ 2 ^ 40 ∧ totalPages s = pages_for (highestAddr s)) ∧
  ∃ free B (F : gset Z), pmm_rep s free B ∧
    (∀ f, f ∈ A → f mod PMM_PAGE_SIZE = 0 ∧ frame_block f ∈ B) ∧
    (n ≤ size F)%nat ∧ (∀ p, p ∈ F → free p).

Lemma frame_eq f : f mod PMM_PAGE_SIZE = 0 → f = f / PMM_PAGE_SIZE * PMM_PAGE_SIZE.
Proof. intros H. pose proof (Z.div_mod f PMM_PAGE_SIZE ltac:(done)). lia. Qed.

Lemma in_frame_block p f : in_block p (frame_block f) ↔ p = f / PMM_PAGE_SIZE.
Proof. rewrite /in_block /frame_block /=. change (2 ^ 0) with 1. lia. Qed.

Lemma order_of_page : pmm_get_order_from_size PMM_PAGE_SIZE = Ok 0.
Proof. done. Qed.

Lemma pmm_owned_frame s A n f : pmm_owned s A n → f ∈ A → frame f.
Proof.
  intros (_ & [Ht _] & free & B & F & (FL & Hi & _) & HA & _) Hf. destruct (HA f Hf) as [Hmod HB].
  pose proof (used_in_range _ _ _ _ _ Hi HB) as Hr. pose proof (frame_eq f Hmod).
  rewrite /frame_block /= in Hr. split; [|done]. unfold PMM_PAGE_SIZE in *. lia.
Qed.

Lemma pmm_owned_below s A n f : pmm_owned s A n → f ∈ A → f < highestAddr s.
Proof.
  intros (_ & [_ Ht] & free & B & F & (FL & Hi & _) & HA & _) Hf. destruct (HA f Hf) as [Hmod HB].
  pose proof (used_in_range _ _ _ _ _ Hi HB) as Hr. rewrite Ht /frame_block /pages_for /= in Hr.
  unfold PMM_PAGE_SIZE in *. Z.div_mod_to_equations. lia.
Qed.

Lemma pmm_owned_weaken s A n A' n' :
  pmm_owned s A n → A' ⊆ A → (n' ≤ n)%nat → pmm_owned s A' n'.
Proof.
  intros (Hh & Ht & free & B & F & Hrep & HA & Hn & HF) Hsub Hle. split; [done|]. split; [done|].
  exists free, B, F. split; [done|]. split; [|split; [lia|done]]. intros f Hf. by apply HA, Hsub.
Qed.

(** A state that a call of the allocator returned, with the same blocks. *)
Lemma pmm_owned_returned s s' A n (free : Z → Prop) B (F : gset Z) :
  0 ≤ highestAddr s < 2 ^ 64 →
  totalPages s ≤ 2 ^ 40 ∧ totalPages s = pages_for (highestAddr s) → returned s s' → pmm_rep s' free B →
  (∀ f, f ∈ A → f mod PMM_PAGE_SIZE = 0 ∧ frame_block f ∈ B) →
  (n ≤ size F)%nat → (∀ p, p ∈ F → free p) →
  highestAddr s' = highestAddr s ∧ pmm_owned s' A n.
Proof.
  intros Hh Ht (_ & _ & _ & _ & _ & Et & Eh) Hrep HA Hn HF. rewrite /pmm_owned Et Eh.
  split; [done|]. split; [done|]. split; [done|]. by exists free, B, F.
Qed.

Lemma pmm_owned_alloc s A n :
  pmm_owned s A n →
  wp (pmm_alloc PMM_PAGE_SIZE) (λ r s', highestAddr s' = highestAddr s ∧
    ((r = 0 ∧ n = 0%nat ∧ pmm_owned s' A 0) ∨
     (r ∉ A ∧ pmm_owned s' ({[r]} ∪ A) (pred n)))) s.
Proof.
  intros (Hh & Ht & free & B & F & Hrep & HA & Hn & HF). apply wp_run.
  destruct (alloc_size_refines PMM_PAGE_SIZE s free B Hrep ltac:(done))
    as (o & r & s' & free' & B' & Eo & E & Hret & Habs & Hrep').
  rewrite order_of_page in Eo. injection Eo as <-.
  exists r, s'. split; [done|]. split; [apply Hret|].
  destruct Habs as [b Hal Hb Ho Hin|Hnone].
  - right. assert (frame_block (b * PMM_PAGE_SIZE) = (b, 0)) as Hfb
      by (by rewrite /frame_block Z.div_mul).
    assert ((b, 0) ∉ B) as HnB.
    { intros HB. destruct Hrep as (FL & Hi & _ & Hfree).
      eapply (in_block_shared _ _ _ _ _ _ _ _ b Hi HB); [|apply Hfree, Hin];
        by apply in_block_first. }
    split; [intros [_ HB]%HA; congruence|].
    eapply proj2, (pmm_owned_returned s s' _ _ _ _ (F ∖ {[b]})); [done..| | |].
    + intros f [->%elem_of_singleton|Hf]%elem_of_union.
      * split; [by rewrite Z.mod_mul|]. rewrite Hfb. set_solver.
      * destruct (HA f Hf). split; [done|]. set_solver.
    + assert (size F ≤ size (F ∖ {[b]}) + size ({[b]} : gset Z))%nat as Hsz.
      { rewrite -size_union; [|set_solver]. apply subseteq_size.
        intros x Hx. destruct (decide (x = b)); set_solver. }
      rewrite size_singleton in Hsz. lia.
    + intros p [Hp Hpb]%elem_of_difference. split; [by apply HF|]. intros Hin'. apply Hpb.
      rewrite /in_block /= in Hin'. change (2 ^ 0) with 1 in Hin'. apply elem_of_singleton. lia.
  - left. assert (n = 0%nat) as ->.
    { destruct n as [|n]; [done|]. exfalso.
      assert (∃ p, p ∈ F) as [p Hp].
      { destruct (decide (F = ∅)) as [->|Hne]; [rewrite size_empty in Hn; lia|].
        by apply set_choose_L. }
      pose proof (HF p Hp) as Hfree.
      apply (Hnone ltac:(done) p); [split; [done|]; exists p; simpl; change (2 ^ 0) with 1; lia|].
      intros q Hq. rewrite /in_block /= in Hq. change (2 ^ 0) with 1 in Hq.
      by assert (q = p) as -> by lia. }
    split; [done|]. split; [done|]. by eapply proj2, (pmm_owned_returned s s' A 0 free B F).
Qed.

Lemma pmm_owned_dec_ref s A n f :
  pmm_owned s A n → f ∈ A → 
  wp (pmm_page_dec_ref f)
    (λ _ s', highestAddr s' = highestAddr s ∧ pmm_owned s' (A ∖ {[f]}) n) s.
Proof.
  intros (Hh & Ht & free & B & F & Hrep & HA & Hn & HF) Hf. apply wp_run.
  destruct (HA f Hf) as [Hmod HB]. pose proof Hrep as (FL & Hi & _).
  destruct (inv_used_page _ _ _ _ _ _ _ Hi _ HB) as (r & Hr & _).
  destruct (dec_ref_refines (frame_block f) r s free B Hrep HB Hr) as (s' & E & Hret & Hrep').
  cbn [frame_block fst] in E. rewrite -frame_eq // in E. exists tt, s'. split; [done|].
  destruct (r =? 1).
  - eapply (pmm_owned_returned s s' _ _ _ _ F); [done..| |done|intros p Hp; left; by apply HF].
    intros g [Hg Hne]%elem_of_difference. destruct (HA g Hg) as [Hgm HgB]. split; [done|].
    apply elem_of_difference. split; [done|]. intros Eg%elem_of_singleton. apply Hne, elem_of_singleton.
    injection Eg as Eg. by rewrite (frame_eq f Hmod) (frame_eq g Hgm) Eg.
  - destruct Hrep' as [Hrep' _].
    eapply (pmm_owned_returned s s' _ _ free B F); [done..| |done|done].
    intros g [Hg _]%elem_of_difference. by apply HA.
Qed.

(** Page 0 is never in use, so releasing address 0 does nothing. *)
Lemma page_zero_unused s FL A H :
  pmm_ok s FL A H →
  ∃ pg, totalPages s ≤ 0 ∨ buddy_memmap s !! 0 = Some pg ∧ is_page_used pg = false.
Proof.
  intros Hi. destruct (decide (totalPages s ≤ 0)) as [|Hpos]; [exists (mkPage 0 0 0); by left|].
  destruct (inv_cover _ _ _ _ _ _ _ Hi 0) as [(b & Hb & Hin)|(r & o & E)]; [lia| |].
  - pose proof (live_in_block_pos _ _ _ _ _ _ _ _ _ Hi Hb Hin). lia.
  - exists (mkPage PMM_FLAG_RESERVED r o). by right.
Qed.

Lemma pmm_owned_dec_ref_null s A n :
  pmm_owned s A n →
  wp (pmm_page_dec_ref 0) (λ _ s', highestAddr s' = highestAddr s ∧ pmm_owned s' A n) s.
Proof.
  intros (Hh & Ht & free & B & F & (FL & Hi & Hul & Hfree) & HA & Hn & HF).
  destruct (page_zero_unused s FL B ∅ Hi) as (pg & Hpg).
  eapply wp_mono; [by apply (ref_not_used_wp pmm_page_dec_ref 0 pg); [right|..]|].
  intros [] s' (Hret & Epg & End & Enr & _).
  eapply (pmm_owned_returned s s' A n free B F); try done.
  exists FL. split; [|split; [apply Hret|done]].
  rewrite /pmm_ok Epg End Enr. destruct Hret as (_ & _ & _ & _ & _ & -> & _). exact Hi.
Qed.

Lemma pmm_owned_highest s A n :
  pmm_owned s A n →
  pmm_getHighestAddr s = Ok (highestAddr s, s) ∧ 0 ≤ highestAddr s < 2 ^ 64.
Proof. by intros (Hh & _). Qed.

#[export] Instance pmm_frame_alloc_spec : FrameAllocSpec pmm_state := {|
  owned := pmm_owned;
  fa_top := highestAddr;
  owned_frame := pmm_owned_frame;
  owned_below := pmm_owned_below;
  owned_weaken := pmm_owned_weaken;
  owned_alloc := pmm_owned_alloc;
  owned_dec_ref := pmm_owned_dec_ref;
  owned_dec_ref_null := pmm_owned_dec_ref_null;
  owned_highest := pmm_owned_highest;
|}.
