(* ===== verification/Paging.v ===== *)
(** * Page tables: model (memory/paging.c, memory/paging.h)

    The 4-level page tables as the code builds them, in a word-addressed physical
    memory reached through the direct map, with the frame allocator behind its
    interface, the control registers the code writes and the TLB it invalidates. The
    walk the MMU makes over the same memory is defined at the end. Properties are in
    PagingSpec.v. *)

From stdpp Require Import base gmap list numbers functions.
From S2P Require Import Prelude Spinlock Hhdm Pmm FrameAlloc.

Definition PAGING_PAGE_SIZE : Z := 4096.
Definition PAGING_HUGE_PAGE_SIZE : Z := 0x200000.

Definition PTE_FLAG_NO_EXEC : Z := Z.shiftl 1 63.
Definition PTE_FLAG_GLOBAL : Z := Z.shiftl 1 8.
Definition PTE_FLAG_PS : Z := Z.shiftl 1 7.
Definition PTE_FLAG_PAT : Z := Z.shiftl 1 7.
Definition PTE_FLAG_DIRTY : Z := Z.shiftl 1 6.
Definition PTE_FLAG_ACCESSED : Z := Z.shiftl 1 5.
Definition PTE_FLAG_PCD : Z := Z.shiftl 1 4.
Definition PTE_FLAG_PWT : Z := Z.shiftl 1 3.
Definition PTE_FLAG_US : Z := Z.shiftl 1 2.
Definition PTE_FLAG_RW : Z := Z.shiftl 1 1.
Definition PTE_FLAG_PRESENT : Z := Z.shiftl 1 0.
Definition PTE_CACHE_WC : Z := PTE_FLAG_PWT.
Definition PTE_CACHE_UC : Z := PTE_FLAG_PCD.
Definition PTE_CACHE_WB : Z := 0.

Definition PAGING_GET_PML4INDEX (v : Z) : Z := Z.land (Z.shiftr v 39) 0x1FF.
Definition PAGING_GET_PDPRINDEX (v : Z) : Z := Z.land (Z.shiftr v 30) 0x1FF.
Definition PAGING_GET_PDINDEX (v : Z) : Z := Z.land (Z.shiftr v 21) 0x1FF.
Definition PAGING_GET_PTINDEX (v : Z) : Z := Z.land (Z.shiftr v 12) 0x1FF.

Definition PAGING_PTE_ADDR_MASK : Z := 0x000FFFFFFFFFF000.

Definition PAT_TYPE_UC : Z := 0x00.
Definition PAT_TYPE_WC : Z := 0x01.
Definition PAT_TYPE_WB : Z := 0x06.

Definition CR4_PGE_BIT : Z := Z.shiftl 1 7.

(** [entry & PTE_FLAG_PRESENT], [entry & PTE_FLAG_PS] as conditions. *)
Definition present (e : Z) : bool := negb (Z.land e PTE_FLAG_PRESENT =? 0).
Definition page_size (e : Z) : bool := negb (Z.land e PTE_FLAG_PS =? 0).
Definition pte_addr (e : Z) : Z := Z.land e PAGING_PTE_ADDR_MASK.

(** Cached translations: leaf entries by 4 KB page number and by 2 MB page number. *)
Record tlb := mkTlb { tlb_4k : Z → option Z; tlb_2m : Z → option Z }.

Record paging_state (S : Type) := mkPaging {
  frames : S;                (** the state of the frame allocator *)
  mem : Z → Z;               (** 64-bit words of physical memory, by address *)
  hhdm_offset : Z;           (** [hhdm_request.response->offset] *)
  kernel_pml4_phys : Z;
  cr3 : Z;
  cr4 : Z;
  msr_pat : Z;
  tlb_of : tlb;
}.
Arguments mkPaging {S} _ _ _ _ _ _ _ _.
Arguments frames {S} _.
Arguments mem {S} _ _.
Arguments hhdm_offset {S} _.
Arguments kernel_pml4_phys {S} _.
Arguments cr3 {S} _.
Arguments cr4 {S} _.
Arguments msr_pat {S} _.
Arguments tlb_of {S} _.

(** What the linker script and the bootloader say about the kernel image. *)
Record kernel_image := mkImage {
  KERNEL_START : Z; KERNEL_END : Z;
  LIMINE_REQUESTS_START : Z; LIMINE_REQUESTS_END : Z;
  TEXT_START : Z; TEXT_END : Z;
  RODATA_START : Z; RODATA_END : Z;
  DATA_START : Z; DATA_END : Z;
  physical_base : Z;
}.

Section paging.
Context {S : Type} `{FrameAlloc S}.
Implicit Types s : paging_state S.

Definition with_frames (f : S) s : paging_state S :=
  mkPaging f (mem s) (hhdm_offset s) (kernel_pml4_phys s) (cr3 s) (cr4 s) (msr_pat s) (tlb_of s).
Definition with_mem (m : Z → Z) s : paging_state S :=
  mkPaging (frames s) m (hhdm_offset s) (kernel_pml4_phys s) (cr3 s) (cr4 s) (msr_pat s) (tlb_of s).
Definition with_root (r : Z) s : paging_state S :=
  mkPaging (frames s) (mem s) (hhdm_offset s) r (cr3 s) (cr4 s) (msr_pat s) (tlb_of s).
Definition with_cr3 (r : Z) s : paging_state S :=
  mkPaging (frames s) (mem s) (hhdm_offset s) (kernel_pml4_phys s) r (cr4 s) (msr_pat s) (tlb_of s).
Definition with_cr4 (r : Z) s : paging_state S :=
  mkPaging (frames s) (mem s) (hhdm_offset s) (kernel_pml4_phys s) (cr3 s) r (msr_pat s) (tlb_of s).
Definition with_pat (r : Z) s : paging_state S :=
  mkPaging (frames s) (mem s) (hhdm_offset s) (kernel_pml4_phys s) (cr3 s) (cr4 s) r (tlb_of s).
Definition with_tlb (t : tlb) s : paging_state S :=
  mkPaging (frames s) (mem s) (hhdm_offset s) (kernel_pml4_phys s) (cr3 s) (cr4 s) (msr_pat s) t.

(** ** Memory through the direct map *)

Definition load (a : Z) : M (paging_state S) Z :=
  gets (λ s, mem s (hhdm_virtToPhys (hhdm_offset s) a)).
Definition store (a v : Z) : M (paging_state S) unit :=
  modify (λ s, with_mem (<[hhdm_virtToPhys (hhdm_offset s) a := v]> (mem s)) s).

(** [memset(a, 0x00, PAGING_PAGE_SIZE)] *)
Definition zero_page (p : Z) (m : Z → Z) : Z → Z :=
  λ x, if (p <=? x) && (x <? p + PAGING_PAGE_SIZE) then 0 else m x.
Definition clear_page (a : Z) : M (paging_state S) unit :=
  modify (λ s, with_mem (zero_page (hhdm_virtToPhys (hhdm_offset s) a) (mem s)) s).

(** [&table[idx]] *)
Definition entry_ptr (table idx : Z) : Z := u64 (table + 8 * idx).

(** A call of the frame allocator. *)
Definition on_frames {A} (m : M S A) : M (paging_state S) A := λ s,
  match m (frames s) with
  | Ok (a, f) => Ok (a, with_frames f s)
  | Err e => Err e
  end.

(** [invlpg (v)]: drops what is cached for the pages that contain [v]. *)
Definition invlpg (v : Z) : M (paging_state S) unit :=
  modify (λ s, with_tlb (mkTlb (<[v / PAGING_PAGE_SIZE := None]> (tlb_4k (tlb_of s)))
                          (<[v / PAGING_HUGE_PAGE_SIZE := None]> (tlb_2m (tlb_of s)))) s).

(** ** Finding and creating entries *)

(** One level of [vmm_get_pte]: the table the entry [table[idx]] points to, which is
    allocated, zeroed and linked first when it is missing and [allocate] is set. *)
Definition next_table (table idx : Z) (allocate : bool) : M (paging_state S) (option Z) :=
  e <- load (entry_ptr table idx);;
  ok <- (if negb (present e) then
           if negb allocate then ret false
           else
             phys_new <- on_frames (fa_alloc PAGING_PAGE_SIZE);;
             if phys_new =? 0 then ret false
             else
               off <- gets hhdm_offset;;
               clear_page (hhdm_physToVirt off phys_new);;;
               store (entry_ptr table idx)
                 (Z.lor (Z.lor (Z.lor phys_new PTE_FLAG_US) PTE_FLAG_PRESENT) PTE_FLAG_RW);;;
               ret true
         else ret true);;
  if (ok : bool) then
    e <- load (entry_ptr table idx);;
    off <- gets hhdm_offset;;
    ret (Some (hhdm_physToVirt off (pte_addr e)))
  else ret None.

Definition vmm_get_pte (pml4_root virt_addr : Z) (allocate is_huge : bool)
    : M (paging_state S) (option Z) :=
  let virt_addr := if negb (virt_addr mod PAGING_PAGE_SIZE =? 0)
                   then virt_addr - virt_addr mod PAGING_PAGE_SIZE else virt_addr in
  virtual_pdpr <- next_table pml4_root (PAGING_GET_PML4INDEX virt_addr) allocate;;
  match virtual_pdpr with
  | None => ret None
  | Some virtual_pdpr =>
      virtual_pd <- next_table virtual_pdpr (PAGING_GET_PDPRINDEX virt_addr) allocate;;
      match virtual_pd with
      | None => ret None
      | Some virtual_pd =>
          if is_huge then ret (Some (entry_ptr virtual_pd (PAGING_GET_PDINDEX virt_addr)))
          else
            virtual_pt <- next_table virtual_pd (PAGING_GET_PDINDEX virt_addr) allocate;;
            match virtual_pt with
            | None => ret None
            | Some virtual_pt =>
                ret (Some (entry_ptr virtual_pt (PAGING_GET_PTINDEX virt_addr)))
            end
      end
  end.

(** ** Mapping and unmapping *)

Definition page_align (phys_addr : Z) (isHugePage : bool) : Z :=
  if isHugePage && negb (phys_addr mod PAGING_HUGE_PAGE_SIZE =? 0)
  then phys_addr - phys_addr mod PAGING_HUGE_PAGE_SIZE
  else if negb (phys_addr mod PAGING_PAGE_SIZE =? 0)
       then phys_addr - phys_addr mod PAGING_PAGE_SIZE
       else phys_addr.

Definition paging_map_page (pml4_root virt_addr phys_addr flags : Z) (isHugePage : bool)
    : M (paging_state S) unit :=
  let phys_addr := page_align phys_addr isHugePage in
  if (pml4_root =? 0) || (virt_addr =? 0) then fail Halt
  else
    pte <- vmm_get_pte pml4_root virt_addr true isHugePage;;
    match pte with
    | None => fail Halt
    | Some pte =>
        store pte (Z.lor (Z.lor (Z.lor phys_addr flags) PTE_FLAG_PRESENT)
                     (if isHugePage then PTE_FLAG_PS else 0));;;
        invlpg virt_addr
    end.

Definition paging_unmap_page (pml4_root virt_addr : Z) (isHugePage freePhysical : bool)
    : M (paging_state S) unit :=
  if (pml4_root =? 0) || (virt_addr =? 0) then fail Halt
  else
    pte <- vmm_get_pte pml4_root virt_addr false isHugePage;;
    match pte with
    | None => ret tt
    | Some pte =>
        e <- load pte;;
        let physAddr := pte_addr e in
        store pte 0;;;
        invlpg virt_addr;;;
        if freePhysical then on_frames (fa_dec_ref physAddr) else ret tt
    end.

Definition paging_change_page_flags (pml4_root virt_addr flags : Z) (isHugePage : bool)
    : M (paging_state S) unit :=
  if (pml4_root =? 0) || (virt_addr =? 0) then fail Halt
  else
    pte <- vmm_get_pte pml4_root virt_addr false isHugePage;;
    match pte with
    | None => ret tt
    | Some pte =>
        e <- load pte;;
        store pte (Z.lor (Z.lor (pte_addr e) PTE_FLAG_PRESENT) flags);;;
        invlpg virt_addr
    end.

(** ** Regions *)

Definition step_size (isHugePage : bool) : Z :=
  if isHugePage then PAGING_HUGE_PAGE_SIZE else PAGING_PAGE_SIZE.

(** Fuel for a region: one iteration per page and one to leave the loop. *)
Definition region_fuel (size : Z) (isHugePage : bool) : nat :=
  (2 + Z.to_nat (size / step_size isHugePage))%nat.

Fixpoint map_loop (fuel : nat) (pml4_root virtual physical lim flags : Z) (isHugePage : bool)
    : M (paging_state S) unit :=
  match fuel with
  | O => fail OutOfFuel
  | Datatypes.S fuel =>
      if virtual <? lim then
        paging_map_page pml4_root virtual physical flags isHugePage;;;
        map_loop fuel pml4_root (u64 (virtual + step_size isHugePage))
          (u64 (physical + step_size isHugePage)) lim flags isHugePage
      else ret tt
  end.

Definition paging_map_region (pml4_root virt_addr phys_addr size flags : Z) (isHugePage : bool)
    : M (paging_state S) unit :=
  map_loop (region_fuel size isHugePage) pml4_root virt_addr phys_addr
    (u64 (virt_addr + size)) flags isHugePage.

Fixpoint unmap_loop (fuel : nat) (pml4_root virtual lim : Z) (isHugePage freePhysical : bool)
    : M (paging_state S) unit :=
  match fuel with
  | O => fail OutOfFuel
  | Datatypes.S fuel =>
      if virtual <? lim then
        paging_unmap_page pml4_root virtual isHugePage freePhysical;;;
        unmap_loop fuel pml4_root (u64 (virtual + step_size isHugePage)) lim
          isHugePage freePhysical
      else ret tt
  end.

Definition paging_unmap_region (pml4_root virt_addr size : Z) (isHugePage freePhysical : bool)
    : M (paging_state S) unit :=
  unmap_loop (region_fuel size isHugePage) pml4_root virt_addr (u64 (virt_addr + size))
    isHugePage freePhysical.

(** ** Initialisation *)

(** [mov cr3]: loads the root and drops the cached translations that are not global
    (all of them when global pages are not enabled). *)
Definition paging_switch_context (pml4_phys : Z) : M (paging_state S) unit :=
  modify (λ s,
    let keep e := negb (Z.land (cr4 s) CR4_PGE_BIT =? 0) && negb (Z.land e PTE_FLAG_GLOBAL =? 0) in
    let drop (t : Z → option Z) := λ n, match t n with
                          | Some e => if keep e then Some e else None
                          | None => None end in
    with_cr3 pml4_phys (with_tlb (mkTlb (drop (tlb_4k (tlb_of s))) (drop (tlb_2m (tlb_of s)))) s)).

(** [mov cr4]: a change of the global-page bit drops all cached translations. *)
Definition write_cr4 (val : Z) : M (paging_state S) unit :=
  modify (λ s,
    let t := if Z.land (cr4 s) CR4_PGE_BIT =? Z.land val CR4_PGE_BIT then tlb_of s
             else mkTlb (λ _, None) (λ _, None) in
    with_cr4 val (with_tlb t s)).

Definition pat_val : Z :=
  let v := 0 in
  let v := Z.lor v (Z.shiftl PAT_TYPE_WB 0) in
  let v := Z.lor v (Z.shiftl PAT_TYPE_WC 8) in
  let v := Z.lor v (Z.shiftl PAT_TYPE_UC 16) in
  let v := Z.lor v (Z.shiftl PAT_TYPE_UC 24) in
  let v := Z.lor v (Z.shiftl PAT_TYPE_WB 32) in
  let v := Z.lor v (Z.shiftl PAT_TYPE_WC 40) in
  let v := Z.lor v (Z.shiftl PAT_TYPE_UC 48) in
  Z.lor v (Z.shiftl PAT_TYPE_UC 56).

(** A segment of the kernel image, mapped to its place in the loaded executable. *)
Definition map_segment (im : kernel_image) (root start stop flags : Z)
    : M (paging_state S) unit :=
  paging_map_region root start (u64 (physical_base im + u64 (start - KERNEL_START im)))
    (u64 (stop - start)) flags false.

Definition paging_init (im : kernel_image) : M (paging_state S) unit :=
  modify (with_pat pat_val);;;
  phys <- on_frames (fa_alloc PAGING_PAGE_SIZE);;
  modify (with_root phys);;;
  if phys =? 0 then fail Halt
  else
    off <- gets hhdm_offset;;
    let root := hhdm_physToVirt off phys in
    clear_page root;;;
    map_segment im root (LIMINE_REQUESTS_START im) (LIMINE_REQUESTS_END im)
      (Z.lor (Z.lor PTE_FLAG_RW PTE_FLAG_NO_EXEC) PTE_FLAG_GLOBAL);;;
    map_segment im root (TEXT_START im) (TEXT_END im) PTE_FLAG_GLOBAL;;;
    map_segment im root (RODATA_START im) (RODATA_END im)
      (Z.lor PTE_FLAG_NO_EXEC PTE_FLAG_GLOBAL);;;
    map_segment im root (DATA_START im) (DATA_END im)
      (Z.lor (Z.lor PTE_FLAG_NO_EXEC PTE_FLAG_RW) PTE_FLAG_GLOBAL);;;
    phys_highestAddr <- on_frames fa_highest;;
    paging_map_region root off 0 (u64 (phys_highestAddr - 1))
      (Z.lor PTE_FLAG_RW PTE_FLAG_GLOBAL) true;;;
    c <- gets cr4;;
    (if Z.land c CR4_PGE_BIT =? 0 then write_cr4 (Z.lor c CR4_PGE_BIT) else ret tt);;;
    paging_switch_context phys.

Definition paging_getKernelRoot : M (paging_state S) Z := gets kernel_pml4_phys.
End paging.

(** ** The MMU's view of the same memory *)

Inductive translation :=
  | Page4K (e : Z)   (** a leaf entry in a page table *)
  | Page2M (e : Z)   (** a leaf entry in a page directory *)
  | Page1G (e : Z).  (** a leaf entry in a page directory pointer table *)

(** The entry of table [t] (a physical address) at index [i]. *)
Definition slot (m : Z → Z) (t i : Z) : Z := m (t + 8 * i).

Definition mmu_walk (m : Z → Z) (root v : Z) : option translation :=
  let e4 := slot m root (PAGING_GET_PML4INDEX v) in
  if negb (present e4) then None else
  let e3 := slot m (pte_addr e4) (PAGING_GET_PDPRINDEX v) in
  if negb (present e3) then None else
  if page_size e3 then Some (Page1G e3) else
  let e2 := slot m (pte_addr e3) (PAGING_GET_PDINDEX v) in
  if negb (present e2) then None else
  if page_size e2 then Some (Page2M e2) else
  let e1 := slot m (pte_addr e2) (PAGING_GET_PTINDEX v) in
  if negb (present e1) then None else Some (Page4K e1).
