(* ===== verification/PagingSpec.v ===== *)
(** * Page tables: invariant and theorems

    A page-table tree is described by the map from paths (lists of indices from the
    root) to the frames of its tables. Under the invariant that ties that map to memory,
    the operations of paging.c are updates of the translation the MMU computes. *)

From stdpp Require Import base gmap list numbers functions.
From S2P Require Import Prelude Spinlock Hhdm Pmm FrameAlloc Paging.

Create HintDb paging.

(** ** Entries, indices, addresses *)

Definition index (i : Z) : Prop := 0 ≤ i < 512.

Lemma land_1ff a : Z.land a 0x1FF = a mod 512.
Proof. change 0x1FF with (Z.ones 9). by rewrite Z.land_ones. Qed.

Lemma index_land a : index (Z.land a 0x1FF).
Proof. rewrite land_1ff. by apply Z.mod_pos_bound. Qed.
#[export] Hint Unfold PAGING_GET_PML4INDEX PAGING_GET_PDPRINDEX PAGING_GET_PDINDEX
  PAGING_GET_PTINDEX : paging.
#[export] Hint Resolve index_land : paging.

(** The indices a virtual address selects, from the root. *)
Definition path3 (v : Z) : list Z := [PAGING_GET_PML4INDEX v; PAGING_GET_PDPRINDEX v].
Definition path (v : Z) : list Z := path3 v ++ [PAGING_GET_PDINDEX v; PAGING_GET_PTINDEX v].

(** The addresses the 4-level walk distinguishes. *)
Definition canonical_addr (v : Z) : Prop :=
  0 ≤ v < 2 ^ 47 ∨ 2 ^ 64 - 2 ^ 47 ≤ v < 2 ^ 64.

Lemma get_index_div k v :
  0 ≤ k → Z.land (Z.shiftr v k) 0x1FF = v / 2 ^ k mod 512.
Proof. intros. by rewrite land_1ff Z.shiftr_div_pow2. Qed.

Lemma path_eq v :
  path v = [v / 2 ^ 39 mod 512; v / 2 ^ 30 mod 512; v / 2 ^ 21 mod 512; v / 2 ^ 12 mod 512].
Proof.
  rewrite /path /path3 /PAGING_GET_PML4INDEX /PAGING_GET_PDPRINDEX /PAGING_GET_PDINDEX
    /PAGING_GET_PTINDEX !get_index_div //.
Qed.

Lemma path_same_page v w :
  canonical_addr v → canonical_addr w →
  path v = path w ↔ v / PAGING_PAGE_SIZE = w / PAGING_PAGE_SIZE.
Proof.
  rewrite !path_eq /canonical_addr /PAGING_PAGE_SIZE.
  change (2 ^ 39) with 549755813888. change (2 ^ 30) with 1073741824.
  change (2 ^ 21) with 2097152. change (2 ^ 12) with 4096.
  intros Hv Hw. split.
  - intros [= H4 H3 H2 H1]. Z.div_mod_to_equations. lia.
  - intros E. assert (∀ a, v / (4096 * a) = w / (4096 * a) ∨ a ≤ 0) as Hd.
    { intros a. destruct (decide (a ≤ 0)); [by right|left].
      rewrite -!Z.div_div; [by rewrite E|lia..]. }
    destruct (Hd 512) as [E2|]; [|lia]. destruct (Hd (512 * 512)) as [E3|]; [|lia].
    destruct (Hd (512 * 512 * 512)) as [E4|]; [|lia].
    by rewrite E E2 E3 E4.
Qed.

(** The same for huge pages. *)
Definition path2m (v : Z) : list Z := path3 v ++ [PAGING_GET_PDINDEX v].

Lemma path2m_eq v : path2m v = [v / 2 ^ 39 mod 512; v / 2 ^ 30 mod 512; v / 2 ^ 21 mod 512].
Proof.
  rewrite /path2m /path3 /PAGING_GET_PML4INDEX /PAGING_GET_PDPRINDEX /PAGING_GET_PDINDEX
    !get_index_div //.
Qed.

Lemma path2m_same_page v w :
  canonical_addr v → canonical_addr w →
  path2m v = path2m w ↔ v / PAGING_HUGE_PAGE_SIZE = w / PAGING_HUGE_PAGE_SIZE.
Proof.
  rewrite !path2m_eq /canonical_addr /PAGING_HUGE_PAGE_SIZE.
  change (2 ^ 39) with 549755813888. change (2 ^ 30) with 1073741824.
  change (2 ^ 21) with 2097152. change 0x200000 with 2097152.
  intros Hv Hw. split.
  - intros [= H4 H3 H2]. Z.div_mod_to_equations. lia.
  - intros E. assert (∀ a, v / (2097152 * a) = w / (2097152 * a) ∨ a ≤ 0) as Hd.
    { intros a. destruct (decide (a ≤ 0)); [by right|left].
      rewrite -!Z.div_div; [by rewrite E|lia..]. }
    destruct (Hd 512) as [E3|]; [|lia]. destruct (Hd (512 * 512)) as [E4|]; [|lia].
    by rewrite E E3 E4.
Qed.

(** Rounding the address down to its page keeps the indices. *)
Lemma path_page_base v : path (v - v mod PAGING_PAGE_SIZE) = path v.
Proof.
  rewrite !path_eq /PAGING_PAGE_SIZE.
  assert (∀ a, 0 < a → (v - v mod 4096) / (4096 * a) = v / (4096 * a)) as Hd.
  { intros a Ha. rewrite -!Z.div_div; [|lia..]. f_equal. Z.div_mod_to_equations. lia. }
  change (2 ^ 39) with (4096 * 134217728). change (2 ^ 30) with (4096 * 262144).
  change (2 ^ 21) with (4096 * 512). change (2 ^ 12) with (4096 * 1). by rewrite !Hd.
Qed.

(** Bit facts about entries. *)
Lemma flag_test e k : 0 ≤ k → negb (Z.land e (Z.shiftl 1 k) =? 0) = Z.testbit e k.
Proof.
  intros Hk. destruct (Z.testbit e k) eqn:Eb.
  - apply negb_true_iff, Z.eqb_neq. intros E.
    assert (Z.testbit (Z.land e (Z.shiftl 1 k)) k = true) as Ht.
    { rewrite Z.land_spec Eb Z.shiftl_spec // Z.sub_diag. done. }
    rewrite E Z.bits_0 // in Ht.
  - apply negb_false_iff, Z.eqb_eq, Z.bits_inj'. intros i Hi.
    rewrite Z.land_spec Z.bits_0 Z.shiftl_spec //.
    destruct (decide (i = k)) as [->|]; [by rewrite Eb|].
    destruct (decide (i < k)); [by rewrite (Z.testbit_neg_r 1) ?andb_false_r; [|lia]|].
    assert (Z.testbit 1 (i - k) = false) as ->; [|by rewrite andb_false_r].
    change 1 with (2 ^ 0). apply Z.pow2_bits_false. lia.
Qed.

Lemma present_testbit e : present e = Z.testbit e 0.
Proof. by apply (flag_test e 0). Qed.
Lemma page_size_testbit e : page_size e = Z.testbit e 7.
Proof. by apply (flag_test e 7). Qed.

Lemma testbit_frame f k : frame f → 0 ≤ k < 12 → Z.testbit f k = false.
Proof.
  intros [_ Hm] Hk. assert (Z.land f (Z.ones 12) = 0) as E by (by rewrite Z.land_ones).
  assert (Z.testbit (Z.land f (Z.ones 12)) k = false) as Ht by (by rewrite E Z.bits_0).
  by rewrite Z.land_spec Z.ones_spec_low // andb_true_r in Ht.
Qed.

Lemma addr_mask_eq : PAGING_PTE_ADDR_MASK = Z.ones 40 * 2 ^ 12.
Proof. done. Qed.

Lemma pte_addr_frame f : frame f → pte_addr f = f.
Proof.
  intros [Hr Hm]. rewrite /pte_addr addr_mask_eq.
  assert (f = f / 2 ^ 12 * 2 ^ 12) as Ef.
  { rewrite /PMM_PAGE_SIZE in Hm. change (2 ^ 12) with 4096. Z.div_mod_to_equations. lia. }
  rewrite Ef -!Z.shiftl_mul_pow2 // -Z.shiftl_land Z.land_ones // Z.mod_small //.
  change (2 ^ 12) with 4096. change (2 ^ 40) with 1099511627776. Z.div_mod_to_equations. lia.
Qed.

Lemma pte_addr_lor a b : pte_addr b = 0 → pte_addr (Z.lor a b) = pte_addr a.
Proof. rewrite /pte_addr Z.land_lor_distr_l. intros ->. by rewrite Z.lor_0_r. Qed.

(** The entry that links a new table. *)
Definition table_entry (f : Z) : Z :=
  Z.lor (Z.lor (Z.lor f PTE_FLAG_US) PTE_FLAG_PRESENT) PTE_FLAG_RW.

Lemma table_entry_ok f :
  frame f → present (table_entry f) = true ∧ page_size (table_entry f) = false ∧
    pte_addr (table_entry f) = f.
Proof.
  intros Hf. rewrite present_testbit page_size_testbit /table_entry !Z.lor_spec.
  rewrite !(testbit_frame f) //. split; [done|]. split; [done|].
  rewrite !pte_addr_lor; [by apply pte_addr_frame|done..].
Qed.

(** ** The tree *)

(** The table an entry of a PML4, PDPR or PD points to. *)
Definition child (e : Z) : option Z :=
  if present e && negb (page_size e) then Some (pte_addr e) else None.

Record pt_wf (m : Z → Z) (root : Z) (T : gmap (list Z) Z) : Prop := {
  wf_root : T !! [] = Some root;
  wf_frame : ∀ p f, T !! p = Some f → frame f;
  wf_inj : ∀ p q f, T !! p = Some f → T !! q = Some f → p = q;
  wf_parent : ∀ p i f, T !! (p ++ [i]) = Some f →
    is_Some (T !! p) ∧ index i ∧ (length p < 3)%nat;
  wf_child : ∀ p i f, T !! p = Some f → index i → (length p < 3)%nat →
    T !! (p ++ [i]) = child (slot m f i);
  wf_small : ∀ p i f, T !! p = Some f → index i → (length p < 2)%nat →
    present (slot m f i) = true → page_size (slot m f i) = false;
  wf_empty : ∀ p i f, T !! p = Some f → index i →
    present (slot m f i) = false → slot m f i = 0;
}.

Definition leaf4k (e : Z) : option translation := if present e then Some (Page4K e) else None.
Definition leaf2m (e : Z) : option translation :=
  if present e && page_size e then Some (Page2M e) else None.

(** The translation of an address, read off the tree. *)
Definition view (m : Z → Z) (T : gmap (list Z) Z) (v : Z) : option translation :=
  match T !! path2m v with
  | Some f => leaf4k (slot m f (PAGING_GET_PTINDEX v))
  | None =>
      match T !! path3 v with
      | Some f => leaf2m (slot m f (PAGING_GET_PDINDEX v))
      | None => None
      end
  end.

Lemma child_None m root T p i :
  pt_wf m root T → T !! p = None → T !! (p ++ [i]) = None.
Proof.
  intros Hwf Hp. destruct (T !! (p ++ [i])) eqn:E; [|done].
  destruct (wf_parent _ _ _ Hwf _ _ _ E) as [[? ?] _]. congruence.
Qed.

Lemma walk_view m root T v : pt_wf m root T → mmu_walk m root v = view m T v.
Proof.
  intros Hwf. rewrite /mmu_walk /view /path2m /path3.
  set i4 := PAGING_GET_PML4INDEX v. set i3 := PAGING_GET_PDPRINDEX v.
  set i2 := PAGING_GET_PDINDEX v. set i1 := PAGING_GET_PTINDEX v.
  assert (index i4 ∧ index i3 ∧ index i2) as (H4 & H3 & H2) by (split_and!; apply index_land).
  pose proof (wf_child _ _ _ Hwf [] i4 root (wf_root _ _ _ Hwf) H4 ltac:(simpl; lia)) as E4.
  pose proof (wf_small _ _ _ Hwf [] i4 root (wf_root _ _ _ Hwf) H4 ltac:(simpl; lia)) as P4.
  rewrite /child in E4. destruct (present (slot m root i4)) eqn:Ep4; simpl in *.
  2:{ rewrite (child_None m root T [i4] i3 Hwf E4 : T !! [i4; i3] = None).
      by rewrite (child_None m root T [i4; i3] i2 Hwf (child_None m root T [i4] i3 Hwf E4)
                    : T !! [i4; i3; i2] = None). }
  rewrite P4 // in E4.
  pose proof (wf_child _ _ _ Hwf [i4] i3 _ E4 H3 ltac:(simpl; lia)) as E3.
  pose proof (wf_small _ _ _ Hwf [i4] i3 _ E4 H3 ltac:(simpl; lia)) as P3.
  rewrite /child in E3. destruct (present (slot m _ i3)) eqn:Ep3; simpl in *.
  2:{ rewrite E3. by rewrite (child_None m root T [i4; i3] i2 Hwf E3 : T !! [i4; i3; i2] = None). }
  rewrite P3 // in E3. rewrite P3 //. simpl in E3. rewrite E3.
  pose proof (wf_child _ _ _ Hwf [i4; i3] i2 _ E3 H2 ltac:(simpl; lia)) as E2.
  rewrite /child in E2. simpl in E2. rewrite E2 /leaf2m /leaf4k.
  destruct (present (slot m _ i2)); simpl; [|done].
  destruct (page_size (slot m _ i2)); simpl; [done|]. by destruct (present (slot m _ i1)).
Qed.

(** ** Writing to a table *)

Lemma slot_addr_inj f g i j :
  frame f → frame g → index i → index j → f + 8 * i = g + 8 * j → f = g ∧ i = j.
Proof.
  rewrite /frame /index /PMM_PAGE_SIZE. intros [_ Hf] [_ Hg] Hi Hj E.
  Z.div_mod_to_equations. lia.
Qed.

Lemma slot_write_eq m f i e : slot (<[f + 8 * i := e]> m) f i = e.
Proof. by rewrite /slot fn_lookup_insert. Qed.

Lemma slot_write_ne m f g i j e :
  frame f → frame g → index i → index j → (f, i) ≠ (g, j) →
  slot (<[f + 8 * i := e]> m) g j = slot m g j.
Proof.
  intros Hf Hg Hi Hj Hne. rewrite /slot fn_lookup_insert_ne //.
  intros E. destruct (slot_addr_inj f g i j) as [-> ->]; done.
Qed.

Lemma slot_zero m g i : frame g → index i → slot (zero_page g m) g i = 0.
Proof.
  rewrite /index. intros _ Hi. rewrite /slot /zero_page /PAGING_PAGE_SIZE.
  destruct (Z.leb_spec g (g + 8 * i)); [|lia].
  by destruct (Z.ltb_spec (g + 8 * i) (g + 4096)); [|lia].
Qed.

Lemma slot_zero_ne m f g i :
  frame f → frame g → index i → f ≠ g → slot (zero_page g m) f i = slot m f i.
Proof.
  rewrite /frame /index /PMM_PAGE_SIZE. intros [_ Hf] [_ Hg] Hi Hne.
  rewrite /slot /zero_page /PAGING_PAGE_SIZE.
  destruct (Z.leb_spec g (f + 8 * i)); [|done].
  destruct (Z.ltb_spec (f + 8 * i) (g + 4096)); [|done].
  exfalso. Z.div_mod_to_equations. lia.
Qed.

(** *** A leaf of a page table *)
Section write.
Context (m : Z → Z) (root : Z) (T : gmap (list Z) Z) (Hwf : pt_wf m root T).

(** Writing entry [i] of the table at [p] leaves every other entry alone. *)
Lemma write_slot p f i e q g j :
  T !! p = Some f → index i → T !! q = Some g → index j →
  slot (<[f + 8 * i := e]> m) g j = if decide ((q, j) = (p, i)) then e else slot m g j.
Proof.
  intros Hp Hi Hq Hj. case_decide as E.
  - injection E as -> ->. simplify_eq. by rewrite slot_write_eq.
  - apply slot_write_ne; try done; [by eapply wf_frame..|].
    intros [= -> ->]. apply E. by rewrite (wf_inj _ _ _ Hwf _ _ _ Hp Hq).
Qed.

Lemma write_pt_wf p f i e :
  T !! p = Some f → length p = 3%nat → index i → (present e = false → e = 0) →
  pt_wf (<[f + 8 * i := e]> m) root T.
Proof.
  intros Hp Hlen Hi He. pose proof (write_slot p f i e) as Hw.
  destruct Hwf as [H1 H2 H3 H4 H5 H6 H7]. split; try done.
  - intros q j g Hq Hj Hl. rewrite (Hw q) //. case_decide as E; [|by apply H5].
    injection E as -> ->. lia.
  - intros q j g Hq Hj Hl. rewrite (Hw q) //. case_decide as E; [|by apply (H6 q)].
    injection E as -> ->. lia.
  - intros q j g Hq Hj. rewrite (Hw q) //. case_decide; [done|by apply (H7 q)].
Qed.

Lemma write_pt_view v f e :
  T !! path2m v = Some f →
  ∀ w, view (<[f + 8 * PAGING_GET_PTINDEX v := e]> m) T w =
    if decide (path w = path v) then leaf4k e else view m T w.
Proof.
  intros Hf w. rewrite /view. destruct (decide (path w = path v)) as [E|Hne].
  - rewrite /path /path3 in E. injection E as E4 E3 E2 E1.
    rewrite /path2m /path3 E4 E3 E2 E1. rewrite /path2m /path3 in Hf.
    by rewrite Hf slot_write_eq.
  - destruct (T !! path2m w) as [g|] eqn:Hg.
    + rewrite slot_write_ne //; [by eapply wf_frame..|apply index_land|apply index_land|].
      intros [= -> E1]. apply Hne.
      pose proof (wf_inj _ _ _ Hwf _ _ _ Hf Hg) as Ep.
      rewrite /path2m /path3 in Ep. injection Ep as E4 E3 E2.
      by rewrite /path /path3 E4 E3 E2 E1.
    + destruct (T !! path3 w) as [g|] eqn:Hg3; [|done].
      rewrite slot_write_ne //; [by eapply wf_frame..|apply index_land|apply index_land|].
      intros [= -> _]. pose proof (wf_inj _ _ _ Hwf _ _ _ Hf Hg3). done.
Qed.

(** *** A leaf of a page directory *)
Lemma write_pd_wf p f i e :
  T !! p = Some f → length p = 2%nat → index i → T !! (p ++ [i]) = None →
  (present e = true → page_size e = true) → (present e = false → e = 0) →
  pt_wf (<[f + 8 * i := e]> m) root T.
Proof.
  intros Hp Hlen Hi Hnone He He0. pose proof (write_slot p f i e) as Hw.
  destruct Hwf as [H1 H2 H3 H4 H5 H6 H7]. split; try done.
  - intros q j g Hq Hj Hl. rewrite (Hw q) //. case_decide as E; [|by apply H5].
    injection E as -> ->. rewrite Hnone /child. destruct (present e); [rewrite He //|done].
  - intros q j g Hq Hj Hl. rewrite (Hw q) //. case_decide as E; [|by apply (H6 q)].
    injection E as -> ->. lia.
  - intros q j g Hq Hj. rewrite (Hw q) //. case_decide; [done|by apply (H7 q)].
Qed.

Lemma write_pd_view v f e :
  T !! path3 v = Some f → T !! path2m v = None →
  ∀ w, view (<[f + 8 * PAGING_GET_PDINDEX v := e]> m) T w =
    if decide (path2m w = path2m v) then leaf2m e else view m T w.
Proof.
  intros Hf Hn w. rewrite /view. destruct (decide (path2m w = path2m v)) as [E|Hne].
  - rewrite E Hn. rewrite /path2m /path3 in E. injection E as E4 E3 E2.
    rewrite /path3 E4 E3 E2. rewrite /path3 in Hf. by rewrite Hf slot_write_eq.
  - destruct (T !! path2m w) as [g|] eqn:Hg.
    + rewrite slot_write_ne //; [by eapply wf_frame..|apply index_land|apply index_land|].
      intros [= -> _]. pose proof (wf_inj _ _ _ Hwf _ _ _ Hf Hg). done.
    + destruct (T !! path3 w) as [g|] eqn:Hg3; [|done].
      rewrite slot_write_ne //; [by eapply wf_frame..|apply index_land|apply index_land|].
      intros [= -> E2]. apply Hne. pose proof (wf_inj _ _ _ Hwf _ _ _ Hf Hg3) as Ep.
      rewrite /path3 in Ep. injection Ep as E4 E3. by rewrite /path2m /path3 E4 E3 E2.
Qed.

(** *** Linking a new, zeroed table *)
Lemma link_slot p f i g q h j :
  T !! p = Some f → index i → frame g → (∀ q, T !! q ≠ Some g) →
  T !! q = Some h → index j →
  slot (<[f + 8 * i := table_entry g]> (zero_page g m)) h j =
    if decide ((q, j) = (p, i)) then table_entry g else slot m h j.
Proof.
  intros Hp Hi Hg Hnew Hq Hj. destruct (decide ((q, j) = (p, i))) as [[= -> ->]|Hne].
  - simplify_eq. by rewrite slot_write_eq.
  - rewrite slot_write_ne //.
    + rewrite slot_zero_ne //; [by eapply wf_frame|]. intros ->. by eapply Hnew.
    + by eapply wf_frame.
    + by eapply wf_frame.
    + intros [= -> ->]. apply Hne. by rewrite (wf_inj _ _ _ Hwf _ _ _ Hp Hq).
Qed.

Lemma link_slot_new p f i g j :
  T !! p = Some f → index i → frame g → (∀ q, T !! q ≠ Some g) → index j →
  slot (<[f + 8 * i := table_entry g]> (zero_page g m)) g j = 0.
Proof.
  intros Hp Hi Hg Hnew Hj. rewrite slot_write_ne //; [by apply slot_zero|by eapply wf_frame|].
  intros [= -> _]. by eapply Hnew.
Qed.

Lemma child_zero : child 0 = None.
Proof. done. Qed.

Lemma link_wf p f i g :
  T !! p = Some f → (length p < 3)%nat → index i → frame g → (∀ q, T !! q ≠ Some g) →
  present (slot m f i) = false →
  pt_wf (<[f + 8 * i := table_entry g]> (zero_page g m)) root (<[p ++ [i] := g]> T).
Proof.
  intros Hp Hlen Hi Hg Hnew Habs.
  destruct (table_entry_ok g Hg) as (Htp & Hts & Hta).
  assert (T !! (p ++ [i]) = None) as Hnone.
  { rewrite (wf_child _ _ _ Hwf p i f) // /child. by rewrite Habs. }
  split.
  - rewrite lookup_insert_ne; [apply Hwf|]. by destruct p.
  - intros q h [[<- <-]|[_ Hq]]%lookup_insert_Some; [done|by eapply wf_frame].
  - intros q q' h [[<- <-]|[_ Hq]]%lookup_insert_Some [[<- E]|[_ Hq']]%lookup_insert_Some;
      simplify_eq; [done| | |by eapply wf_inj]; by exfalso; eapply Hnew.
  - intros q j h [[E _]|[_ Hq]]%lookup_insert_Some.
    + apply app_inj_tail in E as [-> ->]. split; [|done]. rewrite lookup_insert_ne; [by eexists|].
      intros E. apply (f_equal length) in E. rewrite length_app /= in E. lia.
    + destruct (wf_parent _ _ _ Hwf q j h Hq) as ([x Hx] & ? & ?). split; [|done].
      destruct (decide (p ++ [i] = q)) as [<-|]; [congruence|]. rewrite lookup_insert_ne //.
  - intros q j h [[<- <-]|[Hne Hq]]%lookup_insert_Some Hj Hl.
    + rewrite (link_slot_new p) // child_zero lookup_insert_ne.
      2:{ intros E. apply (f_equal length) in E. rewrite !length_app /= in E. lia. }
      by apply (child_None m root).
    + rewrite (link_slot p f i g q h j) //. case_decide as E.
      * injection E as -> ->. rewrite lookup_insert_eq /child Htp Hts /=. by rewrite Hta.
      * rewrite lookup_insert_ne; [by apply (wf_child _ _ _ Hwf)|].
        intros [-> ->]%app_inj_tail. done.
  - intros q j h [[<- <-]|[Hne Hq]]%lookup_insert_Some Hj Hl.
    + by rewrite (link_slot_new p).
    + rewrite (link_slot p f i g q h j) //. case_decide; [done|by apply (wf_small _ _ _ Hwf q)].
  - intros q j h [[<- <-]|[Hne Hq]]%lookup_insert_Some Hj.
    + by rewrite (link_slot_new p).
    + rewrite (link_slot p f i g q h j) //. case_decide; [by rewrite Htp|by apply (wf_empty _ _ _ Hwf q)].
Qed.

Lemma link_view p f i g :
  T !! p = Some f → (length p < 3)%nat → index i → frame g → (∀ q, T !! q ≠ Some g) →
  present (slot m f i) = false →
  ∀ v, view (<[f + 8 * i := table_entry g]> (zero_page g m)) (<[p ++ [i] := g]> T) v = view m T v.
Proof.
  intros Hp Hlen Hi Hg Hnew Habs v.
  destruct (table_entry_ok g Hg) as (Htp & Hts & Hta).
  assert (T !! (p ++ [i]) = None) as Hnone.
  { rewrite (wf_child _ _ _ Hwf p i f) // /child. by rewrite Habs. }
  assert (index (PAGING_GET_PTINDEX v)) as H1 by apply index_land.
  assert (index (PAGING_GET_PDINDEX v)) as H2 by apply index_land.
  rewrite /view. destruct (decide (p ++ [i] = path2m v)) as [E|Hne].
  - rewrite E lookup_insert_eq (link_slot_new p) // -E Hnone.
    rewrite /path2m in E. apply app_inj_tail in E as [-> ->].
    rewrite Hp /leaf2m Habs. done.
  - rewrite (lookup_insert_ne _ (p ++ [i]) (path2m v)) //.
    destruct (T !! path2m v) as [h|] eqn:Hh.
    { rewrite (link_slot p f i g (path2m v) h) //. case_decide as E; [|done].
      injection E as <- _. rewrite /path2m length_app /= in Hlen. lia. }
    destruct (decide (p ++ [i] = path3 v)) as [E|Hne3].
    { rewrite E lookup_insert_eq (link_slot_new p) // -E Hnone. done. }
    rewrite lookup_insert_ne //. destruct (T !! path3 v) as [h|] eqn:Hh3; [|done].
    rewrite (link_slot p f i g (path3 v) h) //. case_decide as E; [|done].
    injection E as <- E2. destruct Hne. by rewrite /path2m E2.
Qed.
End write.

(** ** Running the code *)

Lemma ptr_phys off f i :
  frame f → index i → hhdm_virtToPhys off (entry_ptr (hhdm_physToVirt off f) i) = f + 8 * i.
Proof.
  rewrite /frame /index. intros [Hf _] Hi.
  rewrite /hhdm_virtToPhys /entry_ptr /hhdm_physToVirt /u64.
  rewrite Zplus_mod_idemp_l Zminus_mod_idemp_l.
  replace (f + off + 8 * i - off) with (f + 8 * i) by lia. apply Z.mod_small. lia.
Qed.

Lemma frame_phys off f : frame f → hhdm_virtToPhys off (hhdm_physToVirt off f) = f.
Proof. intros [Hf _]. apply hhdm_phys_virt_phys. lia. Qed.

(** The address is in no table of the tree. *)
Definition outside (T : gmap (list Z) Z) (x : Z) : Prop :=
  ∀ p f, T !! p = Some f → ¬ f ≤ x < f + PAGING_PAGE_SIZE.

Lemma outside_sub T T' x : T ⊆ T' → outside T' x → outside T x.
Proof. intros Hs Ho p f Hp. apply (Ho p f). by eapply lookup_weaken. Qed.

Lemma outside_slot T p f i x :
  T !! p = Some f → index i → outside T x → f + 8 * i ≠ x.
Proof. rewrite /index. intros Hp Hi Ho <-. apply (Ho p f Hp). rewrite /PAGING_PAGE_SIZE. lia. Qed.

Section ops.
Context {S : Type} `{FrameAllocSpec S}.
Implicit Types (s : paging_state S) (T : gmap (list Z) Z) (A : gset Z).

(** The tree [T] hangs off [root], its tables are allocated frames among [A], and [n]
    more frames are free. *)
Record pt_ok s (root : Z) T A (n : nat) : Prop := {
  ok_wf : pt_wf (mem s) root T;
  ok_owned : owned (frames s) A n;
  ok_tables : ∀ p f, T !! p = Some f → f ∈ A;
}.

(** The registers, the direct map, the end of memory and the TLB. *)
Definition env s :=
  (hhdm_offset s, kernel_pml4_phys s, cr3 s, cr4 s, msr_pat s, fa_top (frames s), tlb_of s).

(** The tree has grown, by tables on the way to [P], at the cost of at most [k] frames,
    without any change of a translation. *)
Record grown (root : Z) (P : list Z) (k : nat) s T A n s' T' A' n' : Prop := {
  gr_ok : pt_ok s' root T' A' n';
  gr_tables : T ⊆ T';
  gr_frames : A ⊆ A';
  gr_room : (n ≤ n' + k)%nat;
  gr_env : env s' = env s;
  gr_view : ∀ v, view (mem s') T' v = view (mem s) T v;
  gr_mem : ∀ x, outside T' x → mem s' x = mem s x;
  gr_new : ∀ f, f ∈ A' → f ∈ A ∨ ∃ p, T' !! p = Some f;
  gr_path : ∀ p, is_Some (T' !! p) → is_Some (T !! p) ∨ p `prefix_of` P;
  gr_fresh : ∀ p f, T' !! p = Some f → f ∈ A → T !! p = Some f;
}.

Lemma grown_refl root P k s T A n : pt_ok s root T A n → grown root P k s T A n s T A n.
Proof. intros Hok. split; try done; [lia|by left..]. Qed.

Lemma grown_trans root P k1 k2 s T A n s1 T1 A1 n1 s2 T2 A2 n2 :
  grown root P k1 s T A n s1 T1 A1 n1 → grown root P k2 s1 T1 A1 n1 s2 T2 A2 n2 →
  grown root P (k1 + k2) s T A n s2 T2 A2 n2.
Proof.
  intros G1 G2. split.
  - apply G2.
  - etrans; [apply G1|apply G2].
  - etrans; [apply G1|apply G2].
  - pose proof (gr_room _ _ _ _ _ _ _ _ _ _ _ G1).
    pose proof (gr_room _ _ _ _ _ _ _ _ _ _ _ G2). lia.
  - rewrite (gr_env _ _ _ _ _ _ _ _ _ _ _ G2). apply G1.
  - intros v. rewrite (gr_view _ _ _ _ _ _ _ _ _ _ _ G2). apply G1.
  - intros x Hx. rewrite (gr_mem _ _ _ _ _ _ _ _ _ _ _ G2) //. apply G1.
    eapply outside_sub; [apply G2|done].
  - intros f [Hf|?]%(gr_new _ _ _ _ _ _ _ _ _ _ _ G2); [|by right].
    apply (gr_new _ _ _ _ _ _ _ _ _ _ _ G1) in Hf as [?|(p & Hp)]; [by left|right].
    exists p. eapply lookup_weaken; [done|apply G2].
  - intros p [Hp|?]%(gr_path _ _ _ _ _ _ _ _ _ _ _ G2); [|by right]. by apply G1.
  - intros p f Hp Hf. apply G1; [|done]. apply G2; [done|]. by apply G1.
Qed.

Lemma grown_prefix root P Q k s T A n s' T' A' n' :
  P `prefix_of` Q → grown root P k s T A n s' T' A' n' → grown root Q k s T A n s' T' A' n'.
Proof.
  intros HPQ [? ? ? ? ? ? ? ? Hp ?]. split; try done.
  intros p [?|?]%Hp; [by left|right]. by etrans.
Qed.

Lemma grown_more root P k k' s T A n s' T' A' n' :
  (k ≤ k')%nat → grown root P k s T A n s' T' A' n' → grown root P k' s T A n s' T' A' n'.
Proof. intros Hk []. split; try done. lia. Qed.

Lemma wp_on_frames {B} (m : M S B) Q s :
  wp m (λ a f, Q a (with_frames f s)) (frames s) → wp (on_frames m) Q s.
Proof. rewrite /wp /on_frames. by destruct (m (frames s)) as [[a f]|]. Qed.

Lemma wp_load a Q s : Q (mem s (hhdm_virtToPhys (hhdm_offset s) a)) s → wp (load a) Q s.
Proof. done. Qed.
Lemma wp_store a v Q s :
  Q tt (with_mem (<[hhdm_virtToPhys (hhdm_offset s) a := v]> (mem s)) s) → wp (store a v) Q s.
Proof. done. Qed.
Lemma wp_clear_page a Q s :
  Q tt (with_mem (zero_page (hhdm_virtToPhys (hhdm_offset s) a) (mem s)) s) →
  wp (clear_page a) Q s.
Proof. done. Qed.

Ltac pg_step :=
  lazymatch goal with
  | |- wp (load _) _ _ => apply wp_load
  | |- wp (store _ _) _ _ => apply wp_store
  | |- wp (clear_page _) _ _ => apply wp_clear_page
  | |- wp (invlpg _) _ _ => apply wp_modify
  | |- wp (if _ then _ else _) _ _ => fail
  | |- _ => wp_step
  end.
Ltac pg_steps := repeat (pg_step; cbn beta iota).

(** A missing table is allocated and linked. *)
Lemma link_grown root T A n s f p i g fr :
  pt_ok s root T A n → T !! p = Some f → (length p < 3)%nat → index i →
  present (slot (mem s) f i) = false → frame g → g ∉ A → owned fr ({[g]} ∪ A) (pred n) →
  fa_top fr = fa_top (frames s) →
  grown root (p ++ [i]) 1 s T A n
    (with_mem (<[f + 8 * i := table_entry g]> (zero_page g (mem s))) (with_frames fr s))
    (<[p ++ [i] := g]> T) ({[g]} ∪ A) (pred n).
Proof.
  intros [Hwf Ho HT] Hp Hl Hi Habs Hg HgA Ho' Htop.
  assert (∀ q, T !! q ≠ Some g) as Hnew by (intros q Hq; by apply HgA, (HT q)).
  assert (T !! (p ++ [i]) = None) as Hnone.
  { rewrite (wf_child _ _ _ Hwf p i f) // /child. by rewrite Habs. }
  split.
  - split; [by apply link_wf|done|].
    intros q h [[_ <-]|[_ Hq]]%lookup_insert_Some; [set_solver|]. apply HT in Hq. set_solver.
  - by apply insert_subseteq.
  - set_solver.
  - lia.
  - by rewrite /env /= Htop.
  - by apply (link_view (mem s) root T Hwf).
  - intros x Hx. simpl. rewrite fn_lookup_insert_ne.
    + rewrite /zero_page. destruct (Z.leb_spec g x); [|done]. destruct (Z.ltb_spec x (g + PAGING_PAGE_SIZE)); [|done].
      exfalso. apply (Hx (p ++ [i]) g); [by rewrite lookup_insert_eq|lia].
    + eapply (outside_slot _ p); [|done|exact Hx]. rewrite lookup_insert_ne //.
      intros E. apply (f_equal length) in E. rewrite length_app /= in E. lia.
  - intros h [->%elem_of_singleton|Hh]%elem_of_union; [right|by left].
    exists (p ++ [i]). by rewrite lookup_insert_eq.
  - intros q [h [[<- _]|[_ Hq]]%lookup_insert_Some]; [by right|left; by eexists].
  - intros q h [[_ <-]|[_ Hq]]%lookup_insert_Some Hh; [done|done].
Qed.

Lemma next_table_alloc root T A n s f p i :
  pt_ok s root T A n → T !! p = Some f → (length p < 3)%nat → index i →
  (present (slot (mem s) f i) = true → page_size (slot (mem s) f i) = false) →
  wp (next_table (hhdm_physToVirt (hhdm_offset s) f) i true) (λ r s', ∃ T' A' n',
    grown root (p ++ [i]) 1 s T A n s' T' A' n' ∧
    match r with
    | None => n = 0%nat
    | Some t => ∃ g, T' !! (p ++ [i]) = Some g ∧ t = hhdm_physToVirt (hhdm_offset s) g
    end) s.
Proof.
  intros Hok Hp Hl Hi Hsmall. pose proof Hok as [Hwf Ho HT].
  assert (frame f) as Hf by (by eapply wf_frame).
  apply wp_bind, wp_gets. rewrite ptr_phys // -/(slot (mem s) f i).
  destruct (present (slot (mem s) f i)) eqn:Ep; cbn [negb].
  - pg_steps. rewrite ptr_phys // -/(slot (mem s) f i).
    exists T, A, n. split; [by apply grown_refl|]. exists (pte_addr (slot (mem s) f i)).
    split; [|done]. rewrite (wf_child _ _ _ Hwf p i f) // /child Ep Hsmall //.
  - apply wp_bind, wp_bind, wp_on_frames. eapply wp_mono; [by apply owned_alloc|].
    intros g fr [Htop [(-> & -> & Ho')|[HgA Ho']]]; cbn beta.
    { pg_steps. exists T, A, 0%nat. split; [|done].
      split; try done; [lia|by rewrite /env /= Htop|by left..]. }
    assert (frame g) as Hg by (eapply owned_frame; [exact Ho'|set_solver]).
    destruct (Z.eqb_spec g 0) as [->|_]; [by destruct Hg; lia|].
    pg_steps. simpl. rewrite frame_phys // !ptr_phys //. rewrite -/(table_entry g).
    destruct (table_entry_ok g Hg) as (_ & _ & Hta).
    rewrite fn_lookup_insert Hta. exists (<[p ++ [i] := g]> T), ({[g]} ∪ A), (pred n).
    split; [|exists g; by rewrite lookup_insert_eq].
    by apply (link_grown root T A n s f p i g fr).
Qed.

(** The page directory entry of [v] is not a huge page. *)
Lemma pd_slot_small m root T v f :
  pt_wf m root T → T !! path3 v = Some f → (∀ e, view m T v ≠ Some (Page2M e)) →
  present (slot m f (PAGING_GET_PDINDEX v)) = true →
  page_size (slot m f (PAGING_GET_PDINDEX v)) = false.
Proof.
  intros Hwf Hf Hv Hp. destruct (page_size _) eqn:Es; [|done]. exfalso.
  apply (Hv (slot m f (PAGING_GET_PDINDEX v))). rewrite /view.
  pose proof (wf_child _ _ _ Hwf (path3 v) (PAGING_GET_PDINDEX v) f Hf (index_land _)
    ltac:(simpl; lia)) as Hc.
  rewrite /child Hp Es /= in Hc. rewrite /path2m Hc Hf /leaf2m Hp Es. done.
Qed.

(** The path to the table that holds the leaf entry, and the index of the entry. *)
Definition leaf_table (v : Z) (huge : bool) : list Z := if huge then path3 v else path2m v.
Definition leaf_index (v : Z) (huge : bool) : Z :=
  if huge then PAGING_GET_PDINDEX v else PAGING_GET_PTINDEX v.

Lemma leaf_index_ok v huge : index (leaf_index v huge).
Proof. destruct huge; apply index_land. Qed.

Lemma page_base_indices v :
  let w := if negb (v mod PAGING_PAGE_SIZE =? 0) then v - v mod PAGING_PAGE_SIZE else v in
  PAGING_GET_PML4INDEX w = PAGING_GET_PML4INDEX v ∧
  PAGING_GET_PDPRINDEX w = PAGING_GET_PDPRINDEX v ∧
  PAGING_GET_PDINDEX w = PAGING_GET_PDINDEX v ∧ PAGING_GET_PTINDEX w = PAGING_GET_PTINDEX v.
Proof.
  intros w. assert (path w = path v) as E.
  { rewrite /w. destruct (negb _); [apply path_page_base|done]. }
  rewrite /path /path3 in E. by injection E as -> -> -> ->.
Qed.

Lemma wf_small_slot s root T A n p f i :
  pt_ok s root T A n → T !! p = Some f → index i → (length p < 2)%nat →
  present (slot (mem s) f i) = true → page_size (slot (mem s) f i) = false.
Proof. intros Hok. apply Hok. Qed.

Lemma env_offset s s' : env s' = env s → hhdm_offset s' = hhdm_offset s.
Proof. by intros [=]. Qed.

Lemma get_pte_alloc root T A n s v huge :
  pt_ok s root T A n →
  (huge = false → ∀ e, view (mem s) T v ≠ Some (Page2M e)) →
  wp (vmm_get_pte (hhdm_physToVirt (hhdm_offset s) root) v true huge) (λ r s', ∃ T' A' n',
    grown root (leaf_table v huge) 3 s T A n s' T' A' n' ∧
    match r with
    | None => (n < 3)%nat
    | Some a => ∃ g, T' !! leaf_table v huge = Some g ∧
        a = entry_ptr (hhdm_physToVirt (hhdm_offset s) g) (leaf_index v huge)
    end) s.
Proof.
  intros Hok Hsmall. rewrite /vmm_get_pte.
  destruct (page_base_indices v) as (-> & -> & -> & ->).
  set i4 := PAGING_GET_PML4INDEX v. set i3 := PAGING_GET_PDPRINDEX v.
  set i2 := PAGING_GET_PDINDEX v. set i1 := PAGING_GET_PTINDEX v.
  assert ([i4] `prefix_of` leaf_table v huge) as P1
    by (destruct huge; [by exists [i3]|by exists [i3; i2]]).
  assert ([i4; i3] `prefix_of` leaf_table v huge) as P2
    by (destruct huge; [by exists []|by exists [i2]]).
  apply wp_bind. eapply wp_mono.
  { apply (next_table_alloc root T A n s root [] i4); [done|apply Hok|simpl; lia|apply index_land|].
    eapply wf_small_slot; [done|apply Hok|apply index_land|simpl; lia]. }
  intros [t|] s1 (T1 & A1 & n1 & G1 & Hr).
  2:{ apply wp_ret. exists T1, A1, n1. split; [|lia].
      eapply grown_prefix; [exact P1|]. eapply grown_more; [|exact G1]. lia. }
  destruct Hr as (g1 & Hg1 & ->). simpl in Hg1.
  pose proof (gr_ok _ _ _ _ _ _ _ _ _ _ _ G1) as Hok1.
  rewrite -(env_offset _ _ (gr_env _ _ _ _ _ _ _ _ _ _ _ G1)).
  apply (grown_prefix root _ _ _ _ _ _ _ _ _ _ _ P1) in G1.
  apply wp_bind. eapply wp_mono.
  { apply (next_table_alloc root T1 A1 n1 s1 g1 [i4] i3); [done|done|simpl; lia|apply index_land|].
    eapply wf_small_slot; [done|done|apply index_land|simpl; lia]. }
  intros [t|] s2 (T2 & A2 & n2 & G2 & Hr);
    pose proof (gr_room _ _ _ _ _ _ _ _ _ _ _ G1) as Hn1;
    apply (grown_prefix root _ _ _ _ _ _ _ _ _ _ _ P2) in G2;
    pose proof (grown_trans _ _ _ _ _ _ _ _ _ _ _ _ _ _ _ _ G1 G2) as G12.
  2:{ apply wp_ret. exists T2, A2, n2. split; [|lia].
      eapply grown_more; [|exact G12]. lia. }
  destruct Hr as (g2 & Hg2 & ->). simpl in Hg2. clear G1 Hok1.
  rewrite -(env_offset _ _ (gr_env _ _ _ _ _ _ _ _ _ _ _ G2)). clear G2.
  destruct huge.
  { apply wp_ret. exists T2, A2, n2. split; [eapply grown_more; [|exact G12]; lia|].
    by exists g2. }
  pose proof (gr_ok _ _ _ _ _ _ _ _ _ _ _ G12) as Hok2.
  apply wp_bind. eapply wp_mono.
  { apply (next_table_alloc root T2 A2 n2 s2 g2 [i4; i3] i2); [done|done|simpl; lia|apply index_land|].
    eapply pd_slot_small; [apply Hok2|done|]. intros e.
    rewrite (gr_view _ _ _ _ _ _ _ _ _ _ _ G12). by apply Hsmall. }
  intros [t|] s3 (T3 & A3 & n3 & G3 & Hr);
    pose proof (gr_room _ _ _ _ _ _ _ _ _ _ _ G12) as Hn2;
    pose proof (grown_trans _ _ _ _ _ _ _ _ _ _ _ _ _ _ _ _ G12 G3) as G;
    apply wp_ret; exists T3, A3, n3; (split; [exact G|]).
  - destruct Hr as (g3 & Hg3 & ->). by exists g3.
  - lia.
Qed.

(** *** Looking up without allocating *)

Lemma next_table_find root T A n s f p i :
  pt_ok s root T A n → T !! p = Some f → (length p < 3)%nat → index i →
  (present (slot (mem s) f i) = true → page_size (slot (mem s) f i) = false) →
  next_table (hhdm_physToVirt (hhdm_offset s) f) i false s =
    Ok (hhdm_physToVirt (hhdm_offset s) <$> T !! (p ++ [i]), s).
Proof.
  intros [Hwf Ho HT] Hp Hl Hi Hsmall. assert (frame f) as Hf by (by eapply wf_frame).
  rewrite /next_table /bind /load /gets ptr_phys // -/(slot (mem s) f i).
  rewrite (wf_child _ _ _ Hwf p i f) // /child.
  destruct (present (slot (mem s) f i)) eqn:Ep; cbn [negb andb]; [|done].
  rewrite Hsmall //=. by rewrite /ret ptr_phys.
Qed.

Lemma get_pte_find root T A n s v huge :
  pt_ok s root T A n →
  (huge = false → ∀ e, view (mem s) T v ≠ Some (Page2M e)) →
  vmm_get_pte (hhdm_physToVirt (hhdm_offset s) root) v false huge s =
    Ok ((λ g, entry_ptr (hhdm_physToVirt (hhdm_offset s) g) (leaf_index v huge))
          <$> T !! leaf_table v huge, s).
Proof.
  intros Hok Hsmall. rewrite /vmm_get_pte. destruct (page_base_indices v) as (-> & -> & -> & ->).
  pose proof (ok_wf _ _ _ _ _ Hok) as Hwf. rewrite /leaf_table /leaf_index.
  set i4 := PAGING_GET_PML4INDEX v. set i3 := PAGING_GET_PDPRINDEX v.
  rewrite /bind (next_table_find root T A n s root [] i4 Hok (wf_root _ _ _ Hwf));
    [|simpl; lia|apply index_land|].
  2:{ eapply wf_small_slot; [done|apply Hwf|apply index_land|simpl; lia]. }
  destruct (T !! ([] ++ [i4])) as [g4|] eqn:E4; simpl in E4 |- *.
  2:{ pose proof (child_None _ _ _ _ i3 Hwf E4) as E3.
      rewrite /path2m /path3 -/i4 -/i3. destruct huge; [by rewrite E3|].
      by rewrite (child_None _ _ _ _ (PAGING_GET_PDINDEX v) Hwf E3). }
  rewrite (next_table_find root T A n s g4 [i4] i3 Hok E4); [|simpl; lia|apply index_land|].
  2:{ eapply wf_small_slot; [done|done|apply index_land|simpl; lia]. }
  change (([i4] ++ [i3])) with (path3 v).
  destruct (T !! path3 v) as [g3|] eqn:E3; simpl.
  2:{ destruct huge; [by rewrite E3|].
      by rewrite (child_None _ _ _ _ (PAGING_GET_PDINDEX v) Hwf E3). }
  destruct huge; [by rewrite E3|].
  rewrite (next_table_find root T A n s g3 (path3 v) _ Hok E3); [|simpl; lia|apply index_land|].
  2:{ eapply pd_slot_small; [done|done|by apply Hsmall]. }
  rewrite -/(path2m v). by destruct (T !! path2m v).
Qed.

(** *** Updates of the translation *)

(** The addresses that share the leaf entry of [v]. *)
Definition same_leaf (huge : bool) (w v : Z) : Prop :=
  if huge then path2m w = path2m v else path w = path v.
#[global] Instance same_leaf_dec huge w v : Decision (same_leaf huge w v).
Proof. rewrite /same_leaf. destruct huge; apply _. Defined.

Definition leaf (huge : bool) (e : Z) : option translation :=
  if huge then leaf2m e else leaf4k e.

Definition upd (V : Z → option translation) (huge : bool) (v : Z) (t : option translation)
    : Z → option translation :=
  λ w, if decide (same_leaf huge w v) then t else V w.

(** No huge page is mapped at [v] (to map a small one), no page table hangs there (to
    map a huge one). *)
Definition can_map (T : gmap (list Z) Z) (V : Z → option translation) (huge : bool) (v : Z) : Prop :=
  if huge then T !! path2m v = None else ∀ e, V v ≠ Some (Page2M e).

Lemma write_leaf root T A n s v huge g e :
  pt_ok s root T A n → T !! leaf_table v huge = Some g →
  can_map T (view (mem s) T) huge v →
  (huge = true → present e = true → page_size e = true) → (present e = false → e = 0) →
  pt_ok (with_mem (<[g + 8 * leaf_index v huge := e]> (mem s)) s) root T A n ∧
  (∀ w, view (<[g + 8 * leaf_index v huge := e]> (mem s)) T w =
        upd (view (mem s) T) huge v (leaf huge e) w) ∧
  (∀ x, outside T x → (<[g + 8 * leaf_index v huge := e]> (mem s)) x = mem s x).
Proof.
  intros [Hwf Ho HT] Hg Hcan He He0. split; [|split].
  - split; [|done|done]. cbn [mem with_mem]. rewrite /leaf_index. destruct huge.
    + apply (write_pd_wf _ _ _ Hwf (path3 v)); [exact Hg|done|apply index_land|exact Hcan|by apply He|done].
    + apply (write_pt_wf _ _ _ Hwf (path2m v)); [exact Hg|done|apply index_land|done].
  - intros w. rewrite /upd /same_leaf /leaf_index /leaf. destruct huge.
    + apply (write_pd_view _ _ _ Hwf v g e Hg Hcan).
    + apply (write_pt_view _ _ _ Hwf v g e Hg).
  - intros x Hx. apply fn_lookup_insert_ne.
    eapply outside_slot; [exact Hg|apply leaf_index_ok|exact Hx].
Qed.

(** What is cached agrees with the tables. *)
Record tlb_ok (t : tlb) (V : Z → option translation) : Prop := {
  tlb_4k_ok : ∀ k e, tlb_4k t k = Some e →
    canonical_addr (k * PAGING_PAGE_SIZE) ∧ V (k * PAGING_PAGE_SIZE) = Some (Page4K e);
  tlb_2m_ok : ∀ k e, tlb_2m t k = Some e →
    canonical_addr (k * PAGING_HUGE_PAGE_SIZE) ∧ V (k * PAGING_HUGE_PAGE_SIZE) = Some (Page2M e);
}.

Definition tlb_drop (v : Z) (t : tlb) : tlb :=
  mkTlb (<[v / PAGING_PAGE_SIZE := None]> (tlb_4k t))
        (<[v / PAGING_HUGE_PAGE_SIZE := None]> (tlb_2m t)).

Lemma tlb_drop_ok t V huge v x :
  tlb_ok t V → canonical_addr v →
  (∀ w e, same_leaf huge w v → huge = true → V w ≠ Some (Page4K e)) →
  (∀ w e, same_leaf huge w v → huge = false → V w ≠ Some (Page2M e)) →
  tlb_ok (tlb_drop v t) (upd V huge v x).
Proof.
  intros [H4 H2] Hv Hno4 Hno2. split; intros k e; simpl.
  - destruct (decide (v / PAGING_PAGE_SIZE = k)) as [<-|Hne]; [by rewrite fn_lookup_insert|].
    rewrite fn_lookup_insert_ne //. intros Hk%H4. destruct Hk as [Hc Hk]. split; [done|].
    rewrite /upd. case_decide as Hs; [|done]. exfalso. destruct huge.
    + by eapply Hno4.
    + rewrite /same_leaf path_same_page // Z.div_mul // in Hs.
  - destruct (decide (v / PAGING_HUGE_PAGE_SIZE = k)) as [<-|Hne]; [by rewrite fn_lookup_insert|].
    rewrite fn_lookup_insert_ne //. intros Hk%H2. destruct Hk as [Hc Hk]. split; [done|].
    rewrite /upd. case_decide as Hs; [|done]. exfalso. destruct huge.
    + rewrite /same_leaf path2m_same_page // Z.div_mul // in Hs.
    + by eapply Hno2.
Qed.

(** The registers, the direct map and the end of memory. *)
Definition regs s :=
  (hhdm_offset s, kernel_pml4_phys s, cr3 s, cr4 s, msr_pat s, fa_top (frames s)).

(** The tree has been extended by tables at paths in [P], at the cost of at most [k]
    frames, and translates by [V]; what was cached coherently still is. *)
Record became (root : Z) (P : list Z → Prop) (k : nat) (V : Z → option translation)
    s T A n s' T' A' n' : Prop := {
  bc_ok : pt_ok s' root T' A' n';
  bc_tables : T ⊆ T';
  bc_frames : A ⊆ A';
  bc_room : (n ≤ n' + k)%nat;
  bc_regs : regs s' = regs s;
  bc_view : ∀ v, view (mem s') T' v = V v;
  bc_tlb : tlb_ok (tlb_of s) (view (mem s) T) → tlb_ok (tlb_of s') V;
  bc_mem : ∀ x, outside T' x → mem s' x = mem s x;
  bc_new : ∀ f, f ∈ A' → f ∈ A ∨ ∃ p, T' !! p = Some f;
  bc_path : ∀ p, is_Some (T' !! p) → is_Some (T !! p) ∨ P p;
  bc_fresh : ∀ p f, T' !! p = Some f → f ∈ A → T !! p = Some f;
}.

(** The tables [T] have become [T'], with [A] and [A'] the frames in use: new frames are
    new tables. *)
Record new_tables T A T' A' : Prop := {
  nt_tables : T ⊆ T';
  nt_owned : A ⊆ A';
  nt_new : ∀ f, f ∈ A' → f ∈ A ∨ ∃ p, T' !! p = Some f;
  nt_fresh : ∀ p f, T' !! p = Some f → f ∈ A → T !! p = Some f;
}.

Lemma became_tables root P k V s T A n s' T' A' n' :
  became root P k V s T A n s' T' A' n' → new_tables T A T' A'.
Proof. intros []. by split. Qed.

Lemma tlb_ok_ext t V V' : (∀ v, V v = V' v) → tlb_ok t V → tlb_ok t V'.
Proof. intros HV [H4 H2]. split; intros k e; rewrite -HV; [apply H4|apply H2]. Qed.

Lemma became_refl root P k V s T A n :
  pt_ok s root T A n → (∀ v, view (mem s) T v = V v) → became root P k V s T A n s T A n.
Proof. intros Hok HV. split; try done; [lia|by apply tlb_ok_ext|by left..]. Qed.

Lemma became_trans root P k1 k2 V1 V2 s T A n s1 T1 A1 n1 s2 T2 A2 n2 :
  became root P k1 V1 s T A n s1 T1 A1 n1 → became root P k2 V2 s1 T1 A1 n1 s2 T2 A2 n2 →
  became root P (k1 + k2) V2 s T A n s2 T2 A2 n2.
Proof.
  intros B1 B2. split.
  - apply B2.
  - etrans; [apply B1|apply B2].
  - etrans; [apply B1|apply B2].
  - pose proof (bc_room _ _ _ _ _ _ _ _ _ _ _ _ B1).
    pose proof (bc_room _ _ _ _ _ _ _ _ _ _ _ _ B2). lia.
  - rewrite (bc_regs _ _ _ _ _ _ _ _ _ _ _ _ B2). apply B1.
  - apply B2.
  - intros Ht. apply B2. eapply tlb_ok_ext; [|by apply (bc_tlb _ _ _ _ _ _ _ _ _ _ _ _ B1)].
    intros v. symmetry. apply B1.
  - intros x Hx. rewrite (bc_mem _ _ _ _ _ _ _ _ _ _ _ _ B2) //. apply B1.
    eapply outside_sub; [apply B2|done].
  - intros f [Hf|?]%(bc_new _ _ _ _ _ _ _ _ _ _ _ _ B2); [|by right].
    apply (bc_new _ _ _ _ _ _ _ _ _ _ _ _ B1) in Hf as [?|(p & Hp)]; [by left|right].
    exists p. eapply lookup_weaken; [done|apply B2].
  - intros p [Hp|?]%(bc_path _ _ _ _ _ _ _ _ _ _ _ _ B2); [|by right]. by apply B1.
  - intros p f Hp Hf. apply B1; [|done]. apply B2; [done|]. by apply B1.
Qed.

Lemma became_weaken root (P P' : list Z → Prop) k k' V V' s T A n s' T' A' n' :
  (∀ p, P p → P' p) → (k ≤ k')%nat → (∀ v, V v = V' v) →
  became root P k V s T A n s' T' A' n' → became root P' k' V' s T A n s' T' A' n'.
Proof.
  intros HP Hk HV []. split; try done.
  - lia.
  - intros v. by rewrite -HV.
  - intros Ht. by eapply tlb_ok_ext; [|eauto].
  - intros p Hp. destruct (bc_path0 p Hp); [by left|right; auto].
Qed.

(** The leaf entry that [paging_map_page] writes. *)
Definition map_entry (phys flags : Z) (huge : bool) : Z :=
  Z.lor (Z.lor (Z.lor (page_align phys huge) flags) PTE_FLAG_PRESENT)
    (if huge then PTE_FLAG_PS else 0).

Lemma map_entry_present phys flags huge : present (map_entry phys flags huge) = true.
Proof.
  rewrite present_testbit /map_entry !Z.lor_spec.
  assert (Z.testbit PTE_FLAG_PRESENT 0 = true) as -> by done. by rewrite orb_true_r.
Qed.

Lemma map_entry_huge phys flags : page_size (map_entry phys flags true) = true.
Proof.
  rewrite page_size_testbit /map_entry !Z.lor_spec.
  assert (Z.testbit PTE_FLAG_PS 7 = true) as -> by done. by rewrite orb_true_r.
Qed.

Definition page_of (huge : bool) (e : Z) : translation := if huge then Page2M e else Page4K e.

Lemma leaf_map_entry phys flags huge :
  leaf huge (map_entry phys flags huge) = Some (page_of huge (map_entry phys flags huge)).
Proof.
  destruct huge; rewrite /leaf /leaf2m /leaf4k map_entry_present; [by rewrite map_entry_huge|done].
Qed.

(** In a tree where [v] can be mapped, no page of the other size is in the way. *)
Lemma can_map_no4k m T v w e :
  can_map T (view m T) true v → path2m w = path2m v → view m T w ≠ Some (Page4K e).
Proof.
  rewrite /can_map /view. intros Hn ->. rewrite Hn. destruct (T !! path3 w); [|done].
  rewrite /leaf2m. by destruct (_ && _).
Qed.

Lemma view_path m T v w : path w = path v → view m T w = view m T v.
Proof.
  rewrite /path /path3 /view /path2m. intros [= E4 E3 E2 E1]. by rewrite /path3 E4 E3 E2 E1.
Qed.

Lemma can_map_tlb m T t huge v x :
  can_map T (view m T) huge v → canonical_addr v → tlb_ok t (view m T) →
  tlb_ok (tlb_drop v t) (upd (view m T) huge v x).
Proof.
  intros Hcan Hv Ht. apply tlb_drop_ok; [done|done|..]; intros w e Hs ->.
  - by apply can_map_no4k with v.
  - rewrite (view_path m T v w Hs). apply Hcan.
Qed.

(** The precondition of an operation on [v] in the address space at [root]. *)
Definition valid_target s (root v : Z) : Prop :=
  hhdm_physToVirt (hhdm_offset s) root ≠ 0 ∧ v ≠ 0 ∧ canonical_addr v.

Lemma guard_target s root v :
  valid_target s root v → (hhdm_physToVirt (hhdm_offset s) root =? 0) || (v =? 0) = false.
Proof. intros (H1 & H2 & _). by apply orb_false_iff; split; apply Z.eqb_neq. Qed.

Lemma map_page_wp root T A n s v phys flags huge :
  pt_ok s root T A n → valid_target s root v → can_map T (view (mem s) T) huge v →
  (3 ≤ n)%nat →
  wp (paging_map_page (hhdm_physToVirt (hhdm_offset s) root) v phys flags huge) (λ _ s',
    ∃ T' A' n', became root (λ p, p `prefix_of` leaf_table v huge) 3
      (upd (view (mem s) T) huge v (Some (page_of huge (map_entry phys flags huge))))
      s T A n s' T' A' n') s.
Proof.
  intros Hok Hv Hcan Hn. rewrite /paging_map_page (guard_target s root v Hv).
  apply wp_bind. eapply wp_mono; [apply (get_pte_alloc root T A n); [done|by intros ->]|].
  intros [a|] s1 (T1 & A1 & n1 & G & Hr); [|lia]. destruct Hr as (g & Hg & ->).
  pose proof (gr_ok _ _ _ _ _ _ _ _ _ _ _ G) as Hok1.
  pose proof (gr_env _ _ _ _ _ _ _ _ _ _ _ G) as Henv.
  assert (can_map T1 (view (mem s1) T1) huge v) as Hcan1.
  { destruct huge; simpl in Hcan |- *; [|by intros e; rewrite (gr_view _ _ _ _ _ _ _ _ _ _ _ G)].
    destruct (T1 !! path2m v) eqn:E; [|done].
    destruct (gr_path _ _ _ _ _ _ _ _ _ _ _ G (path2m v)) as [[? ?]|Hp]; [by eexists|congruence|].
    apply prefix_length in Hp. by rewrite /path2m length_app /= in Hp; lia. }
  rewrite -/(map_entry phys flags huge). set e := map_entry phys flags huge.
  destruct (write_leaf root T1 A1 n1 s1 v huge g e Hok1 Hg Hcan1) as (Hok2 & Hview & Hmem).
  { intros -> _. apply map_entry_huge. }
  { by rewrite map_entry_present. }
  pg_steps. rewrite -(env_offset _ _ Henv) ptr_phys; [|by eapply wf_frame; [apply Hok1|]|apply leaf_index_ok].
  exists T1, A1, n1. split; [|apply G|apply G|apply G| | | | |apply G|apply G|apply G].
  - by destruct Hok2.
  - rewrite /regs. cbn. by injection Henv as -> -> -> -> -> -> _.
  - intros w. simpl. rewrite Hview -leaf_map_entry /upd. case_decide; [done|].
    by rewrite (gr_view _ _ _ _ _ _ _ _ _ _ _ G).
  - intros Ht. simpl. injection Henv as _ _ _ _ _ _ ->. by apply can_map_tlb; [..|apply Hv|].
  - intros x Hx. simpl. rewrite Hmem //. by apply G.
Qed.

(** *** Regions *)

(** The translation after mapping [N] pages from [v] on to [phys] on. *)
Fixpoint region_view (N : nat) (V : Z → option translation) (v phys flags : Z) (huge : bool)
    : Z → option translation :=
  match N with
  | O => V
  | Datatypes.S N =>
      region_view N (upd V huge v (Some (page_of huge (map_entry phys flags huge))))
        (v + step_size huge) (phys + step_size huge) flags huge
  end.

Lemma region_view_ext N V V' v phys flags huge w :
  (∀ w, V w = V' w) →
  region_view N V v phys flags huge w = region_view N V' v phys flags huge w.
Proof.
  revert V V' v phys. induction N as [|N IH]; intros V V' v phys HV; simpl; [done|].
  apply IH. intros x. rewrite /upd. by case_decide.
Qed.

(** New tables for small or huge pages never stand in the way of pages of that size. *)
Lemma became_can_map root k s T A n s' T' A' n' huge v w e :
  became root (λ p, p `prefix_of` leaf_table v huge) k
    (upd (view (mem s) T) huge v (Some (page_of huge e))) s T A n s' T' A' n' →
  can_map T (view (mem s) T) huge w → can_map T' (view (mem s') T') huge w.
Proof.
  intros B Hcan. destruct huge; simpl in *.
  - destruct (T' !! path2m w) eqn:E; [|done].
    destruct (bc_path _ _ _ _ _ _ _ _ _ _ _ _ B (path2m w)) as [[? ?]|Hp]; [by eexists|congruence|].
    apply prefix_length in Hp. rewrite /path2m length_app /= in Hp. lia.
  - intros e'. rewrite (bc_view _ _ _ _ _ _ _ _ _ _ _ _ B) /upd. by case_decide.
Qed.

Lemma regs_offset s s' : regs s' = regs s → hhdm_offset s' = hhdm_offset s.
Proof. by intros [=]. Qed.

Lemma step_size_pos huge : 0 < step_size huge.
Proof. by destruct huge. Qed.

(** The [N] pages from [v] on can be mapped. *)
Definition region_ok s (root : Z) T (huge : bool) (v : Z) (N : nat) : Prop :=
  ∀ j, 0 ≤ j < Z.of_nat N →
    valid_target s root (v + j * step_size huge) ∧
    can_map T (view (mem s) T) huge (v + j * step_size huge).

Lemma region_ok_tail s root T huge v N :
  region_ok s root T huge v (Datatypes.S N) → region_ok s root T huge (v + step_size huge) N.
Proof.
  intros Hr j Hj.
  replace (v + step_size huge + j * step_size huge) with (v + (j + 1) * step_size huge) by lia.
  apply Hr. lia.
Qed.

(** The paths of the tables that mapping the region may create. *)
Definition region_paths (huge : bool) (v : Z) (N : nat) (p : list Z) : Prop :=
  ∃ j, 0 ≤ j < Z.of_nat N ∧ p `prefix_of` leaf_table (v + j * step_size huge) huge.

Lemma map_loop_wp N fuel root T A n s v phys lim flags huge :
  pt_ok s root T A n → (3 * N ≤ n)%nat → (N < fuel)%nat → region_ok s root T huge v N →
  v + (Z.of_nat N - 1) * step_size huge < lim ≤ v + Z.of_nat N * step_size huge →
  0 ≤ v → v + Z.of_nat N * step_size huge < 2 ^ 64 →
  0 ≤ phys → phys + Z.of_nat N * step_size huge < 2 ^ 64 →
  wp (map_loop fuel (hhdm_physToVirt (hhdm_offset s) root) v phys lim flags huge) (λ _ s',
    ∃ T' A' n', became root (region_paths huge v N) (3 * N)
      (region_view N (view (mem s) T) v phys flags huge) s T A n s' T' A' n') s.
Proof.
  pose proof (step_size_pos huge) as Hstep.
  revert fuel T A n s v phys. induction N as [|N IH];
    intros [|fuel] T A n s v phys Hok Hn Hfuel Hreg Hlim Hv0 Hv Hp0 Hp; [lia| |lia|];
    cbn [map_loop].
  - destruct (Z.ltb_spec v lim); [lia|]. apply wp_ret. exists T, A, n. by apply became_refl.
  - destruct (Z.ltb_spec v lim); [|lia]. apply wp_bind.
    destruct (Hreg 0) as [Hval Hcan]; [lia|]. rewrite Z.mul_0_l Z.add_0_r in Hval Hcan.
    eapply wp_mono; [apply (map_page_wp root T A n); [done..|lia]|].
    intros [] s1 (T1 & A1 & n1 & B1). rewrite !u64_small; [|lia..].
    pose proof (regs_offset _ _ (bc_regs _ _ _ _ _ _ _ _ _ _ _ _ B1)) as Hoff.
    rewrite -Hoff. eapply wp_mono.
    + apply (IH fuel T1 A1 n1 s1 (v + step_size huge) (phys + step_size huge)); [apply B1| |lia| |lia..].
      * pose proof (bc_room _ _ _ _ _ _ _ _ _ _ _ _ B1). lia.
      * intros j Hj. destruct (region_ok_tail _ _ _ _ _ _ Hreg j Hj) as [Hv1 Hc1].
        split; [by rewrite /valid_target Hoff|]. by eapply became_can_map.
    + intros [] s2 (T2 & A2 & n2 & B2). exists T2, A2, n2.
      replace (3 * Datatypes.S N)%nat with (3 + 3 * N)%nat by lia.
      eapply became_trans.
      * eapply became_weaken; [|done|intros ?; reflexivity|exact B1].
        intros p Hpre. exists 0. split; [lia|]. by rewrite Z.mul_0_l Z.add_0_r.
      * eapply became_weaken; [|done| |exact B2].
        { intros p (j & Hj & Hpre). exists (j + 1). split; [lia|].
          by replace (v + (j + 1) * step_size huge) with (v + step_size huge + j * step_size huge) by lia. }
        { intros w. cbn [region_view]. apply region_view_ext. apply B1. }
Qed.

(** The number of pages of a region of [size] bytes. *)
Definition region_pages (size : Z) (huge : bool) : nat :=
  Z.to_nat ((size + step_size huge - 1) / step_size huge).

Lemma region_pages_bounds size huge :
  0 ≤ size →
  (Z.of_nat (region_pages size huge) - 1) * step_size huge < size ≤
    Z.of_nat (region_pages size huge) * step_size huge ∧
  (region_pages size huge < region_fuel size huge)%nat.
Proof.
  intros Hs. pose proof (step_size_pos huge) as Hstep. rewrite /region_pages /region_fuel.
  assert (0 ≤ (size + step_size huge - 1) / step_size huge) by (apply Z.div_pos; lia).
  assert (0 ≤ size / step_size huge) by (apply Z.div_pos; lia).
  rewrite Z2Nat.id //. rewrite /step_size. destruct huge; rewrite /PAGING_HUGE_PAGE_SIZE /PAGING_PAGE_SIZE;
    (split; [Z.div_mod_to_equations; lia|]).
  - apply Nat2Z.inj_lt. rewrite Nat2Z.inj_add !Z2Nat.id; [Z.div_mod_to_equations; lia|done..].
  - apply Nat2Z.inj_lt. rewrite Nat2Z.inj_add !Z2Nat.id; [Z.div_mod_to_equations; lia|done..].
Qed.

Lemma map_region_wp root T A n s v phys size flags huge :
  let N := region_pages size huge in
  pt_ok s root T A n → (3 * N ≤ n)%nat → region_ok s root T huge v N →
  0 ≤ v → v + Z.of_nat N * step_size huge < 2 ^ 64 → 0 ≤ size →
  0 ≤ phys → phys + Z.of_nat N * step_size huge < 2 ^ 64 →
  wp (paging_map_region (hhdm_physToVirt (hhdm_offset s) root) v phys size flags huge) (λ _ s',
    ∃ T' A' n', became root (region_paths huge v N) (3 * N)
      (region_view N (view (mem s) T) v phys flags huge) s T A n s' T' A' n') s.
Proof.
  intros N Hok Hn Hreg Hv0 Hv Hs Hp0 Hp.
  destruct (region_pages_bounds size huge Hs) as [Hb Hf]. fold N in Hb, Hf.
  rewrite /paging_map_region u64_small; [|lia].
  apply map_loop_wp; try done. lia.
Qed.

Lemma same_leaf_page huge w v :
  canonical_addr w → canonical_addr v →
  same_leaf huge w v ↔ w / step_size huge = v / step_size huge.
Proof.
  intros Hw Hv. rewrite /same_leaf /step_size. destruct huge;
    [by apply path2m_same_page|by apply path_same_page].
Qed.

(** The pages of the region translate to the frames of the region, in order; nothing else
    has changed. *)
Lemma region_view_eq N V v phys flags huge w :
  (∀ j, 0 ≤ j < Z.of_nat N → canonical_addr (v + j * step_size huge)) → canonical_addr w →
  region_view N V v phys flags huge w =
    let k := w / step_size huge - v / step_size huge in
    if decide (0 ≤ k < Z.of_nat N)
    then Some (page_of huge (map_entry (phys + k * step_size huge) flags huge))
    else V w.
Proof.
  pose proof (step_size_pos huge) as Hstep.
  revert V v phys. induction N as [|N IH]; intros V v phys Hcan Hw; cbn [region_view].
  { cbv zeta. case_decide; [lia|done]. }
  assert (canonical_addr v) as Hv.
  { rewrite -(Z.add_0_r v) -(Z.mul_0_l (step_size huge)). apply Hcan. lia. }
  assert ((v + step_size huge) / step_size huge = v / step_size huge + 1) as Hd.
  { replace (v + step_size huge) with (v + 1 * step_size huge) by lia. rewrite Z.div_add; lia. }
  rewrite IH //; [|intros j Hj;
    replace (v + step_size huge + j * step_size huge) with (v + (j + 1) * step_size huge) by lia;
    apply Hcan; lia].
  cbv zeta. rewrite Hd. set q := w / step_size huge. set q0 := v / step_size huge.
  destruct (decide (0 ≤ q - (q0 + 1) < Z.of_nat N)).
  { rewrite decide_True; [|lia]. do 3 f_equal. lia. }
  rewrite /upd. destruct (decide (same_leaf huge w v)) as [Hs|Hs];
    rewrite same_leaf_page // -/q -/q0 in Hs.
  - rewrite decide_True; [|lia]. do 3 f_equal. lia.
  - rewrite decide_False; [done|lia].
Qed.

(** *** Unmapping and changing flags *)

Definition entry_of (t : translation) : Z :=
  match t with Page4K e | Page2M e | Page1G e => e end.

(** What the leaf entry of [v] holds. *)
Lemma leaf_slot m root T v huge g :
  pt_wf m root T → T !! leaf_table v huge = Some g → can_map T (view m T) huge v →
  view m T v = leaf huge (slot m g (leaf_index v huge)) ∧
  (view m T v = None → slot m g (leaf_index v huge) = 0).
Proof.
  intros Hwf Hg Hcan.
  assert (view m T v = leaf huge (slot m g (leaf_index v huge))) as Hview.
  { rewrite /view /leaf /leaf_index. destruct huge; simpl in Hg, Hcan.
    - by rewrite Hcan Hg.
    - by rewrite Hg. }
  split; [done|]. rewrite Hview. intros Hnone.
  apply (wf_empty _ _ _ Hwf _ _ _ Hg (leaf_index_ok _ _)).
  destruct (present _) eqn:Ep; [|done]. exfalso.
  rewrite /leaf /leaf2m /leaf4k Ep in Hnone. destruct huge; [|done].
  destruct (page_size _) eqn:Es; [done|]. simpl in Hg, Hcan.
  rewrite /path2m (wf_child _ _ _ Hwf (path3 v) _ g Hg (index_land _) ltac:(simpl; lia)) in Hcan.
  rewrite /leaf_index in Ep Es. by rewrite /child Ep Es in Hcan.
Qed.

Lemma no_leaf_view m root T v huge :
  pt_wf m root T → T !! leaf_table v huge = None → can_map T (view m T) huge v →
  view m T v = None.
Proof.
  intros Hwf Hn Hcan. destruct huge; simpl in Hn, Hcan.
  - by rewrite /view Hcan Hn.
  - rewrite /view Hn in Hcan |- *. destruct (T !! path3 v); [|done].
    rewrite /leaf2m in Hcan |- *. destruct (_ && _); [|done]. by destruct (Hcan _ eq_refl).
Qed.

Lemma upd_same V huge v : (∀ w, same_leaf huge w v → V w = V v) → ∀ w, V w = upd V huge v (V v) w.
Proof. intros Hs w. rewrite /upd. case_decide; auto. Qed.

Lemma view_path2m m T v w : T !! path2m v = None → path2m w = path2m v → view m T w = view m T v.
Proof.
  intros Hn E. rewrite /view E Hn. rewrite /path2m /path3 in E. injection E as E4 E3 E2.
  by rewrite /path3 E4 E3 E2.
Qed.

Lemma same_leaf_view m T huge v w :
  can_map T (view m T) huge v → same_leaf huge w v → view m T w = view m T v.
Proof. destruct huge; [apply view_path2m|intros _; apply view_path]. Qed.

(** The frames still allocated after the leaf of [v] has been released. *)
Definition release (A : gset Z) (t : option translation) (freePhysical : bool) : gset Z :=
  match t with
  | Some t => if freePhysical then A ∖ {[pte_addr (entry_of t)]} else A
  | None => A
  end.

(** The frame mapped at [v] belongs to the caller: it is allocated and not a table. *)
Definition releasable T A (t : option translation) : Prop :=
  ∀ e, entry_of <$> t = Some e → pte_addr e ∈ A ∧ ∀ p, T !! p ≠ Some (pte_addr e).

Lemma unmap_page_wp root T A n s v huge (freePhysical : bool) :
  pt_ok s root T A n → valid_target s root v → can_map T (view (mem s) T) huge v →
  (freePhysical = true → releasable T A (view (mem s) T v)) →
  wp (paging_unmap_page (hhdm_physToVirt (hhdm_offset s) root) v huge freePhysical) (λ _ s',
    pt_ok s' root T (release A (view (mem s) T v) freePhysical) n ∧ regs s' = regs s ∧
    (∀ w, view (mem s') T w = upd (view (mem s) T) huge v None w) ∧
    (tlb_ok (tlb_of s) (view (mem s) T) →
     tlb_ok (tlb_of s') (upd (view (mem s) T) huge v None)) ∧
    (∀ x, outside T x → mem s' x = mem s x)) s.
Proof.
  intros Hok Hv Hcan Hrel. rewrite /paging_unmap_page (guard_target s root v Hv).
  pose proof (ok_wf _ _ _ _ _ Hok) as Hwf.
  apply wp_bind. eapply wp_eq; [apply (get_pte_find root T A n); [done|by intros ->]|].
  destruct (T !! leaf_table v huge) as [g|] eqn:Hg; simpl.
  2:{ apply wp_ret. pose proof (no_leaf_view _ _ _ _ _ Hwf Hg Hcan) as Hnone.
      assert (∀ w, view (mem s) T w = upd (view (mem s) T) huge v None w) as Hsame.
      { pose proof (upd_same (view (mem s) T) huge v) as Hu. rewrite Hnone in Hu. apply Hu.
        intros w Hs. by rewrite (same_leaf_view _ _ _ v w Hcan Hs). }
      rewrite Hnone. split; [done|]. split; [done|]. split; [done|]. split; [|done].
      by apply tlb_ok_ext. }
  destruct (leaf_slot _ _ _ _ _ _ Hwf Hg Hcan) as [Hview Hempty].
  destruct (write_leaf root T A n s v huge g 0 Hok Hg Hcan) as (Hok2 & Hview2 & Hmem);
    [done|done|].
  assert (frame g) as Hfg by (by eapply wf_frame). pose proof (leaf_index_ok v huge) as Hidx.
  pg_steps. rewrite !ptr_phys // -/(slot (mem s) g (leaf_index v huge)).
  set e := slot (mem s) g (leaf_index v huge) in Hview, Hempty |- *.
  assert (leaf huge 0 = None) as Hleaf0 by (by destruct huge). rewrite Hleaf0 in Hview2.
  assert (∀ fr A', fa_top fr = fa_top (frames s) → owned fr A' n → (∀ p f, T !! p = Some f → f ∈ A') →
    let s' := with_frames fr (with_tlb (tlb_drop v (tlb_of s))
      (with_mem (<[g + 8 * leaf_index v huge := 0]> (mem s)) s)) in
    pt_ok s' root T A' n ∧ regs s' = regs s ∧
    (∀ w, view (mem s') T w = upd (view (mem s) T) huge v None w) ∧
    (tlb_ok (tlb_of s) (view (mem s) T) →
     tlb_ok (tlb_of s') (upd (view (mem s) T) huge v None)) ∧
    (∀ x, outside T x → mem s' x = mem s x)) as Hdone.
  { intros fr A' Htop Hfr HT'. split; [split; [apply Hok2|done|done]|].
    split; [by rewrite /regs /= Htop|].
    split; [done|]. split; [|done]. intros Ht. by apply can_map_tlb; [..|apply Hv|]. }
  destruct freePhysical.
  2:{ apply wp_ret.
      replace (release A (view (mem s) T v) false) with A by (by destruct (view (mem s) T v)).
      by apply (Hdone (frames s)); [done|apply Hok|apply Hok]. }
  apply wp_on_frames. cbn [frames with_tlb with_mem].
  destruct (view (mem s) T v) as [t|] eqn:Et; simpl.
  - assert (entry_of t = e) as Ee.
    { symmetry in Hview. rewrite /leaf /leaf2m /leaf4k in Hview.
      destruct huge, (present e); simplify_eq/=; [|done]. by destruct (page_size e); simplify_eq/=. }
    destruct (Hrel eq_refl e) as [HeA HeT]; [by rewrite /= Ee|]. rewrite Ee.
    eapply wp_mono; [apply (owned_dec_ref _ A n); [apply Hok|done]|].
    intros [] fr [Htop Hfr]. apply (Hdone fr _ Htop Hfr). intros p f Hp. apply elem_of_difference.
    split; [by eapply ok_tables|]. intros ->%elem_of_singleton. by eapply HeT.
  - rewrite Hempty // . change (pte_addr 0) with 0.
    eapply wp_mono; [apply (owned_dec_ref_null _ A n), Hok|]. intros [] fr [Htop Hfr].
    apply (Hdone fr _ Htop Hfr). apply Hok.
Qed.

(** Changing the flags of a mapped small page keeps its frame. *)
Lemma change_flags_wp root T A n s v flags g :
  pt_ok s root T A n → valid_target s root v → T !! path2m v = Some g →
  wp (paging_change_page_flags (hhdm_physToVirt (hhdm_offset s) root) v flags false) (λ _ s',
    let e' := Z.lor (Z.lor (pte_addr (slot (mem s) g (PAGING_GET_PTINDEX v)))
                       PTE_FLAG_PRESENT) flags in
    pt_ok s' root T A n ∧ regs s' = regs s ∧
    (∀ w, view (mem s') T w = upd (view (mem s) T) false v (Some (Page4K e')) w) ∧
    (tlb_ok (tlb_of s) (view (mem s) T) →
     tlb_ok (tlb_of s') (upd (view (mem s) T) false v (Some (Page4K e')))) ∧
    (∀ x, outside T x → mem s' x = mem s x)) s.
Proof.
  intros Hok Hv Hg. rewrite /paging_change_page_flags (guard_target s root v Hv).
  pose proof (ok_wf _ _ _ _ _ Hok) as Hwf.
  assert (can_map T (view (mem s) T) false v) as Hcan.
  { intros e. rewrite /view Hg /leaf4k. by destruct (present _). }
  assert (frame g) as Hfg by (by eapply wf_frame).
  apply wp_bind. eapply wp_eq; [apply (get_pte_find root T A n); [done|done]|].
  simpl. rewrite Hg. cbn [fmap option_fmap option_map].
  pg_steps. rewrite !ptr_phys //; [|apply index_land..].
  rewrite -/(slot (mem s) g (PAGING_GET_PTINDEX v)).
  set e' := Z.lor (Z.lor (pte_addr _) _) flags.
  assert (present e' = true) as Hpr.
  { rewrite present_testbit /e' !Z.lor_spec.
    assert (Z.testbit PTE_FLAG_PRESENT 0 = true) as -> by done. by rewrite orb_true_r. }
  destruct (write_leaf root T A n s v false g e' Hok Hg Hcan) as (Hok2 & Hview2 & Hmem);
    [done|by rewrite Hpr|].
  assert (leaf false e' = Some (Page4K e')) as Hleaf by (by rewrite /leaf /leaf4k Hpr).
  rewrite Hleaf in Hview2. split; [split; apply Hok2|]. split; [done|]. split; [done|].
  split; [|done]. intros Ht. by apply can_map_tlb; [..|apply Hv|].
Qed.
End ops.
