(* ===== verification/PagingInit.v ===== *)
(** * Page tables: the kernel address space and the theorems

    What [paging_init] builds, and the properties of the paging code for its callers. *)

From stdpp Require Import base gmap list numbers functions.
From S2P Require Import Prelude Spinlock Hhdm Pmm PmmOps PmmInit PmmSpec FrameAlloc Paging PagingSpec.

(** ** Entries of mapped pages *)

(** A page-aligned physical address of at most 52 bits. *)
Definition page_addr (p : Z) : Prop := 0 ≤ p < 2 ^ 52 ∧ p mod PAGING_PAGE_SIZE = 0.

Lemma page_addr_bit p k : page_addr p → 0 ≤ k < 12 ∨ k = 63 → Z.testbit p k = false.
Proof.
  intros [Hr Hm] [Hk| ->].
  - destruct (decide (p = 0)) as [->|]; [apply Z.bits_0|].
    apply testbit_frame; [split; [lia|done]|lia].
  - destruct (decide (p = 0)) as [->|]; [apply Z.bits_0|].
    apply Z.bits_above_log2; [lia|]. apply Z.log2_lt_pow2; lia.
Qed.

Lemma page_addr_mask p : page_addr p → pte_addr p = p.
Proof.
  intros [Hr Hm]. destruct (decide (p = 0)) as [->|]; [done|].
  apply pte_addr_frame. split; [lia|done].
Qed.

Lemma page_align_mult p huge : p mod step_size huge = 0 → page_align p huge = p.
Proof.
  rewrite /page_align /step_size. destruct huge; simpl.
  - intros Hm. rewrite Hm /=. assert (p mod PAGING_PAGE_SIZE = 0) as ->; [|done].
    rewrite /PAGING_PAGE_SIZE /PAGING_HUGE_PAGE_SIZE in Hm |- *. Z.div_mod_to_equations. lia.
  - by intros ->.
Qed.

(** The bits of an entry: the frame, the flags asked for, present, and the size bit. *)
Lemma map_entry_bits p flags huge :
  page_addr p → p mod step_size huge = 0 → pte_addr flags = 0 →
  pte_addr (map_entry p flags huge) = p ∧
  Z.testbit (map_entry p flags huge) 1 = Z.testbit flags 1 ∧
  Z.testbit (map_entry p flags huge) 63 = Z.testbit flags 63.
Proof.
  intros Hp Hm Hf. rewrite /map_entry page_align_mult //.
  assert (pte_addr (if huge then PTE_FLAG_PS else 0) = 0) as Hps by (by destruct huge).
  split; [by rewrite !pte_addr_lor // page_addr_mask|].
  rewrite !Z.lor_spec !(page_addr_bit p) //; [|lia|lia].
  by destruct huge; rewrite !orb_false_r.
Qed.

(** ** The kernel image *)

Definition FLAGS_REQUESTS : Z := Z.lor (Z.lor PTE_FLAG_RW PTE_FLAG_NO_EXEC) PTE_FLAG_GLOBAL.
Definition FLAGS_TEXT : Z := PTE_FLAG_GLOBAL.
Definition FLAGS_RODATA : Z := Z.lor PTE_FLAG_NO_EXEC PTE_FLAG_GLOBAL.
Definition FLAGS_DATA : Z := Z.lor (Z.lor PTE_FLAG_NO_EXEC PTE_FLAG_RW) PTE_FLAG_GLOBAL.
Definition FLAGS_HHDM : Z := Z.lor PTE_FLAG_RW PTE_FLAG_GLOBAL.

Definition seg_pages (start stop : Z) : nat := region_pages (stop - start) false.
Definition ram_pages (hi : Z) : nat := region_pages (hi - 1) true.

(** One segment lies page aligned in the image. *)
Definition seg_ok (im : kernel_image) (start stop : Z) : Prop :=
  KERNEL_START im ≤ start ≤ stop ∧ start mod PAGING_PAGE_SIZE = 0 ∧
  stop + PAGING_PAGE_SIZE < 2 ^ 64 ∧
  physical_base im + (stop - KERNEL_START im) + PAGING_PAGE_SIZE < 2 ^ 52.

(** The image is above the direct map of the RAM, in the order of the linker script. *)
Record image_ok (im : kernel_image) (off hi : Z) : Prop := {
  io_off : 2 ^ 64 - 2 ^ 47 ≤ off;
  io_off_aligned : off mod PAGING_HUGE_PAGE_SIZE = 0;
  io_hi : 1 ≤ hi < 2 ^ 47;
  io_above : off + Z.of_nat (ram_pages hi) * PAGING_HUGE_PAGE_SIZE ≤ KERNEL_START im;
  io_start : KERNEL_START im mod PAGING_PAGE_SIZE = 0;
  io_phys : page_addr (physical_base im);
  io_requests : seg_ok im (LIMINE_REQUESTS_START im) (LIMINE_REQUESTS_END im);
  io_text : seg_ok im (TEXT_START im) (TEXT_END im);
  io_rodata : seg_ok im (RODATA_START im) (RODATA_END im);
  io_data : seg_ok im (DATA_START im) (DATA_END im);
  io_order1 : LIMINE_REQUESTS_END im ≤ TEXT_START im;
  io_order2 : TEXT_END im ≤ RODATA_START im;
  io_order3 : RODATA_END im ≤ DATA_START im;
}.

(** Frames that are certainly enough: the root, and three tables per page mapped. *)
Definition image_frames (im : kernel_image) (hi : Z) : nat :=
  (1 + 3 * (seg_pages (LIMINE_REQUESTS_START im) (LIMINE_REQUESTS_END im) +
            seg_pages (TEXT_START im) (TEXT_END im) +
            seg_pages (RODATA_START im) (RODATA_END im) +
            seg_pages (DATA_START im) (DATA_END im) + ram_pages hi))%nat.

(** The translation of a segment on top of [V]. *)
Definition seg_view (im : kernel_image) (start stop flags : Z) (V : Z → option translation) :=
  region_view (seg_pages start stop) V start (physical_base im + (start - KERNEL_START im))
    flags false.

Definition kernel_view (im : kernel_image) (off hi : Z) : Z → option translation :=
  region_view (ram_pages hi)
    (seg_view im (DATA_START im) (DATA_END im) FLAGS_DATA
      (seg_view im (RODATA_START im) (RODATA_END im) FLAGS_RODATA
        (seg_view im (TEXT_START im) (TEXT_END im) FLAGS_TEXT
          (seg_view im (LIMINE_REQUESTS_START im) (LIMINE_REQUESTS_END im) FLAGS_REQUESTS
            (λ _, None)))))
    off 0 FLAGS_HHDM true.

Lemma seg_pages_bounds start stop :
  start ≤ stop →
  (Z.of_nat (seg_pages start stop) - 1) * PAGING_PAGE_SIZE < stop - start ≤
    Z.of_nat (seg_pages start stop) * PAGING_PAGE_SIZE.
Proof. intros H. by apply (region_pages_bounds (stop - start) false); lia. Qed.

Lemma ram_pages_bounds hi :
  1 ≤ hi →
  (Z.of_nat (ram_pages hi) - 1) * PAGING_HUGE_PAGE_SIZE < hi - 1 ≤
    Z.of_nat (ram_pages hi) * PAGING_HUGE_PAGE_SIZE.
Proof. intros H. by apply (region_pages_bounds (hi - 1) true); lia. Qed.

(** *** Reading the view *)
Section views.
Context (im : kernel_image) (off hi : Z) (Hio : image_ok im off hi).

Lemma seg_canonical start stop j :
  seg_ok im start stop → 0 ≤ j < Z.of_nat (seg_pages start stop) →
  canonical_addr (start + j * PAGING_PAGE_SIZE).
Proof.
  intros (Hs & _ & Hend & _) Hj. destruct Hio as [Ho _ _ Habove _ _ _ _ _ _ _ _ _].
  pose proof (seg_pages_bounds start stop ltac:(lia)). right.
  unfold PAGING_PAGE_SIZE, PAGING_HUGE_PAGE_SIZE in *. lia.
Qed.

Lemma hhdm_canonical j :
  0 ≤ j < Z.of_nat (ram_pages hi) → canonical_addr (off + j * PAGING_HUGE_PAGE_SIZE).
Proof.
  intros Hj. destruct Hio as [Ho _ _ Habove _ _ (Hs & _ & He & _) _ _ _ _ _ _]. right.
  unfold PAGING_PAGE_SIZE, PAGING_HUGE_PAGE_SIZE in *. lia.
Qed.

(** A segment translates its own pages and nothing else. *)
Lemma seg_view_out start stop flags V v :
  seg_ok im start stop → canonical_addr v →
  v < start ∨ start + Z.of_nat (seg_pages start stop) * PAGING_PAGE_SIZE ≤ v →
  seg_view im start stop flags V v = V v.
Proof.
  intros Hseg Hv Hout. rewrite /seg_view region_view_eq //; [|intros j Hj; by apply (seg_canonical start stop)].
  cbv zeta. apply decide_False. destruct Hseg as (_ & Ha & _).
  rewrite /step_size /PAGING_PAGE_SIZE in Hout, Ha |- *. Z.div_mod_to_equations. lia.
Qed.

Lemma seg_view_in start stop flags V v :
  seg_ok im start stop → canonical_addr v → start ≤ v < stop → pte_addr flags = 0 →
  ∃ e, seg_view im start stop flags V v = Some (Page4K e) ∧
    pte_addr e + v mod PAGING_PAGE_SIZE = physical_base im + (v - KERNEL_START im) ∧
    Z.testbit e 1 = Z.testbit flags 1 ∧ Z.testbit e 63 = Z.testbit flags 63.
Proof.
  intros Hseg Hv Hin Hfl. rewrite /seg_view region_view_eq //; [|intros j Hj; by apply (seg_canonical start stop)].
  pose proof Hseg as (Hs & Ha & He & Hp). pose proof (seg_pages_bounds start stop ltac:(lia)) as Hb.
  cbv zeta. set k := v / step_size false - start / step_size false.
  assert (k * 4096 = v - v mod 4096 - start) as Hk.
  { rewrite /k /step_size /PAGING_PAGE_SIZE in Ha |- *. Z.div_mod_to_equations. lia. }
  rewrite decide_True; [|rewrite /PAGING_PAGE_SIZE in Ha, Hb; Z.div_mod_to_equations; lia].
  pose proof (io_phys _ _ _ Hio) as [Hpb Hpm]. pose proof (io_start _ _ _ Hio) as Hks.
  destruct (map_entry_bits (physical_base im + (start - KERNEL_START im) + k * step_size false)
    flags false) as (Hpte & Hrw & Hnx); [| |done|].
  - split; rewrite /step_size /PAGING_PAGE_SIZE in Ha, Hpm, Hks, Hp |- *; Z.div_mod_to_equations; lia.
  - rewrite /step_size /PAGING_PAGE_SIZE in Ha, Hpm, Hks |- *. Z.div_mod_to_equations. lia.
  - eexists. split; [done|]. split; [|done]. rewrite Hpte /step_size /PAGING_PAGE_SIZE. lia.
Qed.

Lemma hhdm_view_beyond v :
  canonical_addr v →
  v < off ∨ off + Z.of_nat (ram_pages hi) * PAGING_HUGE_PAGE_SIZE ≤ v →
  kernel_view im off hi v =
    seg_view im (DATA_START im) (DATA_END im) FLAGS_DATA
      (seg_view im (RODATA_START im) (RODATA_END im) FLAGS_RODATA
        (seg_view im (TEXT_START im) (TEXT_END im) FLAGS_TEXT
          (seg_view im (LIMINE_REQUESTS_START im) (LIMINE_REQUESTS_END im) FLAGS_REQUESTS
            (λ _, None)))) v.
Proof.
  intros Hv Hout. rewrite /kernel_view region_view_eq //; [|apply hhdm_canonical].
  cbv zeta. apply decide_False. destruct Hio as [_ Ha _ Habove _ _ _ _ _ _ _ _ _].
  rewrite /step_size /PAGING_HUGE_PAGE_SIZE in Ha, Habove, Hout |- *. Z.div_mod_to_equations. lia.
Qed.

Lemma hhdm_view_out v :
  canonical_addr v →
  v < off ∨ KERNEL_START im ≤ v →
  kernel_view im off hi v =
    seg_view im (DATA_START im) (DATA_END im) FLAGS_DATA
      (seg_view im (RODATA_START im) (RODATA_END im) FLAGS_RODATA
        (seg_view im (TEXT_START im) (TEXT_END im) FLAGS_TEXT
          (seg_view im (LIMINE_REQUESTS_START im) (LIMINE_REQUESTS_END im) FLAGS_REQUESTS
            (λ _, None)))) v.
Proof.
  intros Hv Hout. apply hhdm_view_beyond; [done|]. pose proof (io_above _ _ _ Hio). lia.
Qed.

Lemma hhdm_view_in x :
  0 ≤ x < Z.of_nat (ram_pages hi) * PAGING_HUGE_PAGE_SIZE →
  ∃ e, kernel_view im off hi (off + x) = Some (Page2M e) ∧
    pte_addr e + (off + x) mod PAGING_HUGE_PAGE_SIZE = x ∧ Z.testbit e 1 = true.
Proof.
  intros Hx. pose proof Hio as [Ho Ha Hh Habove _ _ (Hs & _ & He & _) _ _ _ _ _ _].
  pose proof (ram_pages_bounds hi ltac:(lia)) as Hb.
  assert (canonical_addr (off + x)) as Hv.
  { right. unfold PAGING_PAGE_SIZE, PAGING_HUGE_PAGE_SIZE in *. lia. }
  rewrite /kernel_view region_view_eq //; [|apply hhdm_canonical].
  cbv zeta. set k := (off + x) / step_size true - off / step_size true.
  assert (k * 0x200000 = x - (off + x) mod 0x200000) as Hk.
  { rewrite /k /step_size /PAGING_HUGE_PAGE_SIZE in Ha |- *. Z.div_mod_to_equations. lia. }
  rewrite decide_True; [|rewrite /PAGING_HUGE_PAGE_SIZE in Ha, Hx; Z.div_mod_to_equations; lia].
  destruct (map_entry_bits (0 + k * step_size true) FLAGS_HHDM true) as (Hpte & Hrw & _); [| |done|].
  - split; rewrite /step_size /PAGING_PAGE_SIZE /PAGING_HUGE_PAGE_SIZE in Ha, Hb, Hx |- *;
      Z.div_mod_to_equations; lia.
  - rewrite Z.add_0_l. apply Z.mod_mul. done.
  - eexists. split; [done|]. split; [|done]. rewrite Hpte /step_size /PAGING_HUGE_PAGE_SIZE. lia.
Qed.

(** The segments of the image, each where the linker put it, none overriding another. *)
Lemma kernel_segment_view start stop writable noexec v :
  (start, stop, writable, noexec) ∈
    [(LIMINE_REQUESTS_START im, LIMINE_REQUESTS_END im, true, true);
     (TEXT_START im, TEXT_END im, false, false);
     (RODATA_START im, RODATA_END im, false, true);
     (DATA_START im, DATA_END im, true, true)] →
  start ≤ v < stop →
  ∃ e, kernel_view im off hi v = Some (Page4K e) ∧
    pte_addr e + v mod PAGING_PAGE_SIZE = physical_base im + (v - KERNEL_START im) ∧
    Z.testbit e 1 = writable ∧ Z.testbit e 63 = noexec.
Proof.
  intros Hin Hv. pose proof Hio as [Ho _ _ Hab _ _ Hreq Htext Hro Hdata O1 O2 O3].
  assert (KERNEL_START im ≤ v ∧ v < 2 ^ 64) as Hk.
  { destruct Hreq as ((? & ?) & _ & ? & _), Htext as ((? & ?) & _ & ? & _),
      Hro as ((? & ?) & _ & ? & _), Hdata as ((? & ?) & _ & ? & _).
    unfold PAGING_PAGE_SIZE in *. rewrite !elem_of_cons in Hin.
    destruct Hin as [E|[E|[E|[E|Hn]]]]; [..|by apply not_elem_of_nil in Hn]; injection E as -> -> _ _; lia. }
  assert (canonical_addr v) as Hc.
  { right. unfold PAGING_HUGE_PAGE_SIZE in *. lia. }
  rewrite hhdm_view_out //; [|right; apply Hk].
  pose proof Hreq as ((Hr1 & Hr2) & _). pose proof Htext as ((Ht1 & Ht2) & _).
  pose proof Hro as ((Ho1 & Ho2) & _). pose proof Hdata as ((Hd1 & Hd2) & _).
  rewrite !elem_of_cons in Hin.
  destruct Hin as [E|[E|[E|[E|Hn]]]]; [..|by apply not_elem_of_nil in Hn]; injection E as -> -> -> ->.
  - rewrite (seg_view_out (DATA_START im)) //; [|left; lia].
    rewrite (seg_view_out (RODATA_START im)) //; [|left; lia].
    rewrite (seg_view_out (TEXT_START im)) //; [|left; lia]. by apply seg_view_in.
  - rewrite (seg_view_out (DATA_START im)) //; [|left; lia].
    rewrite (seg_view_out (RODATA_START im)) //; [|left; lia]. by apply seg_view_in.
  - rewrite (seg_view_out (DATA_START im)) //; [|left; lia]. by apply seg_view_in.
  - by apply seg_view_in.
Qed.

Lemma kernel_lower_half v : 0 ≤ v < 2 ^ 47 → kernel_view im off hi v = None.
Proof.
  intros Hv. pose proof Hio as [Ho _ _ Hab _ _ Hreq Htext Hro Hdata _ _ _].
  assert (canonical_addr v) as Hc by (by left).
  unfold PAGING_HUGE_PAGE_SIZE in *.
  rewrite hhdm_view_out //; [|left; lia].
  pose proof Hreq as ((Hr1 & Hr2) & _). pose proof Htext as ((Ht1 & Ht2) & _).
  pose proof Hro as ((Ho1 & Ho2) & _). pose proof Hdata as ((Hd1 & Hd2) & _).
  rewrite !seg_view_out //; left; lia.
Qed.

(** Nothing is mapped between the direct map and the image. *)
Lemma kernel_gap v :
  off + Z.of_nat (ram_pages hi) * PAGING_HUGE_PAGE_SIZE ≤ v < KERNEL_START im → kernel_view im off hi v = None.
Proof.
  intros Hv. pose proof Hio as [Ho _ _ Hab _ _ Hreq Htext Hro Hdata _ _ _].
  pose proof Hreq as ((Hr1 & Hr2) & _). pose proof Htext as ((Ht1 & Ht2) & _).
  pose proof Hro as ((Ho1 & Ho2) & _). pose proof Hdata as ((Hd1 & Hd2) & _ & Hd3 & _).
  assert (canonical_addr v) as Hc by (right; unfold PAGING_HUGE_PAGE_SIZE, PAGING_PAGE_SIZE in *; lia).
  rewrite hhdm_view_beyond //; [|right; lia]. rewrite !seg_view_out //; left; lia.
Qed.
End views.

(** ** Running [paging_init] *)
Section init.
Context {S : Type} `{FrameAllocSpec S}.
Implicit Types (s : paging_state S) (T : gmap (list Z) Z) (A : gset Z).

(** A zeroed frame is an empty tree. *)
Lemma pt_wf_empty m r : frame r → pt_wf (zero_page r m) r {[ [] := r ]}.
Proof.
  intros Hr. split.
  - apply lookup_singleton_eq.
  - by intros p f [<- <-]%lookup_singleton_Some.
  - by intros p q f [<- <-]%lookup_singleton_Some [<- _]%lookup_singleton_Some.
  - intros p i f [E _]%lookup_singleton_Some. by destruct p.
  - intros p i f [<- <-]%lookup_singleton_Some Hi _. rewrite slot_zero // child_zero.
    by apply lookup_singleton_ne.
  - intros p i f [<- <-]%lookup_singleton_Some Hi _ _. rewrite slot_zero //.
  - intros p i f [<- <-]%lookup_singleton_Some Hi _. by rewrite slot_zero.
Qed.

Lemma view_empty m r v : view (zero_page r m) {[ [] := r ]} v = None.
Proof. by rewrite /view !lookup_singleton_ne. Qed.

(** Tables that a mapping at or above [lo] may need. *)
Definition paths_above (lo : Z) (p : list Z) : Prop :=
  ∃ w, canonical_addr w ∧ lo ≤ w ∧ p `prefix_of` path2m w.

Definition no_huge (V : Z → option translation) : Prop := ∀ v e, V v ≠ Some (Page2M e).

Lemma seg_view_no_huge im start stop flags V : no_huge V → no_huge (seg_view im start stop flags V).
Proof.
  rewrite /seg_view. generalize (seg_pages start stop) as N, (physical_base im + (start - KERNEL_START im)).
  revert start V. intros start V N; revert start V. induction N as [|N IH]; intros start V p HV; [done|].
  cbn [region_view]. apply IH. intros v e. rewrite /upd. by case_decide.
Qed.

Lemma map_segment_wp im off hi root T A n s start stop flags :
  image_ok im off hi → hhdm_offset s = off → seg_ok im start stop →
  pt_ok s root T A n → hhdm_physToVirt off root ≠ 0 → no_huge (view (mem s) T) →
  (3 * seg_pages start stop ≤ n)%nat →
  wp (map_segment im (hhdm_physToVirt off root) start stop flags) (λ _ s',
    ∃ T' A' n', became root (paths_above (KERNEL_START im)) (3 * seg_pages start stop)
      (seg_view im start stop flags (view (mem s) T)) s T A n s' T' A' n') s.
Proof.
  intros Hio Hoff Hseg Hok Hroot Hnh Hn. pose proof Hseg as (Hs & _ & He & Hp).
  pose proof (io_phys _ _ _ Hio) as [Hpb _]. pose proof (io_off _ _ _ Hio) as Ho.
  pose proof (io_above _ _ _ Hio) as Hab.
  pose proof (seg_pages_bounds start stop ltac:(lia)) as Hb.
  unfold PAGING_PAGE_SIZE, PAGING_HUGE_PAGE_SIZE in *.
  rewrite /map_segment !u64_small; [|lia..]. rewrite -Hoff. eapply wp_mono.
  - apply (map_region_wp root T A n s); [done|done| |fold (seg_pages start stop); unfold step_size, PAGING_PAGE_SIZE; lia..].
    intros j Hj. assert (canonical_addr (start + j * step_size false)) as Hc.
    { by eapply (seg_canonical im off hi Hio start stop). }
    split; [|intros e; apply Hnh]. rewrite /valid_target Hoff. split; [done|]. split; [|done].
    unfold step_size, PAGING_PAGE_SIZE. lia.
  - intros [] s' (T' & A' & n' & B). exists T', A', n'.
    eapply became_weaken; [|reflexivity|reflexivity|exact B].
    intros p (j & Hj & Hpre). exists (start + j * step_size false).
    split; [by eapply (seg_canonical im off hi Hio start stop)|]. split; [|done].
    unfold step_size, PAGING_PAGE_SIZE. lia.
Qed.

(** The huge pages of the direct map find no page table in their way. *)
Lemma hhdm_region_ok im off hi root s T :
  image_ok im off hi → hhdm_offset s = off → hhdm_physToVirt off root ≠ 0 →
  (∀ p, is_Some (T !! p) → p = [] ∨ paths_above (KERNEL_START im) p) →
  region_ok s root T true off (ram_pages hi).
Proof.
  intros Hio Hoff Hroot Hpaths j Hj.
  pose proof (hhdm_canonical im off hi Hio j Hj) as Hc.
  pose proof (io_off _ _ _ Hio) as Ho. pose proof (io_above _ _ _ Hio) as Hab.
  change (step_size true) with PAGING_HUGE_PAGE_SIZE. split.
  - rewrite /valid_target Hoff. split; [done|]. split; [|done].
    rewrite /PAGING_HUGE_PAGE_SIZE. lia.
  - rewrite /can_map. destruct (T !! path2m _) eqn:E; [|done]. exfalso.
    destruct (Hpaths _ (mk_is_Some _ _ E)) as [?|(w & Hw & Hlo & Hpre)]; [done|].
    apply prefix_length_eq in Hpre; [|done]. apply path2m_same_page in Hpre; [|done|done].
    revert Hpre Hab Hlo. unfold PAGING_HUGE_PAGE_SIZE. intros.
    Z.div_mod_to_equations. lia.
Qed.

Lemma became_no_huge root P k V s T A n s' T' A' n' :
  became root P k V s T A n s' T' A' n' → no_huge V → no_huge (view (mem s') T').
Proof. intros B HV v e. rewrite (bc_view _ _ _ _ _ _ _ _ _ _ _ _ B). apply HV. Qed.

Lemma seg_view_ext im start stop flags V V' v :
  (∀ v, V v = V' v) → seg_view im start stop flags V v = seg_view im start stop flags V' v.
Proof. apply region_view_ext. Qed.

(** The kernel's four segments, one after the other. *)
Lemma map_segments_wp im off hi root s T A n Q (k : M (paging_state S) unit) :
  image_ok im off hi → hhdm_offset s = off → hhdm_physToVirt off root ≠ 0 →
  pt_ok s root T A n → (∀ v, view (mem s) T v = None) → (image_frames im hi ≤ Datatypes.S n)%nat →
  (∀ s' T' A' n', became root (paths_above (KERNEL_START im)) (image_frames im hi - 1 - 3 * ram_pages hi)
     (seg_view im (DATA_START im) (DATA_END im) FLAGS_DATA
        (seg_view im (RODATA_START im) (RODATA_END im) FLAGS_RODATA
          (seg_view im (TEXT_START im) (TEXT_END im) FLAGS_TEXT
            (seg_view im (LIMINE_REQUESTS_START im) (LIMINE_REQUESTS_END im) FLAGS_REQUESTS
              (λ _, None))))) s T A n s' T' A' n' → wp k Q s') →
  wp (let root := hhdm_physToVirt off root in
      map_segment im root (LIMINE_REQUESTS_START im) (LIMINE_REQUESTS_END im) FLAGS_REQUESTS;;;
      map_segment im root (TEXT_START im) (TEXT_END im) FLAGS_TEXT;;;
      map_segment im root (RODATA_START im) (RODATA_END im) FLAGS_RODATA;;;
      map_segment im root (DATA_START im) (DATA_END im) FLAGS_DATA;;; k) Q s.
Proof.
  intros Hio Hoff Hroot Hok Hnone Hn Hk. cbv zeta. rewrite /image_frames in Hn.
  assert (no_huge (view (mem s) T)) as Hnh0 by (intros v e; by rewrite Hnone).
  assert (no_huge (λ _, None)) as Hnone' by done.
  apply wp_bind. eapply wp_mono.
  { apply (map_segment_wp im off hi root T A n s); [done|done|apply Hio|done|done|done|lia]. }
  intros [] s1 (T1 & A1 & n1 & B1). pose proof (bc_room _ _ _ _ _ _ _ _ _ _ _ _ B1).
  eapply became_weaken in B1; [|intros p Hp; exact Hp|reflexivity|intros v; by apply seg_view_ext].
  pose proof (became_no_huge _ _ _ _ _ _ _ _ _ _ _ _ B1 ltac:(by apply seg_view_no_huge)) as Hnh1.
  apply wp_bind. eapply wp_mono.
  { apply (map_segment_wp im off hi root T1 A1 n1 s1);
      [done|by rewrite (regs_offset _ _ (bc_regs _ _ _ _ _ _ _ _ _ _ _ _ B1))|apply Hio|apply B1|done|done|lia]. }
  intros [] s2 (T2 & A2 & n2 & B2). pose proof (bc_room _ _ _ _ _ _ _ _ _ _ _ _ B2).
  eapply became_weaken in B2; [|intros p Hp; exact Hp|reflexivity|intros v; apply seg_view_ext, B1].
  pose proof (became_trans _ _ _ _ _ _ _ _ _ _ _ _ _ _ _ _ _ _ B1 B2) as B12.
  pose proof (became_no_huge _ _ _ _ _ _ _ _ _ _ _ _ B2 ltac:(by repeat apply seg_view_no_huge)) as Hnh2.
  apply wp_bind. eapply wp_mono.
  { apply (map_segment_wp im off hi root T2 A2 n2 s2);
      [done|by rewrite (regs_offset _ _ (bc_regs _ _ _ _ _ _ _ _ _ _ _ _ B12))|apply Hio|apply B2|done|done|lia]. }
  intros [] s3 (T3 & A3 & n3 & B3). pose proof (bc_room _ _ _ _ _ _ _ _ _ _ _ _ B3).
  eapply became_weaken in B3; [|intros p Hp; exact Hp|reflexivity|intros v; apply seg_view_ext, B12].
  pose proof (became_trans _ _ _ _ _ _ _ _ _ _ _ _ _ _ _ _ _ _ B12 B3) as B13.
  pose proof (became_no_huge _ _ _ _ _ _ _ _ _ _ _ _ B3 ltac:(by repeat apply seg_view_no_huge)) as Hnh3.
  apply wp_bind. eapply wp_mono.
  { apply (map_segment_wp im off hi root T3 A3 n3 s3);
      [done|by rewrite (regs_offset _ _ (bc_regs _ _ _ _ _ _ _ _ _ _ _ _ B13))|apply Hio|apply B3|done|done|lia]. }
  intros [] s4 (T4 & A4 & n4 & B4).
  eapply became_weaken in B4; [|intros p Hp; exact Hp|reflexivity|intros v; apply seg_view_ext, B13].
  pose proof (became_trans _ _ _ _ _ _ _ _ _ _ _ _ _ _ _ _ _ _ B13 B4) as B.
  apply (Hk s4 T4 A4 n4). eapply became_weaken; [..|exact B]; [done|rewrite /image_frames; lia|].
  intros v. do 3 (apply seg_view_ext; intros ?). by apply seg_view_ext.
Qed.

Lemma tlb_ok_empty V : tlb_ok (mkTlb (λ _, None) (λ _, None)) V.
Proof. by split. Qed.

(** The last steps: global pages on, the root loaded. *)
Lemma enable_and_switch_wp root s Q :
  (∀ s', frames s' = frames s → mem s' = mem s → hhdm_offset s' = hhdm_offset s →
     kernel_pml4_phys s' = kernel_pml4_phys s → msr_pat s' = msr_pat s → cr3 s' = root →
     Z.land (cr4 s') CR4_PGE_BIT ≠ 0 →
     (Z.land (cr4 s) CR4_PGE_BIT = 0 → ∀ V, tlb_ok (tlb_of s') V) → Q tt s') →
  wp (c <- gets cr4;;
      (if Z.land c CR4_PGE_BIT =? 0 then write_cr4 (Z.lor c CR4_PGE_BIT) else ret tt);;;
      paging_switch_context root) Q s.
Proof.
  intros HQ. apply wp_bind, wp_gets. destruct (Z.eqb_spec (Z.land (cr4 s) CR4_PGE_BIT) 0) as [E|E].
  - apply wp_bind, wp_modify, wp_modify.
    assert (Z.land (Z.lor (cr4 s) CR4_PGE_BIT) CR4_PGE_BIT = CR4_PGE_BIT) as Hset.
    { by rewrite Z.land_lor_distr_l E Z.land_diag Z.lor_0_l. }
    apply HQ; try done; cbn [cr4 tlb_of with_cr4 with_tlb with_cr3].
    + by rewrite Hset.
    + intros _ V. rewrite E Hset. apply tlb_ok_empty.
  - apply wp_bind, wp_ret, wp_modify. by apply HQ.
Qed.

Lemma root_ptr_nonzero im s A n r :
  image_ok im (hhdm_offset s) (fa_top (frames s)) → owned (frames s) A n → r ∈ A →
  hhdm_physToVirt (hhdm_offset s) r ≠ 0.
Proof.
  intros Hio Ho Hr. destruct (owned_frame _ _ _ _ Ho Hr) as [Hr0 _].
  pose proof (owned_below _ _ _ _ Ho Hr) as Hlt.
  pose proof (io_off _ _ _ Hio). pose proof (io_above _ _ _ Hio) as Hab.
  pose proof (io_hi _ _ _ Hio) as Hhi. pose proof (io_requests _ _ _ Hio) as (Hs & _ & He & _).
  pose proof (ram_pages_bounds (fa_top (frames s)) (proj1 Hhi)).
  unfold PAGING_HUGE_PAGE_SIZE, PAGING_PAGE_SIZE in *.
  rewrite /hhdm_physToVirt u64_small; lia.
Qed.

Lemma paging_init_wp im s A n :
  let off := hhdm_offset s in let hi := fa_top (frames s) in
  owned (frames s) A n → image_ok im off hi → (image_frames im hi ≤ n)%nat →
  wp (paging_init im) (λ _ s', ∃ T A' n',
    pt_ok s' (kernel_pml4_phys s') T A' n' ∧ (n ≤ n' + image_frames im hi)%nat ∧
    A ⊆ A' ∧ kernel_pml4_phys s' ∉ A ∧
    cr3 s' = kernel_pml4_phys s' ∧ hhdm_offset s' = off ∧ fa_top (frames s') = hi ∧
    msr_pat s' = pat_val ∧ Z.land (cr4 s') CR4_PGE_BIT ≠ 0 ∧
    (∀ v, view (mem s') T v = kernel_view im off hi v) ∧
    (Z.land (cr4 s) CR4_PGE_BIT = 0 → tlb_ok (tlb_of s') (kernel_view im off hi)) ∧
    (∀ f, f ∈ A' → f ∈ A ∨ ∃ p, T !! p = Some f)) s.
Proof.
  intros off hi Ho Hio Hn. apply wp_bind, wp_modify, wp_bind, wp_on_frames.
  destruct n as [|n]; [rewrite /image_frames in Hn; lia|].
  eapply wp_mono; [by apply owned_alloc_room|]. intros r fr (Htop & HrA & Hr & Ho').
  apply wp_bind, wp_modify. destruct (Z.eqb_spec r 0) as [->|_]; [by destruct Hr; lia|].
  apply wp_bind, wp_gets, wp_bind, wp_clear_page.
  cbn [hhdm_offset with_root with_frames with_pat mem frames]. fold off.
  rewrite frame_phys //.
  set s1 := with_mem _ _.
  assert (pt_ok s1 r {[ [] := r ]} ({[r]} ∪ A) n) as Hok1.
  { split; [by apply pt_wf_empty|done|]. intros p f [_ <-]%lookup_singleton_Some. set_solver. }
  assert (hhdm_physToVirt off r ≠ 0) as Hroot.
  { eapply (root_ptr_nonzero im s1 _ n); [cbn [hhdm_offset frames s1 with_mem with_root with_frames]; by rewrite Htop|done|set_solver]. }
  apply (map_segments_wp im off hi r s1 {[ [] := r ]} ({[r]} ∪ A) n);
    [done|done|done|done|intros v; apply view_empty|lia|].
  intros s2 T2 A2 n2 B2. pose proof (bc_regs _ _ _ _ _ _ _ _ _ _ _ _ B2) as Hregs.
  injection Hregs as Hoff2 Hroot2 _ Hcr4 Hpat Htop2.
  pose proof (bc_ok _ _ _ _ _ _ _ _ _ _ _ _ B2) as Hok2.
  pose proof (bc_room _ _ _ _ _ _ _ _ _ _ _ _ B2) as Hroom.
  apply wp_bind, wp_on_frames.
  destruct (owned_highest _ _ _ (ok_owned _ _ _ _ _ Hok2)) as [Ehi _].
  eapply wp_eq; [exact Ehi|]. rewrite Htop2 Htop -/hi.
  pose proof (io_hi _ _ _ Hio) as Hhi. rewrite u64_small; [|lia].
  assert (with_frames (frames s2) s2 = s2) as -> by (by destruct s2).
  assert (hhdm_offset s2 = off) as Hoff2' by exact Hoff2.
  apply wp_bind. rewrite -{1}Hoff2'. eapply wp_mono.
  { apply (map_region_wp r T2 A2 n2 s2); [done| |..].
    - rewrite -/(ram_pages hi). rewrite /image_frames in Hn, Hroom. lia.
    - apply (hhdm_region_ok im off hi); [done|done|done|].
      intros p [[x [<- _]%lookup_singleton_Some]|?]%(bc_path _ _ _ _ _ _ _ _ _ _ _ _ B2); [by left|by right].
    - pose proof (io_off _ _ _ Hio). lia.
    - rewrite -/(ram_pages hi). pose proof (io_above _ _ _ Hio) as Hab.
      pose proof (io_requests _ _ _ Hio) as (Hs & _ & He & _).
      unfold step_size, PAGING_PAGE_SIZE, PAGING_HUGE_PAGE_SIZE in *. lia.
    - lia.
    - lia.
    - rewrite -/(ram_pages hi). pose proof (ram_pages_bounds hi ltac:(lia)).
      unfold step_size, PAGING_HUGE_PAGE_SIZE in *. lia. }
  intros [] s3 (T3 & A3 & n3 & B3). pose proof (bc_regs _ _ _ _ _ _ _ _ _ _ _ _ B3) as Hregs3.
  injection Hregs3 as Hoff3 Hroot3 _ Hcr43 Hpat3 Htop3.
  apply enable_and_switch_wp. intros s4 Hf4 Hm4 Ho4 Hr4 Hp4 Hc4 Hpge Htlb.
  exists T3, A3, n3.
  assert (kernel_pml4_phys s4 = r) as Hkr by (by rewrite Hr4 Hroot3 Hroot2). rewrite Hkr.
  assert (∀ v, view (mem s4) T3 v = kernel_view im off hi v) as Hview.
  { intros v. rewrite Hm4 (bc_view _ _ _ _ _ _ _ _ _ _ _ _ B3). apply region_view_ext. apply B2. }
  destruct (bc_ok _ _ _ _ _ _ _ _ _ _ _ _ B3) as [Hwf3 Ho3 HT3].
  split; [split; [by rewrite Hm4|by rewrite Hf4|done]|].
  split.
  { pose proof (bc_room _ _ _ _ _ _ _ _ _ _ _ _ B3) as Hroom3. fold (ram_pages hi) in Hroom3.
    rewrite /image_frames in Hroom |- *. lia. }
  split; [etrans; [|apply B3]; etrans; [|apply B2]; set_solver|]. split; [done|]. split; [done|].
  split; [by rewrite Ho4 Hoff3 Hoff2|]. split; [by rewrite Hf4 Htop3 Htop2|].
  split; [by rewrite Hp4 Hpat3 Hpat|]. split; [done|]. split; [done|].
  split; [intros E; apply Htlb; by rewrite Hcr43 Hcr4|].
  pose proof (became_tables _ _ _ _ _ _ _ _ _ _ _ _ B2) as N2. pose proof (became_tables _ _ _ _ _ _ _ _ _ _ _ _ B3) as N3.
  intros f [[[->%elem_of_singleton|Hf]%elem_of_union|[p Hp]]%(nt_new _ _ _ _ N2)|Hf]%(nt_new _ _ _ _ N3); [|by left| |by right].
  - right. exists []. eapply lookup_weaken; [|apply N3]. eapply lookup_weaken; [|apply N2]. apply lookup_singleton_eq.
  - right. exists p. eapply lookup_weaken; [exact Hp|apply N3].
Qed.
End init.

(** ** Helpers for the theorems *)
Section derived.
Context {S : Type} `{FrameAllocSpec S}.
Implicit Types (s : paging_state S) (T : gmap (list Z) Z) (A : gset Z).

Lemma ok_walk s root T A n v :
  pt_ok s root T A n → mmu_walk (mem s) root v = view (mem s) T v.
Proof. intros Hok. apply walk_view, Hok. Qed.

Lemma upd_ext V V' huge v t w : V w = V' w → upd V huge v t w = upd V' huge v t w.
Proof. rewrite /upd. by case_decide. Qed.

(** [became] in the words of the MMU. *)
Lemma became_walk root P k s T A n s' T' A' n' huge v t :
  pt_ok s root T A n →
  became root P k (upd (view (mem s) T) huge v t) s T A n s' T' A' n' →
  (∀ w, mmu_walk (mem s') root w = upd (mmu_walk (mem s) root) huge v t w) ∧
  (tlb_ok (tlb_of s) (mmu_walk (mem s) root) → tlb_ok (tlb_of s') (mmu_walk (mem s') root)).
Proof.
  intros Hok B. assert (∀ w, mmu_walk (mem s') root w = upd (view (mem s) T) huge v t w) as Hw.
  { intros w. rewrite (ok_walk s' root T' A' n'); [apply B|apply B]. }
  split.
  - intros w. rewrite Hw. apply upd_ext. by rewrite (ok_walk s root T A n).
  - intros Ht. eapply tlb_ok_ext; [intros w; symmetry; apply Hw|]. apply B.
    eapply tlb_ok_ext; [|exact Ht]. intros w. by apply (ok_walk s root T A n).
Qed.

Lemma can_map_walk s root T A n huge v :
  pt_ok s root T A n → can_map T (mmu_walk (mem s) root) huge v → can_map T (view (mem s) T) huge v.
Proof.
  intros Hok. destruct huge; [done|]. intros Hc e. rewrite -(ok_walk s root T A n) //.
Qed.

Lemma same_leaf_refl huge v : same_leaf huge v v.
Proof. by destruct huge. Qed.

Lemma upd_eq V huge v t : upd V huge v t v = t.
Proof. rewrite /upd decide_True //. apply same_leaf_refl. Qed.
End derived.
