(* ===== verification/PagingThms.v ===== *)
(** * Page tables: theorems

    The properties of the paging code, stated with the MMU's own walk over the memory
    the code has written, and concrete runs over the physical memory manager. *)

From stdpp Require Import base gmap list numbers functions.
From S2P Require Import Prelude Spinlock Hhdm Pmm PmmOps PmmInit PmmSpec FrameAlloc Paging PagingSpec PagingInit.

(** ** A small machine *)

(** Paging over the demonstration machine of PmmSpec.v. *)
Definition demo_image : kernel_image :=
  mkImage 0xffffffff80000000 0xffffffff80004000
    0xffffffff80000000 0xffffffff80000100 0xffffffff80001000 0xffffffff80001800
    0xffffffff80002000 0xffffffff80002010 0xffffffff80003000 0xffffffff80004000 0x1000000.
Definition demo_paging : paging_state pmm_state :=
  mkPaging demo_state (λ a, a) demo_offset 0 0 0 0 (mkTlb (λ _, None) (λ _, None)).

Lemma demo_owned : owned demo_state ∅ 20.
Proof.
  destruct demo_rep as (es' & Hc & _ & Hrep).
  assert (es' = [mkEntry 1344 (40 * 4096 - 1344) LIMINE_MEMMAP_USABLE;
                 mkEntry (40 * 4096) 4096 MEMMAP_OTHER;
                 mkEntry (41 * 4096) 4096 LIMINE_MEMMAP_ACPI_NVS]) as Ees.
  { assert (Some (0, es') = Some (0, [mkEntry 1344 (40 * 4096 - 1344) LIMINE_MEMMAP_USABLE;
                 mkEntry (40 * 4096) 4096 MEMMAP_OTHER;
                 mkEntry (41 * 4096) 4096 LIMINE_MEMMAP_ACPI_NVS])) as E
      by (rewrite -Hc; vm_compute; exact eq_refl).
    by injection E. }
  split; [split; vm_compute; [discriminate|exact eq_refl]|].
  split; [split; [vm_compute; discriminate|vm_compute; exact eq_refl]|].
  exists (usable_page es'), ∅, (list_to_set (Z.of_nat <$> seq 1 20)).
  split; [exact Hrep|]. split; [intros f Hf; by apply not_elem_of_empty in Hf|].
  split; [vm_compute; lia|].
  intros p Hp. apply elem_of_list_to_set, list_elem_of_fmap in Hp as (i & -> & Hi%elem_of_seq).
  subst es'. eexists. split; [by left|]. split; [exact eq_refl|].
  rewrite /entry_page /PMM_PAGE_SIZE /=. lia.
Qed.

Lemma demo_image_ok : image_ok demo_image demo_offset 172032.
Proof.
  split; try (vm_compute; done); repeat split; vm_compute; done.
Qed.

(** The address space [paging_init] builds on the demonstration machine. *)
Lemma demo_kernel_from (s0 : paging_state pmm_state) :
  owned (frames s0) ∅ 20 → hhdm_offset s0 = demo_offset → fa_top (frames s0) = 172032 →
  ∃ s T A n, paging_init demo_image s0 = Ok (tt, s) ∧
    pt_ok s (kernel_pml4_phys s) T A n ∧ (3 ≤ n)%nat ∧ hhdm_offset s = demo_offset ∧
    fa_top (frames s) = 172032 ∧
    ∀ v, mmu_walk (mem s) (kernel_pml4_phys s) v = kernel_view demo_image demo_offset 172032 v.
Proof.
  intros Ho Hoff0 Htop0. pose proof (paging_init_wp demo_image s0 ∅ 20 Ho) as Hwp.
  rewrite Htop0 Hoff0 in Hwp.
  assert (image_frames demo_image 172032 = 16%nat) as Hfr by (vm_compute; exact eq_refl).
  rewrite Hfr in Hwp. specialize (Hwp demo_image_ok ltac:(lia)).
  apply wp_run in Hwp as ([] & s & E & T & A & n & Hok & Hn & _ & _ & _ & Hoff & Htop & _ & _ & Hview & _).
  exists s, T, A, n. split; [done|]. split; [done|]. split; [lia|].
  split; [done|]. split; [done|]. intros v. rewrite (ok_walk s _ T A n v Hok). apply Hview.
Qed.

Lemma demo_kernel :
  ∃ s T A n, paging_init demo_image demo_paging = Ok (tt, s) ∧
    pt_ok s (kernel_pml4_phys s) T A n ∧ (3 ≤ n)%nat ∧ hhdm_offset s = demo_offset ∧
    fa_top (frames s) = 172032 ∧
    ∀ v, mmu_walk (mem s) (kernel_pml4_phys s) v = kernel_view demo_image demo_offset 172032 v.
Proof.
  apply demo_kernel_from; [exact demo_owned|exact eq_refl|vm_compute; exact eq_refl].
Qed.

(** Any address of the lower half or the kernel half but 0 is a valid target there. *)
Lemma demo_target (s : paging_state pmm_state) T A n v :
  pt_ok s (kernel_pml4_phys s) T A n → hhdm_offset s = demo_offset → fa_top (frames s) = 172032 →
  v ≠ 0 → canonical_addr v → valid_target s (kernel_pml4_phys s) v.
Proof.
  intros Hok Hoff Htop Hv Hc. split; [|done].
  eapply (root_ptr_nonzero demo_image s A n); [|apply Hok|].
  - rewrite Hoff Htop. exact demo_image_ok.
  - eapply ok_tables; [exact Hok|]. eapply wf_root, ok_wf, Hok.
Qed.

(** An address above the image, in the same page table, is not mapped. *)
Lemma demo_above_image : kernel_view demo_image demo_offset 172032 0xffffffff80010000 = None.
Proof. vm_compute. reflexivity. Qed.

Section claims.
Context {S : Type} `{FrameAllocSpec S}.
Implicit Types (s : paging_state S) (T : gmap (list Z) Z) (A : gset Z).

(** C20: mapping a page: with a well-formed tree and three free frames,
    [paging_map_page] returns; afterwards the MMU translates exactly the addresses of the
    page of [v] to the frame with the given flags and every other address as before, the
    tree is well formed, cached translations that agreed with the tables still do, and no
    memory outside the tables has changed. *)
Theorem paging_map_page_correct root T A n s v phys flags huge :
  pt_ok s root T A n → valid_target s root v →
  can_map T (mmu_walk (mem s) root) huge v → (3 ≤ n)%nat →
  ∃ s' T' A' n',
    paging_map_page (hhdm_physToVirt (hhdm_offset s) root) v phys flags huge s = Ok (tt, s') ∧
    pt_ok s' root T' A' n' ∧ A ⊆ A' ∧ (n ≤ n' + 3)%nat ∧ regs s' = regs s ∧
    (∀ w, mmu_walk (mem s') root w =
          upd (mmu_walk (mem s) root) huge v (Some (page_of huge (map_entry phys flags huge))) w) ∧
    (tlb_ok (tlb_of s) (mmu_walk (mem s) root) → tlb_ok (tlb_of s') (mmu_walk (mem s') root)) ∧
    (∀ x, outside T' x → mem s' x = mem s x).
Proof.
  intros Hok Hv Hcan Hn. apply (can_map_walk s root T A n huge v Hok) in Hcan.
  pose proof (map_page_wp root T A n s v phys flags huge Hok Hv Hcan Hn)
    as ([] & s' & E & T' & A' & n' & B)%wp_run.
  destruct (became_walk _ _ _ _ _ _ _ _ _ _ _ _ _ _ Hok B) as [Hw Ht].
  exists s', T', A', n'. split; [done|]. split; [apply B|]. split; [apply B|].
  split; [apply B|]. split; [apply B|]. split; [done|]. split; [done|apply B].
Qed.

(** Mapping a region: [paging_map_region] terminates and maps the [k]-th page of the
    region to the [k]-th frame, for every page that the region touches, and changes no
    other translation. *)
Lemma paging_map_region_correct root T A n s v phys size flags huge :
  pt_ok s root T A n → (3 * region_pages size huge ≤ n)%nat →
  region_ok s root T huge v (region_pages size huge) →
  0 ≤ v → v + Z.of_nat (region_pages size huge) * step_size huge < 2 ^ 64 → 0 ≤ size →
  0 ≤ phys → phys + Z.of_nat (region_pages size huge) * step_size huge < 2 ^ 64 →
  ∃ s' T' A' n',
    paging_map_region (hhdm_physToVirt (hhdm_offset s) root) v phys size flags huge s = Ok (tt, s') ∧
    pt_ok s' root T' A' n' ∧ (n ≤ n' + 3 * region_pages size huge)%nat ∧ new_tables T A T' A' ∧ regs s' = regs s ∧
    (∀ w, canonical_addr w → mmu_walk (mem s') root w =
       let k := w / step_size huge - v / step_size huge in
       if decide (0 ≤ k < Z.of_nat (region_pages size huge))
       then Some (page_of huge (map_entry (phys + k * step_size huge) flags huge))
       else mmu_walk (mem s) root w).
Proof.
  intros Hok Hn Hreg Hv0 Hv Hs Hp0 Hp.
  pose proof (map_region_wp root T A n s v phys size flags huge Hok Hn Hreg Hv0 Hv Hs Hp0 Hp)
    as ([] & s' & E & T' & A' & n' & B)%wp_run.
  exists s', T', A', n'. split; [done|]. do 2 (split; [apply B|]). split; [by eapply became_tables|]. split; [apply B|].
  intros w Hw. rewrite (ok_walk s' root T' A' n'); [|apply B].
  rewrite (bc_view _ _ _ _ _ _ _ _ _ _ _ _ B) region_view_eq //.
  - cbv zeta. case_decide; [done|]. symmetry. by apply (ok_walk s root T A n).
  - intros j Hj. apply (Hreg j Hj).
Qed.


(** Changing the flags of a mapped small page keeps its frame, replaces its flags and
    touches no other page. *)
Lemma paging_change_flags_correct root T A n s v flags e :
  pt_ok s root T A n → valid_target s root v → mmu_walk (mem s) root v = Some (Page4K e) →
  ∃ s',
    paging_change_page_flags (hhdm_physToVirt (hhdm_offset s) root) v flags false s = Ok (tt, s') ∧
    pt_ok s' root T A n ∧ regs s' = regs s ∧
    (∀ w, mmu_walk (mem s') root w = upd (mmu_walk (mem s) root) false v
       (Some (Page4K (Z.lor (Z.lor (pte_addr e) PTE_FLAG_PRESENT) flags))) w).
Proof.
  intros Hok Hv He. rewrite (ok_walk s root T A n v Hok) /view in He.
  destruct (T !! path2m v) as [g|] eqn:Hg.
  2:{ destruct (T !! path3 v); [|done]. rewrite /leaf2m in He. by destruct (_ && _). }
  rewrite /leaf4k in He. destruct (present _); [|done]. injection He as <-.
  pose proof (change_flags_wp root T A n s v flags g Hok Hv Hg)
    as ([] & s' & E & Hok' & Hregs & Hview & _)%wp_run.
  exists s'. do 3 (split; [done|]). intros w.
  rewrite (ok_walk s' root T A n w Hok') Hview. apply upd_ext.
  by rewrite (ok_walk s root T A n).
Qed.

(** [paging_change_page_flags] does not check that the page is mapped: when the page
    table exists but the page is not mapped, the call maps it, to physical address 0. *)
Lemma paging_change_flags_unmapped root T A n s v flags :
  pt_ok s root T A n → valid_target s root v → is_Some (T !! path2m v) →
  mmu_walk (mem s) root v = None →
  ∃ s',
    paging_change_page_flags (hhdm_physToVirt (hhdm_offset s) root) v flags false s = Ok (tt, s') ∧
    mmu_walk (mem s') root v = Some (Page4K (Z.lor PTE_FLAG_PRESENT flags)).
Proof.
  intros Hok Hv [g Hg] Hnone. rewrite (ok_walk s root T A n v Hok) in Hnone.
  destruct (leaf_slot (mem s) root T v false g (ok_wf _ _ _ _ _ Hok) Hg) as [_ Hzero].
  { intros e. by rewrite Hnone. }
  pose proof (change_flags_wp root T A n s v flags g Hok Hv Hg)
    as ([] & s' & E & Hok' & _ & Hview & _)%wp_run.
  exists s'. split; [done|]. rewrite (ok_walk s' root T A n v Hok') Hview upd_eq.
  pose proof (Hzero Hnone) as Hz. cbn [leaf_index] in Hz. by rewrite Hz.
Qed.

Lemma next_table_present root T A n s p f i allocate :
  pt_ok s root T A n → T !! p = Some f → index i → present (slot (mem s) f i) = true →
  next_table (hhdm_physToVirt (hhdm_offset s) f) i allocate s =
    Ok (Some (hhdm_physToVirt (hhdm_offset s) (pte_addr (slot (mem s) f i))), s).
Proof.
  intros Hok Hp Hi Hpr. assert (frame f) as Hf by (eapply wf_frame; [apply Hok|done]).
  rewrite /next_table /bind /load /gets ptr_phys // -/(slot (mem s) f i) Hpr /=.
  by rewrite /ret ptr_phys.
Qed.

(** A huge page at [v]: its entry is in a page directory of the tree. *)
Lemma huge_slot root T A n s v e :
  pt_ok s root T A n → mmu_walk (mem s) root v = Some (Page2M e) →
  ∃ g4 g3, T !! [PAGING_GET_PML4INDEX v] = Some g4 ∧ T !! path3 v = Some g3 ∧
    slot (mem s) g3 (PAGING_GET_PDINDEX v) = e ∧ present e = true.
Proof.
  intros Hok Hw. rewrite (ok_walk s root T A n v Hok) /view in Hw.
  destruct (T !! path2m v); [rewrite /leaf4k in Hw; by destruct (present _)|].
  destruct (T !! path3 v) as [g3|] eqn:E3; [|done].
  destruct (wf_parent _ _ _ (ok_wf _ _ _ _ _ Hok) [PAGING_GET_PML4INDEX v] _ g3 E3) as [[g4 E4] _].
  exists g4, g3. rewrite /leaf2m in Hw.
  destruct (present (slot (mem s) g3 _)) eqn:Ep; [|done].
  destruct (page_size _); [|done]. injection Hw as <-. done.
Qed.

Lemma present_child root T A n s p f i g :
  pt_ok s root T A n → T !! p = Some f → index i → (length p < 3)%nat →
  T !! (p ++ [i]) = Some g → present (slot (mem s) f i) = true ∧ pte_addr (slot (mem s) f i) = g.
Proof.
  intros Hok Hp Hi Hl Hg. rewrite (wf_child _ _ _ (ok_wf _ _ _ _ _ Hok) p i f) // /child in Hg.
  destruct (present _); [|done]. destruct (page_size _); [done|]. by injection Hg as <-.
Qed.

(** [vmm_get_pte] does not look at the page-size bit: asked for the 4 KB entry of an
    address that lies in a 2 MB page, it returns a pointer into the mapped memory itself,
    as if it were a page table (so a small mapping inside a huge one overwrites data). *)
Lemma vmm_get_pte_ignores_huge root T A n s v e allocate :
  pt_ok s root T A n → mmu_walk (mem s) root v = Some (Page2M e) →
  vmm_get_pte (hhdm_physToVirt (hhdm_offset s) root) v allocate false s =
    Ok (Some (entry_ptr (hhdm_physToVirt (hhdm_offset s) (pte_addr e)) (PAGING_GET_PTINDEX v)), s).
Proof.
  intros Hok Hw. destruct (huge_slot root T A n s v e Hok Hw) as (g4 & g3 & E4 & E3 & Es & Ep).
  rewrite /vmm_get_pte. destruct (page_base_indices v) as (-> & -> & -> & ->).
  destruct (present_child root T A n s [] root _ g4 Hok (wf_root _ _ _ (ok_wf _ _ _ _ _ Hok))
    (index_land _) ltac:(simpl; lia) E4) as [P4 A4].
  destruct (present_child root T A n s _ g4 _ g3 Hok E4 (index_land _) ltac:(simpl; lia) E3) as [P3 A3].
  rewrite /bind (next_table_present root T A n s [] root); [|done|apply Hok|apply index_land|done].
  rewrite A4 (next_table_present root T A n s _ g4 _ _ Hok E4 (index_land _) P3) A3.
  by rewrite (next_table_present root T A n s _ g3 _ _ Hok E3 (index_land _)) Es.
Qed.

(** Running out of frames: whatever the number of free frames, [paging_map_page] on a
    valid target either maps or halts the machine, and it halts only when fewer than three
    frames are free; for a NULL root or address 0 it halts. *)
Lemma paging_map_page_outcome root T A n s v phys flags huge :
  pt_ok s root T A n → can_map T (mmu_walk (mem s) root) huge v → canonical_addr v →
  let run := paging_map_page (hhdm_physToVirt (hhdm_offset s) root) v phys flags huge s in
  (∃ s', run = Ok (tt, s')) ∨
  (run = Err Halt ∧ ((n < 3)%nat ∨ v = 0 ∨ hhdm_physToVirt (hhdm_offset s) root = 0)).
Proof.
  intros Hok Hcan Hc run. apply (can_map_walk s root T A n huge v Hok) in Hcan.
  rewrite /run /paging_map_page.
  destruct (Z.eqb_spec (hhdm_physToVirt (hhdm_offset s) root) 0); [right; simpl; auto|].
  destruct (Z.eqb_spec v 0); [right; simpl; auto|]. cbn [orb].
  pose proof (get_pte_alloc root T A n s v huge Hok ltac:(by intros ->))
    as (r & s1 & E & T1 & A1 & n' & _ & Hr)%wp_run.
  rewrite /bind E. destruct r as [a|]; [left; by eexists|right; auto].
Qed.

(** C14: the kernel address space: on an image laid out as the linker script does, with
    enough free frames, [paging_init] returns with a well-formed tree loaded in CR3 in
    which every byte of RAM (but the last) is reachable, writable, at its direct-map
    address; every byte of every segment translates to its place in the loaded
    executable; no page of the image is both writable and executable (text is read-only,
    everything else no-execute); and the whole lower half is unmapped. *)
Theorem paging_init_correct im s A n :
  owned (frames s) A n → image_ok im (hhdm_offset s) (fa_top (frames s)) →
  (image_frames im (fa_top (frames s)) ≤ n)%nat →
  ∃ s' T A' n', paging_init im s = Ok (tt, s') ∧
    let root := kernel_pml4_phys s' in
    pt_ok s' root T A' n' ∧ A ⊆ A' ∧ cr3 s' = root ∧ msr_pat s' = pat_val ∧
    Z.land (cr4 s') CR4_PGE_BIT ≠ 0 ∧
    (∀ x, 0 ≤ x < fa_top (frames s) - 1 → ∃ e,
       mmu_walk (mem s') root (hhdm_offset s + x) = Some (Page2M e) ∧
       pte_addr e + (hhdm_offset s + x) mod PAGING_HUGE_PAGE_SIZE = x ∧ Z.testbit e 1 = true) ∧
    (∀ start stop writable noexec v,
       (start, stop, writable, noexec) ∈
         [(LIMINE_REQUESTS_START im, LIMINE_REQUESTS_END im, true, true);
          (TEXT_START im, TEXT_END im, false, false);
          (RODATA_START im, RODATA_END im, false, true);
          (DATA_START im, DATA_END im, true, true)] →
       start ≤ v < stop → ∃ e,
       mmu_walk (mem s') root v = Some (Page4K e) ∧
       pte_addr e + v mod PAGING_PAGE_SIZE = physical_base im + (v - KERNEL_START im) ∧
       Z.testbit e 1 = writable ∧ Z.testbit e 63 = noexec) ∧
    (∀ v, 0 ≤ v < 2 ^ 47 → mmu_walk (mem s') root v = None).
Proof.
  intros Ho Hio Hn.
  pose proof (paging_init_wp im s A n Ho Hio Hn)
    as ([] & s' & E & T & A' & n' & Hok & _ & HA & _ & Hcr3 & _ & _ & Hpat & Hpge & Hview & _)%wp_run.
  exists s', T, A', n'. split; [done|]. cbv zeta.
  assert (∀ v, mmu_walk (mem s') (kernel_pml4_phys s') v =
    kernel_view im (hhdm_offset s) (fa_top (frames s)) v) as Hw.
  { intros v. by rewrite (ok_walk s' _ T A' n' v Hok). }
  do 5 (split; [done|]). split; [|split].
  - intros x Hx. rewrite Hw. apply (hhdm_view_in im _ _ Hio).
    pose proof (io_hi _ _ _ Hio) as Hhi. pose proof (ram_pages_bounds _ (proj1 Hhi)). lia.
  - intros start stop writable noexec v Hseg Hv. rewrite Hw.
    by eapply (kernel_segment_view im _ _ Hio).
  - intros v Hv. rewrite Hw. by apply (kernel_lower_half im _ _ Hio).
Qed.
End claims.

(** *** Cache types *)

(** The PAT entry a small leaf entry selects, and the memory type it holds. *)
Definition pat_index (e : Z) : Z :=
  Z.b2z (Z.testbit e 3) + 2 * Z.b2z (Z.testbit e 4) + 4 * Z.b2z (Z.testbit e 7).
Definition pat_type (pat i : Z) : Z := Z.land (Z.shiftr pat (8 * i)) 7.

(** With the PAT that [paging_init] programs, the cache flags of paging.h select the
    memory type they are named after, for every page mapped with them. *)
Lemma pat_selects_cache_type p flags c t :
  page_addr p → Z.testbit flags 3 = false → Z.testbit flags 4 = false →
  Z.testbit flags 7 = false →
  (c, t) ∈ [(PTE_CACHE_WB, PAT_TYPE_WB); (PTE_CACHE_WC, PAT_TYPE_WC); (PTE_CACHE_UC, PAT_TYPE_UC)] →
  pat_type pat_val (pat_index (map_entry p (Z.lor flags c) false)) = t.
Proof.
  intros Hp H3 H4 H7 Hc. rewrite /pat_index /map_entry page_align_mult; [|apply Hp].
  rewrite !Z.lor_spec !(page_addr_bit p) ?H3 ?H4 ?H7 //; [|lia..].
  rewrite !elem_of_cons in Hc.
  destruct Hc as [E|[E|[E|Hn]]]; [..|by apply not_elem_of_nil in Hn]; injection E as -> ->; done.
Qed.

(** ** Witnesses *)

Lemma pat_selects_cache_type_witness :
  pat_type pat_val (pat_index (map_entry 0xfee00000 (Z.lor PTE_FLAG_RW PTE_CACHE_UC) false))
    = PAT_TYPE_UC.
Proof.
  apply pat_selects_cache_type; [split; [lia|exact eq_refl]|exact eq_refl|exact eq_refl|exact eq_refl|].
  by apply elem_of_cons; right; apply elem_of_cons; right; left.
Defined.

Lemma vmm_get_pte_ignores_huge_witness :
  ∃ (s : paging_state pmm_state) e, paging_init demo_image demo_paging = Ok (tt, s) ∧
    vmm_get_pte (hhdm_physToVirt (hhdm_offset s) (kernel_pml4_phys s)) (demo_offset + 0x2000)
      true false s =
    Ok (Some (entry_ptr (hhdm_physToVirt (hhdm_offset s) (pte_addr e)) 2), s).
Proof.
  destruct demo_kernel as (s & T & A & n & E & Hok & Hn & Hoff & Htop & Hw).
  destruct (hhdm_view_in demo_image _ _ demo_image_ok 0x2000) as (e & He & _); [vm_compute; split; [discriminate|reflexivity]|].
  exists s, e. split; [exact E|].
  apply (vmm_get_pte_ignores_huge (kernel_pml4_phys s) T A n s (demo_offset + 0x2000) e true Hok).
  rewrite Hw. exact He.
Defined.

Lemma paging_map_page_outcome_witness :
  ∃ s : paging_state pmm_state, paging_init demo_image demo_paging = Ok (tt, s) ∧
    ((∃ s', paging_map_page (hhdm_physToVirt (hhdm_offset s) (kernel_pml4_phys s)) 0 0 0 false s = Ok (tt, s')) ∨
     paging_map_page (hhdm_physToVirt (hhdm_offset s) (kernel_pml4_phys s)) 0 0 0 false s = Err Halt).
Proof.
  destruct demo_kernel as (s & T & A & n & E & Hok & Hn & Hoff & Htop & Hw).
  exists s. split; [exact E|].
  destruct (paging_map_page_outcome (kernel_pml4_phys s) T A n s 0 0 0 false Hok) as [H|[H _]].
  - intros e. rewrite Hw (kernel_lower_half _ _ _ demo_image_ok); [discriminate|lia].
  - left. lia.
  - left. exact H.
  - right. exact H.
Defined.

Lemma paging_map_page_correct_witness :
  ∃ (s s' : paging_state pmm_state) root e, paging_init demo_image demo_paging = Ok (tt, s) ∧
    paging_map_page (hhdm_physToVirt (hhdm_offset s) root) 0x400123 0x5000 PTE_FLAG_RW false s
      = Ok (tt, s') ∧
    mmu_walk (mem s') root 0x400123 = Some (Page4K e).
Proof.
  destruct demo_kernel as (s & T & A & n & E & Hok & Hn & Hoff & Htop & Hw).
  destruct (paging_map_page_correct (kernel_pml4_phys s) T A n s 0x400123 0x5000 PTE_FLAG_RW false Hok)
    as (s' & T' & A' & n' & E' & _ & _ & _ & _ & Hwalk & _).
  - apply (demo_target s T A n); [exact Hok|exact Hoff|exact Htop|lia|left; lia].
  - intros e. rewrite Hw (kernel_lower_half _ _ _ demo_image_ok); [discriminate|lia].
  - exact Hn.
  - exists s, s', (kernel_pml4_phys s), (map_entry 0x5000 PTE_FLAG_RW false).
    split; [exact E|]. split; [exact E'|]. rewrite Hwalk. apply upd_eq.
Defined.

Lemma paging_map_region_correct_witness :
  ∃ (s s' : paging_state pmm_state), paging_init demo_image demo_paging = Ok (tt, s) ∧
    paging_map_region (hhdm_physToVirt (hhdm_offset s) (kernel_pml4_phys s)) 0x400000 0x5000 100
      PTE_FLAG_RW false s = Ok (tt, s').
Proof.
  destruct demo_kernel as (s & T & A & n & E & Hok & Hn & Hoff & Htop & Hw).
  destruct (paging_map_region_correct (kernel_pml4_phys s) T A n s 0x400000 0x5000 100 PTE_FLAG_RW false Hok)
    as (s' & T' & A' & n' & E' & _).
  - exact Hn.
  - intros j Hj. change (Z.of_nat (region_pages 100 false)) with 1 in Hj. assert (j = 0) as -> by lia.
    split.
    + apply (demo_target s T A n); [exact Hok|exact Hoff|exact Htop|lia|left; lia].
    + intros e. rewrite -(ok_walk s _ T A n _ Hok) Hw (kernel_lower_half _ _ _ demo_image_ok);
        [discriminate|lia].
  - lia.
  - vm_compute. exact eq_refl.
  - lia.
  - lia.
  - vm_compute. exact eq_refl.
  - exact (ex_intro _ s (ex_intro _ s' (conj E E'))).
Defined.


Lemma paging_change_flags_correct_witness :
  ∃ (s s' : paging_state pmm_state), paging_init demo_image demo_paging = Ok (tt, s) ∧
    paging_change_page_flags (hhdm_physToVirt (hhdm_offset s) (kernel_pml4_phys s))
      0xffffffff80001000 PTE_FLAG_RW false s = Ok (tt, s').
Proof.
  destruct demo_kernel as (s & T & A & n & E & Hok & Hn & Hoff & Htop & Hw).
  destruct (kernel_segment_view demo_image _ _ demo_image_ok (TEXT_START demo_image)
    (TEXT_END demo_image) false false 0xffffffff80001000) as (e0 & He0 & _);
    [by apply elem_of_cons; right; left|simpl; lia|].
  destruct (paging_change_flags_correct (kernel_pml4_phys s) T A n s 0xffffffff80001000 PTE_FLAG_RW e0 Hok)
    as (s' & E' & _).
  - apply (demo_target s T A n); [exact Hok|exact Hoff|exact Htop|lia|right; lia].
  - rewrite Hw. exact He0.
  - exact (ex_intro _ s (ex_intro _ s' (conj E E'))).
Defined.

Lemma paging_change_flags_unmapped_witness :
  ∃ (s s' : paging_state pmm_state), paging_init demo_image demo_paging = Ok (tt, s) ∧
    mmu_walk (mem s) (kernel_pml4_phys s) 0xffffffff80010000 = None ∧
    mmu_walk (mem s') (kernel_pml4_phys s) 0xffffffff80010000 = Some (Page4K 3).
Proof.
  destruct demo_kernel as (s & T & A & n & E & Hok & Hn & Hoff & Htop & Hw).
  assert (mmu_walk (mem s) (kernel_pml4_phys s) 0xffffffff80010000 = None) as Hnone.
  { rewrite Hw. exact demo_above_image. }
  destruct (paging_change_flags_unmapped (kernel_pml4_phys s) T A n s 0xffffffff80010000 PTE_FLAG_RW Hok)
    as (s' & E' & Hwalk).
  - apply (demo_target s T A n); [exact Hok|exact Hoff|exact Htop|lia|right; lia].
  - destruct (kernel_segment_view demo_image _ _ demo_image_ok (TEXT_START demo_image)
      (TEXT_END demo_image) false false 0xffffffff80001000) as (e0 & He0 & _);
      [by apply elem_of_cons; right; left|simpl; lia|].
    rewrite -Hw (ok_walk s _ T A n _ Hok) /view in He0.
    change (path2m 0xffffffff80001000) with (path2m 0xffffffff80010000) in He0.
    destruct (T !! path2m 0xffffffff80010000) as [g|]; [by exists g|].
    destruct (T !! path3 0xffffffff80001000); [|discriminate].
    rewrite /leaf2m in He0. by destruct (_ && _).
  - exact Hnone.
  - exact (ex_intro _ s (ex_intro _ s' (conj E (conj Hnone Hwalk)))).
Defined.

Lemma paging_init_correct_witness :
  ∃ s' : paging_state pmm_state, paging_init demo_image demo_paging = Ok (tt, s') ∧
    ∀ v, 0 ≤ v < 2 ^ 47 → mmu_walk (mem s') (kernel_pml4_phys s') v = None.
Proof.
  destruct (paging_init_correct demo_image demo_paging ∅ 20 demo_owned)
    as (s' & T & A' & n' & E & _ & _ & _ & _ & _ & _ & _ & Hlow).
  - assert (fa_top (frames demo_paging) = 172032) as -> by (vm_compute; exact eq_refl).
    exact demo_image_ok.
  - assert (fa_top (frames demo_paging) = 172032) as -> by (vm_compute; exact eq_refl).
    vm_compute. lia.
  - exact (ex_intro _ s' (conj E Hlow)).
Defined.
