(* ===== verification/Sched.v ===== *)
(** * Threads: model (scheduling/scheduler.c, task.c, lock.c, devices/timer.c)

    Tasks and threads as structs in a heap, linked in circular lists; the round-robin
    scheduler, creation, sleeping, exit and reaping of threads, the sleeping mutex, and
    the timer interrupt. Pointers are addresses, 0 is NULL. What [kmalloc], [vmm_alloc]
    and [rdtsc] return is an argument of the operations that call them. Properties are in
    SchedSpec.v. *)

From stdpp Require Import base gmap list numbers.
From S2P Require Import Prelude Spinlock.

Definition TASK_NAME_MAX_LENGTH : Z := 32.
Definition THREAD_INITIAL_TICKS : Z := 4.
Definition THREAD_INITIAL_STACK_SIZE : Z := 4 * 4096.

Inductive thread_state :=
  | THREAD_READY | THREAD_RUNNING | THREAD_BLOCKED | THREAD_ZOMBIE | THREAD_SLEEPING.
#[export] Instance thread_state_eq_dec : EqDecision thread_state.
Proof. solve_decision. Defined.

Record thread := mkThread {
  tid : Z; context : Z; tstate : thread_state; ticks_remaining : Z; wake_time : Z;
  tnext : Z; next_waiter : Z;
}.

Record task := mkTask { pid : Z; name : list Z; vas : Z; threads : Z; knext : Z }.

Record mutex := mkMutex {
  is_locked : bool; internal_lock : spinlock_irq;
  waiting_queue_head : Z; waiting_queue_tail : Z;
}.
Definition MUTEX_INIT : mutex := mkMutex false SPINLOCK_IRQ_INIT 0 0.

(** [struct cpu_status]: the registers an interrupt leaves on the stack. *)
Record cpu_status := mkStatus {
  general_purpose_registers : list Z; vector_number : Z; error_code : Z;
  st_rip : Z; st_cs : Z; st_rflags : Z; st_rsp : Z; st_ss : Z;
}.

Record sched_state := mkSched {
  sc_cpu : cpu;
  scheduler_lock : spinlock_irq;
  tasks : gmap Z task;              (** the task structs, by address *)
  thrs : gmap Z thread;             (** the thread structs, by address *)
  mutexes : gmap Z mutex;
  task_current : Z;
  thread_current : Z;
  task_list : Z;
  next_pid : Z;
  next_tid : Z;
  system_ticks : Z;
  tsc_freq_hz : Z;
  tsc_boot_time : Z;
  frames : gmap Z cpu_status;       (** register frames on the kernel stacks *)
  stack_words : gmap Z Z;           (** other words written on the stacks *)
}.

Definition with_slock (l : spinlock_irq) (c : cpu) (s : sched_state) : sched_state :=
  mkSched c l (tasks s) (thrs s) (mutexes s) (task_current s) (thread_current s) (task_list s)
    (next_pid s) (next_tid s) (system_ticks s) (tsc_freq_hz s) (tsc_boot_time s)
    (frames s) (stack_words s).
Definition with_tasks (t : gmap Z task) (s : sched_state) : sched_state :=
  mkSched (sc_cpu s) (scheduler_lock s) t (thrs s) (mutexes s) (task_current s)
    (thread_current s) (task_list s) (next_pid s) (next_tid s) (system_ticks s)
    (tsc_freq_hz s) (tsc_boot_time s)
    (frames s) (stack_words s).
Definition with_thrs (t : gmap Z thread) (s : sched_state) : sched_state :=
  mkSched (sc_cpu s) (scheduler_lock s) (tasks s) t (mutexes s) (task_current s)
    (thread_current s) (task_list s) (next_pid s) (next_tid s) (system_ticks s)
    (tsc_freq_hz s) (tsc_boot_time s)
    (frames s) (stack_words s).
Definition with_mutex (a : Z) (m : mutex) (c : cpu) (s : sched_state) : sched_state :=
  mkSched c (scheduler_lock s) (tasks s) (thrs s) (<[a := m]> (mutexes s)) (task_current s)
    (thread_current s) (task_list s) (next_pid s) (next_tid s) (system_ticks s)
    (tsc_freq_hz s) (tsc_boot_time s)
    (frames s) (stack_words s).
Definition with_current (k t : Z) (s : sched_state) : sched_state :=
  mkSched (sc_cpu s) (scheduler_lock s) (tasks s) (thrs s) (mutexes s) k t (task_list s)
    (next_pid s) (next_tid s) (system_ticks s) (tsc_freq_hz s) (tsc_boot_time s)
    (frames s) (stack_words s).
Definition with_task_list (k : Z) (s : sched_state) : sched_state :=
  mkSched (sc_cpu s) (scheduler_lock s) (tasks s) (thrs s) (mutexes s) (task_current s)
    (thread_current s) k (next_pid s) (next_tid s) (system_ticks s) (tsc_freq_hz s)
    (tsc_boot_time s)
    (frames s) (stack_words s).
Definition with_ids (p t : Z) (s : sched_state) : sched_state :=
  mkSched (sc_cpu s) (scheduler_lock s) (tasks s) (thrs s) (mutexes s) (task_current s)
    (thread_current s) (task_list s) p t (system_ticks s) (tsc_freq_hz s) (tsc_boot_time s)
    (frames s) (stack_words s).
Definition with_ticks (n : Z) (s : sched_state) : sched_state :=
  mkSched (sc_cpu s) (scheduler_lock s) (tasks s) (thrs s) (mutexes s) (task_current s)
    (thread_current s) (task_list s) (next_pid s) (next_tid s) n (tsc_freq_hz s)
    (tsc_boot_time s)
    (frames s) (stack_words s).

Definition with_stack (f : gmap Z cpu_status) (w : gmap Z Z) (s : sched_state) : sched_state :=
  mkSched (sc_cpu s) (scheduler_lock s) (tasks s) (thrs s) (mutexes s) (task_current s)
    (thread_current s) (task_list s) (next_pid s) (next_tid s) (system_ticks s)
    (tsc_freq_hz s) (tsc_boot_time s) f w.

(** ** Access through pointers *)
Definition read_thread (p : Z) : M sched_state thread := reads (λ s, thrs s !! p).
Definition read_task (p : Z) : M sched_state task := reads (λ s, tasks s !! p).
Definition update_thread (p : Z) (f : thread → thread) : M sched_state unit :=
  t <- read_thread p;; modify (λ s, with_thrs (<[p := f t]> (thrs s)) s).
Definition update_task (p : Z) (f : task → task) : M sched_state unit :=
  t <- read_task p;; modify (λ s, with_tasks (<[p := f t]> (tasks s)) s).

Definition set_state (st : thread_state) (t : thread) : thread :=
  mkThread (tid t) (context t) st (ticks_remaining t) (wake_time t) (tnext t) (next_waiter t).
Definition set_context (c : Z) (t : thread) : thread :=
  mkThread (tid t) c (tstate t) (ticks_remaining t) (wake_time t) (tnext t) (next_waiter t).
Definition set_ticks (n : Z) (t : thread) : thread :=
  mkThread (tid t) (context t) (tstate t) n (wake_time t) (tnext t) (next_waiter t).
Definition set_wake_time (w : Z) (t : thread) : thread :=
  mkThread (tid t) (context t) (tstate t) (ticks_remaining t) w (tnext t) (next_waiter t).
Definition set_tnext (n : Z) (t : thread) : thread :=
  mkThread (tid t) (context t) (tstate t) (ticks_remaining t) (wake_time t) n (next_waiter t).
Definition set_next_waiter (n : Z) (t : thread) : thread :=
  mkThread (tid t) (context t) (tstate t) (ticks_remaining t) (wake_time t) (tnext t) n.
Definition set_knext (n : Z) (k : task) : task :=
  mkTask (pid k) (name k) (vas k) (threads k) n.
Definition set_threads (n : Z) (k : task) : task :=
  mkTask (pid k) (name k) (vas k) n (knext k).

Definition sched_lock_acquire : M sched_state Z := λ s,
  match spinlock_irq_acquire (scheduler_lock s) (sc_cpu s) with
  | Ok (flags, l, c) => Ok (flags, with_slock l c s)
  | Err e => Err e
  end.
Definition sched_lock_release (flags : Z) : M sched_state unit := modify (λ s,
  let '(l, c) := spinlock_irq_release (scheduler_lock s) flags (sc_cpu s) in with_slock l c s).

(** ** The scheduler *)

Definition is_ready (t : thread) : bool := bool_decide (tstate t = THREAD_READY).

(** Lines 125-132: the thread after [search_thread] in its task, or the first thread of
    the next task when all threads of this one have been seen. *)
Definition next_stop (search_task search_thread : Z) : M sched_state (Z * Z) :=
  x <- read_thread search_thread;;
  k <- read_task search_task;;
  if tnext x =? threads k then
    k' <- read_task (knext k);;
    ret (knext k, threads k')
  else ret (search_task, tnext x).

(** Lines 95-107: where the search starts. *)
Definition first_stop : M sched_state (Z * Z) :=
  search_task <- gets task_current;;
  cur <- gets thread_current;;
  x <- read_thread cur;;
  let search_thread := tnext x in
  k <- read_task search_task;;
  if search_thread =? threads k then
    let search_task := knext k in
    if negb (search_task =? 0) then
      k' <- read_task search_task;;
      ret (search_task, threads k')
    else ret (search_task, search_thread)
  else ret (search_task, search_thread).

(** Lines 109-149: the search for a ready thread. *)
Fixpoint search (fuel : nat) (search_task search_thread : Z) : M sched_state (Z * Z) :=
  match fuel with
  | O => fail OutOfFuel
  | S fuel =>
      if search_thread =? 0 then
        k <- read_task search_task;;
        k' <- read_task (knext k);;
        search fuel (knext k) (threads k')
      else
        x <- read_thread search_thread;;
        if is_ready x then ret (search_task, search_thread)
        else
          p <- next_stop search_task search_thread;;
          tc <- gets task_current;;
          thc <- gets thread_current;;
          if (p.1 =? tc) && (p.2 =? thc) then
            y <- read_thread p.2;;
            if is_ready y then ret p
            else
              tl <- gets task_list;;
              k <- read_task tl;;
              search fuel tl (threads k)
          else search fuel p.1 p.2
  end.

(** Fuel for the search: every task and every thread once. *)
Definition search_fuel (s : sched_state) : nat := (2 + size (tasks s) + size (thrs s))%nat.

Definition scheduler_schedule (status : Z) : M sched_state Z :=
  tc <- gets task_current;;
  thc <- gets thread_current;;
  if (tc =? 0) || (thc =? 0) then ret status
  else
    irq_flags <- sched_lock_acquire;;
    update_thread thc (λ t, if bool_decide (tstate t = THREAD_RUNNING)
                            then set_state THREAD_READY t else t);;;
    update_thread thc (set_context status);;;
    start <- first_stop;;
    fuel <- gets search_fuel;;
    found <- search fuel start.1 start.2;;
    modify (with_current found.1 found.2);;;
    update_thread found.2 (set_state THREAD_RUNNING);;;
    sched_lock_release irq_flags;;;
    t <- read_thread found.2;;
    ret (context t).

(** [int $50]: the interrupt handler calls the scheduler with the saved context. *)
Definition scheduler_yield (status : Z) : M sched_state Z := scheduler_schedule status.

(** ** Waking sleepers *)

(** [timer_get_uptime_ms] when the time-stamp counter reads [tsc]; a frequency below
    1 kHz makes it divide by zero. *)
Definition timer_get_uptime_ms (tsc : Z) : M sched_state Z :=
  boot <- gets tsc_boot_time;;
  freq <- gets tsc_freq_hz;;
  if freq / 1000 =? 0 then fail Undef
  else ret (u64 (tsc - boot) / (freq / 1000)).

Definition wake_thread (now : Z) (t : thread) : thread :=
  if bool_decide (tstate t = THREAD_SLEEPING) && (wake_time t <=? now)
  then set_wake_time 0 (set_state THREAD_READY t) else t.

(** The inner [do ... while] over the threads of one task. *)
Fixpoint wake_threads (fuel : nat) (now curr_task curr_thread : Z) : M sched_state unit :=
  match fuel with
  | O => fail OutOfFuel
  | S fuel =>
      update_thread curr_thread (wake_thread now);;;
      x <- read_thread curr_thread;;
      k <- read_task curr_task;;
      if tnext x =? threads k then ret tt else wake_threads fuel now curr_task (tnext x)
  end.

(** The outer [do ... while] over the tasks. *)
Fixpoint wake_tasks (fuel : nat) (now curr_task : Z) : M sched_state unit :=
  match fuel with
  | O => fail OutOfFuel
  | S fuel' =>
      k <- read_task curr_task;;
      (if negb (threads k =? 0) then
         n <- gets (λ s, size (thrs s));;
         wake_threads n now curr_task (threads k)
       else ret tt);;;
      k <- read_task curr_task;;
      tl <- gets task_list;;
      if knext k =? tl then ret tt else wake_tasks fuel' now (knext k)
  end.

Definition scheduler_wake_sleeping_threads (tsc : Z) : M sched_state unit :=
  tl <- gets task_list;;
  if tl =? 0 then ret tt
  else
    irq_flags <- sched_lock_acquire;;
    currTimeMs <- timer_get_uptime_ms tsc;;
    n <- gets (λ s, size (tasks s));;
    wake_tasks n currTimeMs tl;;;
    sched_lock_release irq_flags.

(** ** The timer interrupt

    The acknowledgement to the interrupt controller ([lapic_send_EOI]) is device I/O. *)
Definition timer_handler (tsc status : Z) : M sched_state Z :=
  modify (λ s, with_ticks (u64 (system_ticks s + 1)) s);;;
  scheduler_wake_sleeping_threads tsc;;;
  thc <- gets thread_current;;
  if negb (thc =? 0) then
    update_thread thc (λ t, set_ticks (u64 (ticks_remaining t - 1)) t);;;
    t <- read_thread thc;;
    if ticks_remaining t =? 0 then
      update_thread thc (set_ticks THREAD_INITIAL_TICKS);;;
      scheduler_schedule status
    else ret status
  else ret status.

Definition timer_get_uptime_ticks : M sched_state Z := gets system_ticks.

(** ** Tasks and threads *)

(** The last element of a circular list: [while(current->next != head) current = current->next]. *)
Fixpoint last_task (fuel : nat) (current : Z) : M sched_state Z :=
  match fuel with
  | O => fail OutOfFuel
  | S fuel =>
      k <- read_task current;;
      tl <- gets task_list;;
      if negb (knext k =? tl) then last_task fuel (knext k) else ret current
  end.
Fixpoint last_thread (fuel : nat) (task current : Z) : M sched_state Z :=
  match fuel with
  | O => fail OutOfFuel
  | S fuel =>
      x <- read_thread current;;
      k <- read_task task;;
      if negb (tnext x =? threads k) then last_thread fuel task (tnext x) else ret current
  end.

(** [task_create]: [new_task] is what [kmalloc] returned, [kernel_vas] what
    [vmm_get_kernel_vas] did; the name is copied into 32 bytes. *)
Definition task_create (new_task kernel_vas : Z) (nm : option (list Z)) : M sched_state Z :=
  if new_task =? 0 then ret 0
  else
    match nm with
    | None => fail Undef
    | Some nm =>
        if TASK_NAME_MAX_LENGTH <=? Z.of_nat (length nm) then fail Undef
        else
          p <- gets next_pid;;
          t <- gets next_tid;;
          modify (λ s, with_tasks (<[new_task := mkTask p nm kernel_vas 0 0]> (tasks s)) s);;;
          modify (with_ids (u64 (p + 1)) t);;;
          irq_flags <- sched_lock_acquire;;
          tl <- gets task_list;;
          (if tl =? 0 then
             modify (with_task_list new_task);;;
             update_task new_task (set_knext new_task)
           else
             n <- gets (λ s, size (tasks s));;
             last <- last_task n tl;;
             update_task last (set_knext new_task);;;
             update_task new_task (set_knext tl));;;
          sched_lock_release irq_flags;;;
          ret new_task
    end.

(** [sizeof(struct cpu_status)]: sixteen registers, vector, error code and the five
    words the CPU pushes. *)
Definition sizeof_cpu_status : Z := 23 * 8.
Definition GDT_KERNEL_CS : Z := 1.
Definition GDT_KERNEL_DS : Z := 2.

(** The frame a new thread starts from. *)
Definition initial_frame (entry_point ret_addr : Z) : cpu_status :=
  mkStatus (replicate 16 0) 0 0 entry_point (GDT_KERNEL_CS * 8) 0x202 ret_addr (GDT_KERNEL_DS * 8).

(** [task_create_thread]: [new_thread] and [new_stack_bottom] are what [kmalloc] and
    [vmm_alloc] returned, [exit_fn] is the address of [task_current_thread_exit]. *)
Definition task_create_thread (exit_fn task entry_point new_thread new_stack_bottom : Z)
    : M sched_state Z :=
  if (task =? 0) || (entry_point =? 0) then ret 0
  else if new_thread =? 0 then ret 0
  else if new_stack_bottom =? 0 then ret 0
  else
    let stack_top := u64 (new_stack_bottom + THREAD_INITIAL_STACK_SIZE) in
    let ret_addr := u64 (stack_top - 8) in
    let sp := u64 (ret_addr - sizeof_cpu_status) in
    modify (λ s, with_stack (<[sp := initial_frame entry_point ret_addr]> (frames s))
                   (<[ret_addr := exit_fn]> (stack_words s)) s);;;
    p <- gets next_pid;;
    t <- gets next_tid;;
    modify (λ s, with_thrs (<[new_thread :=
      mkThread t sp THREAD_READY THREAD_INITIAL_TICKS 0 0 0]> (thrs s)) s);;;
    modify (with_ids p (u64 (t + 1)));;;
    irq_flags <- sched_lock_acquire;;
    k <- read_task task;;
    (if threads k =? 0 then
       update_task task (set_threads new_thread);;;
       update_thread new_thread (set_tnext new_thread)
     else
       n <- gets (λ s, size (thrs s));;
       last <- last_thread n task (threads k);;
       update_thread last (set_tnext new_thread);;;
       k <- read_task task;;
       update_thread new_thread (set_tnext (threads k)));;;
    sched_lock_release irq_flags;;;
    ret new_thread.

Definition task_current_thread_exit (status : Z) : M sched_state Z :=
  irq_flags <- sched_lock_acquire;;
  thc <- gets thread_current;;
  update_thread thc (set_state THREAD_ZOMBIE);;;
  sched_lock_release irq_flags;;;
  scheduler_yield status.

Definition thread_sleep (tsc ms status : Z) : M sched_state Z :=
  irq_flags <- sched_lock_acquire;;
  thc <- gets thread_current;;
  now <- timer_get_uptime_ms tsc;;
  update_thread thc (set_wake_time (u64 (now + ms)));;;
  update_thread thc (set_state THREAD_SLEEPING);;;
  sched_lock_release irq_flags;;;
  scheduler_yield status.

(** ** The reaper *)

(** The inner [do ... while] of [kernel_idle_thread] over one task: unlinks the first
    zombie it meets and returns it. *)
Fixpoint reap_threads (fuel : nat) (curr_task prev_thread curr_thread : Z)
    : M sched_state (option Z) :=
  match fuel with
  | O => fail OutOfFuel
  | S fuel =>
      x <- read_thread curr_thread;;
      k <- read_task curr_task;;
      if bool_decide (tstate x = THREAD_ZOMBIE) then
        (if curr_thread =? tnext x then update_task curr_task (set_threads 0)
         else
           update_thread prev_thread (set_tnext (tnext x));;;
           (if curr_thread =? threads k then update_task curr_task (set_threads (tnext x))
            else ret tt));;;
        ret (Some curr_thread)
      else if negb (threads k =? 0) && negb (tnext x =? threads k)
           then reap_threads fuel curr_task curr_thread (tnext x)
           else ret None
  end.

(** The outer [do ... while]: the zombie found, with the address space of its task. *)
Fixpoint reap_tasks (fuel : nat) (curr_task : Z) : M sched_state (option (Z * Z)) :=
  match fuel with
  | O => fail OutOfFuel
  | S fuel' =>
      k <- read_task curr_task;;
      found <- (if negb (threads k =? 0) then
                  x <- read_thread (threads k);;
                  n <- gets (λ s, size (thrs s));;
                  reap_threads n curr_task (threads k) (tnext x)
                else ret None);;
      match found with
      | Some th => ret (Some (th, vas k))
      | None =>
          k <- read_task curr_task;;
          tl <- gets task_list;;
          if knext k =? tl then ret None else reap_tasks fuel' (knext k)
      end
  end.

(** One round of [kernel_idle_thread]. The result tells what is freed: the thread, the
    address space that holds its stack, and the stack address given to [vmm_free]. *)
Definition reap_round : M sched_state (option (Z * Z * Z)) :=
  irq_flags <- sched_lock_acquire;;
  tl <- gets task_list;;
  n <- gets (λ s, size (tasks s));;
  found <- (if negb (tl =? 0) then reap_tasks n tl else ret None);;
  sched_lock_release irq_flags;;;
  match found with
  | Some (thread_to_delete, stack_to_clean) =>
      t <- read_thread thread_to_delete;;
      c <- reads (λ s, frames s !! context t);;
      modify (λ s, with_thrs (delete thread_to_delete (thrs s)) s);;;   (* kfree *)
      ret (Some (thread_to_delete, stack_to_clean, st_rsp c))
  | None => ret None
  end.

(** ** The mutex *)

Definition read_mutex (a : Z) : M sched_state mutex := reads (λ s, mutexes s !! a).
Definition update_mutex (a : Z) (f : mutex → mutex) : M sched_state unit :=
  m <- read_mutex a;; modify (λ s, with_mutex a (f m) (sc_cpu s) s).
Definition set_locked (b : bool) (m : mutex) : mutex :=
  mkMutex b (internal_lock m) (waiting_queue_head m) (waiting_queue_tail m).
Definition set_head (h : Z) (m : mutex) : mutex :=
  mkMutex (is_locked m) (internal_lock m) h (waiting_queue_tail m).
Definition set_tail (t : Z) (m : mutex) : mutex :=
  mkMutex (is_locked m) (internal_lock m) (waiting_queue_head m) t.

Definition mutex_lock_acquire (a : Z) : M sched_state Z := λ s,
  match mutexes s !! a with
  | Some m =>
      match spinlock_irq_acquire (internal_lock m) (sc_cpu s) with
      | Ok (flags, l, c) =>
          Ok (flags, with_mutex a (mkMutex (is_locked m) l (waiting_queue_head m)
                                     (waiting_queue_tail m)) c s)
      | Err e => Err e
      end
  | None => Err Undef
  end.
Definition mutex_lock_release (a flags : Z) : M sched_state unit := λ s,
  match mutexes s !! a with
  | Some m =>
      let '(l, c) := spinlock_irq_release (internal_lock m) flags (sc_cpu s) in
      Ok (tt, with_mutex a (mkMutex (is_locked m) l (waiting_queue_head m)
                              (waiting_queue_tail m)) c s)
  | None => Err Undef
  end.

(** [None]: the caller goes on and holds the mutex. [Some c]: the caller was put to
    sleep and the CPU goes on with context [c]; when the caller runs again the mutex has
    been handed to it. *)
Definition mutex_acquire (a status : Z) : M sched_state (option Z) :=
  irq_flags <- mutex_lock_acquire a;;
  m <- read_mutex a;;
  if negb (is_locked m) then
    update_mutex a (set_locked true);;;
    mutex_lock_release a irq_flags;;;
    ret None
  else
    thc <- gets thread_current;;
    update_thread thc (set_next_waiter 0);;;
    (if waiting_queue_tail m =? 0 then
       update_mutex a (set_head thc);;;
       update_mutex a (set_tail thc)
     else
       update_thread (waiting_queue_tail m) (set_next_waiter thc);;;
       update_mutex a (set_tail thc));;;
    update_thread thc (set_state THREAD_BLOCKED);;;
    mutex_lock_release a irq_flags;;;
    c <- scheduler_yield status;;
    ret (Some c).

Definition mutex_release (a : Z) : M sched_state unit :=
  irq_flags <- mutex_lock_acquire a;;
  m <- read_mutex a;;
  (if waiting_queue_head m =? 0 then update_mutex a (set_locked false)
   else
     let woken_thread := waiting_queue_head m in
     w <- read_thread woken_thread;;
     update_mutex a (set_head (next_waiter w));;;
     m <- read_mutex a;;
     (if waiting_queue_head m =? 0 then update_mutex a (set_tail 0) else ret tt);;;
     update_thread woken_thread (set_state THREAD_READY));;;
  mutex_lock_release a irq_flags.

(** ** Initialisation *)

(** [scheduler_init]: [idle] and [idle_thread] are what [kmalloc] returned. *)
Definition scheduler_init (idle idle_thread kernel_vas : Z) : M sched_state unit :=
  if idle =? 0 then fail Halt
  else
    modify (λ s, with_tasks (<[idle := mkTask 0 [73; 100; 108; 101] kernel_vas 0 0]> (tasks s)) s);;;
    thc <- gets thread_current;;
    modify (with_current idle thc);;;
    update_task idle (set_knext idle);;;
    modify (with_task_list idle);;;
    if idle_thread =? 0 then fail Halt
    else
      modify (λ s, with_thrs (<[idle_thread :=
        mkThread 0 0 THREAD_RUNNING THREAD_INITIAL_TICKS 0 0 0]> (thrs s)) s);;;
      update_task idle (set_threads idle_thread);;;
      update_thread idle_thread (set_tnext idle_thread);;;
      modify (with_current idle idle_thread).

(** The statics before [scheduler_init]. *)
Definition sched_boot (c : cpu) (freq boot : Z) (ms : gmap Z mutex) : sched_state :=
  mkSched c SPINLOCK_IRQ_INIT ∅ ∅ ms 0 0 0 1 1 0 freq boot ∅ ∅.
