(* ===== verification/SchedSpec.v ===== *)
(** * Threads: the scheduler's lists and the choice of the next thread

    The circular lists of tasks and threads as Rocq lists, the order in which the
    scheduler visits them, and the proof that [scheduler_schedule] picks the first ready
    thread in that order. *)

From stdpp Require Import base gmap list numbers.
From S2P Require Import Prelude Spinlock Sched.

Create HintDb sched.

(** ** The lists *)

(** The pointer to the first element, NULL for the empty list. *)
Definition first (l : list Z) : Z := default 0 (head l).

(** The tasks in the order of the task list, each with its threads in order. *)
Record sched_rep (s : sched_state) (TL : list (Z * list Z)) : Prop := {
  sr_tasks_nodup : NoDup (fst <$> TL);
  sr_tasks_nonnull : 0 ∉ fst <$> TL;
  sr_task : ∀ pre t l post, TL = pre ++ (t, l) :: post →
    ∃ k, tasks s !! t = Some k ∧ threads k = first l ∧
      knext k = first (fst <$> post ++ pre ++ [(t, l)]);
  sr_thr_nodup : NoDup (TL ≫= snd);
  sr_thr_nonnull : 0 ∉ TL ≫= snd;
  sr_thr : ∀ t l1 x l2, (t, l1 ++ x :: l2) ∈ TL →
    ∃ y, thrs s !! x = Some y ∧ tnext y = first (l2 ++ l1 ++ [x]);
  sr_list : task_list s = first (fst <$> TL);
}.

(** The thread [x] of the task [t] is where the CPU is. *)
Record running (s : sched_state) (TL : list (Z * list Z)) pre t l1 x l2 post : Prop := {
  rn_split : TL = pre ++ (t, l1 ++ x :: l2) :: post;
  rn_task : task_current s = t;
  rn_thread : thread_current s = x;
}.

(** The stops of a search: a pair of a task and one of its threads, or NULL for a task
    without threads. *)
Definition stops_of (e : Z * list Z) : list (Z * Z) :=
  match e.2 with [] => [(e.1, 0)] | l => (e.1,.) <$> l end.
Definition stops (TL : list (Z * list Z)) : list (Z * Z) := TL ≫= stops_of.
Definition last_stop (e : Z * list Z) : Z * Z := (e.1, default 0 (last e.2)).

(** The stop after [p]. *)
Definition step (s : sched_state) (p : Z * Z) : option (Z * Z) :=
  if p.2 =? 0 then
    k ← tasks s !! p.1; k' ← tasks s !! knext k; Some (knext k, threads k')
  else
    y ← thrs s !! p.2; k ← tasks s !! p.1;
    if tnext y =? threads k then k' ← tasks s !! knext k; Some (knext k, threads k')
    else Some (p.1, tnext y).

(** From [p] the search visits the stops [L], in this order. *)
Fixpoint chain (s : sched_state) (p : Z * Z) (L : list (Z * Z)) : Prop :=
  match L with
  | [] => True
  | q :: L => step s p = Some q ∧ chain s q L
  end.

Lemma chain_app s p L1 L2 :
  chain s p (L1 ++ L2) ↔ chain s p L1 ∧ chain s (default p (last L1)) L2.
Proof.
  revert p. induction L1 as [|q L1 IH]; intros p; cbn [app chain]; [tauto|].
  rewrite IH last_cons. destruct (last L1); simpl; tauto.
Qed.

(** *** The lists do not depend on where the circle is cut *)
Definition task_ring (s : sched_state) (TL : list (Z * list Z)) : Prop :=
  ∀ pre t l post, TL = pre ++ (t, l) :: post →
    ∃ k, tasks s !! t = Some k ∧ threads k = first l ∧
      knext k = first (fst <$> post ++ pre ++ [(t, l)]).

Lemma first_app_cons l x l' m : first (l ++ x :: l' ++ m) = first (l ++ x :: l').
Proof. by destruct l. Qed.

Lemma task_ring_rotate s A B : task_ring s (A ++ B) → task_ring s (B ++ A).
Proof.
  intros Hr pre t l post E.
  apply app_eq_app in E as (m & [[-> E2]|[-> E2]]).
  - destruct m as [|e m]; simpl in E2.
    + subst A. destruct (Hr [] t l (post ++ pre)) as (k & H1 & H2 & H3).
      { by rewrite app_nil_r. }
      exists k. split; [done|]. split; [done|]. rewrite H3. by rewrite app_nil_l -app_assoc.
    + injection E2 as <- ->. destruct (Hr (A ++ pre) t l m) as (k & H1 & H2 & H3).
      { by rewrite -app_assoc. }
      exists k. split; [done|]. split; [done|]. rewrite H3. by rewrite -!app_assoc.
  - subst A. destruct (Hr m t l (post ++ B)) as (k & H1 & H2 & H3).
    { by rewrite -app_assoc. }
    exists k. split; [done|]. split; [done|]. rewrite H3. by rewrite -!app_assoc.
Qed.

Lemma NoDup_threads s TL t l : sched_rep s TL → (t, l) ∈ TL → NoDup l ∧ 0 ∉ l.
Proof.
  intros Hr [A [B ->]]%list_elem_of_split.
  pose proof (sr_thr_nodup _ _ Hr) as Hnd. pose proof (sr_thr_nonnull _ _ Hr) as Hn0.
  rewrite bind_app in Hnd, Hn0. cbn in Hnd, Hn0. split.
  - apply NoDup_app in Hnd as (_ & _ & Hnd). by apply NoDup_app in Hnd as (? & _ & _).
  - intros Hin. apply Hn0, elem_of_app. right. apply elem_of_app. by left.
Qed.

(** ** The visiting order *)
Section order.
Context (s : sched_state) (TL : list (Z * list Z)) (Hrep : sched_rep s TL).

Lemma task_of t l : (t, l) ∈ TL → ∃ k, tasks s !! t = Some k ∧ threads k = first l.
Proof.
  intros [A [B E]]%list_elem_of_split. destruct (sr_task _ _ Hrep A t l B E) as (k & ? & ? & _).
  eauto.
Qed.

Lemma first_ne_later l1 x z l2 : NoDup (l1 ++ x :: z :: l2) → z ≠ first (l1 ++ x :: z :: l2).
Proof.
  intros Hnd E. destruct l1 as [|a l1]; cbn in E; subst.
  - apply NoDup_cons in Hnd as [Hx _]. apply Hx. by left.
  - apply NoDup_cons in Hnd as [Ha _]. apply Ha. apply elem_of_app. right. right. by left.
Qed.

Lemma chain_in_task t l1 x l2 :
  (t, l1 ++ x :: l2) ∈ TL → chain s (t, x) ((t,.) <$> l2).
Proof.
  revert l1 x. induction l2 as [|z l2 IH]; intros l1 x Hin; [done|]. cbn [fmap list_fmap chain].
  destruct (NoDup_threads s TL _ _ Hrep Hin) as [Hnd H0]. split.
  - destruct (sr_thr _ _ Hrep t l1 x (z :: l2) Hin) as (y & Hy & Hn).
    destruct (task_of _ _ Hin) as (k & Hk & Ht). cbn in Hn.
    rewrite /step /=. destruct (Z.eqb_spec x 0) as [->|_]; [set_solver|].
    rewrite Hy Hk /= Hn Ht. destruct (Z.eqb_spec z (first (l1 ++ x :: z :: l2))); [|done].
    by apply first_ne_later in Hnd.
  - apply (IH (l1 ++ [x])). by rewrite -app_assoc.
Qed.

Lemma step_last t l t' l' :
  (t, l) ∈ TL → (t', l') ∈ TL →
  (∃ k, tasks s !! t = Some k ∧ threads k = first l ∧ knext k = t') →
  step s (last_stop (t, l)) = Some (t', first l').
Proof.
  intros Hin Hin' (k & Hk & Ht & Hn). destruct (task_of _ _ Hin') as (k' & Hk' & Ht').
  destruct (NoDup_threads s TL _ _ Hrep Hin) as [Hnd H0].
  rewrite /step /last_stop /=. destruct (last l) as [x|] eqn:El; simpl.
  - apply last_Some in El as [l1 ->]. destruct (Z.eqb_spec x 0) as [->|_]; [set_solver|].
    destruct (sr_thr _ _ Hrep t l1 x [] Hin) as (y & Hy & Hny). cbn in Hny.
    rewrite Hy Hk /= Hny Ht Z.eqb_refl Hn Hk' /=. by rewrite Ht'.
  - rewrite Hk /= Hn Hk' /=. by rewrite Ht'.
Qed.

Lemma stops_of_cons t l : stops_of (t, l) = (t, first l) :: ((t,.) <$> tail l).
Proof. by destruct l. Qed.

Lemma chain_task_tail t l : (t, l) ∈ TL → chain s (t, first l) ((t,.) <$> tail l).
Proof. intros Hin. destruct l as [|x l]; [done|]. by apply (chain_in_task t [] x l). Qed.

Lemma last_stops_of e p : default p (last (stops_of e)) = last_stop e.
Proof.
  destruct e as [t l]. rewrite /stops_of /last_stop /=. destruct l as [|x l]; [done|].
  rewrite -(fmap_cons (t,.)) fmap_last. by destruct (last (x :: l)) eqn:E; [|apply last_None in E].
Qed.

(** Going round all tasks that follow [e0], up to and including [e0] itself. *)
Lemma chain_tasks e0 A B :
  task_ring s (A ++ B) → (∀ e, e ∈ A ++ B → e ∈ TL) → e0 ∈ TL → last (A ++ B) = Some e0 →
  chain s (last_stop (default e0 (last A))) (stops B).
Proof.
  revert A. induction B as [|[t' l'] B IH]; intros A Hring Hsub He0 Hlast; [done|].
  unfold stops. cbn [mbind list_bind]. fold (list_bind _ _ stops_of). apply chain_app. split.
  - rewrite stops_of_cons. cbn [chain]. assert ((t', l') ∈ TL) as Hin' by (apply Hsub; set_solver).
    split; [|by apply chain_task_tail].
    set e := default e0 (last A). destruct e as [t l] eqn:Ee.
    assert ((t, l) ∈ TL) as Hin.
    { rewrite -Ee /e. destruct (last A) eqn:El; simpl; [|done].
      apply Hsub, elem_of_app. left. by apply last_Some_elem_of. }
    apply (step_last t l t' l' Hin Hin'). subst e.
    destruct (last A) as [e|] eqn:El; simpl in Ee; subst.
    + apply last_Some in El as [A' ->].
      destruct (Hring A' t l ((t', l') :: B)) as (k & H1 & H2 & H3); [by rewrite -app_assoc|].
      exists k. done.
    + apply last_None in El as ->. simpl in Hlast. apply last_Some in Hlast as [C E].
      destruct (Hring C t l []) as (k & H1 & H2 & H3); [done|].
      exists k. split; [done|]. split; [done|]. rewrite H3 /=. rewrite -E. done.
  - rewrite last_stops_of.
    specialize (IH (A ++ [(t', l')])). rewrite -app_assoc last_snoc in IH. by apply IH.
Qed.
End order.

(** The stops after the current thread, in visiting order; the current thread is last. *)
Definition rotation pre t (l1 : list Z) (x : Z) (l2 : list Z) post : list (Z * Z) :=
  ((t,.) <$> l2) ++ stops (post ++ pre) ++ ((t,.) <$> l1 ++ [x]).

Lemma chain_rotation s TL pre t l1 x l2 post :
  sched_rep s TL → TL = pre ++ (t, l1 ++ x :: l2) :: post →
  chain s (t, x) (rotation pre t l1 x l2 post).
Proof.
  intros Hrep E. assert ((t, l1 ++ x :: l2) ∈ TL) as Hin by (rewrite E; set_solver).
  rewrite /rotation. apply chain_app. split; [by eapply chain_in_task|].
  assert (default (t, x) (last ((t,.) <$> l2)) = last_stop (t, l1 ++ x :: l2)) as ->.
  { rewrite fmap_last /last_stop /= last_app last_cons. by destruct (last l2). }
  assert (chain s (last_stop (t, l1 ++ x :: l2)) (stops ((post ++ pre) ++ [(t, l1 ++ x :: l2)]))) as Hc.
  { apply (chain_tasks s TL Hrep (t, l1 ++ x :: l2) [] _).
    - simpl. rewrite -app_assoc. replace (post ++ pre ++ [(t, l1 ++ x :: l2)])
        with (post ++ (pre ++ [(t, l1 ++ x :: l2)])) by done.
      apply task_ring_rotate. rewrite -app_assoc /=. rewrite -E. exact (sr_task _ _ Hrep).
    - intros e. rewrite E. set_solver.
    - done.
    - simpl. apply last_snoc. }
  rewrite /stops bind_app in Hc. cbn in Hc. rewrite app_nil_r in Hc.
  assert (stops_of (t, l1 ++ x :: l2) = ((t,.) <$> l1 ++ [x]) ++ ((t,.) <$> l2)) as Es.
  { rewrite -fmap_app -app_assoc /=. rewrite /stops_of /=. by destruct (l1 ++ x :: l2) eqn:El; [destruct l1|]. }
  rewrite Es app_assoc in Hc. by apply chain_app in Hc as [Hc _].
Qed.

(** ** The search *)

Definition ready_at (s : sched_state) (p : Z * Z) : bool :=
  if p.2 =? 0 then false
  else match thrs s !! p.2 with Some y => is_ready y | None => false end.

Lemma next_stop_step s p q : p.2 ≠ 0 → step s p = Some q → next_stop p.1 p.2 s = Ok (q, s).
Proof.
  intros Hp Hs. rewrite /step in Hs. destruct (Z.eqb_spec p.2 0); [done|].
  rewrite /next_stop /bind /read_thread /read_task /reads.
  destruct (thrs s !! p.2); [|done]. destruct (tasks s !! p.1) as [k|]; [|done]. simpl in Hs.
  destruct (tnext _ =? threads k); [|by simplify_eq].
  destruct (tasks s !! knext k); [|done]. by simplify_eq/=.
Qed.

Lemma step_read s p q : p.2 ≠ 0 → step s p = Some q → is_Some (thrs s !! p.2).
Proof.
  intros Hp Hs. rewrite /step in Hs. destruct (Z.eqb_spec p.2 0); [done|].
  destruct (thrs s !! p.2); [by eexists|done].
Qed.

Lemma search_ok s A r B fuel p L :
  p :: L = A ++ r :: B → chain s p L → ready_at s r = true →
  (∀ q, q ∈ A → ready_at s q = false) → (task_current s, thread_current s) ∉ A →
  (length A < fuel)%nat → search fuel p.1 p.2 s = Ok (r, s).
Proof.
  revert fuel p L. induction A as [|a A IH]; intros [|fuel] p L E Hc Hr Hnr Hcur Hf;
    [simpl in Hf; lia| |simpl in Hf; lia|]; simpl in E; injection E as -> ->; cbn [search].
  - rewrite /ready_at in Hr. destruct (Z.eqb_spec r.2 0); [done|].
    rewrite /bind /read_thread /reads. destruct (thrs s !! r.2); [|done]. rewrite Hr. by destruct r.
  - assert (ready_at s a = false) as Ha by (apply Hnr; by left).
    destruct (A ++ r :: B) as [|q L] eqn:EL; [by destruct A|]. destruct Hc as [Hstep Hc].
    assert (search fuel q.1 q.2 s = Ok (r, s)) as Hnext.
    { apply (IH fuel q L); [done|done|done| | |simpl in Hf; lia].
      - intros q' Hq'. apply Hnr. by right.
      - intros Hin. apply Hcur. by right. }
    destruct (Z.eqb_spec a.2 0) as [E0|Hne].
    + rewrite /step E0 /= in Hstep. rewrite /bind /read_task /reads.
      destruct (tasks s !! a.1) as [k|]; [|done]. simpl in Hstep.
      destruct (tasks s !! knext k) as [k'|]; [|done]. simpl in Hstep. by simplify_eq/=.
    + destruct (step_read s a q Hne Hstep) as [y Hy].
      rewrite /ready_at Hy in Ha. destruct (Z.eqb_spec a.2 0); [done|].
      rewrite {1}/bind {1}/read_thread /reads Hy Ha {1}/bind (next_stop_step s a q Hne Hstep).
      rewrite /bind /gets. destruct ((q.1 =? task_current s) && (q.2 =? thread_current s)) eqn:Eq; [|done].
      apply andb_true_iff in Eq as [E1%Z.eqb_eq E2%Z.eqb_eq].
      destruct A as [|a' A].
      * simpl in EL. injection EL as <- _. rewrite /ready_at in Hr.
        destruct (Z.eqb_spec r.2 0); [done|]. rewrite /read_thread /reads.
        destruct (thrs s !! r.2); [|done]. rewrite Hr. done.
      * exfalso. apply Hcur. simpl in EL. injection EL as <- _.
        rewrite -E1 -E2 -surjective_pairing. right. by left.
Qed.

Lemma first_stop_step s q :
  thread_current s ≠ 0 → step s (task_current s, thread_current s) = Some q → q.1 ≠ 0 →
  first_stop s = Ok (q, s).
Proof.
  intros Hx Hs Hq. rewrite /step /= in Hs. destruct (Z.eqb_spec (thread_current s) 0); [done|].
  rewrite /first_stop /bind /gets /read_thread /read_task /reads.
  destruct (thrs s !! thread_current s); [|done].
  destruct (tasks s !! task_current s) as [k|]; [|done]. simpl in Hs.
  destruct (tnext _ =? threads k); [|by simplify_eq].
  destruct (tasks s !! knext k) as [k'|] eqn:Ek; [|done]. simplify_eq/=.
  destruct (Z.eqb_spec (knext k) 0); [done|]. simpl. by rewrite Ek.
Qed.

(** *** The current thread is visited last *)

Lemma elem_of_stops TL t x : (t, x) ∈ stops TL → ∃ l, (t, l) ∈ TL ∧ (x = 0 ∨ x ∈ l).
Proof.
  rewrite /stops. intros ([t' l] & Hs & Hin)%list_elem_of_bind. exists l.
  rewrite /stops_of /= in Hs. destruct l as [|y l].
  - apply list_elem_of_singleton in Hs. injection Hs as -> ->. split; [done|by left].
  - apply (list_elem_of_fmap (t',.) (y :: l)) in Hs as (z & [= -> ->] & Hz). split; [done|by right].
Qed.

Lemma current_last s TL pre t l1 x l2 post :
  sched_rep s TL → TL = pre ++ (t, l1 ++ x :: l2) :: post →
  (t, x) ∉ ((t,.) <$> l2) ++ stops (post ++ pre) ++ ((t,.) <$> l1).
Proof.
  intros Hrep E. pose proof (sr_thr_nodup _ _ Hrep) as Hnd. pose proof (sr_thr_nonnull _ _ Hrep) as Hn0.
  rewrite E bind_app in Hnd, Hn0. cbn in Hnd, Hn0.
  apply NoDup_app in Hnd as (_ & Hd1 & Hnd). apply NoDup_app in Hnd as (Hl & Hd2 & _).
  apply NoDup_app in Hl as (_ & Hl1 & Hl). apply NoDup_cons in Hl as [Hl2 _].
  rewrite !elem_of_app. intros [Hin|[Hin|Hin]].
  - apply list_elem_of_fmap in Hin as (z & [= <-] & Hz). done.
  - apply elem_of_stops in Hin as (l & Hin & [->|Hx]).
    + apply Hn0. rewrite !elem_of_app elem_of_cons. tauto.
    + apply elem_of_app in Hin as [Hin|Hin].
      * apply (Hd2 x); [rewrite elem_of_app elem_of_cons; tauto|].
        apply list_elem_of_bind. by exists (t, l).
      * apply (Hd1 x); [apply list_elem_of_bind; by exists (t, l)|].
        rewrite !elem_of_app elem_of_cons. tauto.
  - apply list_elem_of_fmap in Hin as (z & [= <-] & Hz). apply (Hl1 x Hz). by left.
Qed.

Lemma not_in_prefix {X} (A B R : list X) (r c : X) :
  A ++ r :: B = R ++ [c] → c ∉ R → c ∉ A.
Proof.
  intros E Hc Hin. apply Hc.
  destruct (app_eq_app _ _ _ _ E) as (k & [[-> Hk]|[-> Hk]]).
  - destruct k as [|x k]; [by rewrite app_nil_r in Hin|]. simpl in Hk.
    injection Hk as _ Hk. by destruct k.
  - apply elem_of_app. by left.
Qed.

(** ** [scheduler_schedule] *)

Lemma sched_rep_frame s s' TL :
  sched_rep s TL → tasks s' = tasks s → task_list s' = task_list s →
  (∀ x y, x ∈ TL ≫= snd → thrs s !! x = Some y →
     ∃ y', thrs s' !! x = Some y' ∧ tnext y' = tnext y) →
  sched_rep s' TL.
Proof.
  intros [H1 H2 H3 H4 H5 H6 H7] Et El Hthr. split; [done|done| |done|done| |].
  - by rewrite Et.
  - intros t l1 x l2 Hin. destruct (H6 t l1 x l2 Hin) as (y & Hy & Hn).
    destruct (Hthr x y) as (y' & Hy' & Hn'); [|done|].
    { apply list_elem_of_bind. exists (t, l1 ++ x :: l2). split; [|done]. simpl.
      apply elem_of_app. right. by left. }
    exists y'. by rewrite Hn'.
  - by rewrite El.
Qed.

(** Updating a thread without moving it in its list. *)
Lemma sched_rep_update s TL x y y' :
  sched_rep s TL → thrs s !! x = Some y → tnext y' = tnext y →
  sched_rep (with_thrs (<[x := y']> (thrs s)) s) TL.
Proof.
  intros Hr Hy Hn. apply (sched_rep_frame s); [done..|].
  intros z yz Hin Hz. simpl. destruct (decide (x = z)) as [<-|Hne].
  - rewrite lookup_insert_eq. exists y'. split; [done|]. congruence.
  - rewrite lookup_insert_ne //. by exists yz.
Qed.

(** All stops fit in the fuel of the search. *)
Lemma length_stops TL : (length (stops TL) ≤ length TL + length (TL ≫= snd))%nat.
Proof.
  induction TL as [|[t l] TL IH]; [done|]. unfold stops in *.
  change (((t, l) :: TL) ≫= stops_of) with (stops_of (t, l) ++ (TL ≫= stops_of)).
  change (((t, l) :: TL) ≫= snd) with (l ++ (TL ≫= snd)).
  rewrite !length_app. cbn [length]. destruct l; simpl; [lia|]. rewrite length_fmap. lia.
Qed.

Lemma nodup_size {V} (m : gmap Z V) (l : list Z) :
  NoDup l → (∀ x, x ∈ l → is_Some (m !! x)) → (length l ≤ size m)%nat.
Proof.
  intros Hnd Hin. rewrite -(size_list_to_set (C := gset Z)) // -size_dom.
  apply subseteq_size. intros x Hx. apply elem_of_dom, Hin. set_solver.
Qed.

Lemma sched_rep_size s TL :
  sched_rep s TL → (length TL ≤ size (tasks s))%nat ∧ (length (TL ≫= snd) ≤ size (thrs s))%nat.
Proof.
  intros Hr. split.
  - rewrite -(length_fmap fst). apply nodup_size; [apply Hr|].
    intros t ([t' l] & -> & (A & B & E)%list_elem_of_split)%list_elem_of_fmap.
    destruct (sr_task _ _ Hr A t' l B E) as (k & Hk & _). by exists k.
  - apply nodup_size; [apply Hr|].
    intros x ([t l] & Hx & Hin)%list_elem_of_bind. simpl in Hx.
    apply list_elem_of_split in Hx as (l1 & l2 & ->).
    destruct (sr_thr _ _ Hr t l1 x l2 Hin) as (y & Hy & _). by exists y.
Qed.

Lemma rotation_length s TL pre t l1 x l2 post :
  sched_rep s TL → TL = pre ++ (t, l1 ++ x :: l2) :: post →
  (length (rotation pre t l1 x l2 post) < search_fuel s)%nat.
Proof.
  intros Hr E. destruct (sched_rep_size s TL Hr) as [H1 H2].
  rewrite E length_app /= in H1. rewrite E bind_app in H2.
  change (((t, l1 ++ x :: l2) :: post) ≫= snd) with ((l1 ++ x :: l2) ++ (post ≫= snd)) in H2.
  rewrite !length_app /= in H2.
  pose proof (length_stops (post ++ pre)) as H3. rewrite bind_app !length_app in H3.
  rewrite /rotation !length_app !length_fmap length_app /= /search_fuel. lia.
Qed.

(** What the outgoing thread looks like afterwards. *)
Definition pause (status : Z) (y : thread) : thread :=
  set_context status (if bool_decide (tstate y = THREAD_RUNNING) then set_state THREAD_READY y else y).

Definition paused (s : sched_state) (status : Z) : sched_state :=
  match thrs s !! thread_current s with
  | Some y => with_thrs (<[thread_current s := pause status y]> (thrs s)) s
  | None => s
  end.

(** The parts of the state the scheduler leaves alone. *)
Definition sched_frame (s : sched_state) :=
  (sc_cpu s, tasks s, mutexes s, task_list s, next_pid s, next_tid s, system_ticks s,
   tsc_freq_hz s, tsc_boot_time s, frames s, stack_words s).

Lemma schedule_run s TL pre t l1 x l2 post status A r B :
  sched_rep s TL → running s TL pre t l1 x l2 post → lock_free (scheduler_lock s) →
  rotation pre t l1 x l2 post = A ++ r :: B →
  ready_at (paused s status) r = true → (∀ q, q ∈ A → ready_at (paused s status) q = false) →
  ∃ yr s', thrs (paused s status) !! r.2 = Some yr ∧
    scheduler_schedule status s = Ok (context yr, s') ∧
    thrs s' = <[r.2 := set_state THREAD_RUNNING yr]> (thrs (paused s status)) ∧
    task_current s' = r.1 ∧ thread_current s' = r.2 ∧
    lock_free (scheduler_lock s') ∧ sched_frame s' = sched_frame s ∧ sched_rep s' TL.
Proof.
  intros Hrep [E Et Ex] Hlock Erot Hr Hnr.
  assert ((t, l1 ++ x :: l2) ∈ TL) as Hin by (rewrite E; set_solver).
  destruct (sr_thr _ _ Hrep t l1 x l2 Hin) as (yx & Hyx & Hnx).
  assert (x ≠ 0) as Hx0 by (destruct (NoDup_threads s TL t _ Hrep Hin) as [_ H0]; set_solver).
  assert (t ≠ 0) as Ht0.
  { intros ->. apply (sr_tasks_nonnull _ _ Hrep). apply list_elem_of_fmap. by exists (0, l1 ++ x :: l2). }
  assert (paused s status = with_thrs (<[x := pause status yx]> (thrs s)) s) as Ep
    by (by rewrite /paused Ex Hyx).
  rewrite Ep in Hr, Hnr |- *.
  destruct (spinlock_acquire_free (scheduler_lock s) (sc_cpu s) Hlock) as (l & c & El & Hheld & _).
  destruct (spinlock_release_held l (rflags (sc_cpu s)) c Hheld) as (l' & El' & Hfree').
  set sL := with_thrs (<[x := pause status yx]> (thrs s)) (with_slock l c s).
  assert (sched_rep sL TL) as HrepL.
  { apply (sched_rep_update (with_slock l c s) TL x yx); [|done|].
    - by apply (sched_rep_frame s); [..|intros z y _ Hz; exists y].
    - rewrite /pause. by case_bool_decide. }
  pose proof (chain_rotation sL TL pre t l1 x l2 post HrepL E) as Hchain.
  destruct (rotation pre t l1 x l2 post) as [|p L] eqn:ER; [by destruct A|].
  destruct Hchain as [Hfirst Hchain].
  assert (p.1 ≠ 0) as Hp.
  { assert (p ∈ rotation pre t l1 x l2 post) as Hp by (rewrite ER; by left).
    rewrite /rotation !elem_of_app in Hp. intros Hp0.
    assert (p.1 ∈ fst <$> TL) as Hpt; [|rewrite Hp0 in Hpt; by apply (sr_tasks_nonnull _ _ Hrep)].
    apply list_elem_of_fmap. destruct p as [pt px]. destruct Hp as [Hp|[Hp|Hp]].
    - apply list_elem_of_fmap in Hp as (z & [= -> ->] & _). by exists (t, l1 ++ x :: l2).
    - apply elem_of_stops in Hp as (lp & Hp & _). exists (pt, lp). split; [done|].
      rewrite E. set_solver.
    - apply list_elem_of_fmap in Hp as (z & [= -> ->] & _). by exists (t, l1 ++ x :: l2). }
  assert (first_stop sL = Ok (p, sL)) as Hfs.
  { apply first_stop_step; [by rewrite /= Ex| |done]. by rewrite /= Et Ex. }
  assert (search (search_fuel sL) p.1 p.2 sL = Ok (r, sL)) as Hsearch.
  { apply (search_ok sL A r B _ p L); [done|done|exact Hr|exact Hnr| |].
    - change ((task_current s, thread_current s) ∉ A). rewrite Et Ex.
      eapply (not_in_prefix A B _ r (t, x)); [|exact (current_last s TL pre t l1 x l2 post Hrep E)].
      rewrite -Erot -ER /rotation fmap_app /= !app_assoc. done.
    - pose proof (rotation_length sL TL pre t l1 x l2 post HrepL E) as Hlen.
      rewrite ER Erot length_app /= in Hlen. lia. }
  assert (∃ yr, thrs sL !! r.2 = Some yr) as [yr Hyr].
  { rewrite /ready_at in Hr. destruct (r.2 =? 0); [done|]. simpl in Hr |- *.
    destruct (_ !! r.2); [by eexists|done]. }
  exists yr. eexists. split; [exact Hyr|]. split.
  { rewrite /scheduler_schedule /bind /gets Et Ex.
    destruct (Z.eqb_spec t 0); [done|]. destruct (Z.eqb_spec x 0); [done|]. cbn [orb].
    rewrite /sched_lock_acquire El /update_thread /bind /read_thread /reads /modify.
    cbn [thrs with_slock with_thrs]. rewrite Hyx lookup_insert_eq.
    rewrite insert_insert_eq. fold (pause status yx). fold sL.
    change (with_thrs (<[x:=pause status yx]> (thrs s)) _) with sL.
    rewrite Hfs Hsearch. cbn [thrs with_current]. rewrite Hyr.
    rewrite /sched_lock_release /modify. cbn [scheduler_lock sc_cpu with_thrs with_current].
    change (scheduler_lock sL) with l. change (sc_cpu sL) with c. rewrite El'.
    cbn [thrs with_slock with_thrs]. rewrite lookup_insert_eq. reflexivity. }
  split; [done|]. split; [done|]. split; [done|]. split; [done|].
  split; [rewrite /sched_frame /=; by destruct (sc_cpu s)|].
  apply (sched_rep_frame (with_thrs (<[r.2 := set_state THREAD_RUNNING yr]> (thrs sL)) sL));
    [by apply (sched_rep_update sL TL r.2 yr)|done|done|]. intros z y _ Hz. by exists y.
Qed.

(** ** The visiting order, seen from the whole list of stops *)

(** [L] is the order in which the search goes round after stop [c]. *)
Definition visit_order (TL : list (Z * list Z)) (c : Z * Z) (L : list (Z * Z)) : Prop :=
  ∃ F1 F2, stops TL = F1 ++ c :: F2 ∧ L = F2 ++ F1 ++ [c].

Lemma stops_cons e TL : stops (e :: TL) = stops_of e ++ stops TL.
Proof. done. Qed.

Lemma stops_split TL t x F1 F2 :
  x ≠ 0 → stops TL = F1 ++ (t, x) :: F2 →
  ∃ pre l1 l2 post, TL = pre ++ (t, l1 ++ x :: l2) :: post ∧
    F1 = stops pre ++ ((t,.) <$> l1) ∧ F2 = ((t,.) <$> l2) ++ stops post.
Proof.
  intros Hx. revert F1. induction TL as [|[u l] TL IH]; intros F1 E; [by destruct F1|].
  rewrite stops_cons in E. apply app_eq_app in E as (k & [[E1 E2]|[-> E2]]).
  - assert (stops_of (u, l) = (u,.) <$> l ∨ k = []) as [Eu|Ek].
    { destruct l as [|y l]; [|by left]. right. rewrite /stops_of /= in E1.
      destruct F1 as [|f F1]; simpl in E1;
        [|injection E1 as _ E1; symmetry in E1; by apply app_nil in E1 as [_ ->]].
      destruct k as [|p k]; [done|]. simpl in E2. injection E2 as <- _. by injection E1 as _ <- _. }
    + rewrite Eu in E1. destruct k as [|p k].
      * simpl in E2. destruct (IH [] (eq_sym E2)) as (pre & l1 & l2 & post & -> & E3 & ->).
        exists ((u, l) :: pre), l1, l2, post. split; [done|]. split; [|done].
        symmetry in E3. apply app_nil in E3 as [Es El].
        rewrite stops_cons Eu E1 Es El !app_nil_r. done.
      * simpl in E2. injection E2 as <- ->.
        apply fmap_app_inv in E1 as (l1 & lx & -> & E3 & ->).
        destruct lx as [|z lx]; [done|]. simplify_eq/=.
        exists [], l1, lx, TL. done.
    + subst k. simpl in E2. rewrite app_nil_r in E1.
      destruct (IH [] (eq_sym E2)) as (pre & l1 & l2 & post & -> & E3 & ->).
      exists ((u, l) :: pre), l1, l2, post. split; [done|]. split; [|done].
      symmetry in E3. apply app_nil in E3 as [Es El]. by rewrite stops_cons E1 Es El !app_nil_r.
  - destruct (IH k E2) as (pre & l1 & l2 & post & -> & -> & ->).
    exists ((u, l) :: pre), l1, l2, post. split; [done|]. split; [|done].
    by rewrite stops_cons -app_assoc.
Qed.

Lemma visit_order_rotation TL t x L :
  x ≠ 0 → visit_order TL (t, x) L →
  ∃ pre l1 l2 post, TL = pre ++ (t, l1 ++ x :: l2) :: post ∧ L = rotation pre t l1 x l2 post.
Proof.
  intros Hx (F1 & F2 & E & ->).
  destruct (stops_split TL t x F1 F2 Hx E) as (pre & l1 & l2 & post & ET & -> & ->).
  exists pre, l1, l2, post. split; [done|].
  by rewrite /rotation /stops bind_app fmap_app /= -!app_assoc.
Qed.

Lemma stops_nodup s TL : sched_rep s TL → NoDup (stops TL).
Proof.
  intros Hr. pose proof (sr_tasks_nodup _ _ Hr) as Hnd.
  assert (∀ t l, (t, l) ∈ TL → NoDup l) as Hl by (intros t l Hin; by apply (NoDup_threads s TL t l Hr)).
  clear Hr. induction TL as [|[t l] TL IH]; [constructor|].
  rewrite fmap_cons in Hnd. apply NoDup_cons in Hnd as [Ht Hnd]. rewrite stops_cons. apply NoDup_app.
  split; [|split].
  - rewrite /stops_of /=. destruct l as [|x l]; [apply NoDup_singleton|].
    apply (NoDup_fmap_2 (t,.) (x :: l)). by apply (Hl t), list_elem_of_here.
  - intros [u z] Hin Hin'. apply Ht. apply elem_of_stops in Hin' as (l' & Hin' & _).
    assert (u = t) as ->.
    { rewrite stops_of_cons in Hin. apply elem_of_cons in Hin as [[= -> _]|Hin]; [done|].
      by apply list_elem_of_fmap in Hin as (? & [= -> _] & _). }
    apply list_elem_of_fmap. by exists (t, l').
  - apply IH; [done|]. intros u l' Hin. apply (Hl u). by right.
Qed.

(** The order in terms of positions on the circle. *)
Lemma visit_lookup TL c L i d :
  NoDup (stops TL) → visit_order TL c L → stops TL !! i = Some c → (d < length (stops TL))%nat →
  L !! d = stops TL !! ((i + 1 + d) mod length (stops TL))%nat.
Proof.
  intros Hnd (F1 & F2 & E & ->) Hi Hd. rewrite E in Hnd, Hi, Hd |- *.
  assert (i = length F1) as ->.
  { eapply NoDup_lookup; [exact Hnd|exact Hi|]. by rewrite lookup_app_r // Nat.sub_diag. }
  rewrite length_app /= in Hd |- *. destruct (decide (d < length F2)%nat) as [Hlt|Hge].
  - rewrite lookup_app_l // Nat.mod_small; [|lia].
    rewrite lookup_app_r; [|lia]. by replace (length F1 + 1 + d - length F1)%nat with (S d) by lia.
  - replace (length F1 + 1 + d)%nat
      with (d - length F2 + 1 * (length F1 + S (length F2)))%nat by lia.
    rewrite Nat.Div0.mod_add Nat.mod_small; [|lia]. rewrite lookup_app_r; [|lia].
    destruct (decide (d - length F2 < length F1)%nat).
    + by rewrite !lookup_app_l.
    + assert (d - length F2 = length F1)%nat as -> by lia.
      by rewrite !lookup_app_r // Nat.sub_diag.
Qed.

Lemma visit_length TL c L : visit_order TL c L → length L = length (stops TL).
Proof. intros (F1 & F2 & -> & ->). rewrite !length_app /=. lia. Qed.

(** Seen from the stop chosen, everything behind it has come that much closer. *)
Lemma visit_order_closer s TL c A r B L' d z :
  sched_rep s TL → visit_order TL c (A ++ r :: B) → visit_order TL r L' →
  (A ++ r :: B) !! d = Some z → (length A < d)%nat → L' !! (d - length A - 1)%nat = Some z.
Proof.
  intros Hr HL HL' Hz Hd. pose proof (stops_nodup s TL Hr) as Hnd.
  pose proof (visit_length TL c _ HL) as Hlen. set n := length (stops TL) in Hlen.
  pose proof (lookup_lt_Some _ _ _ Hz) as Hdn. rewrite Hlen in Hdn.
  assert (∃ i, stops TL !! i = Some c) as [i Hi].
  { destruct HL as (F1 & F2 & -> & _). exists (length F1). by rewrite lookup_app_r // Nat.sub_diag. }
  assert (length A < n)%nat as HA by lia.
  pose proof (visit_lookup TL c _ i (length A) Hnd HL Hi HA) as Hrj.
  rewrite lookup_app_r // Nat.sub_diag /= in Hrj. symmetry in Hrj.
  rewrite (visit_lookup TL c _ i d Hnd HL Hi Hdn) in Hz.
  rewrite (visit_lookup TL r L' _ _ Hnd HL' Hrj); [|fold n; lia]. fold n in Hz |- *. rewrite -Hz. f_equal.
  rewrite -Nat.add_assoc Nat.Div0.add_mod_idemp_l. f_equal. lia.
Qed.

Lemma visit_order_exists TL c : c ∈ stops TL → ∃ L, visit_order TL c L.
Proof. intros (F1 & F2 & E)%list_elem_of_split. exists (F2 ++ F1 ++ [c]). by exists F1, F2. Qed.

Lemma visit_order_elem TL c L p : visit_order TL c L → p ∈ L ↔ p ∈ stops TL.
Proof. intros (F1 & F2 & -> & ->). rewrite !elem_of_app !elem_of_cons elem_of_nil. tauto. Qed.

(** *** The choice *)

Lemma first_ready s (L : list (Z * Z)) p :
  p ∈ L → ready_at s p = true →
  ∃ A r B, L = A ++ r :: B ∧ ready_at s r = true ∧ ∀ q, q ∈ A → ready_at s q = false.
Proof.
  intros Hin Hp. induction L as [|q L IH]; [by apply not_elem_of_nil in Hin|].
  destruct (ready_at s q) eqn:Eq.
  - exists [], q, L. split; [done|]. split; [done|]. intros ? Hn. by apply not_elem_of_nil in Hn.
  - apply elem_of_cons in Hin as [->|Hin]; [congruence|].
    destruct (IH Hin) as (A & r & B & -> & Hr & Hn). exists (q :: A), r, B.
    split; [done|]. split; [done|]. intros q' [->|Hq']%elem_of_cons; [done|by apply Hn].
Qed.

(** The CPU runs a thread of the lists. *)
Definition current_ok (s : sched_state) (TL : list (Z * list Z)) : Prop :=
  thread_current s ≠ 0 ∧ (task_current s, thread_current s) ∈ stops TL.

Lemma schedule_visit s TL status A r B :
  sched_rep s TL → thread_current s ≠ 0 →
  visit_order TL (task_current s, thread_current s) (A ++ r :: B) →
  lock_free (scheduler_lock s) →
  ready_at (paused s status) r = true → (∀ q, q ∈ A → ready_at (paused s status) q = false) →
  ∃ yr s', thrs (paused s status) !! r.2 = Some yr ∧
    scheduler_schedule status s = Ok (context yr, s') ∧
    thrs s' = <[r.2 := set_state THREAD_RUNNING yr]> (thrs (paused s status)) ∧
    task_current s' = r.1 ∧ thread_current s' = r.2 ∧
    lock_free (scheduler_lock s') ∧ sched_frame s' = sched_frame s ∧ sched_rep s' TL.
Proof.
  intros Hrep Hx HL Hlock Hr Hnr.
  destruct (visit_order_rotation TL _ _ _ Hx HL) as (pre & l1 & l2 & post & E & EL).
  by eapply (schedule_run s TL pre _ l1 _ l2 post status A r B).
Qed.

Lemma ready_at_thread s p : ready_at s p = true → p.2 ≠ 0.
Proof. rewrite /ready_at. by destruct (Z.eqb_spec p.2 0). Qed.

(** ** No ready thread: the search never ends *)

Lemma stop_step s TL p :
  sched_rep s TL → p ∈ stops TL → ∃ q, step s p = Some q ∧ q ∈ stops TL.
Proof.
  intros Hrep Hp. destruct p as [t x]. destruct (decide (x = 0)) as [->|Hx].
  - unfold stops in Hp. apply list_elem_of_bind in Hp as ([u l] & Hs & Hin).
    assert (u = t ∧ l = []) as [-> ->].
    { rewrite /stops_of /= in Hs. destruct l as [|y l].
      - apply list_elem_of_singleton in Hs. by injection Hs as ->.
      - apply (list_elem_of_fmap (u,.) (y :: l)) in Hs as (z & [= -> <-] & Hz).
        by destruct (NoDup_threads s TL _ _ Hrep Hin) as [_ ?]. }
    pose proof Hin as (A & B & E)%list_elem_of_split.
    destruct (sr_task _ _ Hrep A t [] B E) as (k & Hk & Hth & Hn).
    assert (∃ t' l', (t', l') ∈ TL ∧ knext k = t') as (t' & l' & Hin' & Hn').
    { rewrite Hn. destruct B as [|[t' l'] B]; [destruct A as [|[t' l'] A]|].
      - by exists t, [].
      - exists t', l'. split; [rewrite E; by left|done].
      - exists t', l'. split; [rewrite E; set_solver|done]. }
    exists (t', first l'). split.
    + by apply (step_last s TL Hrep t [] t' l'); [..|exists k].
    + apply list_elem_of_bind. exists (t', l'). split; [|done]. rewrite stops_of_cons. by left.
  - destruct (visit_order_exists TL _ Hp) as [L HL].
    destruct (visit_order_rotation TL t x L Hx HL) as (pre & l1 & l2 & post & E & EL).
    pose proof (chain_rotation s TL pre t l1 x l2 post Hrep E) as Hc. rewrite -EL in Hc.
    destruct L as [|q L]; [destruct HL as (? & [] & _ & HL); [|done]|].
    { by destruct x0. }
    destruct Hc as [Hs _]. exists q. split; [done|]. apply (visit_order_elem TL _ _ _ HL). by left.
Qed.

Lemma search_hangs s TL fuel p :
  sched_rep s TL → thread_current s ≠ 0 → (∀ q, q ∈ stops TL → ready_at s q = false) →
  p ∈ stops TL → search fuel p.1 p.2 s = Err OutOfFuel.
Proof.
  intros Hrep Hcur Hnr. revert p. induction fuel as [|fuel IH]; intros p Hp; [done|]. cbn [search].
  destruct (stop_step s TL p Hrep Hp) as (q & Hs & Hq). pose proof (Hnr p Hp) as Hnp.
  destruct (Z.eqb_spec p.2 0) as [E0|Hx].
  - rewrite /step E0 /= in Hs. rewrite /bind /read_task /reads.
    destruct (tasks s !! p.1) as [k|]; [|done]. simpl in Hs.
    destruct (tasks s !! knext k) as [k'|]; [|done]. simplify_eq/=. by apply (IH (knext k, threads k')).
  - destruct (step_read s p q Hx Hs) as [y Hy].
    rewrite /ready_at Hy in Hnp. destruct (Z.eqb_spec p.2 0); [done|].
    rewrite {1}/bind {1}/read_thread /reads Hy Hnp {1}/bind (next_stop_step s p q Hx Hs).
    rewrite {1}/bind /gets {1}/bind. destruct (_ && _) eqn:Ec; [|by apply IH].
    apply andb_true_iff in Ec as [_ E2%Z.eqb_eq]. pose proof (Hnr q Hq) as Hnq.
    destruct (stop_step s TL q Hrep Hq) as (q' & Hs' & _).
    destruct (step_read s q q') as [yq Hyq]; [congruence|done|].
    rewrite /ready_at Hyq in Hnq. destruct (Z.eqb_spec q.2 0); [congruence|].
    rewrite {1}/bind /read_thread /reads Hyq Hnq {1}/bind.
    destruct TL as [|[t0 l0] TL]; [by apply not_elem_of_nil in Hp|].
    destruct (sr_task _ _ Hrep [] t0 l0 TL eq_refl) as (k0 & Hk0 & Ht0 & _).
    rewrite {1}/bind /read_task /reads (sr_list _ _ Hrep) /= Hk0 Ht0.
    apply (IH (t0, first l0)). rewrite stops_cons stops_of_cons. by left.
Qed.

(** The heap of threads decides which stops are ready; the rest of the state does not. *)
Lemma ready_at_thrs s s' p : thrs s' = thrs s → ready_at s' p = ready_at s p.
Proof. rewrite /ready_at. by intros ->. Qed.
