(* ===== verification/SchedOps.v ===== *)
(** * Threads: waking, the timer, creation, exit, sleeping

    What the operations of scheduler.c, task.c and timer.c other than the choice of the
    next thread do to the lists of SchedSpec.v. *)

From stdpp Require Import base gmap list numbers.
From S2P Require Import Prelude Spinlock Sched SchedSpec.

(** ** Waking sleepers *)

Definition wake_list (now : Z) (xs : list Z) (m : gmap Z thread) : gmap Z thread :=
  foldl (λ m x, alter (wake_thread now) x m) m xs.

Lemma wake_list_lookup now xs m x :
  NoDup xs →
  wake_list now xs m !! x = if decide (x ∈ xs) then wake_thread now <$> m !! x else m !! x.
Proof.
  revert m. induction xs as [|y xs IH]; intros m Hnd; [done|].
  apply NoDup_cons in Hnd as [Hy Hnd]. cbn [wake_list foldl]. rewrite -/(wake_list now xs _) IH //.
  destruct (decide (x = y)) as [->|Hne].
  - rewrite decide_False // decide_True; [|by left]. by rewrite lookup_alter_eq.
  - rewrite lookup_alter_ne //. repeat case_decide; set_solver.
Qed.

Lemma with_thrs_twice a b s : with_thrs a (with_thrs b s) = with_thrs a s.
Proof. done. Qed.

Lemma alter_insert_lookup {V} (m : gmap Z V) x y f : m !! x = Some y → <[x := f y]> m = alter f x m.
Proof.
  intros Hy. apply map_eq. intros z. destruct (decide (x = z)) as [<-|Hne].
  - by rewrite lookup_insert_eq lookup_alter_eq Hy.
  - by rewrite lookup_insert_ne // lookup_alter_ne.
Qed.

Lemma wake_thread_tnext now y : tnext (wake_thread now y) = tnext y.
Proof. rewrite /wake_thread. by destruct (_ && _). Qed.

Lemma sched_rep_wake s TL now xs :
  sched_rep s TL → sched_rep (with_thrs (wake_list now xs (thrs s)) s) TL.
Proof.
  revert s. induction xs as [|x xs IH]; intros s Hr.
  - by apply (sched_rep_frame s); [..|intros z y _ Hz; exists y].
  - cbn [wake_list foldl]. rewrite -/(wake_list now xs _).
    set s1 := with_thrs (alter (wake_thread now) x (thrs s)) s.
    refine (IH s1 _). rewrite /s1.
    apply (sched_rep_frame s); [done..|]. intros z y _ Hz. simpl.
    destruct (decide (x = z)) as [<-|Hne].
    + rewrite lookup_alter_eq Hz /=. eexists. split; [done|]. apply wake_thread_tnext.
    + rewrite lookup_alter_ne //. by exists y.
Qed.

Section wake.
Context (TL : list (Z * list Z)) (now : Z).

Lemma wake_threads_ok t l2 l1 x fuel s :
  sched_rep s TL → (t, l1 ++ x :: l2) ∈ TL → (length l2 < fuel)%nat →
  wake_threads fuel now t x s = Ok (tt, with_thrs (wake_list now (x :: l2) (thrs s)) s).
Proof.
  revert l1 x fuel s. induction l2 as [|z l2 IH]; intros l1 x [|fuel] s Hr Hin Hf;
    try (simpl in Hf; lia); cbn [wake_threads];
    destruct (sr_thr _ _ Hr t l1 x _ Hin) as (y & Hy & Hn);
    destruct (task_of s TL Hr _ _ Hin) as (k & Hk & Ht);
    rewrite /bind /update_thread /bind /read_thread /read_task /reads /modify Hy;
    cbn [thrs tasks with_thrs]; rewrite lookup_insert_eq Hk wake_thread_tnext Hn Ht.
  - rewrite Z.eqb_refl. by rewrite (alter_insert_lookup _ _ _ _ Hy).
  - destruct (NoDup_threads s TL _ _ Hr Hin) as [Hnd _].
    destruct (Z.eqb_spec (first ((z :: l2) ++ l1 ++ [x])) (first (l1 ++ x :: z :: l2))) as [E|_].
    { by apply first_ne_later in Hnd. }
    cbn [first head app default]. change (default 0 (Some z)) with z.
    rewrite (IH (l1 ++ [x]) z fuel); [| |by rewrite -app_assoc|simpl in Hf; lia].
    + cbn [wake_list foldl thrs with_thrs]. by rewrite (alter_insert_lookup _ _ _ _ Hy).
    + apply (sched_rep_update s TL x y); [done|done|]. apply wake_thread_tnext.
Qed.

Lemma wake_list_app xs ys m : wake_list now (xs ++ ys) m = wake_list now ys (wake_list now xs m).
Proof. by rewrite /wake_list foldl_app. Qed.

Lemma next_task_ne_first s pre t l t' l' post :
  sched_rep s TL → TL = pre ++ (t, l) :: (t', l') :: post → t' ≠ first (fst <$> TL).
Proof.
  intros Hr E. pose proof (sr_tasks_nodup _ _ Hr) as Hnd. rewrite E fmap_app in Hnd |- *.
  by apply first_ne_later in Hnd.
Qed.

Lemma wake_task_threads s t l k :
  sched_rep s TL → (t, l) ∈ TL → tasks s !! t = Some k → threads k = first l →
  (if negb (threads k =? 0) then
     n <- gets (λ s, size (thrs s));; wake_threads n now t (threads k)
   else ret tt) s = Ok (tt, with_thrs (wake_list now l (thrs s)) s).
Proof.
  intros Hr Hin Hk Ht. rewrite Ht. destruct l as [|x l]; [by destruct s|].
  destruct (NoDup_threads s TL _ _ Hr Hin) as [_ H0].
  cbn [first head default]. change (default 0 (Some x)) with x.
  assert (x ≠ 0) as Hx by (intros ->; set_solver).
  rewrite (proj2 (Z.eqb_neq x 0) Hx). cbn [negb]. rewrite /bind /gets.
  apply (wake_threads_ok t l [] x); [done|done|].
  destruct (sched_rep_size s TL Hr) as [_ Hsz].
  apply list_elem_of_split in Hin as (A & B & E).
  rewrite E bind_app in Hsz. change (((t, x :: l) :: B) ≫= snd) with ((x :: l) ++ (B ≫= snd)) in Hsz.
  rewrite !length_app /= in Hsz. lia.
Qed.

Lemma wake_tasks_ok post pre t l fuel s :
  sched_rep s TL → TL = pre ++ (t, l) :: post → (length post < fuel)%nat →
  wake_tasks fuel now t s =
    Ok (tt, with_thrs (wake_list now (l ++ (post ≫= snd)) (thrs s)) s).
Proof.
  revert pre t l fuel s. induction post as [|[t' l'] post IH]; intros pre t l [|fuel] s Hr E Hf;
    try (simpl in Hf; lia); cbn [wake_tasks];
    destruct (sr_task _ _ Hr pre t l _ E) as (k & Hk & Ht & Hn);
    assert ((t, l) ∈ TL) as Hin by (rewrite E; set_solver);
    rewrite {1}/bind {1}/read_task /reads Hk {1}/bind (wake_task_threads s t l k Hr Hin Hk Ht);
    rewrite /bind /read_task /reads /gets; cbn [tasks task_list with_thrs];
    rewrite Hk Hn (sr_list _ _ Hr).
  - rewrite E app_nil_l Z.eqb_refl. change ([] ≫= snd) with ([] : list Z). by rewrite app_nil_r.
  - destruct (Z.eqb_spec (first (fst <$> ((t', l') :: post) ++ pre ++ [(t, l)])) (first (fst <$> TL))) as [E'|_].
    { by apply (next_task_ne_first s pre t l t' l' post Hr E) in E'. }
    change (first (fst <$> ((t', l') :: post) ++ pre ++ [(t, l)])) with t'.
    rewrite (IH (pre ++ [(t, l)]) t' l' fuel); [|by apply sched_rep_wake|by rewrite -app_assoc|simpl in Hf; lia].
    cbn [thrs with_thrs]. change (((t', l') :: post) ≫= snd) with (l' ++ (post ≫= snd)).
    by rewrite (wake_list_app l).
Qed.
End wake.

(** ** The scheduler lock *)

Lemma sched_acquire_ok s :
  lock_free (scheduler_lock s) →
  ∃ l c, sched_lock_acquire s = Ok (rflags (sc_cpu s), with_slock l c s) ∧ lock_held l.
Proof.
  intros Hl. destruct (spinlock_acquire_free (scheduler_lock s) (sc_cpu s) Hl) as (l & c & E & Hh & _).
  exists l, c. by rewrite /sched_lock_acquire E.
Qed.

Lemma sched_release_ok s flags :
  lock_held (scheduler_lock s) →
  ∃ l, sched_lock_release flags s = Ok (tt, with_slock l (mkCpu flags) s) ∧ lock_free l.
Proof.
  intros Hl. destruct (spinlock_release_held (scheduler_lock s) flags (sc_cpu s) Hl) as (l & E & Hf).
  exists l. by rewrite /sched_lock_release /modify E.
Qed.

Lemma mkCpu_rflags c : mkCpu (rflags c) = c.
Proof. by destruct c. Qed.

Lemma sched_rep_slock s TL l c : sched_rep s TL → sched_rep (with_slock l c s) TL.
Proof. intros Hr. by apply (sched_rep_frame s); [..|intros z y _ Hz; exists y]. Qed.

(** The time of a call, when the clock has been calibrated. *)
Definition clock_ok (s : sched_state) : Prop := tsc_freq_hz s / 1000 ≠ 0.
Definition uptime (s : sched_state) (tsc : Z) : Z :=
  u64 (tsc - tsc_boot_time s) / (tsc_freq_hz s / 1000).

Lemma uptime_ok s tsc : clock_ok s → timer_get_uptime_ms tsc s = Ok (uptime s tsc, s).
Proof.
  rewrite /clock_ok /timer_get_uptime_ms /bind /gets. intros Hc.
  by destruct (Z.eqb_spec (tsc_freq_hz s / 1000) 0).
Qed.

Lemma wake_ok s TL tsc :
  sched_rep s TL → TL ≠ [] → lock_free (scheduler_lock s) → clock_ok s →
  ∃ l, lock_free l ∧ scheduler_wake_sleeping_threads tsc s =
    Ok (tt, with_slock l (sc_cpu s) (with_thrs (wake_list (uptime s tsc) (TL ≫= snd) (thrs s)) s)).
Proof.
  intros Hr Hne Hl Hc. destruct TL as [|[t l0] TL]; [done|].
  assert (task_list s = t) as Etl by apply Hr.
  assert (t ≠ 0) as Ht0.
  { intros ->. apply (sr_tasks_nonnull _ _ Hr). by left. }
  destruct (sched_acquire_ok s Hl) as (l & c & Ea & Hh).
  assert (sched_rep (with_slock l c s) ((t, l0) :: TL)) as Hr1 by (by apply sched_rep_slock).
  pose proof (wake_tasks_ok _ (uptime s tsc) TL [] t l0 (size (tasks s)) (with_slock l c s) Hr1 eq_refl) as Hw.
  destruct (sched_rep_size s _ Hr) as [Hsz _]. specialize (Hw ltac:(simpl in Hsz; lia)).
  set s2 := with_thrs _ (with_slock l c s) in Hw.
  destruct (sched_release_ok s2 (rflags (sc_cpu s))) as (l' & Er & Hf); [done|].
  exists l'. split; [done|].
  rewrite /scheduler_wake_sleeping_threads {1}/bind {1}/gets Etl.
  destruct (Z.eqb_spec t 0); [done|]. rewrite {1}/bind Ea {1}/bind.
  rewrite (uptime_ok (with_slock l c s) tsc Hc) {1}/bind {1}/gets {1}/bind.
  change (uptime (with_slock l c s) tsc) with (uptime s tsc).
  change (tasks (with_slock l c s)) with (tasks s). rewrite Hw Er mkCpu_rflags. done.
Qed.

(** ** Rings

    Both lists are circular: the last element points at the first. *)

Definition ring (nxt : Z → option Z) (l : list Z) : Prop :=
  ∀ l1 x l2, l = l1 ++ x :: l2 → nxt x = Some (first (l2 ++ l1 ++ [x])).

Definition task_next (s : sched_state) (t : Z) : option Z := knext <$> tasks s !! t.
Definition thread_next (s : sched_state) (x : Z) : option Z := tnext <$> thrs s !! x.

Lemma ring_snoc nxt nxt' l new :
  NoDup l → new ∉ l → ring nxt l →
  nxt' new = Some (first (l ++ [new])) →
  (∀ x, last l = Some x → nxt' x = Some new) →
  (∀ x, x ∈ l → last l ≠ Some x → nxt' x = nxt x) →
  ring nxt' (l ++ [new]).
Proof.
  intros Hnd Hnew Hr Hn Hl Ho l1 x l2 E. destruct l2 as [|z l2 _] using rev_ind.
  - apply app_inj_tail in E as [<- <-]. by rewrite Hn.
  - rewrite app_comm_cons app_assoc in E. apply app_inj_tail in E as [-> <-].
    destruct l2 as [|y l2 _] using rev_ind.
    + rewrite Hl ?last_snoc //.
    + rewrite (Ho x); [|set_solver|].
      * rewrite (Hr l1 x (l2 ++ [y]) eq_refl). by destruct l2.
      * rewrite app_comm_cons app_assoc last_snoc. intros [= ->].
        apply NoDup_app in Hnd as (_ & _ & Hnd). apply NoDup_cons in Hnd as [Hy _].
        apply Hy. apply elem_of_app. right. by left.
Qed.

Lemma sched_rep_rings s TL :
  sched_rep s TL →
  ring (task_next s) (fst <$> TL) ∧ ∀ t l, (t, l) ∈ TL → ring (thread_next s) l.
Proof.
  intros Hr. split.
  - intros l1 t l2 E. apply fmap_app_inv in E as (pre & e & E1 & E2 & ET).
    destruct e as [|[t' l] post]; [done|]. simplify_eq/=.
    destruct (sr_task _ _ Hr pre t' l post eq_refl) as (k & Hk & _ & Hn).
    by rewrite /task_next Hk /= Hn !fmap_app.
  - intros t l Hin l1 x l2 ->. destruct (sr_thr _ _ Hr t l1 x l2 Hin) as (y & Hy & Hn).
    by rewrite /thread_next Hy /= Hn.
Qed.

Lemma sched_rep_intro s TL :
  NoDup (fst <$> TL) → 0 ∉ fst <$> TL → NoDup (TL ≫= snd) → 0 ∉ TL ≫= snd →
  task_list s = first (fst <$> TL) →
  ring (task_next s) (fst <$> TL) →
  (∀ t l, (t, l) ∈ TL → ring (thread_next s) l ∧
     ∃ k, tasks s !! t = Some k ∧ threads k = first l) →
  sched_rep s TL.
Proof.
  intros H1 H2 H3 H4 H5 Hrk Hrt. split; [done|done| |done|done| |done].
  - intros pre t l post ->. destruct (Hrt t l) as (_ & k & Hk & Hl); [set_solver|].
    exists k. split; [done|]. split; [done|].
    specialize (Hrk (fst <$> pre) t (fst <$> post)). rewrite fmap_app /task_next Hk /= in Hrk.
    specialize (Hrk eq_refl). injection Hrk as ->. by rewrite !fmap_app.
  - intros t l1 x l2 Hin. destruct (Hrt _ _ Hin) as [Hring _].
    specialize (Hring l1 x l2 eq_refl). rewrite /thread_next in Hring.
    destruct (thrs s !! x) as [y|]; [|done]. exists y. split; [done|]. by injection Hring.
Qed.

(** *** The walk to the end of a ring *)
Lemma last_task_ok s TL post pre t l fuel :
  sched_rep s TL → TL = pre ++ (t, l) :: post → (length post < fuel)%nat →
  ∃ z, last (fst <$> TL) = Some z ∧ last_task fuel t s = Ok (z, s).
Proof.
  intros Hr. revert pre t l fuel. induction post as [|[t' l'] post IH]; intros pre t l [|fuel] E Hf;
    try (simpl in Hf; lia); cbn [last_task];
    destruct (sr_task _ _ Hr pre t l _ E) as (k & Hk & _ & Hn);
    rewrite /bind /read_task /reads /gets Hk Hn (sr_list _ _ Hr).
  - exists t. split; [by rewrite E fmap_app last_snoc|]. by rewrite E app_nil_l Z.eqb_refl.
  - destruct (Z.eqb_spec (first (fst <$> ((t', l') :: post) ++ pre ++ [(t, l)])) (first (fst <$> TL))) as [E'|_].
    { by apply (next_task_ne_first _ s pre t l t' l' post Hr E) in E'. }
    cbn [negb]. apply (IH (pre ++ [(t, l)]) t' l'); [by rewrite -app_assoc|simpl in Hf; lia].
Qed.

Lemma last_thread_ok s TL t l2 l1 x fuel :
  sched_rep s TL → (t, l1 ++ x :: l2) ∈ TL → (length l2 < fuel)%nat →
  ∃ z, last (l1 ++ x :: l2) = Some z ∧ last_thread fuel t x s = Ok (z, s).
Proof.
  intros Hr. revert l1 x fuel. induction l2 as [|z l2 IH]; intros l1 x [|fuel] Hin Hf;
    try (simpl in Hf; lia); cbn [last_thread];
    destruct (sr_thr _ _ Hr t l1 x _ Hin) as (y & Hy & Hn);
    destruct (task_of s TL Hr _ _ Hin) as (k & Hk & Ht);
    rewrite /bind /read_thread /read_task /reads Hy Hk Hn Ht.
  - exists x. split; [by rewrite last_snoc|]. by rewrite app_nil_l Z.eqb_refl.
  - destruct (NoDup_threads s TL _ _ Hr Hin) as [Hnd _].
    destruct (Z.eqb_spec (first ((z :: l2) ++ l1 ++ [x])) (first (l1 ++ x :: z :: l2))) as [E|_].
    { by apply first_ne_later in Hnd. }
    cbn [negb]. destruct (IH (l1 ++ [x]) z fuel) as (w & Hw & E); [by rewrite -app_assoc|simpl in Hf; lia|].
    exists w. by rewrite -app_assoc in Hw.
Qed.

(** ** Creating tasks and threads *)

(** A struct outside the list may be written freely. *)
Lemma sched_rep_other_task s s' TL new k :
  sched_rep s TL → new ∉ fst <$> TL → tasks s' = <[new := k]> (tasks s) →
  thrs s' = thrs s → task_list s' = task_list s → sched_rep s' TL.
Proof.
  intros Hr Hnew Et Ex El. destruct (sched_rep_rings s TL Hr) as [Hk Hth].
  assert (∀ t, t ∈ fst <$> TL → tasks s' !! t = tasks s !! t) as Hsame.
  { intros t Ht. rewrite Et lookup_insert_ne //. by intros ->. }
  apply sched_rep_intro; [apply Hr..|by rewrite El; apply Hr| |].
  - intros l1 t l2 E. rewrite /task_next Hsame; [by apply Hk|]. rewrite E. set_solver.
  - intros t l Hin. split.
    + intros l1 x l2 E. rewrite /thread_next Ex. by apply (Hth t l Hin).
    + rewrite Hsame; [by apply (task_of s TL Hr)|]. apply list_elem_of_fmap. by exists (t, l).
Qed.

Lemma sched_rep_other_thread s s' TL new y :
  sched_rep s TL → new ∉ TL ≫= snd → thrs s' = <[new := y]> (thrs s) →
  tasks s' = tasks s → task_list s' = task_list s → sched_rep s' TL.
Proof.
  intros Hr Hnew Ex Et El. apply (sched_rep_frame s); [done..|]. intros x yx Hin Hx.
  exists yx. split; [|done]. rewrite Ex lookup_insert_ne //. by intros ->.
Qed.

Lemma sched_rep_add_task s s' TL new k :
  sched_rep s TL → new ∉ fst <$> TL → new ≠ 0 →
  threads k = 0 → knext k = first (fst <$> TL ++ [(new, [])]) →
  tasks s' = <[new := k]> (default (tasks s)
               (z ← last (fst <$> TL); Some (alter (set_knext new) z (tasks s)))) →
  thrs s' = thrs s → task_list s' = first (fst <$> TL ++ [(new, [])]) →
  sched_rep s' (TL ++ [(new, [])]).
Proof.
  intros Hr Hnew H0 Hkt Hkn Et Ex El. destruct (sched_rep_rings s TL Hr) as [Hk Hth].
  assert (∀ t, t ∈ fst <$> TL → last (fst <$> TL) ≠ Some t → tasks s' !! t = tasks s !! t) as Hsame.
  { intros t Ht Hl. rewrite Et lookup_insert_ne; [|by intros ->].
    destruct (last (fst <$> TL)) as [z|]; simpl; [|done]. rewrite lookup_alter_ne //. by intros ->. }
  assert (∀ t, last (fst <$> TL) = Some t → tasks s' !! t = set_knext new <$> tasks s !! t) as Hlast.
  { intros t Hl. rewrite Et Hl /= lookup_insert_ne.
    - by rewrite lookup_alter_eq.
    - intros ->. by apply Hnew, last_Some_elem_of. }
  assert ((TL ++ [(new, [])]) ≫= snd = TL ≫= snd) as Eb by (rewrite bind_app /=; by rewrite app_nil_r).
  apply sched_rep_intro; rewrite ?Eb ?fmap_app.
  - apply NoDup_app. split; [apply Hr|]. split; [set_solver|apply NoDup_singleton].
  - apply not_elem_of_app. split; [apply Hr|]. simpl. set_solver.
  - apply Hr.
  - apply Hr.
  - by rewrite El fmap_app.
  - apply (ring_snoc (task_next s)); [apply Hr|done|done| | |].
    + rewrite /task_next Et lookup_insert_eq /= Hkn. by rewrite fmap_app.
    + intros t Hl. rewrite /task_next (Hlast t Hl).
      pose proof (last_Some_elem_of _ _ Hl) as ([t' l] & -> & Hin)%list_elem_of_fmap.
      destruct (task_of s TL Hr _ _ Hin) as (kt & Hkt' & _). by rewrite /= Hkt'.
    + intros t Ht Hl. by rewrite /task_next Hsame.
  - intros t l Hin. split.
    + apply elem_of_app in Hin as [Hin|Hin].
      * intros l1 x l2 E. rewrite /thread_next Ex. by apply (Hth t l Hin).
      * apply list_elem_of_singleton in Hin. injection Hin as -> ->. intros [] ? ?; discriminate.
    + apply elem_of_app in Hin as [Hin|Hin].
      * destruct (task_of s TL Hr _ _ Hin) as (kt & Hkt' & Hft).
        destruct (decide (last (fst <$> TL) = Some t)) as [Hl|Hl].
        -- rewrite (Hlast t Hl) Hkt' /=. by eexists.
        -- rewrite Hsame //; [by exists kt|]. apply list_elem_of_fmap. by exists (t, l).
      * apply list_elem_of_singleton in Hin. injection Hin as -> ->.
        rewrite Et lookup_insert_eq. by exists k.
Qed.

Lemma with_task_list_same s t : task_list s = t → with_task_list t s = s.
Proof. intros <-. by destruct s. Qed.

Lemma task_create_ok s TL new kvas nm :
  sched_rep s TL → lock_free (scheduler_lock s) → new ≠ 0 → new ∉ fst <$> TL →
  Z.of_nat (length nm) < TASK_NAME_MAX_LENGTH →
  ∃ s', task_create new kvas (Some nm) s = Ok (new, s') ∧
    sched_rep s' (TL ++ [(new, [])]) ∧
    tasks s' !! new = Some (mkTask (next_pid s) nm kvas 0 (first (fst <$> TL ++ [(new, [])]))) ∧
    (∀ u, u ≠ new → set_knext 0 <$> tasks s' !! u = set_knext 0 <$> tasks s !! u) ∧
    tsc_freq_hz s' = tsc_freq_hz s ∧
    next_pid s' = u64 (next_pid s + 1) ∧ next_tid s' = next_tid s ∧ thrs s' = thrs s ∧
    task_current s' = task_current s ∧ thread_current s' = thread_current s ∧
    sc_cpu s' = sc_cpu s ∧ lock_free (scheduler_lock s') ∧
    frames s' = frames s ∧ stack_words s' = stack_words s.
Proof.
  intros Hr Hl H0 Hnew Hnm.
  set s1 := with_ids (u64 (next_pid s + 1)) (next_tid s)
              (with_tasks (<[new := mkTask (next_pid s) nm kvas 0 0]> (tasks s)) s).
  destruct (sched_acquire_ok s1 Hl) as (l & c & Ea & Hh).
  set s2 := with_slock l c s1. fold s2 in Ea.
  assert (sched_rep s2 TL) as Hr2 by by eapply (sched_rep_other_task s).
  assert (tasks s2 !! new = Some (mkTask (next_pid s) nm kvas 0 0)) as Hn2 by apply lookup_insert_eq.
  set kf := mkTask (next_pid s) nm kvas 0 (first (fst <$> TL ++ [(new, [])])).
  assert (∃ T, (T = <[new := kf]> (default (tasks s2)
                   (z ← last (fst <$> TL); Some (alter (set_knext new) z (tasks s2))))) ∧
    (if task_list s2 =? 0 then
        modify (with_task_list new);;; update_task new (set_knext new)
      else
        n <- gets (λ s, size (tasks s));; last <- last_task n (task_list s2);;
        update_task last (set_knext new);;; update_task new (set_knext (task_list s2))) s2 =
      Ok (tt, with_task_list (first (fst <$> TL ++ [(new, [])])) (with_tasks T s2)))
    as (T & ET & Eif).
  { rewrite (sr_list _ _ Hr2). destruct TL as [|[t0 l0] TL].
    - eexists. split; [done|]. cbn [first head default fmap list_fmap]. rewrite Z.eqb_refl.
      rewrite /bind /modify /update_task /bind /read_task /reads. cbn [tasks with_task_list].
      rewrite Hn2. done.
    - change (first (fst <$> (t0, l0) :: TL)) with t0.
      change (first (fst <$> ((t0, l0) :: TL) ++ [(new, [])])) with t0 in kf |- *.
      assert (t0 ≠ 0) as Ht0 by (intros ->; apply (sr_tasks_nonnull _ _ Hr); by left).
      rewrite (proj2 (Z.eqb_neq t0 0) Ht0) /bind /gets.
      destruct (last_task_ok s2 _ TL [] t0 l0 (size (tasks s2)) Hr2 eq_refl) as (z & Hz & El).
      { destruct (sched_rep_size s2 _ Hr2) as [Hsz _]. cbn [length] in Hsz. lia. }
      rewrite El /update_task /bind /read_task /reads /modify.
      pose proof (last_Some_elem_of _ _ Hz) as ([z' lz] & -> & Hin)%list_elem_of_fmap.
      destruct (task_of s2 _ Hr2 _ _ Hin) as (kz & Hkz & _). cbn [fst].
      assert (new ≠ z') as Hne.
      { intros ->. apply Hnew. apply list_elem_of_fmap. by exists (z', lz). }
      rewrite Hkz. cbn [tasks with_tasks]. rewrite lookup_insert_ne // Hn2.
      eexists. split; [done|]. rewrite Hz. cbn [mbind option_bind default fst].
      rewrite (alter_insert_lookup _ _ _ _ Hkz). rewrite (with_task_list_same _ t0) //.
      exact (sr_list _ _ Hr2). }
  set s3 := with_task_list (first (fst <$> TL ++ [(new, [])])) (with_tasks T s2).
  destruct (sched_release_ok s3 (rflags (sc_cpu s)) Hh) as (l' & Er & Hf).
  exists (with_slock l' (sc_cpu s) s3). split; [|split].
  - rewrite /task_create. rewrite (proj2 (Z.eqb_neq new 0) H0).
    rewrite (proj2 (Z.leb_gt _ _) Hnm) {1}/bind /gets {1}/bind {1}/bind /modify {1}/bind.
    fold s1. rewrite {1}/bind Ea {1}/bind. fold s2. rewrite {1}/bind.
    rewrite Eif {1}/bind. fold s3. change (rflags (sc_cpu s1)) with (rflags (sc_cpu s)).
    rewrite Er mkCpu_rflags. done.
  - by apply (sched_rep_add_task s2 _ TL new kf).
  - split; [by rewrite /= ET lookup_insert_eq|]. split; [|done].
    intros u Hu. rewrite /= ET lookup_insert_ne //. destruct (last (fst <$> TL)) as [z|]; simpl.
    + destruct (decide (z = u)) as [->|Hne].
      * rewrite lookup_alter_eq lookup_insert_ne //. by destruct (tasks s !! u).
      * by rewrite lookup_alter_ne // lookup_insert_ne.
    + by rewrite lookup_insert_ne.
Qed.

(** The threads of a task are not those of another. *)
Lemma threads_disjoint s A t l B u m x :
  sched_rep s (A ++ (t, l) :: B) → (u, m) ∈ A ++ B → x ∈ l → x ∉ m.
Proof.
  intros Hr Hin Hx Hm. pose proof (sr_thr_nodup _ _ Hr) as Hnd. rewrite bind_app in Hnd.
  change (((t, l) :: B) ≫= snd) with (l ++ (B ≫= snd)) in Hnd.
  apply NoDup_app in Hnd as (_ & Hd1 & Hnd). apply NoDup_app in Hnd as (_ & Hd2 & _).
  apply elem_of_app in Hin as [Hin|Hin].
  - apply (Hd1 x); [apply list_elem_of_bind; by exists (u, m)|]. apply elem_of_app. by left.
  - apply (Hd2 x); [done|]. apply list_elem_of_bind. by exists (u, m).
Qed.

Lemma elem_of_middle {X} (A B : list X) e f : f ∈ A ++ e :: B ↔ f = e ∨ f ∈ A ++ B.
Proof. rewrite !elem_of_app elem_of_cons. tauto. Qed.

Lemma bind_middle (A B : list (Z * list Z)) t l :
  (A ++ (t, l) :: B) ≫= snd ≡ₚ l ++ ((A ++ B) ≫= snd).
Proof.
  rewrite !bind_app. change (((t, l) :: B) ≫= snd) with (l ++ (B ≫= snd)).
  by rewrite Permutation_app_swap_app.
Qed.

(** Replacing the threads of one task. *)
Lemma sched_rep_set_threads s s' A t l B l' :
  sched_rep s (A ++ (t, l) :: B) →
  NoDup l' → 0 ∉ l' → (∀ x, x ∈ l' → x ∉ (A ++ B) ≫= snd) →
  tasks s' = alter (set_threads (first l')) t (tasks s) → task_list s' = task_list s →
  ring (thread_next s') l' →
  (∀ x, x ∈ (A ++ B) ≫= snd → thrs s' !! x = thrs s !! x) →
  sched_rep s' (A ++ (t, l') :: B).
Proof.
  intros Hr Hnd H0 Hdis Et El Hring Hthr. destruct (sched_rep_rings s _ Hr) as [Hk Hth].
  assert (fst <$> A ++ (t, l') :: B = fst <$> A ++ (t, l) :: B) as Ef by by rewrite !fmap_app.
  apply sched_rep_intro; rewrite ?Ef; [apply Hr|apply Hr| | |by rewrite El; apply Hr| |].
  - rewrite bind_middle. pose proof (sr_thr_nodup _ _ Hr) as Hn. rewrite bind_middle in Hn.
    apply NoDup_app. split; [done|]. split; [done|]. by apply NoDup_app in Hn as (_ & _ & Hn).
  - rewrite bind_middle. pose proof (sr_thr_nonnull _ _ Hr) as Hn. rewrite bind_middle in Hn.
    set_solver.
  - intros l1 x l2 E. rewrite -(Hk l1 x l2 E) /task_next Et. destruct (decide (t = x)) as [<-|Hne].
    + rewrite lookup_alter_eq. by destruct (tasks s !! t).
    + by rewrite lookup_alter_ne.
  - intros u m [[= -> ->]|Hin]%elem_of_middle.
    + split; [done|]. destruct (task_of s _ Hr t l) as (k & Hkk & _); [set_solver|].
      rewrite Et lookup_alter_eq Hkk /=. by eexists.
    + assert ((u, m) ∈ A ++ (t, l) :: B) as Hin' by (apply elem_of_middle; by right). split.
      * intros l1 x l2 E. rewrite /thread_next Hthr; [by apply (Hth u m)|].
        apply list_elem_of_bind. exists (u, m). split; [|done]. rewrite E. set_solver.
      * destruct (task_of s _ Hr u m Hin') as (k & Hkk & Hkt). exists k. split; [|done].
        rewrite Et lookup_alter_ne //. intros ->. pose proof (sr_tasks_nodup _ _ Hr) as Hn.
        rewrite fmap_app fmap_cons /= in Hn. apply NoDup_app in Hn as (_ & Hd & Hn).
        apply NoDup_cons in Hn as [Hu _].
        assert (u ∈ fst <$> A ++ B) as Hu' by (apply list_elem_of_fmap; by exists (u, m)).
        rewrite fmap_app elem_of_app in Hu'. set_solver.
Qed.

Lemma alter_same {V} (m : gmap Z V) x y f : m !! x = Some y → f y = y → alter f x m = m.
Proof.
  intros Hy Hf. apply map_eq. intros z. destruct (decide (x = z)) as [<-|Hne].
  - by rewrite lookup_alter_eq Hy /= Hf.
  - by rewrite lookup_alter_ne.
Qed.

Lemma set_threads_same k z : threads k = z → set_threads z k = k.
Proof. intros <-. by destruct k. Qed.

(** Linking the struct [new], already written, at the end of the ring of [t]. *)
Lemma append_thread_ok s A t l B new y :
  sched_rep s (A ++ (t, l) :: B) → new ≠ 0 → new ∉ (A ++ (t, l) :: B) ≫= snd →
  thrs s !! new = Some y →
  ∃ s', (k <- read_task t;;
    if threads k =? 0 then
       update_task t (set_threads new);;;
       update_thread new (set_tnext new)
     else
       n <- gets (λ s, size (thrs s));;
       last <- last_thread n t (threads k);;
       update_thread last (set_tnext new);;;
       k <- read_task t;;
       update_thread new (set_tnext (threads k))) s = Ok (tt, s') ∧
    tasks s' = alter (set_threads (first (l ++ [new]))) t (tasks s) ∧
    thrs s' = <[new := set_tnext (first (l ++ [new])) y]> (default (thrs s)
                (z ← last l; Some (alter (set_tnext new) z (thrs s)))) ∧
    s' = with_thrs (thrs s') (with_tasks (tasks s') s).
Proof.
  intros Hr H0 Hnew Hy. set TL := A ++ (t, l) :: B in Hr, Hnew.
  assert ((t, l) ∈ TL) as Hin by (apply elem_of_middle; by left).
  destruct (task_of s TL Hr t l Hin) as (k & Hk & Ht).
  destruct (NoDup_threads s TL t l Hr Hin) as [Hnd Hl0].
  rewrite {1}/bind {1}/read_task /reads Hk Ht. destruct l as [|x l].
  - cbn [first head default]. rewrite Z.eqb_refl.
    rewrite /bind /update_task /update_thread /bind /read_task /read_thread /reads /modify Hk.
    cbn [thrs tasks with_tasks]. rewrite Hy. eexists. split; [done|]. cbn [thrs tasks with_thrs with_tasks].
    split; [by rewrite (alter_insert_lookup _ _ _ _ Hk)|]. split; [done|by destruct s].
  - change (first (x :: l)) with x. change (first ((x :: l) ++ [new])) with x.
    assert (x ≠ 0) as Hx by (intros ->; apply Hl0; by left).
    rewrite (proj2 (Z.eqb_neq x 0) Hx) {1}/bind {1}/gets {1}/bind.
    destruct (last_thread_ok s TL t l [] x (size (thrs s)) Hr Hin) as (z & Hz & El).
    { destruct (sched_rep_size s TL Hr) as [_ Hsz]. rewrite /TL bind_middle length_app in Hsz.
      cbn [length] in Hsz. lia. }
    rewrite El. cbn [app] in Hz. pose proof (last_Some_elem_of _ _ Hz) as Hzin.
    assert (new ≠ z) as Hne.
    { intros ->. apply Hnew. rewrite /TL bind_middle. apply elem_of_app. by left. }
    assert (∃ yz, thrs s !! z = Some yz) as [yz Hyz].
    { apply list_elem_of_split in Hzin as (l1 & l2 & E). rewrite E in Hin.
      destruct (sr_thr _ _ Hr t l1 z l2 Hin) as (yz & Hyz & _). by exists yz. }
    rewrite /bind /update_thread /bind /read_task /read_thread /reads /modify Hyz.
    cbn [thrs tasks with_thrs]. rewrite Hk Ht lookup_insert_ne // Hy.
    eexists. split; [done|]. cbn [thrs tasks with_thrs with_tasks].
    split; [symmetry; apply (alter_same _ _ k); [done|]; by apply set_threads_same|].
    split; [|by destruct s]. rewrite Hz. cbn [mbind option_bind default].
    by rewrite (alter_insert_lookup _ _ _ _ Hyz).
Qed.

Lemma sched_rep_append s s' A t l B new y :
  sched_rep s (A ++ (t, l) :: B) → new ≠ 0 → new ∉ (A ++ (t, l) :: B) ≫= snd →
  tnext y = first (l ++ [new]) →
  tasks s' = alter (set_threads (first (l ++ [new]))) t (tasks s) → task_list s' = task_list s →
  thrs s' = <[new := y]> (default (thrs s) (z ← last l; Some (alter (set_tnext new) z (thrs s)))) →
  sched_rep s' (A ++ (t, l ++ [new]) :: B).
Proof.
  intros Hr H0 Hnew Hyn Et El Ex.
  assert ((t, l) ∈ A ++ (t, l) :: B) as Hin by (apply elem_of_middle; by left).
  destruct (NoDup_threads s _ t l Hr Hin) as [Hnd Hl0]. rewrite bind_middle in Hnew.
  assert (∀ x, x ≠ new → last l ≠ Some x → thrs s' !! x = thrs s !! x) as Hsame.
  { intros x Hx Hl. rewrite Ex lookup_insert_ne //. destruct (last l) as [z|]; simpl; [|done].
    rewrite lookup_alter_ne //. by intros ->. }
  apply (sched_rep_set_threads s s' A t l B); [done| | | |done|done| |].
  - apply NoDup_app. split; [done|]. split; [set_solver|apply NoDup_singleton].
  - set_solver.
  - intros x [Hx| ->%list_elem_of_singleton]%elem_of_app; [|set_solver].
    intros ([u m] & Hm & Hin')%list_elem_of_bind.
    by apply (threads_disjoint s A t l B u m x).
  - apply (ring_snoc (thread_next s)); [done|set_solver| | | |].
    + by apply (sched_rep_rings s _ Hr) in Hin.
    + by rewrite /thread_next Ex lookup_insert_eq /= Hyn.
    + intros x Hx. pose proof (last_Some_elem_of _ _ Hx) as Hxin.
      rewrite /thread_next Ex Hx /= lookup_insert_ne; [|intros ->; set_solver]. rewrite lookup_alter_eq.
      apply list_elem_of_split in Hxin as (l1 & l2 & ->).
      by destruct (sr_thr _ _ Hr t l1 x l2 Hin) as (yz & -> & _).
    + intros x Hx Hl. rewrite /thread_next Hsame //. intros ->. set_solver.
  - intros x Hx. apply Hsame; [intros ->; set_solver|]. intros Hl.
    apply last_Some_elem_of in Hl. apply list_elem_of_bind in Hx as ([u m] & Hm & Hin').
    by apply (threads_disjoint s A t l B u m x).
Qed.

(** The thread struct that [task_create_thread] links. *)
Definition created_thread (s : sched_state) (sp next : Z) : thread :=
  mkThread (next_tid s) sp THREAD_READY THREAD_INITIAL_TICKS 0 next 0.

Lemma task_create_thread_ok s A t l B exit_fn entry new stack :
  let ret_addr := u64 (u64 (stack + THREAD_INITIAL_STACK_SIZE) - 8) in
  let sp := u64 (ret_addr - sizeof_cpu_status) in
  sched_rep s (A ++ (t, l) :: B) → lock_free (scheduler_lock s) →
  new ≠ 0 → new ∉ (A ++ (t, l) :: B) ≫= snd → entry ≠ 0 → stack ≠ 0 →
  ∃ s', task_create_thread exit_fn t entry new stack s = Ok (new, s') ∧
    sched_rep s' (A ++ (t, l ++ [new]) :: B) ∧
    thrs s' !! new = Some (created_thread s sp (first (l ++ [new]))) ∧
    (∀ x, x ≠ new → set_tnext 0 <$> thrs s' !! x = set_tnext 0 <$> thrs s !! x) ∧
    tasks s' = alter (set_threads (first (l ++ [new]))) t (tasks s) ∧
    tsc_freq_hz s' = tsc_freq_hz s ∧
    frames s' = <[sp := initial_frame entry ret_addr]> (frames s) ∧
    stack_words s' = <[ret_addr := exit_fn]> (stack_words s) ∧
    next_tid s' = u64 (next_tid s + 1) ∧ next_pid s' = next_pid s ∧
    task_current s' = task_current s ∧ thread_current s' = thread_current s ∧
    sc_cpu s' = sc_cpu s ∧ lock_free (scheduler_lock s').
Proof.
  intros ret_addr sp Hr Hl H0 Hnew He Hs. set TL := A ++ (t, l) :: B in Hr, Hnew.
  assert (t ≠ 0) as Ht0.
  { intros ->. apply (sr_tasks_nonnull _ _ Hr). apply list_elem_of_fmap. exists (0, l).
    split; [done|]. apply elem_of_middle. by left. }
  set y0 := mkThread (next_tid s) sp THREAD_READY THREAD_INITIAL_TICKS 0 0 0.
  set s1 := with_ids (next_pid s) (u64 (next_tid s + 1)) (with_thrs (<[new := y0]> (thrs s))
    (with_stack (<[sp := initial_frame entry ret_addr]> (frames s))
       (<[ret_addr := exit_fn]> (stack_words s)) s)).
  destruct (sched_acquire_ok s1 Hl) as (lk & c & Ea & Hh).
  set s2 := with_slock lk c s1. fold s2 in Ea.
  assert (sched_rep s2 TL) as Hr2 by by eapply (sched_rep_other_thread s).
  assert (thrs s2 !! new = Some y0) as Hn2 by apply lookup_insert_eq.
  destruct (append_thread_ok s2 A t l B new y0 Hr2 H0 Hnew Hn2) as (s3 & Eif & E1 & E2 & E3).
  assert (lock_held (scheduler_lock s3)) as Hh3 by by rewrite E3.
  destruct (sched_release_ok s3 (rflags (sc_cpu s)) Hh3) as (l' & Er & Hf).
  exists (with_slock l' (sc_cpu s) s3). split; [|split; [|split]].
  - rewrite /task_create_thread (proj2 (Z.eqb_neq t 0) Ht0) (proj2 (Z.eqb_neq entry 0) He).
    rewrite (proj2 (Z.eqb_neq new 0) H0) (proj2 (Z.eqb_neq stack 0) Hs). cbn [orb].
    rewrite /modify {1}/bind {1}/bind {1}/gets {1}/bind {1}/gets {1}/bind {1}/bind.
    cbn [next_pid next_tid with_stack thrs]. fold ret_addr. fold sp. fold y0.
    change (with_ids _ _ _) with s1. rewrite {1}/bind Ea {1}/bind. revert Eif. rewrite {1}/bind.
    destruct (read_task t s2) as [[k s2']|]; [|done]. intros Eif.
    rewrite {1}/bind Eif. change (rflags (sc_cpu s1)) with (rflags (sc_cpu s)).
    rewrite {1}/bind Er mkCpu_rflags. done.
  - by apply (sched_rep_append s2 _ A t l B new (set_tnext (first (l ++ [new])) y0));
      [..|rewrite E3|].
  - rewrite /= E2 lookup_insert_eq. done.
  - split; [|rewrite E3; simpl; by rewrite E1].
    intros x Hx. rewrite /= E2 lookup_insert_ne //. destruct (last l) as [z|]; simpl.
    + destruct (decide (z = x)) as [->|Hne].
      * rewrite lookup_alter_eq lookup_insert_ne //. by destruct (thrs s !! x).
      * by rewrite lookup_alter_ne // lookup_insert_ne.
    + by rewrite lookup_insert_ne.
Qed.

(** ** Initialisation *)

Lemma scheduler_init_ok s idle idle_thread kvas :
  idle ≠ 0 → idle_thread ≠ 0 →
  ∃ s', scheduler_init idle idle_thread kvas s = Ok (tt, s') ∧
    sched_rep s' [(idle, [idle_thread])] ∧
    tasks s' = <[idle := mkTask 0 [73; 100; 108; 101] kvas idle_thread idle]> (tasks s) ∧
    thrs s' = <[idle_thread := mkThread 0 0 THREAD_RUNNING THREAD_INITIAL_TICKS 0 idle_thread 0]>
                (thrs s) ∧
    s' = mkSched (sc_cpu s) (scheduler_lock s) (tasks s') (thrs s') (mutexes s) idle idle_thread
           idle (next_pid s) (next_tid s) (system_ticks s) (tsc_freq_hz s) (tsc_boot_time s)
           (frames s) (stack_words s).
Proof.
  intros H1 H2. eexists. split; [|split].
  - rewrite /scheduler_init (proj2 (Z.eqb_neq idle 0) H1) (proj2 (Z.eqb_neq idle_thread 0) H2).
    rewrite /update_task /update_thread /bind /modify /gets /read_task /read_thread /reads.
    cbn [tasks thrs with_tasks with_thrs with_current with_task_list].
    rewrite !lookup_insert_eq. cbn [tasks thrs with_tasks with_thrs with_current with_task_list].
    rewrite !insert_insert_eq. reflexivity.
  - apply sched_rep_intro; cbn; try apply NoDup_singleton; try set_solver.
    + intros [|? []] t l2; [|discriminate..]. intros [= <- <-]. by rewrite /task_next /= lookup_insert_eq.
    + intros t l Hin. apply list_elem_of_singleton in Hin as [= -> ->]. split.
      * intros [|? []] x l2; [|discriminate..]. intros [= <- <-].
        by rewrite /thread_next /= lookup_insert_eq.
      * rewrite lookup_insert_eq. by eexists.
  - done.
Qed.

(** ** Giving up the CPU *)

(** The state after the running thread has changed its own struct under the lock. *)
Definition parked (s : sched_state) (f : thread → thread) (l : spinlock_irq) : sched_state :=
  with_slock l (sc_cpu s) (with_thrs (alter f (thread_current s) (thrs s)) s).

Lemma sched_rep_alter s TL f x :
  sched_rep s TL → (∀ y, tnext (f y) = tnext y) →
  sched_rep (with_thrs (alter f x (thrs s)) s) TL.
Proof.
  intros Hr Hf. apply (sched_rep_frame s); [done..|]. intros z y _ Hz. simpl.
  destruct (decide (x = z)) as [<-|Hne].
  - rewrite lookup_alter_eq Hz /=. by eexists.
  - rewrite lookup_alter_ne //. by exists y.
Qed.

Lemma thread_exit_parks s y status :
  lock_free (scheduler_lock s) → thrs s !! thread_current s = Some y →
  ∃ l, lock_free l ∧ task_current_thread_exit status s =
    scheduler_yield status (parked s (set_state THREAD_ZOMBIE) l).
Proof.
  intros Hl Hy. destruct (sched_acquire_ok s Hl) as (l & c & Ea & Hh).
  set s2 := with_thrs (<[thread_current s := set_state THREAD_ZOMBIE y]> (thrs s)) (with_slock l c s).
  destruct (sched_release_ok s2 (rflags (sc_cpu s)) Hh) as (l' & Er & Hf).
  exists l'. split; [done|].
  rewrite /task_current_thread_exit {1}/bind Ea {1}/bind {1}/gets {1}/bind /update_thread {1}/bind.
  rewrite /read_thread /reads /modify. cbn [thrs thread_current with_slock]. rewrite Hy. fold s2.
  change (with_thrs _ (with_slock l c s)) with s2.
  rewrite /bind Er mkCpu_rflags /parked. by rewrite -(alter_insert_lookup _ _ _ _ Hy).
Qed.

Lemma thread_sleep_parks s y tsc ms status :
  lock_free (scheduler_lock s) → clock_ok s → thrs s !! thread_current s = Some y →
  ∃ l, lock_free l ∧ thread_sleep tsc ms status s =
    scheduler_yield status
      (parked s (λ y, set_state THREAD_SLEEPING (set_wake_time (u64 (uptime s tsc + ms)) y)) l).
Proof.
  intros Hl Hc Hy. destruct (sched_acquire_ok s Hl) as (l & c & Ea & Hh).
  set f := λ y, set_state THREAD_SLEEPING (set_wake_time (u64 (uptime s tsc + ms)) y).
  set s2 := with_thrs (<[thread_current s := f y]> (thrs s)) (with_slock l c s).
  destruct (sched_release_ok s2 (rflags (sc_cpu s)) Hh) as (l' & Er & Hf).
  exists l'. split; [done|].
  rewrite /thread_sleep {1}/bind Ea {1}/bind {1}/gets {1}/bind (uptime_ok (with_slock l c s) tsc Hc).
  rewrite {1}/bind /update_thread {1}/bind /read_thread /reads /modify.
  cbn [thrs thread_current with_slock]. rewrite Hy {1}/bind {1}/bind. cbn [thrs with_thrs].
  rewrite lookup_insert_eq insert_insert_eq.
  change (with_thrs _ (with_thrs _ _)) with s2.
  rewrite /bind Er mkCpu_rflags /parked. by rewrite -(alter_insert_lookup _ _ _ _ Hy).
Qed.

(** Where [schedule_visit] applies after parking. *)
Lemma parked_rep s TL f l :
  sched_rep s TL → (∀ y, tnext (f y) = tnext y) → sched_rep (parked s f l) TL.
Proof. intros Hr Hf. by apply sched_rep_slock, (sched_rep_alter s). Qed.

(** ** The timer interrupt *)

(** One tick of the running thread's time slice. *)
Definition tick (y : thread) : thread :=
  set_ticks (if ticks_remaining y =? 1 then THREAD_INITIAL_TICKS else ticks_remaining y - 1) y.

Definition ticked (s : sched_state) (TL : list (Z * list Z)) (now : Z) (l : spinlock_irq)
    : sched_state :=
  with_slock l (sc_cpu s) (with_ticks (u64 (system_ticks s + 1))
    (with_thrs (alter tick (thread_current s) (wake_list now (TL ≫= snd) (thrs s))) s)).

Lemma wake_thread_ticks now y : ticks_remaining (wake_thread now y) = ticks_remaining y.
Proof. rewrite /wake_thread. by destruct (_ && _). Qed.

Lemma wake_list_current s TL now y :
  sched_rep s TL → thrs s !! thread_current s = Some y →
  ∃ y', wake_list now (TL ≫= snd) (thrs s) !! thread_current s = Some y' ∧
    ticks_remaining y' = ticks_remaining y.
Proof.
  intros Hr Hy. rewrite wake_list_lookup; [|apply Hr]. rewrite Hy. case_decide; simpl.
  - eexists. split; [done|]. apply wake_thread_ticks.
  - by exists y.
Qed.

Lemma timer_tick_ok s TL tsc status y :
  sched_rep s TL → TL ≠ [] → lock_free (scheduler_lock s) → clock_ok s → thread_current s ≠ 0 →
  thrs s !! thread_current s = Some y → 1 ≤ ticks_remaining y ≤ THREAD_INITIAL_TICKS →
  ∃ l, lock_free l ∧ timer_handler tsc status s =
    (if ticks_remaining y =? 1 then scheduler_schedule status else ret status)
      (ticked s TL (uptime s tsc) l).
Proof.
  intros Hr Hne Hl Hc Hcur Hy Ht. set s1 := with_ticks (u64 (system_ticks s + 1)) s.
  assert (sched_rep s1 TL) as Hr1 by (by apply (sched_rep_frame s); [..|intros z w _ Hz; exists w]).
  destruct (wake_ok s1 TL tsc Hr1 Hne Hl Hc) as (l & Hf & Ew). exists l. split; [done|].
  change (uptime s1 tsc) with (uptime s tsc) in Ew. change (thrs s1) with (thrs s) in Ew.
  destruct (wake_list_current s TL (uptime s tsc) y Hr Hy) as (y' & Hy' & Ety).
  set W := wake_list _ _ _ in Ew, Hy' |- *.
  rewrite /timer_handler {1}/bind /modify {1}/bind. fold s1. rewrite Ew {1}/bind {1}/gets.
  cbn [thread_current with_slock with_thrs]. change (thread_current s1) with (thread_current s).
  rewrite (proj2 (Z.eqb_neq _ _) Hcur). cbn [negb].
  rewrite /update_thread {1}/bind {1}/bind /read_thread {1}/reads. cbn [thrs with_slock with_thrs].
  rewrite Hy' /modify {1}/bind {1}/reads. cbn [thrs with_thrs]. rewrite lookup_insert_eq.
  cbn [ticks_remaining set_ticks].
  assert (u64 (ticks_remaining y' - 1) = ticks_remaining y' - 1) as Eu.
  { apply u64_small. rewrite Ety. unfold THREAD_INITIAL_TICKS in Ht. lia. }
  assert ((ticks_remaining y' - 1 =? 0) = (ticks_remaining y =? 1)) as Eb.
  { rewrite Ety. destruct (Z.eqb_spec (ticks_remaining y) 1) as [->|]; [done|]. apply Z.eqb_neq. lia. }
  rewrite Eu Eb /ticked. fold W.
  assert (alter tick (thread_current s) W = <[thread_current s := tick y']> W) as ->
    by (by rewrite (alter_insert_lookup _ _ _ _ Hy')).
  rewrite /tick Ety. destruct (ticks_remaining y =? 1); [|done].
  rewrite {1}/bind {1}/bind {1}/reads. cbn [thrs with_thrs]. rewrite lookup_insert_eq insert_insert_eq.
  reflexivity.
Qed.

Lemma ticked_rep s TL now l : sched_rep s TL → sched_rep (ticked s TL now l) TL.
Proof.
  intros Hr. apply sched_rep_slock.
  set W := wake_list now (TL ≫= snd) (thrs s).
  assert (sched_rep (with_thrs (alter tick (thread_current s) W) (with_thrs W s)) TL) as H.
  { by apply sched_rep_alter; [apply sched_rep_wake|]. }
  by apply (sched_rep_frame _ _ TL H); [..|intros z w _ Hz; exists w].
Qed.

(** ** The reaper *)


Definition zombie (s : sched_state) (x : Z) : bool :=
  match thrs s !! x with Some y => bool_decide (tstate y = THREAD_ZOMBIE) | None => false end.

(** The threads of a task the reaper looks at: it starts at the second one and stops when
    it is back at the first, which it sees only if it is alone. *)
Definition inspected (l : list Z) : list Z := match l with [x] => [x] | _ => tail l end.

Lemma ring_remove nxt nxt' a q z b :
  NoDup (a ++ q :: z :: b) → ring nxt (a ++ q :: z :: b) →
  nxt' q = nxt z → (∀ x, x ≠ q → nxt' x = nxt x) → ring nxt' (a ++ q :: b).
Proof.
  intros Hnd Hr Hq Ho l1 x l2 E.
  assert (∀ c d : list Z, first (c ++ (a ++ q :: d)) = first (c ++ a ++ [q])) as Hfirst.
  { intros [|? c] d; [|done]. simpl. by destruct a. }
  apply app_eq_app in E as (k & [[-> E]|[-> E]]).
  - destruct k as [|y k]; injection E as -> ->.
    + rewrite Hq (Hr (l1 ++ [q]) z b); [|by rewrite app_nil_r -app_assoc].
      rewrite app_nil_r in Hfirst. by rewrite -!app_assoc /= Hfirst.
    + rewrite Ho; [|intros ->].
      * rewrite (Hr l1 y (k ++ q :: z :: b)); [|by rewrite -app_assoc]. by destruct k.
      * apply NoDup_app in Hnd as (_ & Hd & _). apply (Hd q); [set_solver|by left].
  - destruct k as [|y k]; injection E as E1 E2.
    + subst x l2. rewrite Hq (Hr (a ++ [q]) z b); [|by rewrite -app_assoc].
      by rewrite app_nil_r -!app_assoc /= Hfirst.
    + subst y b. rewrite Ho; [|intros ->].
      * rewrite (Hr (a ++ q :: z :: k) x l2); [|by rewrite -app_assoc]. by rewrite -!app_assoc /= !Hfirst.
      * apply NoDup_app in Hnd as (_ & _ & Hnd). apply NoDup_cons in Hnd as [Hd _]. apply Hd.
        set_solver.
Qed.

Section reap.
Context (s : sched_state) (TL : list (Z * list Z)) (Hrep : sched_rep s TL).

Lemma second_thread t l1 p x l2 :
  (t, l1 ++ p :: x :: l2) ∈ TL →
  ∃ y, thrs s !! x = Some y ∧ tnext y = first (l2 ++ (l1 ++ [p]) ++ [x]).
Proof. intros Hin. apply (sr_thr _ _ Hrep t (l1 ++ [p]) x l2). by rewrite -app_assoc. Qed.

(** The walk over a task with several threads, from the thread after [p] on. *)
Lemma reap_walk_none t l2 l1 p x fuel :
  (t, l1 ++ p :: x :: l2) ∈ TL → (length l2 < fuel)%nat →
  (∀ z, z ∈ x :: l2 → zombie s z = false) → reap_threads fuel t p x s = Ok (None, s).
Proof.
  revert l1 p x fuel. induction l2 as [|x' l2 IH]; intros l1 p x [|fuel] Hin Hf Hz;
    try (simpl in Hf; lia); cbn [reap_threads];
    destruct (second_thread _ _ _ _ _ Hin) as (y & Hy & Hn);
    destruct (task_of s TL Hrep _ _ Hin) as (k & Hk & Ht);
    pose proof (Hz x ltac:(by left)) as Hx; rewrite /zombie Hy in Hx;
    rewrite /bind /read_thread /read_task /reads Hy Hk Hx Hn Ht.
  - rewrite -!app_assoc app_nil_l. assert (first (l1 ++ [p] ++ [x]) = first (l1 ++ p :: [x])) as -> by done.
    by rewrite Z.eqb_refl andb_false_r.
  - destruct (NoDup_threads s TL _ _ Hrep Hin) as [Hnd H0].
    assert (first (l1 ++ p :: x :: x' :: l2) ≠ 0) as Hf0.
    { intros E. apply H0. rewrite -E. destruct l1; by left. }
    rewrite (proj2 (Z.eqb_neq _ _) Hf0).
    destruct (Z.eqb_spec (first ((x' :: l2) ++ (l1 ++ [p]) ++ [x])) (first (l1 ++ p :: x :: x' :: l2))) as [E|_].
    { pose proof (first_ne_later (l1 ++ [p]) x x' l2) as Hne. rewrite -!app_assoc in Hne.
      by apply Hne in Hnd. }
    cbn [negb andb]. apply (IH (l1 ++ [p])); [by rewrite -app_assoc|simpl in Hf; lia|].
    intros z Hzin. apply Hz. by right.
Qed.

Lemma reap_walk_some t m1 l1 p z m2 fuel yq yz :
  (t, l1 ++ p :: m1 ++ z :: m2) ∈ TL → (length m1 < fuel)%nat →
  (∀ x, x ∈ m1 → zombie s x = false) → zombie s z = true →
  thrs s !! default p (last m1) = Some yq → thrs s !! z = Some yz →
  reap_threads fuel t p (first (m1 ++ [z])) s =
    Ok (Some z, with_thrs (<[default p (last m1) := set_tnext (tnext yz) yq]> (thrs s)) s).
Proof.
  revert l1 p fuel. induction m1 as [|x m1 IH]; intros l1 p [|fuel] Hin Hf Hnz Hz Hyq Hyz;
    try (simpl in Hf; lia); cbn [reap_threads];
    destruct (NoDup_threads s TL _ _ Hrep Hin) as [Hnd H0];
    destruct (task_of s TL Hrep _ _ Hin) as (k & Hk & Ht).
  - cbn [app] in *. change (first [z]) with z.
    destruct (second_thread _ _ _ _ _ Hin) as (y & Hy & Hn).
    rewrite Hyz in Hy. injection Hy as <-. rewrite /zombie Hyz in Hz.
    assert (z ≠ first (l1 ++ p :: z :: m2)) as Hz1 by by apply first_ne_later.
    assert (z ≠ tnext yz) as Hz2.
    { rewrite Hn. intros E. assert (z ∈ m2 ++ l1 ++ [p]) as Hin'.
      { destruct m2 as [|? m2]; [destruct l1|]; simpl in E; rewrite E; by left. }
      apply NoDup_app in Hnd as (_ & Hd & Hnd). apply NoDup_cons in Hnd as [Hp Hnd].
      apply NoDup_cons in Hnd as [Hm _].
      rewrite !elem_of_app list_elem_of_singleton in Hin'. set_solver. }
    rewrite /update_task /update_thread /bind /read_thread /read_task /reads /modify Hyz Hk Hz Ht.
    rewrite (proj2 (Z.eqb_neq _ _) Hz1) (proj2 (Z.eqb_neq _ _) Hz2). simpl in Hyq. by rewrite Hyq.
  - cbn [app first head]. change (default 0 (Some x)) with x. cbn [app] in Hin, Hnd, H0, Ht.
    destruct (second_thread _ _ _ _ _ Hin) as (y & Hy & Hn).
    pose proof (Hnz x ltac:(by left)) as Hx. rewrite /zombie Hy in Hx.
    rewrite /bind /read_thread /read_task /reads Hy Hk Hx Hn Ht.
    assert (first (l1 ++ p :: x :: m1 ++ z :: m2) ≠ 0) as Hf0.
    { intros E. apply H0. rewrite -E. destruct l1; by left. }
    rewrite (proj2 (Z.eqb_neq _ _) Hf0).
    assert (∃ x' r, m1 ++ z :: m2 = x' :: r ∧ first (m1 ++ [z]) = x') as (x' & r & Er & Ef)
      by (destruct m1; eexists _, _; done).
    rewrite Er in Hnd |- *.
    destruct (Z.eqb_spec (first ((x' :: r) ++ (l1 ++ [p]) ++ [x])) (first (l1 ++ p :: x :: x' :: r))) as [E|_].
    { pose proof (first_ne_later (l1 ++ [p]) x x' r) as Hne. rewrite -!app_assoc in Hne.
      by apply Hne in Hnd. }
    cbn [negb andb]. change (first ((x' :: r) ++ _)) with x'. rewrite -Ef.
    assert (default p (last (x :: m1)) = default x (last m1)) as Ed
      by (rewrite last_cons; by destruct (last m1)).
    rewrite Ed in Hyq |- *.
    apply (IH (l1 ++ [p])); [by rewrite -app_assoc|simpl in Hf; lia| |done|done|done].
    intros w Hw. apply Hnz. by right.
Qed.

(** What the reaper does with one task. *)
Definition reap_task (t : Z) (k : task) : M sched_state (option Z) :=
  if negb (threads k =? 0) then
    x <- read_thread (threads k);;
    n <- gets (λ s, size (thrs s));;
    reap_threads n t (threads k) (tnext x)
  else ret None.

Lemma task_threads_size t l : (t, l) ∈ TL → (length l ≤ size (thrs s))%nat.
Proof.
  intros (A & B & E)%list_elem_of_split. destruct (sched_rep_size s TL Hrep) as [_ Hsz].
  rewrite E bind_middle length_app in Hsz. lia.
Qed.

Lemma threads_nonnull t l k x : (t, l) ∈ TL → threads k = first l → first l = x → l ≠ [] → x ≠ 0.
Proof.
  intros Hin Ht <- Hne E. destruct (NoDup_threads s TL _ _ Hrep Hin) as [_ H0]. apply H0.
  destruct l; [done|]. rewrite -E. by left.
Qed.

Lemma reap_task_none t l k :
  (t, l) ∈ TL → threads k = first l → tasks s !! t = Some k →
  (∀ z, z ∈ inspected l → zombie s z = false) → reap_task t k s = Ok (None, s).
Proof.
  intros Hin Ht Hk Hz. rewrite /reap_task Ht. pose proof (task_threads_size t l Hin) as Hsz.
  destruct l as [|h l]; [done|].
  pose proof (threads_nonnull t _ k _ Hin Ht eq_refl ltac:(done)) as Hh. change (first (h :: l)) with h in *.
  rewrite (proj2 (Z.eqb_neq _ _) Hh). cbn [negb].
  destruct (sr_thr _ _ Hrep t [] h l Hin) as (y & Hy & Hn).
  rewrite {1}/bind /read_thread {1}/reads Hy {1}/bind /gets Hn. destruct l as [|x l].
  - cbn [app first head]. change (default 0 (Some h)) with h.
    destruct (size (thrs s)) as [|n]; [simpl in Hsz; lia|]. cbn [reap_threads].
    pose proof (Hz h ltac:(by left)) as Hx. rewrite /zombie Hy in Hx.
    rewrite /bind /read_thread /read_task /reads Hy Hk Hx Hn Ht. cbn [app first head default].
    change (id h) with h. by rewrite Z.eqb_refl andb_false_r.
  - apply (reap_walk_none t l [] h x); [done|simpl in Hsz; lia|done].
Qed.

Lemma reap_task_some A t l B k m1 z m2 :
  TL = A ++ (t, l) :: B → threads k = first l → tasks s !! t = Some k →
  inspected l = m1 ++ z :: m2 → (∀ x, x ∈ m1 → zombie s x = false) → zombie s z = true →
  ∃ l1 l2 s', l = l1 ++ z :: l2 ∧ reap_task t k s = Ok (Some z, s') ∧
    sched_rep s' (A ++ (t, l1 ++ l2) :: B) ∧
    (∀ x, set_tnext 0 <$> thrs s' !! x = set_tnext 0 <$> thrs s !! x) ∧
    (∀ u, set_threads 0 <$> tasks s' !! u = set_threads 0 <$> tasks s !! u) ∧
    s' = with_thrs (thrs s') (with_tasks (tasks s') s).
Proof.
  intros ETL Ht Hk Ei Hnz Hz. assert ((t, l) ∈ TL) as Hin by (rewrite ETL; apply elem_of_middle; by left).
  pose proof (task_threads_size t l Hin) as Hsz.
  destruct (NoDup_threads s TL _ _ Hrep Hin) as [Hnd H0].
  destruct l as [|h l]; [by destruct m1|].
  pose proof (threads_nonnull t _ k _ Hin Ht eq_refl ltac:(done)) as Hh. change (first (h :: l)) with h in *.
  rewrite /reap_task Ht (proj2 (Z.eqb_neq _ _) Hh). cbn [negb].
  destruct (sr_thr _ _ Hrep t [] h l Hin) as (y & Hy & Hn).
  rewrite {1}/bind /read_thread {1}/reads Hy {1}/bind /gets Hn. destruct l as [|x l].
  - cbn [inspected] in Ei. destruct m1; [|by destruct m1]. injection Ei as <- <-.
    exists [], []. eexists. split; [done|]. split; [|split; [|split; [|split]]].
    + cbn [app first head]. change (default 0 (Some h)) with h.
      destruct (size (thrs s)) as [|n]; [simpl in Hsz; lia|]. cbn [reap_threads].
      rewrite /zombie Hy in Hz.
      rewrite /update_task /bind /read_thread /read_task /reads /modify Hy Hk Hz Hn.
      cbn [app first head default]. change (id h) with h. rewrite Z.eqb_refl Hk. reflexivity.
    + apply (sched_rep_set_threads s _ A t [h] B []); rewrite -?ETL; try done; try set_solver.
      * apply NoDup_nil_2.
      * simpl. by rewrite (alter_insert_lookup _ _ _ _ Hk).
      * intros [] ? ? ?; discriminate.
    + done.
    + intros u. simpl. destruct (decide (t = u)) as [<-|Hne].
      * by rewrite lookup_insert_eq Hk.
      * by rewrite lookup_insert_ne.
    + by destruct s.
  - cbn [inspected tail] in Ei.
    set q := default h (last m1). set a := match m1 with [] => [] | _ => h :: removelast m1 end.
    assert (h :: m1 = a ++ [q]) as Ea.
    { rewrite /q /a. destruct m1 as [|c m1 _] using rev_ind; [done|].
      rewrite last_snoc removelast_last /=. by destruct m1. }
    assert (h :: x :: l = a ++ q :: z :: m2) as El.
    { rewrite Ei app_comm_cons Ea -app_assoc. done. }
    rewrite El in Hin, Hnd.
    destruct (sr_thr _ _ Hrep t a q (z :: m2) Hin) as (yq & Hyq & _).
    destruct (second_thread _ _ _ _ _ Hin) as (yz & Hyz & Hzn).
    exists (a ++ [q]), m2. eexists. split; [by rewrite -app_assoc|]. split; [|split; [|split; [|split]]].
    + assert (first ((x :: l) ++ [] ++ [h]) = first (m1 ++ [z])) as ->
        by (rewrite Ei; by destruct m1).
      apply (reap_walk_some t m1 [] h z m2 _ yq yz);
        [by rewrite /= app_comm_cons Ea -app_assoc| |done|done|done|done].
      rewrite Ei in Hsz. rewrite /= length_app /= in Hsz. lia.
    + apply (sched_rep_set_threads s _ A t (h :: x :: l) B); rewrite -?ETL; [done| | | | |done| |].
      * rewrite -app_assoc. apply NoDup_app in Hnd as (? & ? & Hnd).
        apply NoDup_cons in Hnd as [? Hnd]. apply NoDup_cons in Hnd as [? Hnd].
        apply NoDup_app. split; [done|]. split; [set_solver|]. apply NoDup_cons. set_solver.
      * rewrite El in H0. set_solver.
      * intros w Hw ([u m] & Hm & Hu)%list_elem_of_bind. pose proof Hrep as Hr'. rewrite ETL in Hr'.
        apply (threads_disjoint s A t (h :: x :: l) B u m w Hr' Hu); [|done]. rewrite El. set_solver.
      * symmetry. apply (alter_same _ _ k); [done|]. apply set_threads_same. rewrite Ht.
        rewrite -app_assoc. destruct a; simpl in El |- *; by injection El.
      * rewrite -app_assoc. apply (ring_remove (thread_next s) _ a q z m2); [done| | |].
        -- by apply (sched_rep_rings s TL Hrep) in Hin.
        -- rewrite /thread_next /= lookup_insert_eq Hyz. done.
        -- intros w Hw. by rewrite /thread_next /= lookup_insert_ne.
      * intros w Hw. rewrite /= lookup_insert_ne //. intros <-.
        apply list_elem_of_bind in Hw as ([u m] & Hm & Hu). pose proof Hrep as Hr'. rewrite ETL in Hr'.
        apply (threads_disjoint s A t (h :: x :: l) B u m q Hr' Hu); [|done]. rewrite El. set_solver.
    + intros w. simpl. destruct (decide (q = w)) as [<-|Hne].
      * by rewrite lookup_insert_eq Hyq.
      * by rewrite lookup_insert_ne.
    + done.
    + by destruct s.
Qed.

Definition no_zombie (e : Z * list Z) : Prop := ∀ z, z ∈ inspected e.2 → zombie s z = false.

Lemma reap_tasks_skip fuel pre t l post :
  TL = pre ++ (t, l) :: post → no_zombie (t, l) →
  reap_tasks (S fuel) t s =
    match post with [] => Ok (None, s) | (t', _) :: _ => reap_tasks fuel t' s end.
Proof.
  intros E Hz. assert ((t, l) ∈ TL) as Hin by (rewrite E; apply elem_of_middle; by left).
  destruct (sr_task _ _ Hrep pre t l post E) as (k & Hk & Ht & Hn). cbn [reap_tasks].
  rewrite {1}/bind /read_task {1}/reads Hk {1}/bind.
  pose proof (reap_task_none t l k Hin Ht Hk Hz) as Er. rewrite /reap_task in Er. rewrite Er.
  rewrite /bind /reads /gets Hk Hn (sr_list _ _ Hrep). destruct post as [|[t' l'] post].
  - by rewrite E app_nil_l Z.eqb_refl.
  - destruct (Z.eqb_spec (first (fst <$> ((t', l') :: post) ++ pre ++ [(t, l)])) (first (fst <$> TL))) as [E'|_].
    { by apply (next_task_ne_first _ s pre t l t' l' post Hrep E) in E'. }
    done.
Qed.

Lemma reap_tasks_none post pre t l fuel :
  TL = pre ++ (t, l) :: post → (length post < fuel)%nat → Forall no_zombie ((t, l) :: post) →
  reap_tasks fuel t s = Ok (None, s).
Proof.
  revert pre t l fuel. induction post as [|[t' l'] post IH]; intros pre t l [|fuel] E Hf Hz;
    try (simpl in Hf; lia); apply Forall_cons in Hz as [Hz Hzs]; rewrite (reap_tasks_skip _ pre t l _ E Hz).
  - done.
  - apply (IH (pre ++ [(t, l)]) t' l'); [by rewrite -app_assoc|simpl in Hf; lia|done].
Qed.

Lemma reap_tasks_some mid pre t l B fuel m1 z m2 e :
  TL = pre ++ mid ++ (t, l) :: B → (length mid < fuel)%nat → Forall no_zombie mid →
  inspected l = m1 ++ z :: m2 → (∀ x, x ∈ m1 → zombie s x = false) → zombie s z = true →
  head (mid ++ [(t, l)]) = Some e →
  ∃ l1 l2 k s', l = l1 ++ z :: l2 ∧ tasks s !! t = Some k ∧
    reap_tasks fuel e.1 s = Ok (Some (z, vas k), s') ∧
    sched_rep s' (pre ++ mid ++ (t, l1 ++ l2) :: B) ∧
    (∀ x, set_tnext 0 <$> thrs s' !! x = set_tnext 0 <$> thrs s !! x) ∧
    (∀ u, set_threads 0 <$> tasks s' !! u = set_threads 0 <$> tasks s !! u) ∧
    s' = with_thrs (thrs s') (with_tasks (tasks s') s).
Proof.
  intros E Hf Hmid Ei Hnz Hz. revert pre fuel e E Hf. induction mid as [|[u m] mid IH]; intros pre [|fuel] e E Hf He;
    try (simpl in Hf; lia).
  - simpl in He. injection He as <-.
    destruct (sr_task _ _ Hrep pre t l B E) as (k & Hk & Ht & Hn).
    destruct (reap_task_some pre t l B k m1 z m2 E Ht Hk Ei Hnz Hz) as (l1 & l2 & s' & El & Er & H).
    exists l1, l2, k, s'. split; [done|]. split; [done|]. split; [|done]. cbn [reap_tasks fst].
    rewrite {1}/bind /read_task {1}/reads Hk {1}/bind. rewrite /reap_task in Er. by rewrite Er.
  - simpl in He. injection He as <-. apply Forall_cons in Hmid as [Hu Hmid].
    cbn [fst]. rewrite (reap_tasks_skip fuel pre u m (mid ++ (t, l) :: B) E Hu).
    assert (∃ e, head (mid ++ [(t, l)]) = Some e) as [e He] by (destruct mid; by eexists).
    assert (match mid ++ (t, l) :: B with [] => Ok (None, s) | (t', _) :: _ => reap_tasks fuel t' s end
            = reap_tasks fuel e.1 s) as ->.
    { destruct mid as [|[] mid]; simpl in He; by injection He as <-. }
    destruct (IH Hmid (pre ++ [(u, m)]) fuel e) as (l1 & l2 & k & s' & H);
      [by rewrite -app_assoc|simpl in Hf; lia|done|].
    exists l1, l2, k, s'. rewrite -app_assoc in H. done.
Qed.
End reap.

(** ** One round of the idle thread *)

Lemma zombie_slock s l c x : zombie (with_slock l c s) x = zombie s x.
Proof. done. Qed.

Lemma reap_round_none s TL :
  sched_rep s TL → lock_free (scheduler_lock s) → Forall (no_zombie s) TL →
  ∃ l, lock_free l ∧ reap_round s = Ok (None, with_slock l (sc_cpu s) s).
Proof.
  intros Hr Hl Hz. destruct (sched_acquire_ok s Hl) as (l & c & Ea & Hh).
  set s2 := with_slock l c s. fold s2 in Ea.
  destruct (sched_release_ok s2 (rflags (sc_cpu s)) Hh) as (l' & Er & Hf). rewrite mkCpu_rflags in Er.
  assert (sched_rep s2 TL) as Hr2 by by apply sched_rep_slock.
  exists l'. split; [done|]. rewrite /reap_round {1}/bind Ea {1}/bind {1}/gets {1}/bind {1}/gets {1}/bind.
  change (task_list s2) with (task_list s). rewrite (sr_list _ _ Hr).
  destruct TL as [|[t l0] TL].
  - cbn [first head default fmap list_fmap]. rewrite Z.eqb_refl. cbn [negb ret].
    by rewrite /ret /bind Er.
  - change (first (fst <$> (t, l0) :: TL)) with t.
    assert (t ≠ 0) as Ht0 by (intros ->; apply (sr_tasks_nonnull _ _ Hr); by left).
    rewrite (proj2 (Z.eqb_neq _ _) Ht0). cbn [negb].
    rewrite (reap_tasks_none s2 _ Hr2 TL [] t l0); [by rewrite /bind Er|done| |done].
    destruct (sched_rep_size s2 _ Hr2) as [Hsz _]. cbn [length] in Hsz. lia.
Qed.

Lemma reap_round_some s A t l B m1 z m2 yz :
  sched_rep s (A ++ (t, l) :: B) → lock_free (scheduler_lock s) → Forall (no_zombie s) A →
  inspected l = m1 ++ z :: m2 → (∀ x, x ∈ m1 → zombie s x = false) → zombie s z = true →
  thrs s !! z = Some yz →
  ∃ l1 l2 k s', l = l1 ++ z :: l2 ∧ tasks s !! t = Some k ∧
    reap_round s = match frames s !! context yz with
                   | Some c => Ok (Some (z, vas k, st_rsp c), s')
                   | None => Err Undef
                   end ∧
    sched_rep s' (A ++ (t, l1 ++ l2) :: B) ∧ thrs s' !! z = None ∧
    (∀ x, x ≠ z → set_tnext 0 <$> thrs s' !! x = set_tnext 0 <$> thrs s !! x) ∧
    lock_free (scheduler_lock s') ∧
    (∀ u, set_threads 0 <$> tasks s' !! u = set_threads 0 <$> tasks s !! u) ∧
    ∃ l, s' = with_slock l (sc_cpu s) (with_thrs (thrs s') (with_tasks (tasks s') s)).
Proof.
  intros Hr Hl HA Ei Hnz Hz Hyz. destruct (sched_acquire_ok s Hl) as (lk & c0 & Ea & Hh).
  set s2 := with_slock lk c0 s. fold s2 in Ea.
  assert (sched_rep s2 (A ++ (t, l) :: B)) as Hr2 by by apply sched_rep_slock.
  assert (∃ e, head (A ++ [(t, l)]) = Some e) as [e He] by (destruct A; by eexists).
  destruct (reap_tasks_some s2 _ Hr2 A [] t l B (size (tasks s2)) m1 z m2 e eq_refl)
    as (l1 & l2 & k & s3 & El & Hk & Er & Hr3 & Hsame & Hst & E3); [|done..|].
  { destruct (sched_rep_size s2 _ Hr2) as [Hsz _]. rewrite length_app /= in Hsz. simpl in *. lia. }
  assert (lock_held (scheduler_lock s3)) as Hh3 by by rewrite E3.
  destruct (sched_release_ok s3 (rflags (sc_cpu s)) Hh3) as (l' & El' & Hf). rewrite mkCpu_rflags in El'.
  assert (∃ yz', thrs s3 !! z = Some yz' ∧ context yz' = context yz) as (yz' & Hyz' & Ec).
  { specialize (Hsame z). change (thrs s2) with (thrs s) in Hsame. rewrite Hyz /= in Hsame.
    destruct (thrs s3 !! z) as [yz'|]; [|done]. exists yz'. split; [done|]. injection Hsame as _ E _. done. }
  exists l1, l2, k. eexists. split; [done|]. split; [done|]. split; [|split; [|split; [|split]]].
  - rewrite /reap_round {1}/bind Ea {1}/bind {1}/gets {1}/bind {1}/gets {1}/bind.
    assert (task_list s2 = e.1) as ->.
    { rewrite (sr_list _ _ Hr2). destruct A as [|[] A]; simpl in He; by injection He as <-. }
    assert (e.1 ≠ 0) as He0.
    { intros E0. apply (sr_tasks_nonnull _ _ Hr). rewrite -E0. apply list_elem_of_fmap. exists e.
      split; [done|]. destruct A; simpl in He; injection He as <-; by left. }
    rewrite (proj2 (Z.eqb_neq _ _) He0). cbn [negb]. rewrite Er {1}/bind El'.
    rewrite /bind /read_thread /reads. cbn [thrs with_slock]. rewrite Hyz' Ec. cbn [frames with_slock].
    assert (frames s3 = frames s) as -> by by rewrite E3.
    destruct (frames s !! context yz); reflexivity.
  - apply (sched_rep_frame s3); [done..|]. intros x y Hx Hy. exists y. split; [|done].
    simpl. rewrite lookup_delete_ne //. intros <-. pose proof (sr_thr_nodup _ _ Hr) as Hnd.
    rewrite bind_middle in Hx. rewrite bind_middle El -app_assoc in Hnd.
    rewrite -Permutation_middle in Hnd. rewrite app_assoc in Hnd. apply NoDup_cons in Hnd as [Hn _].
    apply Hn. done.
  - simpl. apply lookup_delete_eq.
  - intros x Hx. simpl. by rewrite lookup_delete_ne.
  - split; [done|]. split; [exact Hst|]. exists l'. by rewrite E3.
Qed.

(** ** The scheduler returns exactly when some thread is ready *)

Lemma current_split s TL :
  current_ok s TL → ∃ pre l1 l2 post,
    TL = pre ++ (task_current s, l1 ++ thread_current s :: l2) :: post.
Proof.
  intros [Hx Hin]. destruct (visit_order_exists TL _ Hin) as [L HL].
  destruct (visit_order_rotation TL _ _ L Hx HL) as (pre & l1 & l2 & post & E & _).
  by exists pre, l1, l2, post.
Qed.

Lemma current_thread s TL :
  sched_rep s TL → current_ok s TL →
  task_current s ≠ 0 ∧ thread_current s ∈ TL ≫= snd ∧
  ∃ y, thrs s !! thread_current s = Some y.
Proof.
  intros Hr Hc. destruct (current_split s TL Hc) as (pre & l1 & l2 & post & E).
  assert ((task_current s, l1 ++ thread_current s :: l2) ∈ TL) as Hin
    by (rewrite E; apply elem_of_middle; by left).
  split; [|split].
  - intros E0. apply (sr_tasks_nonnull _ _ Hr). apply list_elem_of_fmap. eexists (_, _). split; [exact (eq_sym E0)|exact Hin].
  - apply list_elem_of_bind. eexists. split; [|exact Hin]. simpl. set_solver.
  - destruct (sr_thr _ _ Hr _ _ _ _ Hin) as (y & Hy & _). by exists y.
Qed.

Lemma paused_rep s TL status :
  sched_rep s TL → sched_rep (paused s status) TL.
Proof.
  intros Hr. rewrite /paused. destruct (thrs s !! thread_current s) as [y|] eqn:Hy; [|done].
  apply (sched_rep_update s TL _ y); [done|done|]. rewrite /pause. by case_bool_decide.
Qed.

Lemma schedule_stuck s TL status :
  sched_rep s TL → current_ok s TL → lock_free (scheduler_lock s) →
  (∀ q, q ∈ stops TL → ready_at (paused s status) q = false) →
  scheduler_schedule status s = Err OutOfFuel.
Proof.
  intros Hr Hc Hl Hno. pose proof Hc as [Hx Hin].
  destruct (current_thread s TL Hr Hc) as (Ht0 & _ & y & Hy).
  destruct (sched_acquire_ok s Hl) as (l & c & Ea & Hh).
  set sP := with_thrs (<[thread_current s := pause status y]> (thrs s)) (with_slock l c s).
  assert (thrs sP = thrs (paused s status)) as Ethr by by rewrite /paused Hy.
  assert (sched_rep sP TL) as HrP.
  { apply (sched_rep_frame _ _ _ (paused_rep s TL status Hr)); rewrite /paused ?Hy //.
    intros z w _ Hz. by exists w. }
  destruct (stop_step sP TL _ HrP Hin) as ([qt qx] & Hs & Hq).
  assert (qt ≠ 0) as Hq0.
  { intros ->. apply (sr_tasks_nonnull _ _ Hr). apply elem_of_stops in Hq as (lq & Hq & _).
    apply list_elem_of_fmap. by exists (0, lq). }
  pose proof (first_stop_step sP (qt, qx) Hx Hs Hq0) as Ef.
  rewrite /scheduler_schedule {1}/bind {1}/gets {1}/bind {1}/gets.
  rewrite (proj2 (Z.eqb_neq _ _) Ht0) (proj2 (Z.eqb_neq _ _) Hx). cbn [orb].
  rewrite {1}/bind Ea /update_thread {1}/bind /read_thread {1}/bind {1}/reads.
  cbn [thrs with_slock]. rewrite Hy /modify {1}/bind {1}/bind {1}/reads. cbn [thrs with_thrs].
  rewrite lookup_insert_eq insert_insert_eq. fold (pause status y).
  change (with_thrs _ (with_thrs _ _)) with sP. rewrite {1}/bind Ef {1}/bind {1}/gets {1}/bind.
  rewrite (search_hangs sP TL _ (qt, qx) HrP Hx); [done| |done].
  intros q Hq'. rewrite (ready_at_thrs (paused s status)) //. by apply Hno.
Qed.

(** What a return of the scheduler tells. *)
Lemma schedule_returned s TL status c s' :
  sched_rep s TL → current_ok s TL → lock_free (scheduler_lock s) →
  scheduler_schedule status s = Ok (c, s') →
  ∃ r yr, r ∈ stops TL ∧ ready_at (paused s status) r = true ∧
    thrs (paused s status) !! r.2 = Some yr ∧ c = context yr ∧
    thrs s' = <[r.2 := set_state THREAD_RUNNING yr]> (thrs (paused s status)) ∧
    task_current s' = r.1 ∧ thread_current s' = r.2 ∧ current_ok s' TL ∧
    lock_free (scheduler_lock s') ∧ sched_frame s' = sched_frame s ∧ sched_rep s' TL.
Proof.
  intros Hr Hc Hl E. destruct (visit_order_exists TL _ (proj2 Hc)) as [L HL].
  destruct (decide (Exists (λ q, ready_at (paused s status) q = true) L)) as [Hex|Hno].
  - apply Exists_exists in Hex as (p & Hp & Hpr).
    destruct (first_ready _ L p Hp Hpr) as (A & r & B & -> & Hrr & Hnr).
    destruct (schedule_visit s TL status A r B Hr (proj1 Hc) HL Hl Hrr Hnr)
      as (yr & s'' & H1 & H2 & H3 & H4 & H5 & H6 & H7 & H8).
    rewrite H2 in E. injection E as <- <-.
    assert (r ∈ stops TL) as Hrin by (apply (visit_order_elem _ _ _ _ HL); set_solver).
    exists r, yr. repeat (split; [done|]). split; [|done].
    split; rewrite H5; [by apply (ready_at_thread (paused s status))|].
    by rewrite H4 -surjective_pairing.
  - rewrite (schedule_stuck s TL status) in E; [done|done..|].
    intros q Hq. apply not_true_is_false. intros Hqr. apply Hno, Exists_exists.
    exists q. split; [|done]. by apply (visit_order_elem _ _ _ _ HL).
Qed.

Lemma schedule_ready_returns s TL status p :
  sched_rep s TL → current_ok s TL → lock_free (scheduler_lock s) →
  p ∈ stops TL → ready_at (paused s status) p = true →
  ∃ c s', scheduler_schedule status s = Ok (c, s').
Proof.
  intros Hr Hc Hl Hp Hpr. destruct (visit_order_exists TL _ (proj2 Hc)) as [L HL].
  assert (p ∈ L) as HpL by (by apply (visit_order_elem _ _ _ _ HL)).
  destruct (first_ready _ L p HpL Hpr) as (A & r & B & -> & Hrr & Hnr).
  destruct (schedule_visit s TL status A r B Hr (proj1 Hc) HL Hl Hrr Hnr) as (yr & s' & _ & E & _).
  by exists (context yr), s'.
Qed.
