(* ===== verification/Mutex.v ===== *)
(** * The sleeping mutex (scheduling/lock.c): a first-in first-out queue of threads

    What the waiting queue of a mutex represents, what [mutex_acquire] and
    [mutex_release] do to it, that scheduling and timer ticks leave it alone, and mutual
    exclusion over every run of threads that use the mutex. *)

From stdpp Require Import base gmap list numbers.
From S2P Require Import Prelude Spinlock Sched SchedSpec SchedOps.

(** ** The waiting queue *)

(** The threads of [q] wait, in this order. *)
Record queue_rep (ts : gmap Z thread) (m : mutex) (q : list Z) : Prop := {
  qr_head : waiting_queue_head m = first q;
  qr_tail : waiting_queue_tail m = default 0 (last q);
  qr_nodup : NoDup q;
  qr_nonnull : 0 ∉ q;
  qr_thread : ∀ q1 x q2, q = q1 ++ x :: q2 →
    ∃ y, ts !! x = Some y ∧ next_waiter y = first q2 ∧ tstate y = THREAD_BLOCKED;
}.

Record mutex_rep (s : sched_state) (a : Z) (locked : bool) (q : list Z) : Prop := {
  mr_mutex : ∃ m, mutexes s !! a = Some m ∧ is_locked m = locked ∧
    lock_free (internal_lock m) ∧ queue_rep (thrs s) m q;
  mr_waiting : q ≠ [] → locked = true;
}.

Lemma queue_rep_frame ts ts' m m' q :
  queue_rep ts m q → waiting_queue_head m' = waiting_queue_head m →
  waiting_queue_tail m' = waiting_queue_tail m →
  (∀ x y, x ∈ q → ts !! x = Some y → tstate y = THREAD_BLOCKED → ∃ y', ts' !! x = Some y' ∧
     next_waiter y' = next_waiter y ∧ tstate y' = THREAD_BLOCKED) → queue_rep ts' m' q.
Proof.
  intros [H1 H2 H3 H4 H5] Eh Et Hf. split; [congruence|congruence|done|done|].
  intros q1 x q2 E. destruct (H5 q1 x q2 E) as (y & Hy & Hn & Hb).
  destruct (Hf x y) as (y' & Hy' & Hn' & Hb'); [rewrite E; set_solver|done|done|].
  exists y'. split; [done|]. by rewrite Hn'.
Qed.

Lemma mutex_rep_frame s s' a b q :
  mutex_rep s a b q → mutexes s' = mutexes s →
  (∀ x y, x ∈ q → thrs s !! x = Some y → tstate y = THREAD_BLOCKED → ∃ y', thrs s' !! x = Some y' ∧
     next_waiter y' = next_waiter y ∧ tstate y' = THREAD_BLOCKED) → mutex_rep s' a b q.
Proof.
  intros [(m & Hm & Hb & Hl & Hq) Hw] Em Hf. split; [|done]. rewrite Em. exists m.
  split; [done|]. split; [done|]. split; [done|]. by apply (queue_rep_frame (thrs s) _ m).
Qed.

Lemma waiter_blocked s a b q x :
  mutex_rep s a b q → x ∈ q → ∃ y, thrs s !! x = Some y ∧ tstate y = THREAD_BLOCKED.
Proof.
  intros [(m & _ & _ & _ & Hq) _] (q1 & q2 & E)%list_elem_of_split.
  destruct (qr_thread _ _ _ Hq q1 x q2 E) as (y & ? & _ & ?). by exists y.
Qed.

(** *** The rest of the kernel does not disturb the queue *)

Lemma mutex_rep_paused s a b q status : mutex_rep s a b q → mutex_rep (paused s status) a b q.
Proof.
  intros Hm. rewrite /paused. destruct (thrs s !! thread_current s) as [yc|] eqn:Hc; [|done].
  apply (mutex_rep_frame s); [done|done|]. intros x y _ Hy Hb. simpl.
  destruct (decide (thread_current s = x)) as [<-|Hne].
  - rewrite lookup_insert_eq. rewrite Hc in Hy. injection Hy as ->. eexists. split; [done|].
    rewrite /pause Hb. done.
  - rewrite lookup_insert_ne //. by exists y.
Qed.

Lemma mutex_rep_schedule s TL a b q status c s' :
  sched_rep s TL → current_ok s TL → lock_free (scheduler_lock s) → mutex_rep s a b q →
  scheduler_schedule status s = Ok (c, s') → mutex_rep s' a b q.
Proof.
  intros Hr Hc Hl Hm E.
  destruct (schedule_returned s TL status c s' Hr Hc Hl E)
    as (r & yr & _ & Hrr & Hyr & _ & Ex & _ & _ & _ & _ & Ef & _).
  apply (mutex_rep_frame (paused s status)); [by apply mutex_rep_paused| |].
  - assert (mutexes (paused s status) = mutexes s) as -> by (rewrite /paused; by destruct (thrs s !! _)).
    by injection Ef.
  - intros x y _ Hy Hb. rewrite Ex. destruct (decide (r.2 = x)) as [<-|Hne].
    + rewrite Hyr in Hy. injection Hy as ->. rewrite /ready_at Hyr in Hrr.
      destruct (r.2 =? 0); [done|]. rewrite /is_ready in Hrr. case_bool_decide; congruence.
    + rewrite lookup_insert_ne //. by exists y.
Qed.

Lemma mutex_rep_ticked s TL now l a b q :
  sched_rep s TL → mutex_rep s a b q → mutex_rep (ticked s TL now l) a b q.
Proof.
  intros Hr Hm. apply (mutex_rep_frame s); [done|done|]. intros x y _ Hy Hb. simpl.
  assert (wake_list now (TL ≫= snd) (thrs s) !! x = Some y) as Hw.
  { rewrite wake_list_lookup; [|apply Hr]. rewrite Hy. case_decide; [|done]. simpl.
    by rewrite /wake_thread Hb. }
  destruct (decide (thread_current s = x)) as [<-|Hne].
  - rewrite lookup_alter_eq Hw. by eexists.
  - rewrite lookup_alter_ne // Hw. by exists y.
Qed.

(** ** Acquire and release *)

Lemma mutex_enter s a b q :
  mutex_rep s a b q →
  ∃ m l c, mutexes s !! a = Some m ∧ is_locked m = b ∧ queue_rep (thrs s) m q ∧
    lock_held l ∧ mutex_lock_acquire a s =
      Ok (rflags (sc_cpu s),
          with_mutex a (mkMutex b l (waiting_queue_head m) (waiting_queue_tail m)) c s).
Proof.
  intros [(m & Hm & <- & Hl & Hq) _].
  destruct (spinlock_acquire_free (internal_lock m) (sc_cpu s) Hl) as (l & c & E & Hh & _).
  exists m, l, c. repeat (split; [done|]). by rewrite /mutex_lock_acquire Hm E.
Qed.

Lemma mutex_leave s a m flags :
  mutexes s !! a = Some m → lock_held (internal_lock m) →
  ∃ l, lock_free l ∧ mutex_lock_release a flags s =
    Ok (tt, with_mutex a (mkMutex (is_locked m) l (waiting_queue_head m) (waiting_queue_tail m))
              (mkCpu flags) s).
Proof.
  intros Hm Hh. destruct (spinlock_release_held (internal_lock m) flags (sc_cpu s) Hh) as (l & E & Hf).
  exists l. split; [done|]. by rewrite /mutex_lock_release Hm E.
Qed.

Lemma with_mutex_twice a m1 c1 m2 c2 s :
  with_mutex a m2 c2 (with_mutex a m1 c1 s) = with_mutex a m2 c2 s.
Proof. rewrite /with_mutex /=. by rewrite insert_insert_eq. Qed.

(** A free mutex is taken at once. *)
Lemma mutex_acquire_free_ok s a status :
  mutex_rep s a false [] →
  ∃ m, mutex_acquire a status s = Ok (None, with_mutex a m (sc_cpu s) s) ∧
    mutex_rep (with_mutex a m (sc_cpu s) s) a true [].
Proof.
  intros Hr. destruct (mutex_enter s a _ _ Hr) as (m & l & c & Hm & Hb & Hq & Hh & Ea).
  set m1 := mkMutex false l (waiting_queue_head m) (waiting_queue_tail m) in Ea.
  set s1 := with_mutex a m1 c s in Ea.
  assert (mutexes s1 !! a = Some m1) as H1 by apply lookup_insert_eq.
  set s2 := with_mutex a (set_locked true m1) (sc_cpu s1) s1.
  destruct (mutex_leave s2 a (set_locked true m1) (rflags (sc_cpu s))) as (l' & Hf & Er);
    [apply lookup_insert_eq|done|].
  rewrite mkCpu_rflags in Er. eexists. split.
  - rewrite /mutex_acquire {1}/bind Ea {1}/bind {1}/read_mutex {1}/reads H1. cbn [is_locked m1 negb].
    rewrite {1}/bind /update_mutex {1}/bind /read_mutex /reads H1 /modify. fold s2.
    rewrite /bind Er. rewrite /s2 /s1 !with_mutex_twice. reflexivity.
  - split; [|done]. eexists. split; [apply lookup_insert_eq|]. split; [done|]. split; [done|].
    by apply (queue_rep_frame (thrs s) _ m); [..|intros x y Hx; apply not_elem_of_nil in Hx].
Qed.

(** The struct of a thread that goes to sleep on a mutex. *)
Definition enqueued (y : thread) : thread := set_state THREAD_BLOCKED (set_next_waiter 0 y).

(** The threads after [c] has joined the queue [q]. *)
Definition joined (q : list Z) (c : Z) (ts : gmap Z thread) : gmap Z thread :=
  alter enqueued c
    (default ts (z ← last q; Some (alter (set_next_waiter c) z ts))).

Lemma queue_rep_join ts m q c y m' :
  queue_rep ts m q → c ∉ q → c ≠ 0 → ts !! c = Some y →
  waiting_queue_head m' = first (q ++ [c]) → waiting_queue_tail m' = c →
  queue_rep (joined q c ts) m' (q ++ [c]).
Proof.
  intros [H1 H2 H3 H4 H5] Hc H0 Hy Eh Et. split; [done|by rewrite last_snoc| |set_solver|].
  - apply NoDup_app. split; [done|]. split; [set_solver|apply NoDup_singleton].
  - intros q1 x q2 E. rewrite /joined. destruct q2 as [|z q2 _] using rev_ind.
    + apply app_inj_tail in E as [<- <-]. rewrite lookup_alter_eq.
      assert (default ts (z ← last q; Some (alter (set_next_waiter c) z ts)) !! c = Some y) as ->.
      { destruct (last q) as [z|] eqn:El; simpl; [|done]. rewrite lookup_alter_ne //.
        intros ->. by apply Hc, last_Some_elem_of. }
      by eexists.
    + rewrite app_comm_cons app_assoc in E. apply app_inj_tail in E as [-> <-].
      destruct (H5 q1 x q2 eq_refl) as (yx & Hyx & Hn & Hb).
      rewrite lookup_alter_ne; [|intros ->; apply Hc; set_solver].
      destruct q2 as [|z' q2 _] using rev_ind.
      * rewrite last_snoc /= lookup_alter_eq Hyx /=. by eexists.
      * rewrite app_comm_cons app_assoc last_snoc /= lookup_alter_ne.
        -- rewrite Hyx. exists yx. split; [done|]. split; [|done]. rewrite Hn. by destruct q2.
        -- intros ->. apply NoDup_app in H3 as (_ & _ & H3). apply NoDup_cons in H3 as [H3 _]. set_solver.
Qed.

Lemma seq3_run {S B} (m1 m2 m3 : M S unit) (k : M S B) s s' :
  (m1;;; m2;;; m3) s = Ok (tt, s') → (m1;;; m2;;; m3;;; k) s = k s'.
Proof.
  rewrite /bind. destruct (m1 s) as [[[] s1]|]; [|done].
  destruct (m2 s1) as [[[] s2]|]; [|done]. by intros ->.
Qed.

(** A taken mutex: the caller joins the queue, and the CPU goes to the scheduler. *)
Lemma mutex_acquire_wait_ok s a q y status :
  mutex_rep s a true q → thread_current s ∉ q → thread_current s ≠ 0 →
  thrs s !! thread_current s = Some y →
  ∃ m, let s1 := with_mutex a m (sc_cpu s) (with_thrs (joined q (thread_current s) (thrs s)) s) in
    mutex_acquire a status s = (c <- scheduler_yield status;; ret (Some c)) s1 ∧
    mutex_rep s1 a true (q ++ [thread_current s]).
Proof.
  intros Hr Hnq H0 Hy. destruct (mutex_enter s a _ _ Hr) as (m & l & c & Hm & Hb & Hq & Hh & Ea).
  set x := thread_current s in Hnq, H0, Hy |- *.
  set m1 := mkMutex true l (waiting_queue_head m) (waiting_queue_tail m) in Ea.
  set s1 := with_mutex a m1 c s in Ea.
  assert (mutexes s1 !! a = Some m1) as H1 by apply lookup_insert_eq.
  set m2 := mkMutex true l (first (q ++ [x])) x.
  assert ((update_thread x (set_next_waiter 0);;;
    (if waiting_queue_tail m1 =? 0 then
       update_mutex a (set_head x);;;
       update_mutex a (set_tail x)
     else
       update_thread (waiting_queue_tail m1) (set_next_waiter x);;;
       update_mutex a (set_tail x));;;
    update_thread x (set_state THREAD_BLOCKED)) s1 =
      Ok (tt, with_mutex a m2 c (with_thrs (joined q x (thrs s)) s))) as Ejoin.
  { rewrite /update_mutex /update_thread /bind /read_thread /read_mutex /reads /modify.
    cbn [thrs mutexes s1 with_mutex with_thrs]. rewrite Hy. cbn [waiting_queue_tail m1].
    rewrite (qr_tail _ _ _ Hq). destruct (last q) as [z|] eqn:El; cbn [default].
    - pose proof (last_Some_elem_of _ _ El) as Hz. change (id z) with z.
      assert (z ≠ 0) as Hz0 by (intros ->; by apply (qr_nonnull _ _ _ Hq)).
      assert (x ≠ z) as Hxz by (intros <-; done).
      rewrite (proj2 (Z.eqb_neq _ _) Hz0). cbn [thrs mutexes with_mutex with_thrs].
      destruct (waiter_blocked s a true q z Hr Hz) as (yz & Hyz & _).
      rewrite lookup_insert_ne // Hyz. cbn [thrs mutexes with_mutex with_thrs sc_cpu].
      rewrite !lookup_insert_eq. cbn [thrs mutexes with_mutex with_thrs sc_cpu].
      rewrite lookup_insert_ne // lookup_insert_eq. cbn [thrs mutexes with_mutex with_thrs sc_cpu].
      rewrite /joined El. cbn [mbind option_bind default]. f_equal. f_equal.
      assert (q = first q :: tail q ∧ first (q ++ [x]) = first q) as [_ Ef] by (destruct q; done).
      rewrite /m2 Ef -(qr_head _ _ _ Hq) /set_tail /with_mutex /with_thrs /=. rewrite insert_insert_eq.
      f_equal. rewrite (insert_insert_ne _ x z) // insert_insert_eq (insert_insert_ne _ z x) //.
      rewrite (alter_insert_lookup _ _ _ _ Hyz).
      apply (alter_insert_lookup _ _ _ enqueued). by rewrite lookup_alter_ne.
    - rewrite Z.eqb_refl.
      repeat (cbn [thrs mutexes with_mutex with_thrs sc_cpu]; rewrite lookup_insert_eq).
      apply last_None in El as ->. rewrite /joined /with_mutex /with_thrs /=. f_equal. f_equal.
      rewrite !insert_insert_eq. f_equal. apply (alter_insert_lookup _ _ _ enqueued Hy). }
  set s2 := with_mutex a m2 c (with_thrs (joined q x (thrs s)) s) in Ejoin.
  destruct (mutex_leave s2 a m2 (rflags (sc_cpu s))) as (l' & Hf & Er); [apply lookup_insert_eq|done|].
  rewrite mkCpu_rflags in Er. rewrite {2}/s2 with_mutex_twice in Er. eexists. split.
  - rewrite /mutex_acquire {1}/bind Ea {1}/bind {1}/read_mutex {1}/reads H1. cbn [is_locked m1 negb].
    rewrite {1}/bind {1}/gets. change (thread_current s1) with x.
    rewrite (seq3_run _ _ _ _ _ _ Ejoin) {1}/bind.
    rewrite Er. reflexivity.
  - split; [|done]. eexists. split; [apply lookup_insert_eq|]. split; [done|]. split; [done|].
    by apply (queue_rep_join (thrs s) m q x y).
Qed.

Lemma mutex_release_free_ok s a b :
  mutex_rep s a b [] →
  ∃ m, mutex_release a s = Ok (tt, with_mutex a m (sc_cpu s) s) ∧
    mutex_rep (with_mutex a m (sc_cpu s) s) a false [].
Proof.
  intros Hr. destruct (mutex_enter s a _ _ Hr) as (m & l & c & Hm & Hb & Hq & Hh & Ea).
  set m1 := mkMutex b l (waiting_queue_head m) (waiting_queue_tail m) in Ea.
  set s1 := with_mutex a m1 c s in Ea.
  assert (mutexes s1 !! a = Some m1) as H1 by apply lookup_insert_eq.
  set s2 := with_mutex a (set_locked false m1) (sc_cpu s1) s1.
  destruct (mutex_leave s2 a (set_locked false m1) (rflags (sc_cpu s))) as (l' & Hf & Er);
    [apply lookup_insert_eq|done|].
  rewrite mkCpu_rflags in Er. eexists. split.
  - rewrite /mutex_release {1}/bind Ea {1}/bind {1}/read_mutex {1}/reads H1. cbn [waiting_queue_head m1].
    rewrite (qr_head _ _ _ Hq). change (first []) with 0. rewrite Z.eqb_refl.
    rewrite {1}/bind /update_mutex {1}/bind /read_mutex /reads H1 /modify. fold s2.
    rewrite Er. rewrite /s2 /s1 !with_mutex_twice. reflexivity.
  - split; [|done]. eexists. split; [apply lookup_insert_eq|]. split; [done|]. split; [done|].
    by apply (queue_rep_frame (thrs s) _ m); [..|intros x y Hx; apply not_elem_of_nil in Hx].
Qed.

Lemma queue_rep_pop ts m w q m' :
  queue_rep ts m (w :: q) → waiting_queue_head m' = first q →
  waiting_queue_tail m' = default 0 (last q) →
  queue_rep (alter (set_state THREAD_READY) w ts) m' q.
Proof.
  intros [H1 H2 H3 H4 H5] Eh Et. apply NoDup_cons in H3 as [Hw H3].
  split; [done|done|done|set_solver|].
  intros q1 x q2 E. destruct (H5 (w :: q1) x q2) as (y & Hy & Hn & Hb); [by rewrite E|].
  exists y. rewrite lookup_alter_ne //. intros ->. apply Hw. rewrite E. set_solver.
Qed.

(** The first waiter gets the mutex: it stays locked and that thread becomes ready. *)
Lemma mutex_release_handoff_ok s a b w q :
  mutex_rep s a b (w :: q) →
  ∃ m, let s1 := with_mutex a m (sc_cpu s)
                   (with_thrs (alter (set_state THREAD_READY) w (thrs s)) s) in
    mutex_release a s = Ok (tt, s1) ∧ mutex_rep s1 a b q.
Proof.
  intros Hr. destruct (mutex_enter s a _ _ Hr) as (m & l & c & Hm & Hb & Hq & Hh & Ea).
  set m1 := mkMutex b l (waiting_queue_head m) (waiting_queue_tail m) in Ea.
  set s1 := with_mutex a m1 c s in Ea.
  destruct (qr_thread _ _ _ Hq [] w q eq_refl) as (yw & Hyw & Hnw & _).
  set m2 := mkMutex b l (first q) (default 0 (last q)).
  set s2 := with_mutex a m2 c (with_thrs (alter (set_state THREAD_READY) w (thrs s)) s).
  destruct (mutex_leave s2 a m2 (rflags (sc_cpu s))) as (l' & Hf & Er); [apply lookup_insert_eq|done|].
  rewrite mkCpu_rflags {2}/s2 with_mutex_twice in Er. eexists. split.
  - assert (w ≠ 0) as Hw0 by (intros ->; apply (qr_nonnull _ _ _ Hq); by left).
    assert (mutexes s1 !! a = Some m1) as H1 by apply lookup_insert_eq.
    rewrite /mutex_release {1}/bind Ea {1}/bind {1}/read_mutex {1}/reads H1. cbn [waiting_queue_head m1].
    rewrite (qr_head _ _ _ Hq). change (first (w :: q)) with w. rewrite (proj2 (Z.eqb_neq _ _) Hw0).
    rewrite {1}/bind {1}/bind {1}/read_thread {1}/reads. cbn [thrs s1 with_mutex]. rewrite Hyw Hnw.
    fold s1. rewrite {1}/bind {1}/update_mutex {1}/bind {1}/read_mutex {1}/reads H1 {1}/modify.
    rewrite {1}/bind {1}/read_mutex {1}/reads. cbn [mutexes with_mutex]. rewrite lookup_insert_eq.
    cbn [waiting_queue_head set_head].
    assert ((if first q =? 0 then update_mutex a (set_tail 0) else ret tt)
      (with_mutex a (set_head (first q) m1) (sc_cpu s1) s1) =
      Ok (tt, with_mutex a m2 c s)) as Et.
    { destruct q as [|x q].
      - rewrite Z.eqb_refl /update_mutex /bind /read_mutex /reads /modify. cbn [mutexes with_mutex].
        rewrite lookup_insert_eq with_mutex_twice /s1 with_mutex_twice. done.
      - assert (x ≠ 0) as Hx0 by (intros ->; apply (qr_nonnull _ _ _ Hq); set_solver).
        change (first (x :: q)) with x. rewrite (proj2 (Z.eqb_neq _ _) Hx0) /ret /s1 with_mutex_twice.
        rewrite /set_head /m2. cbn [is_locked internal_lock waiting_queue_tail m1].
        by rewrite (qr_tail _ _ _ Hq). }
    rewrite {1}/bind Et /update_thread /bind /read_thread /reads. cbn [thrs with_mutex]. rewrite Hyw /modify.
    cbn [thrs with_mutex]. rewrite (alter_insert_lookup _ _ _ _ Hyw).
    change (with_thrs _ (with_mutex a m2 c s)) with s2. rewrite Er. reflexivity.
  - split; [|intros _; by apply (mr_waiting _ _ _ _ Hr)].
    eexists. split; [apply lookup_insert_eq|]. split; [done|]. split; [done|].
    by apply (queue_rep_pop (thrs s) m w q).
Qed.

(** ** Mutual exclusion *)

(** Runs of the kernel in which threads use the mutex [a]. Beside the state, the set of
    threads inside: those that came back from [mutex_acquire], at once or because a
    release made them ready again, and have not called [mutex_release] since. *)

Definition thread_in (st : thread_state) (s : sched_state) (x : Z) : bool :=
  match thrs s !! x with Some y => bool_decide (tstate y = st) | None => false end.

(** The waiters that came out of their wait between two states. *)
Definition woken (s s' : sched_state) : gset Z :=
  filter (λ x, thread_in THREAD_BLOCKED s x = true ∧ thread_in THREAD_READY s' x = true)
    (dom (thrs s)).

Inductive mutex_step (a : Z) : sched_state * gset Z → sched_state * gset Z → Prop :=
  | step_acquire s H status s' :
      thread_current s ∉ H → mutex_acquire a status s = Ok (None, s') →
      mutex_step a (s, H) (s', {[thread_current s]} ∪ H)
  | step_wait s H status c s' :
      thread_current s ∉ H → mutex_acquire a status s = Ok (Some c, s') →
      mutex_step a (s, H) (s', H)
  | step_release s H s' :
      thread_current s ∈ H → mutex_release a s = Ok (tt, s') →
      mutex_step a (s, H) (s', (H ∖ {[thread_current s]}) ∪ woken s s')
  | step_yield s H status c s' :
      scheduler_yield status s = Ok (c, s') → mutex_step a (s, H) (s', H)
  | step_timer s H tsc status c s' :
      timer_handler tsc status s = Ok (c, s') → mutex_step a (s, H) (s', H)
  | step_sleep s H tsc ms status c s' :
      thread_sleep tsc ms status s = Ok (c, s') → mutex_step a (s, H) (s', H).

(** The kernel at rest: the lists are in order, a thread of them is running, no lock is
    held, time slices are in range. *)
Definition in_slice (y : thread) : Prop := 1 ≤ ticks_remaining y ≤ THREAD_INITIAL_TICKS.
Record calm (s : sched_state) (TL : list (Z * list Z)) : Prop := {
  cm_rep : sched_rep s TL;
  cm_current : current_ok s TL;
  cm_lock : lock_free (scheduler_lock s);
  cm_running : thread_in THREAD_RUNNING s (thread_current s) = true;
  cm_slices : ∀ x y, x ∈ TL ≫= snd → thrs s !! x = Some y → in_slice y;
  cm_clock : clock_ok s;
}.

(** The same threads, in the same lists, with time slices in range. *)
Definition kept (TL : list (Z * list Z)) (ts ts' : gmap Z thread) : Prop :=
  ∀ x y, x ∈ TL ≫= snd → ts !! x = Some y →
    ∃ y', ts' !! x = Some y' ∧ tnext y' = tnext y ∧ (in_slice y → in_slice y').

Lemma kept_refl TL ts : kept TL ts ts.
Proof. intros x y _ Hy. by exists y. Qed.
Lemma kept_trans TL ts1 ts2 ts3 : kept TL ts1 ts2 → kept TL ts2 ts3 → kept TL ts1 ts3.
Proof.
  intros H1 H2 x y Hx Hy. destruct (H1 x y Hx Hy) as (y1 & Hy1 & E1 & S1).
  destruct (H2 x y1 Hx Hy1) as (y2 & Hy2 & E2 & S2). exists y2. split; [done|].
  split; [congruence|auto].
Qed.
Lemma kept_alter TL ts f z :
  (∀ y, tnext (f y) = tnext y ∧ (in_slice y → in_slice (f y))) → kept TL ts (alter f z ts).
Proof.
  intros Hf x y _ Hy. destruct (decide (z = x)) as [<-|Hne].
  - rewrite lookup_alter_eq Hy /=. eexists. split; [done|]. apply Hf.
  - rewrite lookup_alter_ne //. by exists y.
Qed.
#[local] Hint Resolve kept_refl : sched.

Lemma kept_rep s s' TL :
  sched_rep s TL → kept TL (thrs s) (thrs s') → tasks s' = tasks s → task_list s' = task_list s →
  sched_rep s' TL.
Proof.
  intros Hr Hk Et El. apply (sched_rep_frame s); [done..|]. intros x y Hx Hy.
  destruct (Hk x y Hx Hy) as (y' & ? & ? & _). by exists y'.
Qed.

Lemma kept_slices s s' TL :
  sched_rep s TL → kept TL (thrs s) (thrs s') →
  (∀ x y, x ∈ TL ≫= snd → thrs s !! x = Some y → in_slice y) →
  ∀ x y, x ∈ TL ≫= snd → thrs s' !! x = Some y → in_slice y.
Proof.
  intros Hr Hk Hs x y' Hx Hy'. pose proof Hx as ([t l] & Hxl & Hin)%list_elem_of_bind.
  apply list_elem_of_split in Hxl as (l1 & l2 & E). simpl in E. subst l.
  destruct (sr_thr _ _ Hr t l1 x l2 Hin) as (y & Hy & _).
  destruct (Hk x y Hx Hy) as (y'' & Hy'' & _ & Hsl). rewrite Hy' in Hy''. injection Hy'' as <-.
  eauto.
Qed.

(** A change of the running thread's own struct, or of other threads, that keeps it running. *)
Lemma calm_frame s s' TL :
  calm s TL → kept TL (thrs s) (thrs s') → tasks s' = tasks s → task_list s' = task_list s →
  task_current s' = task_current s → thread_current s' = thread_current s →
  lock_free (scheduler_lock s') → tsc_freq_hz s' = tsc_freq_hz s →
  thread_in THREAD_RUNNING s' (thread_current s) = true → calm s' TL.
Proof.
  intros [H1 H2 H3 H4 H5 H6] Hk Et El Ec Ex Hl Ef Hrun. split.
  - by apply (kept_rep s).
  - by rewrite /current_ok Ec Ex.
  - done.
  - by rewrite Ex.
  - by apply (kept_slices s).
  - by rewrite /clock_ok Ef.
Qed.

Lemma kept_schedule TL ts c f r yr :
  (∀ y, tnext (f y) = tnext y ∧ ticks_remaining (f y) = ticks_remaining y) →
  alter f c ts !! r = Some yr →
  kept TL ts (<[r := set_state THREAD_RUNNING yr]> (alter f c ts)).
Proof.
  intros Hf Hyr. apply (kept_trans _ _ (alter f c ts)).
  - apply kept_alter. intros y. destruct (Hf y) as [? Et]. rewrite /in_slice Et. done.
  - rewrite (alter_insert_lookup _ _ _ _ Hyr). by apply kept_alter.
Qed.

Lemma paused_alter s status :
  thrs (paused s status) = alter (pause status) (thread_current s) (thrs s).
Proof.
  rewrite /paused. destruct (thrs s !! thread_current s) as [y|] eqn:Hy.
  - simpl. apply alter_insert_lookup. done.
  - apply map_eq. intros z. destruct (decide (thread_current s = z)) as [<-|Hne].
    + by rewrite lookup_alter_eq Hy.
    + by rewrite lookup_alter_ne.
Qed.

(** After the scheduler has switched, the kernel is at rest again. *)
Lemma calm_schedule s TL status c s' :
  sched_rep s TL → current_ok s TL → lock_free (scheduler_lock s) → clock_ok s →
  (∀ x y, x ∈ TL ≫= snd → thrs s !! x = Some y → in_slice y) →
  scheduler_schedule status s = Ok (c, s') → calm s' TL.
Proof.
  intros Hr Hc Hl Hclk Hsl E.
  destruct (schedule_returned s TL status c s' Hr Hc Hl E)
    as (r & yr & _ & _ & Hyr & _ & Ex & _ & Ec & Hc' & Hl' & Ef & Hr').
  split; [done|done|done| | |].
  - rewrite /thread_in Ec Ex lookup_insert_eq. done.
  - apply (kept_slices s); [done| |done]. rewrite Ex paused_alter. rewrite paused_alter in Hyr.
    apply kept_schedule; [|done]. intros y. rewrite /pause. by case_bool_decide.
  - rewrite /clock_ok. by injection Ef as _ _ _ _ _ _ _ -> _.
Qed.

Definition occupied (H : gset Z) : bool := bool_decide (H ≠ ∅).

Definition mutex_inv (TL : list (Z * list Z)) (a : Z) (p : sched_state * gset Z) : Prop :=
  calm p.1 TL ∧ (∃ q, mutex_rep p.1 a (occupied p.2) q) ∧ (p.2 = ∅ ∨ ∃ h, p.2 = {[h]}).

Section exclusion.
Context (TL : list (Z * list Z)) (a : Z).

Lemma running_not_waiting s b q :
  calm s TL → mutex_rep s a b q →
  thread_current s ∉ q ∧ thread_current s ≠ 0 ∧
  ∃ y, thrs s !! thread_current s = Some y ∧ tstate y = THREAD_RUNNING.
Proof.
  intros Hc Hm. pose proof (cm_running _ _ Hc) as Hrun. rewrite /thread_in in Hrun.
  destruct (thrs s !! thread_current s) as [y|] eqn:Hy; [|done]. apply bool_decide_eq_true in Hrun.
  split; [|split; [apply (cm_current _ _ Hc)|by exists y]].
  intros Hq. destruct (waiter_blocked s a b q _ Hm Hq) as (y' & Hy' & Hb). congruence.
Qed.

Lemma calm_with_mutex s m : calm s TL → calm (with_mutex a m (sc_cpu s) s) TL.
Proof. intros Hc. apply (calm_frame s); try done; [apply kept_refl|apply Hc|apply Hc]. Qed.

Lemma inv_acquire s H status r s' :
  mutex_inv TL a (s, H) → thread_current s ∉ H → mutex_acquire a status s = Ok (r, s') →
  mutex_inv TL a (s', match r with None => {[thread_current s]} ∪ H | Some _ => H end).
Proof.
  intros (Hc & [q Hm] & HH) Hn E. simpl in *.
  destruct (running_not_waiting s _ q Hc Hm) as (Hq & H0 & y & Hy & Hry).
  destruct (occupied H) eqn:Eo.
  - destruct (mutex_acquire_wait_ok s a q y status Hm Hq H0 Hy) as (m & Ew & Hm1).
    set s1 := with_mutex a m _ _ in Ew, Hm1. rewrite Ew /scheduler_yield /bind in E.
    destruct (scheduler_schedule status s1) as [[c s2]|] eqn:Es; [|done].
    injection E as <- <-. rewrite /mutex_inv /=.
    assert (kept TL (thrs s) (thrs s1)) as Hk.
    { rewrite /s1 /= /joined. destruct (last q) as [z|]; simpl.
      - apply (kept_trans _ _ (alter (set_next_waiter (thread_current s)) z (thrs s))); by apply kept_alter.
      - by apply kept_alter. }
    assert (sched_rep s1 TL) as Hr1 by (by apply (kept_rep s); [apply Hc|..]).
    assert (current_ok s1 TL) as Hc1 by apply Hc.
    split; [|split; [|done]].
    + apply (calm_schedule s1 TL status c); [done|done|apply Hc|apply Hc| |done].
      apply (kept_slices s); [apply Hc|done|apply Hc].
    + eexists. rewrite Eo. by apply (mutex_rep_schedule s1 TL a true _ status c); [..|apply Hc| |].
  - assert (H = ∅) as -> by (apply bool_decide_eq_false in Eo; by destruct (decide (H = ∅))).
    assert (q = []) as ->.
    { destruct q as [|x q]; [done|]. by pose proof (mr_waiting _ _ _ _ Hm ltac:(done)). }
    destruct (mutex_acquire_free_ok s a status Hm) as (m & Ew & Hm1). rewrite Ew in E.
    injection E as <- <-. rewrite right_id_L. split; [by apply calm_with_mutex|]. split.
    + exists []. simpl. rewrite /occupied bool_decide_true; [|set_solver]. done.
    + right. by eexists.
Qed.

Lemma woken_none s m : woken s (with_mutex a m (sc_cpu s) s) = ∅.
Proof.
  apply set_eq. intros x. rewrite /woken elem_of_filter elem_of_empty /thread_in /=. split; [|done].
  intros [[H1 H2] _]. destruct (thrs s !! x) as [y|]; [|done].
  apply bool_decide_eq_true in H1, H2. congruence.
Qed.

Lemma woken_one s m b w q :
  mutex_rep s a b (w :: q) →
  woken s (with_mutex a m (sc_cpu s) (with_thrs (alter (set_state THREAD_READY) w (thrs s)) s)) = {[w]}.
Proof.
  intros Hm. destruct (waiter_blocked s a b (w :: q) w Hm) as (y & Hy & Hb); [by left|].
  apply set_eq. intros x. rewrite /woken elem_of_filter elem_of_singleton /thread_in /=.
  destruct (decide (w = x)) as [<-|Hne].
  - rewrite lookup_alter_eq Hy /= Hb. split; [done|]. intros _. split; [done|].
    apply elem_of_dom. by exists y.
  - rewrite lookup_alter_ne //. split; [|congruence].
    intros [[H1 H2] _]. destruct (thrs s !! x) as [z|]; [|done].
    apply bool_decide_eq_true in H1, H2. congruence.
Qed.

Lemma inv_release s H s' :
  mutex_inv TL a (s, H) → thread_current s ∈ H → mutex_release a s = Ok (tt, s') →
  mutex_inv TL a (s', (H ∖ {[thread_current s]}) ∪ woken s s').
Proof.
  intros (Hc & [q Hm] & HH) Hin E. simpl in *.
  destruct HH as [->|[h ->]]; [set_solver|]. apply elem_of_singleton in Hin as <-.
  destruct (running_not_waiting s _ q Hc Hm) as (Hq & H0 & y & Hy & Hry).
  rewrite difference_diag_L left_id_L. rewrite /occupied bool_decide_true in Hm; [|set_solver].
  destruct q as [|w q].
  - destruct (mutex_release_free_ok s a _ Hm) as (m & Er & Hm1). rewrite Er in E. injection E as <-.
    rewrite woken_none. split; [by apply calm_with_mutex|]. split; [|by left].
    exists []. simpl. rewrite /occupied bool_decide_false; [done|]. by intros [].
  - destruct (mutex_release_handoff_ok s a _ w q Hm) as (m & Er & Hm1). rewrite Er in E. injection E as <-.
    rewrite (woken_one s m _ w q Hm). split; [|split].
    + apply (calm_frame s); try done; [by apply kept_alter|apply Hc|]. rewrite /thread_in /=.
      rewrite lookup_alter_ne; [|set_solver]. rewrite Hy Hry. done.
    + exists q. simpl. rewrite /occupied bool_decide_true; [|set_solver]. done.
    + right. by eexists.
Qed.

Lemma inv_schedule s H status c s' :
  sched_rep s TL → current_ok s TL → lock_free (scheduler_lock s) → clock_ok s →
  (∀ x y, x ∈ TL ≫= snd → thrs s !! x = Some y → in_slice y) →
  (∃ q, mutex_rep s a (occupied H) q) → (H = ∅ ∨ ∃ h, H = {[h]}) →
  scheduler_schedule status s = Ok (c, s') → mutex_inv TL a (s', H).
Proof.
  intros Hr Hc Hl Hclk Hsl [q Hm] HH E. split; [by apply (calm_schedule s TL status c)|].
  split; [|done]. exists q. by apply (mutex_rep_schedule s TL a _ q status c).
Qed.

Lemma calm_nonempty s : calm s TL → TL ≠ [].
Proof. intros Hc E. destruct (cm_current _ _ Hc) as [_ Hin]. rewrite E in Hin. set_solver. Qed.

Lemma tick_slice y : tnext (tick y) = tnext y ∧ (in_slice y → in_slice (tick y)).
Proof.
  rewrite /tick /in_slice /THREAD_INITIAL_TICKS /=. split; [done|].
  destruct (Z.eqb_spec (ticks_remaining y) 1); lia.
Qed.

Lemma kept_wake ts now xs : kept TL ts (wake_list now xs ts).
Proof.
  revert ts. induction xs as [|x xs IH]; intros ts; [apply kept_refl|].
  apply (kept_trans _ _ (alter (wake_thread now) x ts)); [|apply IH].
  apply kept_alter. intros y. by rewrite wake_thread_tnext /in_slice wake_thread_ticks.
Qed.

Lemma inv_timer s H tsc status c s' :
  mutex_inv TL a (s, H) → timer_handler tsc status s = Ok (c, s') → mutex_inv TL a (s', H).
Proof.
  intros (Hc & [q Hm] & HH) E. simpl in *.
  destruct (running_not_waiting s _ q Hc Hm) as (Hq & H0 & y & Hy & Hry).
  destruct (current_thread s TL (cm_rep _ _ Hc) (cm_current _ _ Hc)) as (_ & Hin & _).
  destruct (timer_tick_ok s TL tsc status y) as (l & Hf & Et);
    [apply Hc|by apply (calm_nonempty s)|apply Hc|apply Hc|done|done|by apply (cm_slices _ _ Hc _ _ Hin)|].
  rewrite Et in E. set st := ticked s TL (uptime s tsc) l in E.
  assert (kept TL (thrs s) (thrs st)) as Hk.
  { apply (kept_trans _ _ (wake_list (uptime s tsc) (TL ≫= snd) (thrs s))); [apply kept_wake|].
    apply kept_alter, tick_slice. }
  assert (sched_rep st TL) as Hr by (apply ticked_rep, Hc).
  assert (mutex_rep st a (occupied H) q) as Hmt by (apply mutex_rep_ticked; [apply Hc|done]).
  destruct (ticks_remaining y =? 1).
  - apply (inv_schedule st H status c); try done; [apply Hc|apply Hc| |by exists q].
    apply (kept_slices s); [apply Hc|done|apply Hc].
  - injection E as <- <-. split; [|split; [by exists q|done]].
    apply (calm_frame s); try done. rewrite /thread_in /= lookup_alter_eq.
    rewrite wake_list_lookup; [|apply Hc]. rewrite decide_True // Hy /=.
    rewrite /wake_thread Hry /=. by rewrite Hry.
Qed.

Lemma inv_sleep s H tsc ms status c s' :
  mutex_inv TL a (s, H) → thread_sleep tsc ms status s = Ok (c, s') → mutex_inv TL a (s', H).
Proof.
  intros (Hc & [q Hm] & HH) E. simpl in *.
  destruct (running_not_waiting s _ q Hc Hm) as (Hq & H0 & y & Hy & Hry).
  destruct (thread_sleep_parks s y tsc ms status (cm_lock _ _ Hc) (cm_clock _ _ Hc) Hy) as (l & Hf & Es).
  rewrite Es in E. set f := (λ y, _) in E. set sp := parked s f l in E.
  assert (kept TL (thrs s) (thrs sp)) as Hk by by apply kept_alter.
  apply (inv_schedule sp H status c); try done; [|apply Hc|apply Hc| |].
  - apply parked_rep; [apply Hc|done].
  - apply (kept_slices s); [apply Hc|done|apply Hc].
  - exists q. apply (mutex_rep_frame s); [done|done|]. intros x yx Hx Hyx Hb. simpl.
    rewrite lookup_alter_ne; [by exists yx|]. by intros <-.
Qed.

Lemma mutex_step_inv p p' : mutex_inv TL a p → mutex_step a p p' → mutex_inv TL a p'.
Proof.
  intros Hi Hs. destruct Hs.
  - by apply (inv_acquire s H status None s').
  - by apply (inv_acquire s H status (Some c) s').
  - by apply inv_release.
  - destruct Hi as (Hc & Hm & HH). simpl in *. by apply (inv_schedule s H status c); [apply Hc..| | |].
  - by eapply inv_timer.
  - by eapply inv_sleep.
Qed.
End exclusion.
