(* ===== verification/SchedInv.v ===== *)
(** * Threads: runs of the kernel and their invariant

    Every operation of scheduler.c, task.c and timer.c as a step of the kernel, and the
    invariant all of them keep: the task and thread lists are well formed, the CPU runs a
    thread of the lists, that thread is RUNNING, every task is in the list, time slices
    are in range and the scheduler lock is free between operations. *)

From stdpp Require Import base gmap list numbers.
From S2P Require Import Prelude Spinlock Sched SchedSpec SchedOps Mutex.

(** A new struct comes from [kmalloc], which never returns memory that is in use. *)
Inductive kernel_step : sched_state → sched_state → Prop :=
  | k_yield s status c s' :
      scheduler_yield status s = Ok (c, s') → kernel_step s s'
  | k_timer s tsc status c s' :
      timer_handler tsc status s = Ok (c, s') → kernel_step s s'
  | k_sleep s tsc ms status c s' :
      thread_sleep tsc ms status s = Ok (c, s') → kernel_step s s'
  | k_exit s status c s' :
      task_current_thread_exit status s = Ok (c, s') → kernel_step s s'
  | k_task_create s new kvas nm r s' :
      tasks s !! new = None → task_create new kvas nm s = Ok (r, s') → kernel_step s s'
  | k_thread_create s exit_fn t entry new stack r s' :
      is_Some (tasks s !! t) → thrs s !! new = None →
      task_create_thread exit_fn t entry new stack s = Ok (r, s') → kernel_step s s'
  | k_reap s r s' :
      reap_round s = Ok (r, s') → kernel_step s s'.

Definition all_listed (s : sched_state) (TL : list (Z * list Z)) : Prop :=
  ∀ t, is_Some (tasks s !! t) → t ∈ fst <$> TL.

Definition kernel_inv (s : sched_state) (TL : list (Z * list Z)) : Prop :=
  calm s TL ∧ all_listed s TL.

Lemma all_listed_tasks s s' TL : tasks s' = tasks s → all_listed s TL → all_listed s' TL.
Proof. rewrite /all_listed. by intros ->. Qed.

Lemma schedule_tasks s TL status c s' :
  sched_rep s TL → current_ok s TL → lock_free (scheduler_lock s) →
  scheduler_schedule status s = Ok (c, s') → tasks s' = tasks s.
Proof.
  intros Hr Hc Hl E.
  destruct (schedule_returned s TL status c s' Hr Hc Hl E) as (_ & _ & _ & _ & _ & _ & _ & _ & _ & _ & _ & Ef & _).
  by injection Ef.
Qed.

(** The scheduler run from a state whose running thread has changed its own struct. *)
Lemma inv_parked s TL f l status c s' :
  kernel_inv s TL → (∀ y, tnext (f y) = tnext y ∧ (in_slice y → in_slice (f y))) →
  lock_free l → scheduler_schedule status (parked s f l) = Ok (c, s') → kernel_inv s' TL.
Proof.
  intros [Hc Ha] Hf Hl E. set sp := parked s f l in E.
  assert (kept TL (thrs s) (thrs sp)) as Hk by by apply kept_alter.
  assert (sched_rep sp TL) as Hr by (apply parked_rep; [apply Hc|apply Hf]).
  assert (current_ok sp TL) as Hcur by apply Hc.
  split.
  - apply (calm_schedule sp TL status c); [done|done|done|apply Hc| |done].
    apply (kept_slices s); [apply Hc|done|apply Hc].
  - apply (all_listed_tasks s); [|done]. by apply (schedule_tasks sp TL status c).
Qed.

Lemma running_thread s TL :
  calm s TL → ∃ y, thrs s !! thread_current s = Some y ∧ tstate y = THREAD_RUNNING.
Proof.
  intros Hc. pose proof (cm_running _ _ Hc) as Hr. rewrite /thread_in in Hr.
  destruct (thrs s !! thread_current s) as [y|]; [|done]. exists y. by apply bool_decide_eq_true in Hr.
Qed.

Lemma inv_k_timer s TL tsc status c s' :
  kernel_inv s TL → timer_handler tsc status s = Ok (c, s') → kernel_inv s' TL.
Proof.
  intros [Hc Ha] E. destruct (running_thread s TL Hc) as (y & Hy & Hry).
  destruct (current_thread s TL (cm_rep _ _ Hc) (cm_current _ _ Hc)) as (_ & Hin & _).
  destruct (timer_tick_ok s TL tsc status y) as (l & Hf & Et);
    [apply Hc|by apply (calm_nonempty _ s)|apply Hc|apply Hc|apply Hc|done|by apply (cm_slices _ _ Hc _ _ Hin)|].
  rewrite Et in E. set st := ticked s TL (uptime s tsc) l in E.
  assert (kept TL (thrs s) (thrs st)) as Hk.
  { apply (kept_trans _ _ (wake_list (uptime s tsc) (TL ≫= snd) (thrs s))); [apply kept_wake|].
    apply kept_alter, tick_slice. }
  assert (sched_rep st TL) as Hr by (apply ticked_rep, Hc).
  assert (current_ok st TL) as Hcur by apply Hc.
  destruct (ticks_remaining y =? 1).
  - split.
    + apply (calm_schedule st TL status c); [done|done|done|apply Hc| |done].
      apply (kept_slices s); [apply Hc|done|apply Hc].
    + apply (all_listed_tasks s); [|done]. by apply (schedule_tasks st TL status c).
  - injection E as <- <-. split; [|by apply (all_listed_tasks s)].
    apply (calm_frame s); try done. rewrite /thread_in /= lookup_alter_eq.
    rewrite wake_list_lookup; [|apply Hc]. rewrite decide_True // Hy /=.
    rewrite /wake_thread Hry /=. by rewrite Hry.
Qed.

Lemma listed_thread s TL x : sched_rep s TL → x ∈ TL ≫= snd → is_Some (thrs s !! x).
Proof.
  intros Hr ([t l] & Hx & Hin)%list_elem_of_bind. simpl in Hx.
  apply list_elem_of_split in Hx as (l1 & l2 & ->).
  destruct (sr_thr _ _ Hr t l1 x l2 Hin) as (y & Hy & _). by exists y.
Qed.

Lemma listed_task s TL t : sched_rep s TL → t ∈ fst <$> TL → is_Some (tasks s !! t).
Proof.
  intros Hr ([u l] & -> & Hin)%list_elem_of_fmap.
  destruct (task_of s TL Hr u l Hin) as (k & Hk & _). by exists k.
Qed.

(** Structs that differ only in their links. *)
Lemma same_thread (o o' : option thread) y :
  set_tnext 0 <$> o' = set_tnext 0 <$> o → o' = Some y →
  ∃ y0, o = Some y0 ∧ tstate y = tstate y0 ∧ ticks_remaining y = ticks_remaining y0.
Proof.
  intros E ->. destruct o as [y0|]; [|done]. exists y0. by injection E.
Qed.

(** The kernel is at rest after the lists have changed around the running thread. *)
Lemma calm_relist s s' TL TL' :
  calm s TL → sched_rep s' TL' →
  task_current s' = task_current s → thread_current s' = thread_current s →
  (task_current s, thread_current s) ∈ stops TL' →
  lock_free (scheduler_lock s') → tsc_freq_hz s' = tsc_freq_hz s →
  set_tnext 0 <$> thrs s' !! thread_current s = set_tnext 0 <$> thrs s !! thread_current s →
  (∀ x y, x ∈ TL' ≫= snd → thrs s' !! x = Some y → in_slice y) → calm s' TL'.
Proof.
  intros Hc Hr Ek Ex Hin Hl Ef Hsame Hsl. split; [done| |done| |done|].
  - rewrite /current_ok Ek Ex. split; [apply Hc|done].
  - rewrite /thread_in Ex. destruct (running_thread s TL Hc) as (y & Hy & Hry). rewrite Hy in Hsame.
    destruct (thrs s' !! thread_current s) as [y'|]; [|done]. simpl in Hsame.
    apply bool_decide_eq_true. injection Hsame as _ _ E _ _ _. congruence.
  - rewrite /clock_ok Ef. apply Hc.
Qed.

Lemma stops_of_thread t l x TL : (t, l) ∈ TL → x ∈ l → (t, x) ∈ stops TL.
Proof.
  intros Hin Hx. apply list_elem_of_bind. exists (t, l). split; [|done].
  rewrite /stops_of /=. destruct l as [|y l]; [by apply not_elem_of_nil in Hx|].
  apply (list_elem_of_fmap (t,.) (y :: l)). by exists x.
Qed.

Lemma current_listed s TL :
  calm s TL → ∃ l, (task_current s, l) ∈ TL ∧ thread_current s ∈ l.
Proof.
  intros Hc. destruct (current_split s TL (cm_current _ _ Hc)) as (pre & l1 & l2 & post & E).
  exists (l1 ++ thread_current s :: l2). rewrite E. split; [apply elem_of_middle; by left|set_solver].
Qed.

(** A new task, at the end of the list. *)
Lemma inv_new_task s TL new kvas nm :
  kernel_inv s TL → tasks s !! new = None → new ≠ 0 → Z.of_nat (length nm) < TASK_NAME_MAX_LENGTH →
  ∃ s', task_create new kvas (Some nm) s = Ok (new, s') ∧ kernel_inv s' (TL ++ [(new, [])]) ∧
    (∀ t k, tasks s' !! t = Some k → t = new ∨ ∃ k0, tasks s !! t = Some k0 ∧ vas k = vas k0) ∧
    tasks s' !! new = Some (mkTask (next_pid s) nm kvas 0 (first (fst <$> TL ++ [(new, [])]))) ∧
    thrs s' = thrs s ∧ frames s' = frames s ∧ stack_words s' = stack_words s ∧ sc_cpu s' = sc_cpu s.
Proof.
  intros [Hc Ha] Hnew H0 Hlt. assert (new ∉ fst <$> TL) as Hnin.
  { intros Hin. destruct (listed_task s TL new (cm_rep _ _ Hc) Hin) as [k Hk]. congruence. }
  destruct (task_create_ok s TL new kvas nm (cm_rep _ _ Hc) (cm_lock _ _ Hc) H0 Hnin Hlt)
    as (s2 & E2 & Hr & Hn & Hsame & Ef & _ & _ & Ex & Ek & Et & Ecpu & Hl & Efr & Esw).
  assert (∀ t k, tasks s2 !! t = Some k → t = new ∨ ∃ k0, tasks s !! t = Some k0 ∧ vas k = vas k0) as Htasks.
  { intros t k Hk. destruct (decide (t = new)) as [->|Hne]; [by left|right]. specialize (Hsame t Hne).
    rewrite Hk in Hsame. destruct (tasks s !! t) as [k0|]; [|done]. exists k0. split; [done|]. by injection Hsame. }
  exists s2. split; [done|]. split; [split|done].
  - destruct (current_listed s TL Hc) as (l & Hin & Hx).
    apply (calm_relist s s2 TL); [done|done|done|done| |done|done|by rewrite Ex|].
    + apply (stops_of_thread _ l); [|done]. apply elem_of_app. by left.
    + rewrite bind_app /= app_nil_r Ex. apply Hc.
  - intros t [k Ht]. rewrite fmap_app elem_of_app. destruct (Htasks t k Ht) as [->|(k0 & Ht' & _)]; [right; by left|left].
    apply Ha. by eexists.
Qed.

Lemma inv_k_task s TL new kvas nm r s' :
  kernel_inv s TL → tasks s !! new = None → task_create new kvas nm s = Ok (r, s') →
  ∃ TL', kernel_inv s' TL'.
Proof.
  intros Hi Hnew E. destruct (Z.eqb_spec new 0) as [->|H0].
  { rewrite /task_create in E. simpl in E. injection E as <- <-. by exists TL. }
  destruct nm as [nm|]; [|by rewrite /task_create (proj2 (Z.eqb_neq new 0) H0) in E].
  destruct (Z.leb_spec TASK_NAME_MAX_LENGTH (Z.of_nat (length nm))) as [Hge|Hlt].
  { by rewrite /task_create (proj2 (Z.eqb_neq new 0) H0) (proj2 (Z.leb_le _ _) Hge) in E. }
  destruct (inv_new_task s TL new kvas nm Hi Hnew H0 Hlt) as (s2 & E2 & Hi2 & _).
  rewrite E2 in E. injection E as <- <-. by eexists.
Qed.

(** A new thread, at the end of the ring of its task. *)
Lemma inv_new_thread s A t l B exit_fn entry new stack :
  let ret_addr := u64 (u64 (stack + THREAD_INITIAL_STACK_SIZE) - 8) in
  let sp := u64 (ret_addr - sizeof_cpu_status) in
  kernel_inv s (A ++ (t, l) :: B) → thrs s !! new = None → new ≠ 0 → entry ≠ 0 → stack ≠ 0 →
  ∃ s', task_create_thread exit_fn t entry new stack s = Ok (new, s') ∧
    kernel_inv s' (A ++ (t, l ++ [new]) :: B) ∧
    thrs s' !! new = Some (created_thread s sp (first (l ++ [new]))) ∧
    (∀ x, x ≠ new → set_tnext 0 <$> thrs s' !! x = set_tnext 0 <$> thrs s !! x) ∧
    (∀ u k, tasks s' !! u = Some k → ∃ k0, tasks s !! u = Some k0 ∧ vas k = vas k0) ∧
    frames s' = <[sp := initial_frame entry ret_addr]> (frames s) ∧
    stack_words s' = <[ret_addr := exit_fn]> (stack_words s) ∧
    task_current s' = task_current s ∧ thread_current s' = thread_current s ∧ sc_cpu s' = sc_cpu s.
Proof.
  intros ret_addr sp [Hc Ha] Hnew H0 He Hst. set TL := A ++ (t, l) :: B in Hc Ha *.
  pose proof (cm_rep _ _ Hc) as Hr.
  assert (new ∉ TL ≫= snd) as Hnin.
  { intros Hin. destruct (listed_thread s _ new Hr Hin) as [y Hy]. congruence. }
  destruct (task_create_thread_ok s A t l B exit_fn entry new stack Hr (cm_lock _ _ Hc) H0 Hnin He Hst)
    as (s2 & E2 & Hr2 & Hn & Hsame & Et & Ef & Efr & Esw & _ & _ & Ek & Ex & Ecpu & Hl).
  assert (∀ u k, tasks s2 !! u = Some k → ∃ k0, tasks s !! u = Some k0 ∧ vas k = vas k0) as Htasks.
  { intros u k. rewrite Et. destruct (decide (t = u)) as [->|Hne]; [|rewrite lookup_alter_ne //; by exists k].
    rewrite lookup_alter_eq. intros (k0 & Hk0 & ->)%fmap_Some. by exists k0. }
  exists s2. split; [done|]. split; [split|done].
  - destruct (current_listed s TL Hc) as (lc & Hin & Hx).
    apply (calm_relist s s2 TL); [done|done|done|done| |done|done| |].
    + rewrite /TL elem_of_middle in Hin. destruct Hin as [[= -> ->]|Hin].
      * apply (stops_of_thread _ (l ++ [new])); [apply elem_of_middle; by left|set_solver].
      * apply (stops_of_thread _ lc); [apply elem_of_middle; by right|done].
    + apply Hsame. intros E0. destruct (running_thread s TL Hc) as (y & Hy & _). congruence.
    + intros x y Hxin Hy. destruct (decide (x = new)) as [->|Hne].
      * rewrite Hn in Hy. injection Hy as <-. done.
      * destruct (same_thread _ _ y (Hsame x Hne) Hy) as (y0 & Hy0 & _ & Ety).
        rewrite /in_slice Ety. apply (cm_slices _ _ Hc x); [|done]. rewrite /TL bind_middle.
        rewrite bind_middle in Hxin. set_solver.
  - intros u [k Hu]. assert (fst <$> A ++ (t, l ++ [new]) :: B = fst <$> TL) as -> by by rewrite !fmap_app.
    destruct (Htasks u k Hu) as (k0 & Hk0 & _). apply Ha. by eexists.
Qed.

Lemma inv_k_thread s TL exit_fn t entry new stack r s' :
  kernel_inv s TL → is_Some (tasks s !! t) → thrs s !! new = None →
  task_create_thread exit_fn t entry new stack s = Ok (r, s') →
  ∃ TL', kernel_inv s' TL'.
Proof.
  intros Hi Ht Hnew E. pose proof (proj2 Hi t Ht) as ([u l] & -> & Hin)%list_elem_of_fmap. simpl in *.
  apply list_elem_of_split in Hin as (A & B & ETL).
  destruct (decide (entry = 0 ∨ new = 0 ∨ stack = 0)) as [Hz|Hz].
  { assert (s' = s) as ->; [|by exists TL]. rewrite /task_create_thread in E.
    destruct (Z.eqb_spec entry 0); [rewrite orb_true_r in E; by injection E|].
    destruct (u =? 0); [by injection E|]. simpl in E.
    destruct (Z.eqb_spec new 0); [by injection E|]. destruct (Z.eqb_spec stack 0); [by injection E|].
    tauto. }
  rewrite ETL in Hi. destruct (inv_new_thread s A u l B exit_fn entry new stack Hi Hnew) as (s2 & E2 & Hi2 & _); [tauto..|].
  rewrite E2 in E. injection E as <- <-. by eexists.
Qed.

Lemma first_split {X} (p : X → bool) (L : list X) :
  (∀ x, x ∈ L → p x = false) ∨
  ∃ A r B, L = A ++ r :: B ∧ p r = true ∧ ∀ x, x ∈ A → p x = false.
Proof.
  induction L as [|x L IH]; [left; intros x Hx; by apply not_elem_of_nil in Hx|].
  destruct (p x) eqn:Ex.
  - right. exists [], x, L. split; [done|]. split; [done|]. intros q Hq. by apply not_elem_of_nil in Hq.
  - destruct IH as [Hno|(A & r & B & -> & Hr & HA)].
    + left. intros q [->|Hq]%elem_of_cons; [done|by apply Hno].
    + right. exists (x :: A), r, B. split; [done|]. split; [done|].
      intros q [->|Hq]%elem_of_cons; [done|by apply HA].
Qed.

Definition has_zombie (s : sched_state) (e : Z * list Z) : bool := existsb (zombie s) (inspected e.2).

Lemma has_zombie_false s e : has_zombie s e = false → no_zombie s e.
Proof.
  rewrite /has_zombie /no_zombie. intros He z Hz. apply not_true_is_false. intros Hzt.
  assert (existsb (zombie s) (inspected e.2) = true); [|congruence].
  apply existsb_exists. exists z. split; [by apply list_elem_of_In|done].
Qed.

(** Every round either finds nothing, or takes the first zombie out of its list. *)
Lemma reap_round_cases s TL :
  sched_rep s TL → lock_free (scheduler_lock s) →
  (∃ l, lock_free l ∧ reap_round s = Ok (None, with_slock l (sc_cpu s) s)) ∨
  (∃ A t l1 z l2 B yz k s', TL = A ++ (t, l1 ++ z :: l2) :: B ∧
    thrs s !! z = Some yz ∧ tstate yz = THREAD_ZOMBIE ∧ tasks s !! t = Some k ∧
    reap_round s = match frames s !! context yz with
                   | Some c => Ok (Some (z, vas k, st_rsp c), s')
                   | None => Err Undef
                   end ∧
    sched_rep s' (A ++ (t, l1 ++ l2) :: B) ∧ thrs s' !! z = None ∧
    (∀ x, x ≠ z → set_tnext 0 <$> thrs s' !! x = set_tnext 0 <$> thrs s !! x) ∧
    lock_free (scheduler_lock s') ∧
    (∀ u, set_threads 0 <$> tasks s' !! u = set_threads 0 <$> tasks s !! u) ∧
    ∃ l, s' = with_slock l (sc_cpu s) (with_thrs (thrs s') (with_tasks (tasks s') s))).
Proof.
  intros Hr Hl. destruct (first_split (has_zombie s) TL) as [Hno|(A & [t l] & B & -> & Hz & HA)].
  - left. apply (reap_round_none s TL); [done|done|]. apply Forall_forall. intros e He.
    by apply has_zombie_false, Hno.
  - right. destruct (first_split (zombie s) (inspected l)) as [Hno|(m1 & z & m2 & Ei & Hzz & Hnz)].
    { apply existsb_exists in Hz as (x & Hx & Hzx). apply list_elem_of_In in Hx.
      by rewrite (Hno x Hx) in Hzx. }
    assert (∃ yz, thrs s !! z = Some yz ∧ tstate yz = THREAD_ZOMBIE) as (yz & Hyz & Hst).
    { rewrite /zombie in Hzz. destruct (thrs s !! z) as [yz|]; [|done].
      exists yz. by apply bool_decide_eq_true in Hzz. }
    destruct (reap_round_some s A t l B m1 z m2 yz Hr Hl) as (l1 & l2 & k & s' & -> & Hk & H);
      [|done..|].
    { apply Forall_forall. intros e He. by apply has_zombie_false, HA. }
    exists A, t, l1, z, l2, B, yz, k, s'. done.
Qed.

Lemma inv_k_reap s TL r s' :
  kernel_inv s TL → reap_round s = Ok (r, s') → ∃ TL', kernel_inv s' TL'.
Proof.
  intros [Hc Ha] E.
  destruct (reap_round_cases s TL (cm_rep _ _ Hc) (cm_lock _ _ Hc)) as [(l & Hf & E1)|H].
  - rewrite E1 in E. injection E as <- <-. exists TL. split; [|by apply (all_listed_tasks s)].
    apply (calm_frame s); try done; [apply kept_refl|apply Hc].
  - destruct H as (A & t & l1 & z & l2 & B & yz & k & s2 & ETL & Hyz & Hzst & Hk & E1 & Hr2 & Hz & Hsame & Hl & Hst & lk & E2).
    rewrite E1 in E. destruct (frames s !! context yz) as [c|]; [|done]. injection E as <- <-.
    exists (A ++ (t, l1 ++ l2) :: B).
    destruct (running_thread s TL Hc) as (y & Hy & Hry).
    assert (thread_current s ≠ z) as Hcz by (intros E0; congruence). split.
    + destruct (current_listed s TL Hc) as (lc & Hin & Hx).
      apply (calm_relist s s2 TL); [done|done|by rewrite E2|by rewrite E2| |done|by rewrite E2|by apply Hsame|].
      * rewrite ETL elem_of_middle in Hin. destruct Hin as [[= -> ->]|Hin].
        -- apply (stops_of_thread _ (l1 ++ l2)); [apply elem_of_middle; by left|set_solver].
        -- apply (stops_of_thread _ lc); [apply elem_of_middle; by right|done].
      * intros x yx Hxin Hyx. destruct (decide (x = z)) as [->|Hne]; [congruence|].
        destruct (same_thread _ _ yx (Hsame x Hne) Hyx) as (y0 & Hy0 & _ & Ety).
        rewrite /in_slice Ety. apply (cm_slices _ _ Hc x); [|done]. rewrite ETL bind_middle.
        rewrite bind_middle in Hxin. set_solver.
    + intros u [ku Hku].
      assert (fst <$> A ++ (t, l1 ++ l2) :: B = fst <$> TL) as -> by by rewrite ETL !fmap_app.
      apply Ha. specialize (Hst u). rewrite Hku in Hst. destruct (tasks s !! u); [by eexists|done].
Qed.

Lemma kernel_step_inv s s' TL :
  kernel_inv s TL → kernel_step s s' → ∃ TL', kernel_inv s' TL'.
Proof.
  intros Hi Hs. destruct Hs.
  - exists TL. destruct Hi as [Hc Ha]. split.
    + apply (calm_schedule s TL status c); [apply Hc..|done].
    + apply (all_listed_tasks s); [|done]. by apply (schedule_tasks s TL status c); [apply Hc..|].
  - exists TL. by apply (inv_k_timer s TL tsc status c).
  - exists TL. destruct (running_thread s TL (proj1 Hi)) as (y & Hy & _).
    destruct (thread_sleep_parks s y tsc ms status) as (l & Hf & E); [apply Hi..|done|].
    rewrite E in H. by apply (inv_parked s TL _ l status c) in H.
  - exists TL. destruct (running_thread s TL (proj1 Hi)) as (y & Hy & _).
    destruct (thread_exit_parks s y status) as (l & Hf & E); [apply Hi|done|].
    rewrite E in H. by apply (inv_parked s TL _ l status c) in H.
  - by apply (inv_k_task s TL new kvas nm r).
  - by apply (inv_k_thread s TL exit_fn t entry new stack r).
  - by apply (inv_k_reap s TL r).
Qed.

(** [scheduler_init] establishes it. *)
Lemma kernel_inv_init s idle idle_thread kvas s' :
  tasks s = ∅ → thrs s = ∅ → lock_free (scheduler_lock s) → clock_ok s →
  scheduler_init idle idle_thread kvas s = Ok (tt, s') →
  kernel_inv s' [(idle, [idle_thread])].
Proof.
  intros Et Ex Hl Hclk E. destruct (Z.eqb_spec idle 0) as [->|H1]; [done|].
  destruct (Z.eqb_spec idle_thread 0) as [->|H2].
  { rewrite /scheduler_init (proj2 (Z.eqb_neq idle 0) H1) in E.
    rewrite /bind /modify /gets /update_task /bind /read_task /reads in E.
    cbn [tasks with_tasks with_current] in E. by rewrite lookup_insert_eq in E. }
  destruct (scheduler_init_ok s idle idle_thread kvas H1 H2) as (s2 & E2 & Hr & Ek & Eth & Es).
  rewrite E2 in E. injection E as <-. split; [split|].
  - done.
  - rewrite Es /current_ok /=. split; [done|]. by left.
  - by rewrite Es.
  - rewrite /thread_in Eth {1}Es /= lookup_insert_eq. done.
  - intros x y Hx Hy. apply list_elem_of_singleton in Hx as ->.
    rewrite Eth lookup_insert_eq in Hy. by injection Hy as <-.
  - by rewrite Es.
  - intros t [k Hk]. rewrite Ek Et in Hk. apply list_elem_of_singleton.
    by apply lookup_singleton_Some in Hk as [-> _].
Qed.
