(* ===== verification/SchedThms.v ===== *)
(** * Threads: the theorems

    The properties of the scheduler, of the timer interrupt, of the life of threads and of
    the mutex, with a small kernel of two tasks and three threads as their witness. *)

From stdpp Require Import base gmap list numbers.
From S2P Require Import Prelude Spinlock Sched SchedSpec SchedOps Mutex SchedInv.

(** ** A small kernel

    The idle task, and a task with two threads, made by the kernel's own functions. *)

Definition idle_task : Z := 0x1000.
Definition idle_thr : Z := 0x2000.
Definition user_task : Z := 0x1100.
Definition user_thr1 : Z := 0x2100.
Definition user_thr2 : Z := 0x2200.
Definition demo_mutex : Z := 0x9000.

Definition demo_boot : sched_state :=
  sched_boot (mkCpu 0x202) 1000000 0 {[ demo_mutex := MUTEX_INIT ]}.
Definition demo_build : M sched_state unit :=
  scheduler_init idle_task idle_thr 0x3000;;;
  task_create user_task 0x3000 (Some [117; 115; 101; 114]);;;
  task_create_thread 0x4000 user_task 0x5000 user_thr1 0x10000;;;
  task_create_thread 0x4000 user_task 0x5100 user_thr2 0x20000;;;
  ret tt.
Definition demo : sched_state :=
  match demo_build demo_boot with Ok (_, s) => s | Err _ => demo_boot end.
Definition demo_TL : list (Z * list Z) :=
  [(idle_task, [idle_thr]); (user_task, [user_thr1; user_thr2])].

Lemma demo_sched_rep : sched_rep demo demo_TL.
Proof.
  destruct (scheduler_init_ok demo_boot idle_task idle_thr 0x3000) as (s1 & E1 & H1 & _ & _ & F1);
    [done..|].
  destruct (task_create_ok s1 _ user_task 0x3000 [117; 115; 101; 114] H1)
    as (s2 & E2 & H2 & _ & _ & _ & _ & _ & _ & _ & _ & _ & L2 & _); [by rewrite F1|done| |done|].
  { intros Hin. apply list_elem_of_singleton in Hin. discriminate. }
  destruct (task_create_thread_ok s2 [(idle_task, [idle_thr])] user_task [] [] 0x4000 0x5000 user_thr1 0x10000
    H2 L2) as (s3 & E3 & H3 & _ & _ & _ & _ & _ & _ & _ & _ & _ & _ & _ & L3); [done| |done|done|].
  { intros Hin. apply list_elem_of_singleton in Hin. discriminate. }
  destruct (task_create_thread_ok s3 [(idle_task, [idle_thr])] user_task [user_thr1] [] 0x4000 0x5100 user_thr2
    0x20000 H3 L3) as (s4 & E4 & H4 & _); [done| |done|done|].
  { intros Hin. apply elem_of_cons in Hin as [Hin|Hin]; [discriminate|].
    apply list_elem_of_singleton in Hin. discriminate. }
  assert (demo = s4) as ->; [|exact H4].
  by rewrite /demo /demo_build /bind E1 E2 E3 E4.
Qed.

Lemma demo_current : current_ok demo demo_TL.
Proof. 
  assert (task_current demo = idle_task) as E1 by (vm_compute; reflexivity).
  assert (thread_current demo = idle_thr) as E2 by (vm_compute; reflexivity).
  rewrite /current_ok E1 E2. split; [done|]. by left.
Qed.

Lemma demo_lock : lock_free (scheduler_lock demo).
Proof.
  assert (scheduler_lock demo = mkSpinlock 3 3) as -> by (vm_compute; reflexivity). done.
Qed.

Lemma demo_clock : clock_ok demo.
Proof.
  rewrite /clock_ok. assert (tsc_freq_hz demo = 1000000) as -> by (vm_compute; reflexivity). done.
Qed.

Lemma demo_threads x : x ∈ demo_TL ≫= snd → x = idle_thr ∨ x = user_thr1 ∨ x = user_thr2.
Proof.
  intros Hx. apply elem_of_cons in Hx as [Hx|Hx]; [by left|].
  apply elem_of_cons in Hx as [Hx|Hx]; [by right; left|].
  apply elem_of_cons in Hx as [Hx|Hx]; [by right; right|]. by apply not_elem_of_nil in Hx.
Qed.

Lemma demo_calm : calm demo demo_TL.
Proof.
  split; [exact demo_sched_rep|exact demo_current|exact demo_lock|vm_compute; reflexivity| |exact demo_clock].
  intros x y Hx Hy. apply demo_threads in Hx as Hc. clear Hx.
  enough (ticks_remaining y = 4) as E by (clear Hy; by rewrite /in_slice E).
  apply (f_equal (fmap ticks_remaining)) in Hy.
  destruct Hc as [->|[->| ->]]; vm_compute in Hy; injection Hy as Hy; symmetry; exact Hy.
Qed.

(** ** The choice of the next thread *)

(** C13: [scheduler_schedule] is round robin. Going round the threads from the one after
    the running thread (task by task, the running thread last), it switches to the first
    that is ready: it returns that thread's saved context, marks it RUNNING and makes it
    current; the outgoing thread has its context saved and, if it was running, is ready
    again; no other thread and no list changes, and the lock is free again. *)
Theorem schedule_picks_next_ready s TL status A r B :
  sched_rep s TL → thread_current s ≠ 0 →
  visit_order TL (task_current s, thread_current s) (A ++ r :: B) →
  lock_free (scheduler_lock s) →
  ready_at (paused s status) r = true → (∀ q, q ∈ A → ready_at (paused s status) q = false) →
  ∃ yr s', thrs (paused s status) !! r.2 = Some yr ∧
    scheduler_schedule status s = Ok (context yr, s') ∧
    thrs s' = <[r.2 := set_state THREAD_RUNNING yr]> (thrs (paused s status)) ∧
    task_current s' = r.1 ∧ thread_current s' = r.2 ∧
    lock_free (scheduler_lock s') ∧ sched_frame s' = sched_frame s ∧ sched_rep s' TL.
Proof. apply schedule_visit. Qed.

Lemma demo_visit :
  visit_order demo_TL (task_current demo, thread_current demo)
    ([] ++ (user_task, user_thr1) :: [(user_task, user_thr2); (idle_task, idle_thr)]).
Proof.
  assert (task_current demo = idle_task) as -> by (vm_compute; reflexivity).
  assert (thread_current demo = idle_thr) as -> by (vm_compute; reflexivity).
  exists [], [(user_task, user_thr1); (user_task, user_thr2)]. split; reflexivity.
Qed.

Lemma schedule_picks_next_ready_witness :
  ∃ s', scheduler_schedule 0x7000 demo = Ok (u64 (0x10000 + 0x4000 - 8 - 184), s') ∧
    thread_current s' = user_thr1.
Proof.
  destruct (schedule_picks_next_ready demo demo_TL 0x7000 [] (user_task, user_thr1)
    [(user_task, user_thr2); (idle_task, idle_thr)])
    as (yr & s' & Hyr & E & _ & _ & Hc & _).
  - exact demo_sched_rep.
  - apply demo_current.
  - exact demo_visit.
  - exact demo_lock.
  - vm_compute. reflexivity.
  - intros q Hq. destruct (not_elem_of_nil _ Hq).
  - exists s'. split; [|exact Hc]. rewrite E. clear E. destruct yr as [? ctx]. cbn [context].
    apply (f_equal (fmap context)) in Hyr. vm_compute in Hyr. injection Hyr as <-. reflexivity.
Defined.

(** C22: The search of [scheduler_schedule] ends exactly when some thread is ready once the
    running thread has been put back. When every thread sleeps, waits or is dead, the
    loop, its "anti-freeze" exit included, runs for ever with the scheduler lock held. *)
Theorem schedule_returns_iff_ready s TL status :
  sched_rep s TL → current_ok s TL → lock_free (scheduler_lock s) →
  (∃ c s', scheduler_schedule status s = Ok (c, s')) ↔
  (∃ p, p ∈ stops TL ∧ ready_at (paused s status) p = true).
Proof.
  intros Hr Hc Hl. split.
  - intros (c & s' & E). destruct (schedule_returned s TL status c s' Hr Hc Hl E) as (r & _ & ? & ? & _).
    by exists r.
  - intros (p & Hp & Hpr). by apply (schedule_ready_returns s TL status p).
Qed.

Lemma schedule_returns_iff_ready_witness :
  (∃ c s', scheduler_schedule 0x7000 demo = Ok (c, s')) ↔
  (∃ p, p ∈ stops demo_TL ∧ ready_at (paused demo 0x7000) p = true).
Proof.
  exact (schedule_returns_iff_ready demo demo_TL 0x7000 demo_sched_rep demo_current demo_lock).
Defined.

(** ** Fairness *)

(** Time slices that end one after the other, the outgoing contexts being [cs]. *)
Fixpoint slices (cs : list Z) : M sched_state unit :=
  match cs with [] => ret tt | c :: cs => scheduler_schedule c;;; slices cs end.

Lemma ready_paused s status p :
  ready_at s p = true → ready_at (paused s status) p = true.
Proof.
  rewrite /ready_at paused_alter. destruct (p.2 =? 0); [done|].
  destruct (decide (thread_current s = p.2)) as [<-|Hne].
  - rewrite lookup_alter_eq. destruct (thrs s !! thread_current s) as [y|]; [|done]. simpl.
    rewrite /is_ready /pause. intros Hy%bool_decide_eq_true.
    rewrite (bool_decide_false (tstate y = THREAD_RUNNING)); [|congruence].
    by apply bool_decide_eq_true.
  - by rewrite lookup_alter_ne.
Qed.

(** A ready thread that is not chosen stays ready. *)
Lemma ready_kept s s' status r yr z :
  thrs s' = <[r := set_state THREAD_RUNNING yr]> (thrs (paused s status)) →
  z.2 ≠ r → ready_at s z = true → ready_at s' z = true.
Proof.
  intros E Hne Hz. apply (ready_paused s status) in Hz. rewrite /ready_at in Hz |- *.
  destruct (z.2 =? 0); [done|]. by rewrite E lookup_insert_ne.
Qed.

(** C23: No ready thread starves. A ready thread that is [d] stops after the running one is
    running after at most [d + 1] time slices, whatever contexts the threads leave
    behind. *)
Theorem round_robin_fair s TL L d z cs :
  sched_rep s TL → current_ok s TL → lock_free (scheduler_lock s) →
  visit_order TL (task_current s, thread_current s) L → L !! d = Some z →
  ready_at s z = true → (d < length cs)%nat →
  ∃ cs1 cs2 s', cs = cs1 ++ cs2 ∧ cs1 ≠ [] ∧ slices cs1 s = Ok (tt, s') ∧
    thread_current s' = z.2 ∧ thread_in THREAD_RUNNING s' z.2 = true.
Proof.
  revert s L cs. induction (lt_wf d) as [d _ IH]; intros s L cs Hr Hc Hl HL Hz Hrz Hlen.
  destruct cs as [|c cs]; [simpl in Hlen; lia|].
  assert (z ∈ L) as HzL by (by apply list_elem_of_lookup_2 in Hz).
  destruct (first_ready _ L z HzL (ready_paused s c z Hrz)) as (A & r & B & -> & Hrr & Hnr).
  destruct (schedule_visit s TL c A r B Hr (proj1 Hc) HL Hl Hrr Hnr)
    as (yr & s' & Hyr & E & Ex & Etc & Ec & Hl' & _ & Hr').
  assert (Hrin : r ∈ stops TL) by (apply (visit_order_elem _ _ _ _ HL); set_solver).
  assert (length A ≤ d)%nat as HdA.
  { destruct (decide (d < length A)%nat) as [Hlt|]; [|lia]. rewrite lookup_app_l // in Hz.
    apply list_elem_of_lookup_2 in Hz. pose proof (ready_paused s c z Hrz) as Hp.
    by rewrite (Hnr z Hz) in Hp. }
  destruct (decide (z.2 = r.2)) as [Ezr|Hne].
  - exists [c], cs, s'. split; [done|]. split; [done|]. split; [by rewrite /= /bind E|].
    rewrite Ec Ezr. split; [done|]. by rewrite /thread_in Ex lookup_insert_eq.
  - assert (length A < d)%nat as HdA'.
    { destruct (decide (d = length A)) as [->|]; [|lia].
      rewrite lookup_app_r // Nat.sub_diag /= in Hz. injection Hz as ->. done. }
    destruct (visit_order_exists TL r Hrin) as [L' HL'].
    pose proof (visit_order_closer s TL _ A r B L' d z Hr HL HL' Hz HdA') as Hz'.
    assert (current_ok s' TL) as Hc'.
    { split; rewrite Ec; [by apply (ready_at_thread (paused s c))|]. by rewrite Etc -surjective_pairing. }
    destruct (IH (d - length A - 1)%nat ltac:(lia) s' L' cs) as (cs1 & cs2 & s'' & -> & _ & E' & H);
      [done|done|done|by rewrite Etc Ec -surjective_pairing|done| |simpl in Hlen; lia|].
    { by apply (ready_kept s s' c r.2 yr). }
    exists (c :: cs1), cs2, s''. split; [done|]. split; [done|]. split; [|done].
    by rewrite /= /bind E.
Qed.

Lemma round_robin_fair_witness :
  ∃ cs1 cs2 s', [0x7000; 0x7100] = cs1 ++ cs2 ∧ cs1 ≠ [] ∧ slices cs1 demo = Ok (tt, s') ∧
    thread_current s' = user_thr2 ∧ thread_in THREAD_RUNNING s' user_thr2 = true.
Proof.
  apply (round_robin_fair demo demo_TL _ 1 (user_task, user_thr2) [0x7000; 0x7100]
    demo_sched_rep demo_current demo_lock demo_visit).
  - reflexivity.
  - vm_compute. reflexivity.
  - cbn. lia.
Defined.

(** ** The invariant of the kernel's lists *)

(** C12: In every state the kernel can reach after [scheduler_init] through yields, timer
    interrupts, sleeping, exits, creation of tasks and threads, and the reaper, the task
    and thread lists are well formed rings, the CPU runs a thread of them that is marked
    RUNNING, every task is listed, time slices are between 1 and 4, and the scheduler lock
    is free. *)
Theorem kernel_lists_invariant s idle idle_thread kvas s0 s' :
  tasks s = ∅ → thrs s = ∅ → lock_free (scheduler_lock s) → clock_ok s →
  scheduler_init idle idle_thread kvas s = Ok (tt, s0) → rtc kernel_step s0 s' →
  ∃ TL, kernel_inv s' TL.
Proof.
  intros Et Ex Hl Hclk E Hs.
  assert (∃ TL, kernel_inv s0 TL) as [TL Hi] by (eexists; by apply (kernel_inv_init s idle idle_thread kvas)).
  clear -Hi Hs. revert TL Hi. induction Hs as [s|s1 s2 s3 Hs _ IH]; intros TL Hi; [by exists TL|].
  destruct (kernel_step_inv s1 s2 TL Hi Hs) as [TL' Hi']. by apply (IH TL').
Qed.

Definition demo_idle : sched_state :=
  match scheduler_init idle_task idle_thr 0x3000 demo_boot with Ok (_, s) => s | Err _ => demo_boot end.
Definition demo_user : sched_state :=
  match task_create user_task 0x3000 (Some [117]) demo_idle with Ok (_, s) => s | Err _ => demo_idle end.

Lemma kernel_lists_invariant_witness : ∃ TL, kernel_inv demo_user TL.
Proof.
  apply (kernel_lists_invariant demo_boot idle_task idle_thr 0x3000 demo_idle demo_user).
  - reflexivity.
  - reflexivity.
  - split; [reflexivity|cbn; lia].
  - vm_compute. discriminate.
  - vm_compute. reflexivity.
  - apply rtc_once. apply (k_task_create demo_idle user_task 0x3000 (Some [117]) user_task).
    + vm_compute. reflexivity.
    + vm_compute. reflexivity.
Defined.

(** ** The timer *)

(** C25: One timer interrupt counts a tick, makes ready exactly the sleeping threads whose
    wake time has come (clearing it) and takes one tick off the running thread's slice;
    when the slice is used up it is refilled to 4 and the scheduler switches, otherwise the
    interrupted thread goes on. *)
Theorem timer_tick_correct s TL tsc status y :
  calm s TL → thrs s !! thread_current s = Some y →
  ∃ st, timer_handler tsc status s =
      (if ticks_remaining y =? 1 then scheduler_schedule status st else Ok (status, st)) ∧
    system_ticks st = u64 (system_ticks s + 1) ∧
    (∀ x yx, x ∈ TL ≫= snd → x ≠ thread_current s → thrs s !! x = Some yx →
       thrs st !! x = Some
         (if bool_decide (tstate yx = THREAD_SLEEPING) && (wake_time yx <=? uptime s tsc)
          then set_wake_time 0 (set_state THREAD_READY yx) else yx)) ∧
    thrs st !! thread_current s =
      Some (set_ticks (if ticks_remaining y =? 1 then 4 else ticks_remaining y - 1) y) ∧
    thread_current st = thread_current s ∧ calm st TL.
Proof.
  intros Hc Hy. destruct (running_thread s TL Hc) as (y' & Hy' & Hry). assert (y' = y) as -> by congruence.
  destruct (current_thread s TL (cm_rep _ _ Hc) (cm_current _ _ Hc)) as (_ & Hin & _).
  destruct (timer_tick_ok s TL tsc status y) as (l & Hf & Et);
    [apply Hc|by apply (calm_nonempty _ s)|apply Hc|apply Hc|apply Hc|done|by apply (cm_slices _ _ Hc _ _ Hin)|].
  exists (ticked s TL (uptime s tsc) l).
  assert (thrs (ticked s TL (uptime s tsc) l) !! thread_current s = Some (tick y)) as Hcur.
  { rewrite /= lookup_alter_eq wake_list_lookup; [|apply Hc]. rewrite decide_True // Hy /=.
    by rewrite /wake_thread Hry. }
  split; [rewrite Et; by destruct (ticks_remaining y =? 1)|]. split; [done|]. split; [|split; [done|split; [done|]]].
  - intros x yx Hx Hne Hyx. rewrite /= lookup_alter_ne // wake_list_lookup; [|apply Hc].
    by rewrite decide_True // Hyx.
  - apply (calm_frame s); try done.
    + apply (kept_trans _ _ (wake_list (uptime s tsc) (TL ≫= snd) (thrs s))); [apply kept_wake|].
      apply kept_alter, tick_slice.
    + rewrite /thread_in Hcur /tick /=. by rewrite Hry.
Qed.

Lemma timer_tick_correct_witness :
  ∃ st, timer_handler 5000 0x7000 demo = Ok (0x7000, st) ∧ system_ticks st = 1.
Proof.
  destruct (thrs demo !! thread_current demo) as [y|] eqn:Hy; [|vm_compute in Hy; discriminate Hy].
  destruct (timer_tick_correct demo demo_TL 5000 0x7000 y demo_calm Hy) as (st & E & Ht & _).
  assert (ticks_remaining y = 4) as E4.
  { clear E. destruct y as [? ? ? tr]. cbn [ticks_remaining]. apply (f_equal (fmap ticks_remaining)) in Hy.
    vm_compute in Hy. injection Hy as <-. reflexivity. }
  exists st. split; [rewrite E E4; reflexivity|]. rewrite Ht. vm_compute. reflexivity.
Defined.

(** ** The life of a thread *)

(** [task_create_thread] puts a new READY thread with a full time slice at the end of
    the ring of its task. Its stack holds the address of [task_current_thread_exit] in the
    last word and, below it, the frame the first switch restores: the entry point, the
    kernel's code and data segments, interrupts enabled, a stack pointer at the return
    address and all registers zero. Other threads keep their state. *)
Lemma task_create_thread_correct s A t l B exit_fn entry new stack :
  sched_rep s (A ++ (t, l) :: B) → lock_free (scheduler_lock s) →
  new ≠ 0 → new ∉ (A ++ (t, l) :: B) ≫= snd → entry ≠ 0 → stack ≠ 0 →
  0 < stack → stack + 0x4000 < 2 ^ 64 →
  ∃ s' y, task_create_thread exit_fn t entry new stack s = Ok (new, s') ∧
    sched_rep s' (A ++ (t, l ++ [new]) :: B) ∧
    thrs s' !! new = Some y ∧ tstate y = THREAD_READY ∧ ticks_remaining y = 4 ∧ tid y = next_tid s ∧
    context y = stack + 0x4000 - 8 - 184 ∧
    stack_words s' !! (stack + 0x4000 - 8) = Some exit_fn ∧
    frames s' !! context y =
      Some (mkStatus (replicate 16 0) 0 0 entry 8 0x202 (stack + 0x4000 - 8) 16) ∧
    (∀ x, x ≠ new → set_tnext 0 <$> thrs s' !! x = set_tnext 0 <$> thrs s !! x) ∧
    next_tid s' = u64 (next_tid s + 1) ∧ lock_free (scheduler_lock s').
Proof.
  intros Hr Hl H0 Hnew He Hs Hlo Hhi.
  destruct (task_create_thread_ok s A t l B exit_fn entry new stack Hr Hl H0 Hnew He Hs)
    as (s' & E & Hr' & Hn & Hsame & _ & _ & Hfr & Hw & Ht & _ & _ & _ & _ & Hl').
  unfold THREAD_INITIAL_STACK_SIZE, sizeof_cpu_status in *.
  rewrite (u64_small (stack + 4 * 4096)) in Hn, Hfr, Hw; [|lia..].
  rewrite (u64_small (stack + 4 * 4096 - 8)) in Hn, Hfr, Hw; [|lia..].
  rewrite (u64_small (stack + 4 * 4096 - 8 - 23 * 8)) in Hn, Hfr; [|lia..].
  exists s'. eexists. split; [done|]. split; [done|]. split; [exact Hn|].
  do 3 (split; [done|]). split; [done|]. split; [rewrite Hw; apply lookup_insert_eq|].
  split; [rewrite Hfr; apply lookup_insert_eq|]. done.
Qed.

Lemma task_create_thread_correct_witness :
  ∃ s' y, task_create_thread 0x4000 user_task 0x5200 0x2300 0x30000 demo = Ok (0x2300, s') ∧
    thrs s' !! 0x2300 = Some y ∧ context y = 0x33f40.
Proof.
  destruct (task_create_thread_correct demo [(idle_task, [idle_thr])] user_task [user_thr1; user_thr2] []
    0x4000 0x5200 0x2300 0x30000) as (s' & y & E & _ & Hy & _ & _ & _ & Hc & _).
  - exact demo_sched_rep.
  - exact demo_lock.
  - lia.
  - intros Hin. apply demo_threads in Hin. unfold idle_thr, user_thr1, user_thr2 in Hin. lia.
  - lia.
  - lia.
  - lia.
  - lia.
  - exists s', y. split; [exact E|]. split; [exact Hy|]. rewrite Hc. reflexivity.
Defined.

Lemma ready_other s f l status p :
  p.2 ≠ thread_current s → ready_at s p = true → ready_at (paused (parked s f l) status) p = true.
Proof.
  intros Hne. rewrite /ready_at. destruct (p.2 =? 0); [done|]. rewrite paused_alter /=.
  by rewrite !lookup_alter_ne.
Qed.

(** A thread that parked itself, after the switch. *)
Lemma parked_after s TL f l status c s' y :
  calm s TL → lock_free l → (∀ y, tnext (f y) = tnext y ∧ (in_slice y → in_slice (f y))) →
  thrs s !! thread_current s = Some y → tstate (f y) ≠ THREAD_READY → tstate (f y) ≠ THREAD_RUNNING →
  scheduler_schedule status (parked s f l) = Ok (c, s') →
  calm s' TL ∧ thread_current s' ≠ thread_current s ∧
  thrs s' !! thread_current s = Some (set_context status (f y)).
Proof.
  intros Hc Hl Hf Hy Hnr Hnrun E. set sp := parked s f l in E.
  assert (sched_rep sp TL) as Hr by (apply parked_rep; [apply Hc|apply Hf]).
  assert (current_ok sp TL) as Hcur by apply Hc.
  assert (thrs (paused sp status) !! thread_current s = Some (set_context status (f y))) as Hp.
  { rewrite paused_alter /= !lookup_alter_eq Hy /= /pause bool_decide_false //. }
  destruct (schedule_returned sp TL status c s' Hr Hcur Hl E)
    as (r & yr & _ & Hrr & Hyr & _ & Ex & _ & Ec & _).
  assert (r.2 ≠ thread_current s) as Hne.
  { intros E0. rewrite /ready_at E0 Hp in Hrr. destruct (_ =? 0); [done|].
    apply bool_decide_eq_true in Hrr. done. }
  split; [|split].
  - apply (calm_schedule sp TL status c); [done|done|done|apply Hc| |done].
    apply (kept_slices s); [apply Hc|by apply kept_alter|apply Hc].
  - by rewrite Ec.
  - by rewrite Ex lookup_insert_ne.
Qed.

(** [thread_sleep] parks the caller: with its context saved it is SLEEPING until its
    wake time, now plus the requested milliseconds, and the CPU goes to another thread.
    This needs another ready thread. *)
Lemma thread_sleep_correct s TL tsc ms status p :
  calm s TL → p ∈ stops TL → p.2 ≠ thread_current s → ready_at s p = true →
  ∃ c s' y, thread_sleep tsc ms status s = Ok (c, s') ∧ calm s' TL ∧
    thread_current s' ≠ thread_current s ∧ thrs s' !! thread_current s = Some y ∧
    tstate y = THREAD_SLEEPING ∧ wake_time y = u64 (uptime s tsc + ms) ∧ context y = status.
Proof.
  intros Hc Hp Hne Hpr. destruct (running_thread s TL Hc) as (y & Hy & _).
  destruct (thread_sleep_parks s y tsc ms status (cm_lock _ _ Hc) (cm_clock _ _ Hc) Hy) as (l & Hf & E).
  set f := (λ y, _) in E.
  destruct (schedule_ready_returns (parked s f l) TL status p) as (c & s' & Es);
    [apply parked_rep; [apply Hc|done]|apply Hc|done|done|by apply ready_other|].
  destruct (parked_after s TL f l status c s' y) as (H1 & H2 & H3); [done..|].
  exists c, s', (set_context status (f y)). rewrite E. done.
Qed.

Lemma thread_sleep_correct_witness :
  ∃ c s' y, thread_sleep 5000 100 0x7000 demo = Ok (c, s') ∧
    thrs s' !! thread_current demo = Some y ∧ wake_time y = 105.
Proof.
  destruct (thread_sleep_correct demo demo_TL 5000 100 0x7000 (user_task, user_thr1) demo_calm)
    as (c & s' & y & E & _ & _ & Hy & _ & Hw & _).
  - right. left.
  - vm_compute. discriminate.
  - vm_compute. reflexivity.
  - exists c, s', y. split; [exact E|]. split; [exact Hy|]. rewrite Hw. vm_compute. reflexivity.
Defined.

(** A thread that exits is not chosen again: it is left a ZOMBIE with its last context
    and the CPU goes to another ready thread. *)
Lemma thread_exit_correct s TL status p :
  calm s TL → p ∈ stops TL → p.2 ≠ thread_current s → ready_at s p = true →
  ∃ c s' y, task_current_thread_exit status s = Ok (c, s') ∧ calm s' TL ∧
    thread_current s' ≠ thread_current s ∧ thrs s' !! thread_current s = Some y ∧
    tstate y = THREAD_ZOMBIE ∧ context y = status ∧
    ∀ t status2 c2 s2, ready_at (paused s' status2) (t, thread_current s) = false ∧
      (scheduler_schedule status2 s' = Ok (c2, s2) → thread_current s2 ≠ thread_current s).
Proof.
  intros Hc Hp Hne Hpr. destruct (running_thread s TL Hc) as (y & Hy & _).
  destruct (thread_exit_parks s y status (cm_lock _ _ Hc) Hy) as (l & Hf & E).
  destruct (schedule_ready_returns (parked s (set_state THREAD_ZOMBIE) l) TL status p) as (c & s' & Es);
    [apply parked_rep; [apply Hc|done]|apply Hc|done|done|by apply ready_other|].
  destruct (parked_after s TL (set_state THREAD_ZOMBIE) l status c s' y) as (H1 & H2 & H3); [done..|].
  exists c, s', (set_context status (set_state THREAD_ZOMBIE y)). rewrite E.
  do 6 (split; [done|]).
  assert (∀ t status2, ready_at (paused s' status2) (t, thread_current s) = false) as Hnr.
  { intros t status2. rewrite /ready_at /= paused_alter. destruct (_ =? 0); [done|].
    rewrite lookup_alter_ne // H3. done. }
  intros t status2 c2 s2. split; [apply Hnr|]. intros E2 Ec.
  destruct (schedule_returned s' TL status2 c2 s2 (cm_rep _ _ H1) (cm_current _ _ H1) (cm_lock _ _ H1) E2)
    as (r & yr & _ & Hrr & _ & _ & _ & _ & Ec2 & _).
  destruct r as [rt rx]. simpl in Ec2. rewrite -Ec2 Ec Hnr in Hrr. done.
Qed.

Lemma thread_exit_correct_witness :
  ∃ c s' y, task_current_thread_exit 0x7000 demo = Ok (c, s') ∧
    thrs s' !! thread_current demo = Some y ∧ tstate y = THREAD_ZOMBIE.
Proof.
  destruct (thread_exit_correct demo demo_TL 0x7000 (user_task, user_thr1) demo_calm)
    as (c & s' & y & E & _ & _ & Hy & Hz & _).
  - right. left.
  - vm_compute. discriminate.
  - vm_compute. reflexivity.
  - exists c, s', y. split; [exact E|]. split; [exact Hy|exact Hz].
Defined.

(** ** The reaper *)

(** A round of the idle thread takes the first zombie it looks at (the second thread of
    its task or a later one, or an only thread) out of its ring, frees its struct, and
    hands the stack address and the address space to [vmm_free]; the other threads and the
    lists of other tasks are as before. *)
Lemma reaper_unlinks_zombie s A t l B m1 z m2 yz c :
  sched_rep s (A ++ (t, l) :: B) → lock_free (scheduler_lock s) → Forall (no_zombie s) A →
  inspected l = m1 ++ z :: m2 → (∀ x, x ∈ m1 → zombie s x = false) → zombie s z = true →
  thrs s !! z = Some yz → frames s !! context yz = Some c →
  ∃ l1 l2 k s', l = l1 ++ z :: l2 ∧ tasks s !! t = Some k ∧
    reap_round s = Ok (Some (z, vas k, st_rsp c), s') ∧
    sched_rep s' (A ++ (t, l1 ++ l2) :: B) ∧ thrs s' !! z = None ∧
    (∀ x, x ≠ z → set_tnext 0 <$> thrs s' !! x = set_tnext 0 <$> thrs s !! x) ∧
    lock_free (scheduler_lock s').
Proof.
  intros Hr Hl HA Ei Hnz Hz Hyz Hc.
  destruct (reap_round_some s A t l B m1 z m2 yz Hr Hl HA Ei Hnz Hz Hyz)
    as (l1 & l2 & k & s' & El & Hk & E & H1 & H2 & H3 & H4 & _).
  exists l1, l2, k, s'. rewrite Hc in E. done.
Qed.

(** The second thread of the user task runs and exits. *)
Definition after {A} (m : M sched_state A) (s : sched_state) : sched_state :=
  match m s with Ok (_, s') => s' | Err _ => s end.
Definition demo1 : sched_state := after (scheduler_schedule 0x7000) demo.
Definition demo2 : sched_state := after (scheduler_schedule 0x13f40) demo1.
Definition demo_dead : sched_state := after (task_current_thread_exit 0x23f40) demo2.

Lemma after_schedule s TL status c :
  calm s TL → scheduler_schedule status s = Ok (c, after (scheduler_schedule status) s) →
  calm (after (scheduler_schedule status) s) TL.
Proof. intros Hc E. by apply (calm_schedule s TL status c); [apply Hc..|]. Qed.

Lemma demo2_calm : calm demo2 demo_TL.
Proof.
  apply (after_schedule demo1 demo_TL 0x13f40 0x23f40); [|vm_compute; reflexivity].
  apply (after_schedule demo demo_TL 0x7000 0x13f40); [exact demo_calm|vm_compute; reflexivity].
Qed.

Lemma after_exit s TL status c :
  calm s TL → task_current_thread_exit status s = Ok (c, after (task_current_thread_exit status) s) →
  calm (after (task_current_thread_exit status) s) TL.
Proof.
  intros Hc E. destruct (running_thread s TL Hc) as (y & Hy & _).
  destruct (thread_exit_parks s y status (cm_lock _ _ Hc) Hy) as (l & Hf & E').
  rewrite E' in E. by apply (parked_after s TL (set_state THREAD_ZOMBIE) l status c _ y) in E as [? _].
Qed.

Lemma demo_dead_calm : calm demo_dead demo_TL.
Proof. apply (after_exit demo2 demo_TL 0x23f40 0x7000 demo2_calm). vm_compute. reflexivity. Qed.

Lemma reaper_unlinks_zombie_witness :
  ∃ s', reap_round demo_dead = Ok (Some (user_thr2, 0x3000, 0x23ff8), s') ∧
    sched_rep s' [(idle_task, [idle_thr]); (user_task, [user_thr1])].
Proof.
  destruct (thrs demo_dead !! user_thr2) as [yz|] eqn:Hyz; [|vm_compute in Hyz; discriminate Hyz].
  destruct (frames demo_dead !! context yz) as [c|] eqn:Hc.
  2:{ exfalso. destruct yz as [? ctx]. cbn [context] in Hc.
      apply (f_equal (fmap context)) in Hyz. vm_compute in Hyz. injection Hyz as <-.
      vm_compute in Hc. discriminate Hc. }
  destruct (reaper_unlinks_zombie demo_dead [(idle_task, [idle_thr])] user_task [user_thr1; user_thr2] []
    [] user_thr2 [] yz c) as (l1 & l2 & k & s' & El & Hk & E & Hr & _).
  - exact (cm_rep _ _ demo_dead_calm).
  - exact (cm_lock _ _ demo_dead_calm).
  - apply Forall_singleton. intros z Hz. apply list_elem_of_singleton in Hz as ->. vm_compute. reflexivity.
  - reflexivity.
  - intros x Hx. destruct (not_elem_of_nil _ Hx).
  - vm_compute. reflexivity.
  - exact Hyz.
  - exact Hc.
  - exists s'. assert (l1 = [user_thr1] ∧ l2 = []) as [-> ->].
    { clear -El. destruct l1 as [|? [|? l1]]; [discriminate El|injection El as <- <-; done|].
      by destruct l1. }
    split; [|exact Hr]. rewrite E. clear E Hr.
    assert (vas k = 0x3000) as ->.
    { destruct k as [? ? v]. cbn [vas]. apply (f_equal (fmap vas)) in Hk. vm_compute in Hk.
      injection Hk as <-. reflexivity. }
    assert (st_rsp c = 0x23ff8) as ->; [|reflexivity].
    destruct yz as [? ctx]. cbn [context] in Hc. apply (f_equal (fmap context)) in Hyz.
    vm_compute in Hyz. injection Hyz as <-. destruct c as [? ? ? ? ? ? rsp]. cbn [st_rsp].
    apply (f_equal (fmap st_rsp)) in Hc. vm_compute in Hc. injection Hc as <-. reflexivity.
Defined.

(** The first thread of a task with several threads is never reaped: when the only
    zombies are such threads, a round of the idle thread finds nothing and changes
    nothing but the lock's ticket numbers, so their structs and stacks stay. *)
Lemma reaper_misses_first_thread s TL :
  sched_rep s TL → lock_free (scheduler_lock s) →
  (∀ t l x, (t, l) ∈ TL → x ∈ l → zombie s x = true → head l = Some x ∧ (2 ≤ length l)%nat) →
  ∃ l, lock_free l ∧ reap_round s = Ok (None, with_slock l (sc_cpu s) s).
Proof.
  intros Hr Hl Hz. apply (reap_round_none s TL); [done|done|].
  apply Forall_forall. intros [t l] Hin x Hx. simpl in Hx. apply not_true_is_false. intros Hzx.
  destruct (NoDup_threads s TL t l Hr Hin) as [Hnd _].
  assert (x ∈ l) as Hxl by (destruct l as [|? []]; [done|done|by right]).
  destruct (Hz t l x Hin Hxl Hzx) as [Hh Hlen]. destruct l as [|h [|h' l]]; [done|simpl in Hlen; lia|].
  injection Hh as ->. simpl in Hx. by apply NoDup_cons in Hnd as [? _].
Qed.

(** The first thread of the user task exits instead. *)
Definition demo_head_dead : sched_state := after (task_current_thread_exit 0x13f40) demo1.

Lemma reaper_misses_first_thread_witness :
  zombie demo_head_dead user_thr1 = true ∧
  ∃ l, lock_free l ∧
    reap_round demo_head_dead = Ok (None, with_slock l (sc_cpu demo_head_dead) demo_head_dead).
Proof.
  split; [vm_compute; reflexivity|].
  assert (calm demo_head_dead demo_TL) as Hc.
  { apply (after_exit demo1 demo_TL 0x13f40 0x23f40); [|vm_compute; reflexivity].
    apply (after_schedule demo demo_TL 0x7000 0x13f40); [exact demo_calm|vm_compute; reflexivity]. }
  apply (reaper_misses_first_thread demo_head_dead demo_TL (cm_rep _ _ Hc) (cm_lock _ _ Hc)).
  intros t l x Hin Hx Hz. clear Hc.
  apply elem_of_cons in Hin as [[= -> ->]|Hin]; [|apply list_elem_of_singleton in Hin; injection Hin as -> ->].
  - apply list_elem_of_singleton in Hx as ->. vm_compute in Hz. discriminate Hz.
  - apply elem_of_cons in Hx as [->|Hx]; [split; [reflexivity|cbn; lia]|].
    apply list_elem_of_singleton in Hx as ->. vm_compute in Hz. discriminate Hz.
Defined.

(** ** The mutex *)

(** The contract of a mutex: a flag and a first-in first-out queue of waiting threads. *)
Definition acquire_spec (c : Z) (m : bool * list Z) : bool * list Z :=
  if m.1 then (true, m.2 ++ [c]) else (true, m.2).
Definition release_spec (m : bool * list Z) : bool * list Z :=
  match m.2 with [] => (false, []) | _ :: q => (m.1, q) end.

Lemma ready_joined s q c p :
  p.2 ≠ c → p.2 ∉ q → ready_at s p = true →
  ∀ m status, ready_at (paused (with_mutex m.1 m.2 (sc_cpu s) (with_thrs (joined q c (thrs s)) s)) status) p = true.
Proof.
  intros Hne Hq Hp m status. apply ready_paused. rewrite /ready_at /= /joined in Hp |- *.
  destruct (p.2 =? 0); [done|]. rewrite lookup_alter_ne //.
  destruct (last q) as [z|] eqn:El; simpl; [|done]. rewrite lookup_alter_ne //.
  intros ->. by apply Hq, last_Some_elem_of.
Qed.

(** C24: The mutex refines a first-in first-out queue. A free mutex is taken at once and no
    thread changes; on a taken one the caller is appended to the queue, blocked, and
    another thread runs; a release hands the mutex to the thread that waited longest,
    which becomes ready, or frees it when nobody waits. *)
Theorem mutex_refines_queue s TL a b q status :
  calm s TL → mutex_rep s a b q →
  (b = false → ∃ s', mutex_acquire a status s = Ok (None, s') ∧ thrs s' = thrs s ∧
     uncurry (mutex_rep s' a) (acquire_spec (thread_current s) (b, q))) ∧
  (b = true → (∃ p, p ∈ stops TL ∧ p.2 ≠ thread_current s ∧ ready_at s p = true) →
     ∃ c s', mutex_acquire a status s = Ok (Some c, s') ∧ thread_current s' ≠ thread_current s ∧
       calm s' TL ∧ uncurry (mutex_rep s' a) (acquire_spec (thread_current s) (b, q))) ∧
  (∃ s', mutex_release a s = Ok (tt, s') ∧ thread_current s' = thread_current s ∧
     uncurry (mutex_rep s' a) (release_spec (b, q)) ∧
     ∀ x, thrs s' !! x = if decide (head q = Some x) then set_state THREAD_READY <$> thrs s !! x
                         else thrs s !! x).
Proof.
  intros Hc Hm. destruct (running_not_waiting TL a s b q Hc Hm) as (Hq & H0 & y & Hy & Hry).
  split; [|split].
  - intros ->. assert (q = []) as ->.
    { destruct q as [|x q]; [done|]. by pose proof (mr_waiting _ _ _ _ Hm ltac:(done)). }
    destruct (mutex_acquire_free_ok s a status Hm) as (m & E & Hm'). by eexists.
  - intros -> (p & Hp & Hpc & Hpr).
    destruct (mutex_acquire_wait_ok s a q y status Hm Hq H0 Hy) as (m & E & Hm1).
    set s1 := with_mutex a m _ _ in E, Hm1.
    assert (p.2 ∉ q) as Hpq.
    { intros Hin. destruct (waiter_blocked s a true q p.2 Hm Hin) as (yp & Hyp & Hb).
      rewrite /ready_at Hyp in Hpr. destruct (_ =? 0); [done|]. apply bool_decide_eq_true in Hpr. congruence. }
    assert (kept TL (thrs s) (thrs s1)) as Hk.
    { rewrite /s1 /= /joined. destruct (last q) as [z|]; simpl.
      - apply (kept_trans _ _ (alter (set_next_waiter (thread_current s)) z (thrs s))); by apply kept_alter.
      - by apply kept_alter. }
    assert (sched_rep s1 TL) as Hr1 by (by apply (kept_rep s); [apply Hc|..]).
    assert (current_ok s1 TL) as Hc1 by apply Hc.
    assert (lock_free (scheduler_lock s1)) as Hl1 by apply Hc.
    destruct (schedule_ready_returns s1 TL status p) as (c & s' & Es);
      [done|done|done|done|by apply (ready_joined s q (thread_current s) p Hpc Hpq Hpr (a, m))|].
    exists c, s'. split; [by rewrite E /bind /scheduler_yield Es|].
    assert (mutex_rep s' a true (q ++ [thread_current s])) as Hm'
      by (by apply (mutex_rep_schedule s1 TL a true _ status c)).
    assert (calm s' TL) as Hc'.
    { apply (calm_schedule s1 TL status c); [done|done|done|apply Hc| |done].
      apply (kept_slices s); [apply Hc|done|apply Hc]. }
    split; [|done]. intros E0. destruct (running_not_waiting TL a s' _ _ Hc' Hm') as [Hn _].
    apply Hn. rewrite E0. set_solver.
  - destruct q as [|w q].
    + destruct (mutex_release_free_ok s a b Hm) as (m & E & Hm'). eexists. split; [done|].
      split; [done|]. split; [done|]. intros x. by case_decide.
    + destruct (mutex_release_handoff_ok s a b w q Hm) as (m & E & Hm'). eexists. split; [done|].
      split; [done|]. split; [done|]. intros x. simpl. destruct (decide (w = x)) as [<-|Hne].
      * by rewrite lookup_alter_eq decide_True.
      * rewrite lookup_alter_ne // decide_False //. congruence.
Qed.

Lemma demo_mutex_rep : mutex_rep demo demo_mutex false [].
Proof.
  split; [|done]. exists MUTEX_INIT. split; [vm_compute; reflexivity|]. split; [reflexivity|].
  split; [split; [reflexivity|cbn; lia]|]. split; try done.
  - apply NoDup_nil_2.
  - intros Hin. by apply not_elem_of_nil in Hin.
  - intros [] x q2 E; discriminate E.
Qed.

(** The idle thread takes the mutex, then the first user thread waits for it. *)
Lemma mutex_refines_queue_witness :
  ∃ s', mutex_acquire demo_mutex 0x7000 demo = Ok (None, s') ∧ mutex_rep s' demo_mutex true [].
Proof.
  destruct (mutex_refines_queue demo demo_TL demo_mutex false [] 0x7000 demo_calm demo_mutex_rep)
    as (H & _). destruct (H eq_refl) as (s' & E & _ & Hm). exists s'. split; [exact E|exact Hm].
Defined.

(** C9: Mutual exclusion. However threads that take and release a mutex (releasing only
    what they hold, not taking it twice) are interleaved by yields, sleeping and timer
    interrupts, at most one of them is inside at any time, and nobody waits for a mutex
    that is free. *)
Theorem mutex_mutual_exclusion s TL a s' H :
  calm s TL → mutex_rep s a false [] → rtc (mutex_step a) (s, ∅) (s', H) →
  (∀ x y, x ∈ H → y ∈ H → x = y) ∧ calm s' TL ∧
  ∃ q, mutex_rep s' a (bool_decide (H ≠ ∅)) q ∧ (H = ∅ → q = []).
Proof.
  intros Hc Hm Hs. assert (mutex_inv TL a (s', H)) as (Hc' & [q Hq] & HH).
  { assert (mutex_inv TL a (s, ∅)) as Hi by (split; [done|split; [by exists []|by left]]).
    clear Hc Hm. remember (s, ∅) as p eqn:Ep. remember (s', H) as p' eqn:Ep'. clear Ep.
    revert Hi. induction Hs as [p|p1 p2 p3 H1 _ IH]; intros Hi; [by subst|].
    apply (IH Ep'). by apply (mutex_step_inv TL a p1). }
  split; [|split; [done|]].
  - intros x y Hx Hy. destruct HH as [E|[h E]]; simpl in E; rewrite E in Hx, Hy; set_solver.
  - exists q. split; [done|]. intros ->. destruct q as [|x q]; [done|].
    by pose proof (mr_waiting _ _ _ _ Hq ltac:(done)).
Qed.

Definition demo_locked : sched_state := after (mutex_acquire demo_mutex 0x7000) demo.

Lemma mutex_mutual_exclusion_witness :
  ∃ q, mutex_rep demo_locked demo_mutex true q.
Proof.
  destruct (mutex_mutual_exclusion demo demo_TL demo_mutex demo_locked {[idle_thr]} demo_calm demo_mutex_rep)
    as (_ & _ & q & Hq & _).
  - apply rtc_once. assert ({[idle_thr]} = {[thread_current demo]} ∪ (∅ : gset Z)) as ->
      by (vm_compute; reflexivity).
    apply (step_acquire demo_mutex demo ∅ 0x7000 demo_locked).
    + intros Hin. destruct (not_elem_of_empty _ Hin).
    + vm_compute. reflexivity.
  - exists q. exact Hq.
Defined.
