(* ===== verification/PagingUnmap.v ===== *)
(** * Page tables: unmapping regions

    What [paging_unmap_region] does to a range of small pages. *)

From stdpp Require Import base gmap list numbers functions.
From S2P Require Import Prelude Hhdm FrameAlloc Paging PagingSpec PagingInit.

#[local] Ltac Zify.zify_post_hook ::= Z.to_euclidean_division_equations.

Section unmap.
Context {S : Type} `{FrameAllocSpec S}.
Implicit Types (s : paging_state S) (T : gmap (list Z) Z) (A : gset Z) (V : Z → option translation).

(** The frame that [V] maps at the page [j] of the region at [v]. *)
Definition frame_at V (v j : Z) : option Z := (λ t, pte_addr (entry_of t)) <$> V (v + j * PAGING_PAGE_SIZE).

(** The region's frames are the caller's to release: allocated, no tables, and each
    mapped once. *)
Record region_frames T A V (v : Z) (N : nat) : Prop := {
  rf_owned : ∀ j, 0 ≤ j < Z.of_nat N → releasable T A (V (v + j * PAGING_PAGE_SIZE));
  rf_inj : ∀ i j f, 0 ≤ i < Z.of_nat N → 0 ≤ j < Z.of_nat N → frame_at V v i = Some f → frame_at V v j = Some f → i = j;
}.

(** A frame of the region. *)
Definition in_region V (v : Z) (N : nat) (f : Z) : Prop := ∃ j, 0 ≤ j < Z.of_nat N ∧ frame_at V v j = Some f.

(** The translations without the region. *)
Definition without V (v : Z) (N : nat) : Z → option translation := λ w,
  if decide (v / PAGING_PAGE_SIZE ≤ w / PAGING_PAGE_SIZE < v / PAGING_PAGE_SIZE + Z.of_nat N) then None else V w.

Lemma frame_at_shift V v j : frame_at V (v + PAGING_PAGE_SIZE) j = frame_at V v (j + 1).
Proof. rewrite /frame_at. do 2 f_equal. unfold PAGING_PAGE_SIZE. lia. Qed.

Lemma region_frames_tail T A V V' v N (free : bool) :
  (∀ j, 0 ≤ j < Z.of_nat N → V' (v + PAGING_PAGE_SIZE + j * PAGING_PAGE_SIZE) = V (v + PAGING_PAGE_SIZE + j * PAGING_PAGE_SIZE)) →
  region_frames T A V v (Datatypes.S N) → region_frames T (release A (V v) free) V' (v + PAGING_PAGE_SIZE) N.
Proof.
  intros HV [Hown Hinj].
  assert (∀ j, 0 ≤ j < Z.of_nat N → frame_at V' (v + PAGING_PAGE_SIZE) j = frame_at V v (j + 1)) as Hfa.
  { intros j Hj. rewrite -frame_at_shift /frame_at. by rewrite HV. }
  split.
  - intros j Hj e He. rewrite HV // in He.
    replace (v + PAGING_PAGE_SIZE + j * PAGING_PAGE_SIZE) with (v + (j + 1) * PAGING_PAGE_SIZE) in He by lia.
    destruct (Hown (j + 1) ltac:(lia) e He) as [HA HT]. split; [|done]. rewrite /release.
    destruct (V v) as [t|] eqn:Ev; [|done]. destruct free; [|done]. apply elem_of_difference. split; [done|].
    intros Heq%elem_of_singleton. assert (0 = j + 1); [|lia].
    apply (Hinj 0 (j + 1) (pte_addr e)); [lia|lia| |].
    + rewrite /frame_at Z.mul_0_l Z.add_0_r Ev /=. by rewrite Heq.
    + rewrite /frame_at. destruct (V _); [|done]. by injection He as <-.
  - intros i j f Hi Hj Ei Ej. rewrite Hfa // in Ei. rewrite Hfa // in Ej.
    assert (i + 1 = j + 1); [|lia]. by apply (Hinj _ _ f); [lia|lia|..].
Qed.

Lemma release_iff A (t : option translation) (free : bool) f (R : Prop) :
  f ∈ release A t free ∧ ¬ (free = true ∧ R) ↔
  f ∈ A ∧ ¬ (free = true ∧ ((λ t, pte_addr (entry_of t)) <$> t = Some f ∨ R)).
Proof.
  rewrite /release. destruct t, free; rewrite ?elem_of_difference ?elem_of_singleton; simpl; naive_solver.
Qed.

Lemma unmap_loop_wp N fuel root T A n s v (free : bool) :
  pt_ok s root T A n → (N < fuel)%nat → v mod PAGING_PAGE_SIZE = 0 → 0 ≤ v →
  v + Z.of_nat N * PAGING_PAGE_SIZE < 2 ^ 64 → region_ok s root T false v N →
  (free = true → region_frames T A (view (mem s) T) v N) →
  wp (unmap_loop fuel (hhdm_physToVirt (hhdm_offset s) root) v (v + Z.of_nat N * PAGING_PAGE_SIZE) false free)
    (λ _ s', ∃ A', pt_ok s' root T A' n ∧ regs s' = regs s ∧
      (∀ w, canonical_addr w → view (mem s') T w = without (view (mem s) T) v N w) ∧
      (tlb_ok (tlb_of s) (view (mem s) T) → tlb_ok (tlb_of s') (view (mem s') T)) ∧
      (∀ f, f ∈ A' ↔ f ∈ A ∧ ¬ (free = true ∧ in_region (view (mem s) T) v N f))) s.
Proof.
  revert fuel A s v. induction N as [|N IH]; intros [|fuel] A s v Hok Hf Hvm Hv Htop Hreg Hrf; [lia| |lia|]; cbn [unmap_loop].
  - rewrite Z.mul_0_l Z.add_0_r Z.ltb_irrefl. apply wp_ret. exists A. split; [done|]. split; [done|]. split; [|split; [done|]].
    + intros w _. rewrite /without decide_False //. lia.
    + intros f. split; [|by intros [? _]]. intros Hin. split; [done|]. intros [_ (j & Hj & _)]. lia.
  - rewrite (proj2 (Z.ltb_lt _ _)); [|unfold PAGING_PAGE_SIZE; lia]. apply wp_bind.
    destruct (Hreg 0) as [Hval Hcan]; [lia|]. rewrite Z.mul_0_l Z.add_0_r in Hval Hcan.
    pose proof Hval as (_ & _ & Hcv).
    eapply wp_mono.
    { apply (unmap_page_wp root T A n s v false free Hok Hval Hcan). intros Hfree.
      pose proof (rf_owned _ _ _ _ _ (Hrf Hfree) 0 ltac:(lia)) as Hr. by rewrite Z.mul_0_l Z.add_0_r in Hr. }
    intros [] s1 (Hok1 & Hregs & Hview & Htlb & _). cbn [step_size].
    rewrite u64_small; [|unfold PAGING_PAGE_SIZE in *; lia].
    assert (∀ w, canonical_addr w → view (mem s1) T w =
      if decide (w / PAGING_PAGE_SIZE = v / PAGING_PAGE_SIZE) then None else view (mem s) T w) as Hv1.
    { intros w Hw. rewrite Hview /upd. pose proof (same_leaf_page false w v Hw Hcv) as Hs. cbn [step_size] in Hs.
      repeat case_decide; tauto. }
    assert (∀ j, 0 ≤ j < Z.of_nat N → view (mem s1) T (v + PAGING_PAGE_SIZE + j * PAGING_PAGE_SIZE) =
      view (mem s) T (v + PAGING_PAGE_SIZE + j * PAGING_PAGE_SIZE)) as Hrest.
    { intros j Hj. destruct (region_ok_tail _ _ _ _ _ _ Hreg j Hj) as [(_ & _ & Hc) _]. cbn [step_size] in Hc.
      rewrite Hv1 // decide_False //. unfold PAGING_PAGE_SIZE. lia. }
    pose proof (regs_offset _ _ Hregs) as Hoff. rewrite -Hoff.
    replace (v + Z.of_nat (Datatypes.S N) * PAGING_PAGE_SIZE) with
      (v + PAGING_PAGE_SIZE + Z.of_nat N * PAGING_PAGE_SIZE) by lia.
    eapply wp_mono; [apply (IH fuel _ s1 (v + PAGING_PAGE_SIZE) Hok1)|].
    + lia.
    + unfold PAGING_PAGE_SIZE in *. lia.
    + unfold PAGING_PAGE_SIZE. lia.
    + unfold PAGING_PAGE_SIZE in *. lia.
    + intros j Hj. destruct (region_ok_tail _ _ _ _ _ _ Hreg j Hj) as [Hval1 Hcan1]. cbn [step_size] in Hval1, Hcan1 |- *.
      split; [by rewrite /valid_target Hoff|]. intros e. rewrite Hrest; [|done]. apply Hcan1.
    + intros Hfree. by apply (region_frames_tail T A (view (mem s) T)); [|apply Hrf].
    + intros [] s2 (A' & Hok2 & Hregs2 & Hview2 & Htlb2 & HA'). exists A'. split; [done|].
      split; [by rewrite Hregs2|]. split; [|split].
      * intros w Hw. rewrite (Hview2 w Hw) /without Hv1 //. unfold PAGING_PAGE_SIZE in *.
        repeat case_decide; try lia; done.
      * intros Ht. apply Htlb2. eapply tlb_ok_ext; [intros w; symmetry; apply Hview|]. by apply Htlb.
      * intros f. rewrite HA'.
        assert (in_region (view (mem s) T) v (Datatypes.S N) f ↔ frame_at (view (mem s) T) v 0 = Some f ∨
          in_region (view (mem s1) T) (v + PAGING_PAGE_SIZE) N f) as Hin.
        { split.
          - intros (j & Hj & Ef). destruct (decide (j = 0)) as [->|Hj0]; [by left|right]. exists (j - 1).
            split; [lia|]. rewrite /frame_at Hrest; [|lia]. rewrite -/(frame_at (view (mem s) T) (v + PAGING_PAGE_SIZE) (j - 1)).
            rewrite frame_at_shift. by replace (j - 1 + 1) with j by lia.
          - intros [Ef|(j & Hj & Ef)]; [exists 0; split; [lia|done]|]. exists (j + 1). split; [lia|].
            rewrite -frame_at_shift /frame_at -Hrest //. }
        rewrite Hin /frame_at Z.mul_0_l Z.add_0_r. apply release_iff.
Qed.

Lemma unmap_region_wp root T A n s v size (free : bool) :
  let N := Z.to_nat (size / PAGING_PAGE_SIZE) in
  pt_ok s root T A n → v mod PAGING_PAGE_SIZE = 0 → size mod PAGING_PAGE_SIZE = 0 → 0 ≤ v → 0 ≤ size →
  v + size < 2 ^ 64 → region_ok s root T false v N →
  (free = true → region_frames T A (view (mem s) T) v N) →
  wp (paging_unmap_region (hhdm_physToVirt (hhdm_offset s) root) v size false free)
    (λ _ s', ∃ A', pt_ok s' root T A' n ∧ regs s' = regs s ∧
      (∀ w, canonical_addr w → view (mem s') T w = without (view (mem s) T) v N w) ∧
      (tlb_ok (tlb_of s) (view (mem s) T) → tlb_ok (tlb_of s') (view (mem s') T)) ∧
      (∀ f, f ∈ A' ↔ f ∈ A ∧ ¬ (free = true ∧ in_region (view (mem s) T) v N f))) s.
Proof.
  intros N Hok Hvm Hsm Hv Hs Htop Hreg Hrf.
  assert (size = Z.of_nat N * PAGING_PAGE_SIZE) as Esize by (rewrite /N; unfold PAGING_PAGE_SIZE in *; lia).
  rewrite /paging_unmap_region u64_small; [|lia]. rewrite {2}Esize.
  apply unmap_loop_wp; [done| |done|done|lia|done|done].
  rewrite /region_fuel. cbn [step_size]. fold N. lia.
Qed.
End unmap.
