(* ===== verification/Strings.v ===== *)
(** * Memory and string functions (libk/string.c)

    The functions as written, over a byte-addressed memory in which only some addresses
    are mapped, and their equivalence with what they mean: [memset] with its word-wise
    loop fills a region, [memmove] copies also between overlapping regions, the string
    functions compute on the bytes before the terminating zero. *)

From stdpp Require Import base gmap list numbers.
From S2P Require Import Prelude.

#[local] Ltac Zify.zify_post_hook ::= Z.to_euclidean_division_equations.

(** Memory: the byte at each mapped address. *)
Definition bytes : Type := gmap Z Z.

Definition load (p : Z) : M bytes Z := reads (λ m, m !! p).
Definition store (p b : Z) : M bytes unit :=
  load p;;; modify (λ m, <[p := b]> m).

(** ** The functions *)

Fixpoint memcpy_loop (k : nat) (pdest psrc i : Z) : M bytes unit :=
  match k with
  | O => ret tt
  | S k => b <- load (psrc + i);; store (pdest + i) b;;; memcpy_loop k pdest psrc (i + 1)
  end.
Definition memcpy (dest src n : Z) : M bytes Z :=
  memcpy_loop (Z.to_nat n) dest src 0;;; ret dest.

(** [while(n--) *p++ = (uint8_t)c]. *)
Fixpoint fill_loop (k : nat) (p c : Z) : M bytes unit :=
  match k with
  | O => ret tt
  | S k => store p (u8 c);;; fill_loop k (p + 1) c
  end.

(** [while((uintptr_t)p & 0x7)]: single bytes up to the next multiple of 8. *)
Fixpoint align_loop (fuel : nat) (p c n : Z) : M bytes (Z * Z) :=
  match fuel with
  | O => fail OutOfFuel
  | S fuel =>
      if Z.land p 0x7 =? 0 then ret (p, n)
      else store p (u8 c);;; align_loop fuel (p + 1) c (n - 1)
  end.

(** A 64-bit store, little endian. *)
Fixpoint store_bytes (k : nat) (p v : Z) : M bytes unit :=
  match k with
  | O => ret tt
  | S k => store p (u8 v);;; store_bytes k (p + 1) (Z.shiftr v 8)
  end.
Definition store64 (p v : Z) : M bytes unit := store_bytes 8 p v.

(** [while(n >= 8)]: whole words. *)
Fixpoint words_loop (fuel : nat) (p64 val64 n : Z) : M bytes (Z * Z) :=
  match fuel with
  | O => fail OutOfFuel
  | S fuel =>
      if 8 <=? n then store64 p64 val64;;; words_loop fuel (p64 + 8) val64 (n - 8)
      else ret (p64, n)
  end.

Definition memset (s c n : Z) : M bytes Z :=
  if n <? 8 then fill_loop (Z.to_nat n) s c;;; ret s
  else
    pn <- align_loop 8 s c n;;
    let val64 := u8 c in
    let val64 := Z.lor val64 (Z.shiftl val64 8) in
    let val64 := Z.lor val64 (Z.shiftl val64 16) in
    let val64 := Z.lor val64 (Z.shiftl val64 32) in
    pn <- words_loop (S (Z.to_nat pn.2)) pn.1 val64 pn.2;;
    fill_loop (Z.to_nat pn.2) pn.1 c;;;
    ret s.

(** [for(i = n; i > 0; i--)]. *)
Fixpoint memmove_down (k : nat) (pdest psrc : Z) : M bytes unit :=
  match k with
  | O => ret tt
  | S k' =>
      b <- load (psrc + Z.of_nat k');;
      store (pdest + Z.of_nat k') b;;;
      memmove_down k' pdest psrc
  end.
Definition memmove (dest src n : Z) : M bytes Z :=
  (if dest <? src then memcpy_loop (Z.to_nat n) dest src 0
   else if src <? dest then memmove_down (Z.to_nat n) dest src
   else ret tt);;;
  ret dest.

Fixpoint memcmp_loop (k : nat) (p1 p2 i : Z) : M bytes Z :=
  match k with
  | O => ret 0
  | S k =>
      a <- load (p1 + i);;
      b <- load (p2 + i);;
      if negb (a =? b) then ret (if a <? b then -1 else 1)
      else memcmp_loop k p1 p2 (i + 1)
  end.
Definition memcmp (s1 s2 n : Z) : M bytes Z := memcmp_loop (Z.to_nat n) s1 s2 0.

(** The loops over strings end at the latest where the mapped memory ends. *)
Definition string_fuel (m : bytes) : nat := S (size m).

Fixpoint strlen_loop (fuel : nat) (s length : Z) : M bytes Z :=
  match fuel with
  | O => fail OutOfFuel
  | S fuel =>
      b <- load (s + length);;
      if b =? 0 then ret length else strlen_loop fuel s (u64 (length + 1))
  end.
Definition strlen (s : Z) : M bytes Z :=
  if s =? 0 then ret 0
  else fuel <- gets string_fuel;; strlen_loop fuel s 0.

Fixpoint strcmp_loop (fuel : nat) (s1 s2 : Z) : M bytes Z :=
  match fuel with
  | O => fail OutOfFuel
  | S fuel =>
      c1 <- load s1;;
      c2 <- load s2;;
      if c1 =? 0 then ret (c1 - c2)
      else if c1 =? c2 then strcmp_loop fuel (s1 + 1) (s2 + 1)
      else ret (c1 - c2)
  end.
Definition strcmp (p1 p2 : Z) : M bytes Z :=
  fuel <- gets string_fuel;; strcmp_loop fuel p1 p2.

Fixpoint strncmp_loop (k : nat) (s1 s2 : Z) : M bytes Z :=
  match k with
  | O => ret 0
  | S k =>
      u1 <- load s1;;
      u2 <- load s2;;
      if negb (u1 =? u2) then ret (u1 - u2)
      else if u1 =? 0 then ret 0
      else strncmp_loop k (s1 + 1) (s2 + 1)
  end.
Definition strncmp (s1 s2 n : Z) : M bytes Z := strncmp_loop (Z.to_nat n) s1 s2.

Definition strcpy (dest src : Z) : M bytes Z :=
  len <- strlen src;; memcpy dest src (u64 (len + 1)).

(** ** Regions of memory *)

(** Writing a list of bytes at an address. *)
Fixpoint write_bytes (p : Z) (bs : list Z) (m : bytes) : bytes :=
  match bs with
  | [] => m
  | b :: bs => write_bytes (p + 1) bs (<[p := b]> m)
  end.

(** The bytes [bs] are at [p]. *)
Definition bytes_at (m : bytes) (p : Z) (bs : list Z) : Prop :=
  ∀ i b, bs !! i = Some b → m !! (p + Z.of_nat i) = Some b.

(** The [n] bytes at [p] are mapped. *)
Definition mapped (m : bytes) (p n : Z) : Prop := ∀ a, p ≤ a < p + n → is_Some (m !! a).

Lemma write_bytes_lookup bs p m a :
  write_bytes p bs m !! a =
    if decide (p ≤ a < p + Z.of_nat (length bs)) then bs !! Z.to_nat (a - p) else m !! a.
Proof.
  revert p m. induction bs as [|b bs IH]; intros p m.
  - cbn [write_bytes length]. rewrite decide_False //. lia.
  - cbn [write_bytes length]. rewrite IH. destruct (decide (a = p)) as [->|Hne].
    + rewrite decide_False; [|lia]. rewrite lookup_insert_eq decide_True; [|lia].
      by rewrite Z.sub_diag.
    + rewrite lookup_insert_ne //. destruct (decide (p + 1 ≤ a < p + 1 + Z.of_nat (length bs))).
      * rewrite decide_True; [|lia].
        by replace (Z.to_nat (a - p)) with (S (Z.to_nat (a - (p + 1)))) by lia.
      * rewrite decide_False //. lia.
Qed.

Lemma write_bytes_app bs1 bs2 p m :
  write_bytes p (bs1 ++ bs2) m = write_bytes (p + Z.of_nat (length bs1)) bs2 (write_bytes p bs1 m).
Proof.
  revert p m. induction bs1 as [|b bs1 IH]; intros p m; cbn [write_bytes app length].
  - by rewrite Z.add_0_r.
  - rewrite IH. f_equal. lia.
Qed.

Lemma write_bytes_mapped bs p m q n : mapped m q n → mapped (write_bytes p bs m) q n.
Proof.
  intros Hm a Ha. rewrite write_bytes_lookup. case_decide; [|by apply Hm].
  apply lookup_lt_is_Some. lia.
Qed.

Lemma store_ok p b m : is_Some (m !! p) → store p b m = Ok (tt, <[p := b]> m).
Proof. intros [x Hx]. by rewrite /store /bind /load /reads Hx. Qed.

Lemma mapped_head m p n : mapped m p n → 0 < n → is_Some (m !! p).
Proof. intros Hm Hn. apply Hm. lia. Qed.

Lemma mapped_insert m p n q b : mapped m p n → mapped (<[q := b]> m) p n.
Proof.
  intros Hm a Ha. destruct (decide (q = a)) as [<-|Hne].
  - rewrite lookup_insert_eq. by eexists.
  - rewrite lookup_insert_ne //. by apply Hm.
Qed.

Lemma mapped_sub m p n q k : mapped m p n → p ≤ q → q + k ≤ p + n → mapped m q k.
Proof. intros Hm H1 H2 a Ha. apply Hm. lia. Qed.
Create HintDb bytes.
#[export] Hint Resolve mapped_insert mapped_head write_bytes_mapped : bytes.

(** ** Filling *)

Lemma fill_loop_ok k p c m :
  mapped m p (Z.of_nat k) → fill_loop k p c m = Ok (tt, write_bytes p (replicate k (u8 c)) m).
Proof.
  revert p m. induction k as [|k IH]; intros p m Hm; [done|].
  cbn [fill_loop replicate write_bytes]. rewrite /bind store_ok; [|eapply mapped_head; [done|lia]].
  apply IH. apply mapped_insert, (mapped_sub m p (Z.of_nat (S k))); [done|lia|lia].
Qed.

Lemma land_7 p : Z.land p 7 = p mod 8.
Proof. change 7 with (Z.ones 3). by rewrite Z.land_ones. Qed.

(** The number of bytes before the next multiple of 8. *)
Definition to_aligned (p : Z) : Z := (- p) mod 8.

Lemma align_loop_ok fuel p c n m :
  (Z.to_nat (to_aligned p) < fuel)%nat → mapped m p (to_aligned p) →
  align_loop fuel p c n m =
    Ok ((p + to_aligned p, n - to_aligned p),
        write_bytes p (replicate (Z.to_nat (to_aligned p)) (u8 c)) m).
Proof.
  unfold to_aligned. revert p n m. induction fuel as [|fuel IH]; intros p n m Hf Hm; [lia|].
  cbn [align_loop]. rewrite land_7. destruct (Z.eqb_spec (p mod 8) 0) as [E|Hne].
  - assert ((- p) mod 8 = 0) as -> by lia. by rewrite Z.add_0_r Z.sub_0_r.
  - assert ((- p) mod 8 = (- (p + 1)) mod 8 + 1) as Ek by lia.
    pose proof (Z.mod_pos_bound (- (p + 1)) 8 ltac:(lia)) as Hb. rewrite Ek in Hf, Hm |- *.
    rewrite /bind store_ok; [|eapply mapped_head; [done|lia]].
    rewrite IH; [|lia|].
    + replace (Z.to_nat ((- (p + 1)) mod 8 + 1)) with (S (Z.to_nat ((- (p + 1)) mod 8))) by lia.
      cbn [replicate write_bytes]. do 3 f_equal; lia.
    + apply mapped_insert. eapply mapped_sub; [exact Hm|lia|lia].
Qed.

(** The bytes of a word, least significant first. *)
Fixpoint le_bytes (k : nat) (v : Z) : list Z :=
  match k with O => [] | S k => u8 v :: le_bytes k (Z.shiftr v 8) end.

Lemma store_bytes_ok k p v m :
  mapped m p (Z.of_nat k) → store_bytes k p v m = Ok (tt, write_bytes p (le_bytes k v) m).
Proof.
  revert p v m. induction k as [|k IH]; intros p v m Hm; [done|].
  cbn [store_bytes le_bytes write_bytes]. rewrite /bind store_ok; [|eapply mapped_head; [done|lia]].
  apply IH. apply mapped_insert, (mapped_sub m p (Z.of_nat (S k))); [done|lia|lia].
Qed.

(** The word [memset] repeats. *)
Definition spread (c : Z) : Z :=
  let v := Z.lor c (Z.shiftl c 8) in
  let v := Z.lor v (Z.shiftl v 16) in
  Z.lor v (Z.shiftl v 32).

Lemma spread_bytes c : 0 ≤ c < 256 → le_bytes 8 (spread c) = replicate 8 c.
Proof.
  intros Hc.
  assert (Forall (λ c, le_bytes 8 (spread c) = replicate 8 c) (seqZ 0 256)) as Hall
    by (apply (bool_decide_unpack _); vm_compute; exact I).
  rewrite Forall_forall in Hall. apply Hall, elem_of_seqZ. lia.
Qed.

Lemma words_loop_ok fuel p c n m :
  0 ≤ c < 256 → 0 ≤ n → (Z.to_nat (n / 8) < fuel)%nat → mapped m p n →
  words_loop fuel p (spread c) n m =
    Ok ((p + 8 * (n / 8), n mod 8), write_bytes p (replicate (Z.to_nat (8 * (n / 8))) c) m).
Proof.
  intros Hc. revert p n m. induction fuel as [|fuel IH]; intros p n m Hn Hf Hm; [lia|].
  cbn [words_loop]. destruct (Z.leb_spec 8 n) as [Hge|Hlt].
  - rewrite /bind /store64 store_bytes_ok; [|eapply mapped_sub; [exact Hm|lia|lia]].
    rewrite spread_bytes // IH; [|lia|lia|].
    + assert (n / 8 = (n - 8) / 8 + 1) as E by lia. assert ((n - 8) mod 8 = n mod 8) as -> by lia.
      rewrite E. replace (Z.to_nat (8 * ((n - 8) / 8 + 1))) with (8 + Z.to_nat (8 * ((n - 8) / 8)))%nat by lia.
      rewrite replicate_add write_bytes_app length_replicate. do 3 f_equal. lia.
    + apply write_bytes_mapped. eapply mapped_sub; [exact Hm|lia|lia].
  - assert (n / 8 = 0) as -> by lia. assert (n mod 8 = n) as -> by lia. by rewrite Z.add_0_r.
Qed.

Lemma memset_ok s c n m :
  0 ≤ n → mapped m s n →
  memset s c n m = Ok (s, write_bytes s (replicate (Z.to_nat n) (u8 c)) m).
Proof.
  intros Hn Hm. assert (0 ≤ u8 c < 256) as Hc by by apply Z.mod_pos_bound.
  rewrite /memset. destruct (Z.ltb_spec n 8) as [Hlt|Hge].
  { rewrite /bind fill_loop_ok //. by rewrite Z2Nat.id. }
  pose proof (Z.mod_pos_bound (- s) 8 ltac:(lia)) as Hk. fold (to_aligned s) in Hk.
  set k := to_aligned s in Hk. set n1 := n - k.
  rewrite {1}/bind align_loop_ok; [|fold k; lia|eapply mapped_sub; [exact Hm|lia|fold k; lia]].
  cbn [fst snd]. fold k n1. fold (spread (u8 c)). set m1 := write_bytes s _ m.
  assert (mapped m1 (s + k) n1) as Hm1 by (apply write_bytes_mapped; eapply mapped_sub; [exact Hm|lia|lia]).
  rewrite {1}/bind words_loop_ok; [|done|lia|lia|done]. cbn [fst snd].
  set m2 := write_bytes (s + k) _ m1.
  rewrite /bind fill_loop_ok.
  - rewrite /m2 /m1. do 2 f_equal.
    replace (Z.to_nat n) with (Z.to_nat k + (Z.to_nat (8 * (n1 / 8)) + Z.to_nat (n1 mod 8)))%nat by lia.
    rewrite !replicate_add !write_bytes_app !length_replicate !Z2Nat.id //; lia.
  - apply write_bytes_mapped. eapply mapped_sub; [exact Hm1|lia|lia].
Qed.

(** ** Copying *)

Lemma load_ok p b m : m !! p = Some b → load p m = Ok (b, m).
Proof. intros Hb. by rewrite /load /reads Hb. Qed.

(** Forwards: safe when the destination starts below the source, or ends before it. *)
Lemma memcpy_loop_ok rest pre dest src m :
  let bs := pre ++ rest in
  bytes_at m src bs → mapped m dest (Z.of_nat (length bs)) →
  dest ≤ src ∨ src + Z.of_nat (length bs) ≤ dest →
  memcpy_loop (length rest) dest src (Z.of_nat (length pre)) (write_bytes dest pre m) =
    Ok (tt, write_bytes dest bs m).
Proof.
  revert pre. induction rest as [|b rest IH]; intros pre bs Hsrc Hdst Hov.
  - rewrite /bs app_nil_r. done.
  - cbn [length memcpy_loop].
    assert (bs !! length pre = Some b) as Hb by (by rewrite /bs lookup_app_r // Nat.sub_diag).
    assert (length bs = length pre + S (length rest))%nat as Hlen by (by rewrite /bs length_app).
    rewrite {1}/bind (load_ok _ b).
    2:{ rewrite write_bytes_lookup decide_False; [by apply Hsrc|lia]. }
    rewrite /bind store_ok; [|apply (write_bytes_mapped _ _ _ _ _ Hdst); lia].
    specialize (IH (pre ++ [b])). rewrite -app_assoc /= in IH. fold bs in IH.
    rewrite length_app /= write_bytes_app /= in IH.
    replace (Z.of_nat (length pre) + 1) with (Z.of_nat (length pre + 1)) by lia. by apply IH.
Qed.

Lemma memcpy_ok dest src bs m :
  bytes_at m src bs → mapped m dest (Z.of_nat (length bs)) →
  dest ≤ src ∨ src + Z.of_nat (length bs) ≤ dest →
  memcpy dest src (Z.of_nat (length bs)) m = Ok (dest, write_bytes dest bs m).
Proof.
  intros Hs Hd Ho. rewrite /memcpy /bind Nat2Z.id.
  by rewrite (memcpy_loop_ok bs [] dest src m Hs Hd Ho).
Qed.

(** Backwards: safe when the destination starts above the source. *)
Lemma memmove_down_ok k dest src bs m :
  bytes_at m src bs → mapped m dest (Z.of_nat (length bs)) → src ≤ dest → (k ≤ length bs)%nat →
  memmove_down k dest src (write_bytes (dest + Z.of_nat k) (drop k bs) m) =
    Ok (tt, write_bytes dest bs m).
Proof.
  intros Hs Hd Ho. induction k as [|k IH]; intros Hk.
  - cbn [memmove_down]. by rewrite drop_0 Z.add_0_r.
  - cbn [memmove_down]. destruct (lookup_lt_is_Some_2 bs k ltac:(lia)) as [b Hb].
    rewrite {1}/bind (load_ok _ b).
    2:{ rewrite write_bytes_lookup decide_False; [by apply Hs|lia]. }
    rewrite /bind store_ok; [|apply (write_bytes_mapped _ _ _ _ _ Hd); lia].
    rewrite -(IH ltac:(lia)). f_equal. rewrite (drop_S bs b k Hb). cbn [write_bytes].
    replace (dest + Z.of_nat (S k)) with (dest + Z.of_nat k + 1) by lia.
    apply map_eq. intros a. destruct (decide (a = dest + Z.of_nat k)) as [->|Hne].
    + rewrite lookup_insert_eq write_bytes_lookup decide_False; [|lia]. by rewrite lookup_insert_eq.
    + rewrite lookup_insert_ne // !write_bytes_lookup. by rewrite lookup_insert_ne.
Qed.

Lemma memmove_ok dest src bs m :
  bytes_at m src bs → mapped m dest (Z.of_nat (length bs)) →
  memmove dest src (Z.of_nat (length bs)) m = Ok (dest, write_bytes dest bs m).
Proof.
  intros Hs Hd. rewrite /memmove Nat2Z.id. destruct (Z.ltb_spec dest src) as [Hlt|Hge].
  - rewrite /bind (memcpy_loop_ok bs [] dest src m Hs Hd) //. by left; lia.
  - destruct (Z.ltb_spec src dest) as [Hlt|Hge'].
    + rewrite /bind. pose proof (memmove_down_ok (length bs) dest src bs m Hs Hd ltac:(lia) ltac:(lia)) as E.
      by rewrite drop_all in E; rewrite E.
    + assert (src = dest) as -> by lia. rewrite /bind /ret. do 2 f_equal. apply map_eq. intros a.
      rewrite write_bytes_lookup. case_decide as Ha; [|done].
      destruct (lookup_lt_is_Some_2 bs (Z.to_nat (a - dest)) ltac:(lia)) as [b Hb].
      rewrite Hb -(Hs _ _ Hb). f_equal. lia.
Qed.

(** ** Strings *)

(** The bytes of [l] and a terminating zero are at [p]. *)
Definition cstring (m : bytes) (p : Z) (l : list Z) : Prop :=
  bytes_at m p (l ++ [0]) ∧ Forall (λ b, 0 < b < 256) l.


(** The bytes of a region have distinct addresses. *)
Lemma bytes_at_length m p bs : bytes_at m p bs → (length bs ≤ size m)%nat.
Proof.
  intros Hb. set l := (λ i, p + Z.of_nat i) <$> seq 0 (length bs).
  assert (length bs = length l) as -> by (by rewrite /l length_fmap length_seq).
  assert (NoDup l) as Hnd.
  { apply NoDup_fmap_2; [|apply NoDup_seq]. intros i j ?. lia. }
  rewrite -(size_list_to_set (C := gset Z)) // -size_dom. apply subseteq_size. intros a Ha.
  apply elem_of_list_to_set, list_elem_of_fmap in Ha as (i & -> & Hi). apply elem_of_seq in Hi.
  destruct (lookup_lt_is_Some_2 bs i ltac:(lia)) as [b Hbi]. apply elem_of_dom. exists b. by apply Hb.
Qed.

Lemma cstring_lookup m p l i :
  cstring m p l → (i < length l)%nat → ∃ b, l !! i = Some b ∧ m !! (p + Z.of_nat i) = Some b ∧ 0 < b < 256.
Proof.
  intros [Hb Hnz] Hi. destruct (lookup_lt_is_Some_2 l i Hi) as [b Hbi]. exists b. split; [done|].
  split; [apply Hb; by rewrite lookup_app_l|]. rewrite Forall_lookup in Hnz. by apply (Hnz i).
Qed.

Lemma cstring_end m p l : cstring m p l → m !! (p + Z.of_nat (length l)) = Some 0.
Proof. intros [Hb _]. apply Hb. by rewrite lookup_app_r // Nat.sub_diag. Qed.

Lemma cstring_fuel m p l : cstring m p l → (length l < string_fuel m)%nat.
Proof.
  intros [Hb _]. pose proof (bytes_at_length m p _ Hb) as H. rewrite length_app /= in H.
  rewrite /string_fuel. lia.
Qed.

Lemma strlen_loop_ok m p l k fuel :
  cstring m p l → (k ≤ length l)%nat → Z.of_nat (length l) < 2 ^ 64 → (length l - k < fuel)%nat →
  strlen_loop fuel p (Z.of_nat k) m = Ok (Z.of_nat (length l), m).
Proof.
  intros Hs Hk Hlen. revert k Hk. induction fuel as [|fuel IH]; intros k Hk Hf; [lia|].
  cbn [strlen_loop]. destruct (decide (k = length l)) as [->|Hne].
  - by rewrite /bind (load_ok _ 0) ?(cstring_end m p l Hs).
  - destruct (cstring_lookup m p l k Hs ltac:(lia)) as (b & _ & Hb & Hnz).
    rewrite /bind (load_ok _ b) //. destruct (Z.eqb_spec b 0); [lia|].
    rewrite u64_small; [|lia]. replace (Z.of_nat k + 1) with (Z.of_nat (S k)) by lia.
    apply IH; lia.
Qed.

Lemma strlen_ok m p l :
  p ≠ 0 → cstring m p l → Z.of_nat (length l) < 2 ^ 64 →
  strlen p m = Ok (Z.of_nat (length l), m).
Proof.
  intros Hp Hs Hlen. rewrite /strlen (proj2 (Z.eqb_neq p 0) Hp) /bind /gets.
  apply (strlen_loop_ok m p l 0); [done|lia|done|]. pose proof (cstring_fuel m p l Hs). lia.
Qed.

Lemma strcpy_ok m dest src l :
  src ≠ 0 → cstring m src l → Z.of_nat (length l) + 1 < 2 ^ 64 →
  mapped m dest (Z.of_nat (length l) + 1) →
  dest ≤ src ∨ src + Z.of_nat (length l) + 1 ≤ dest →
  strcpy dest src m = Ok (dest, write_bytes dest (l ++ [0]) m) ∧
  cstring (write_bytes dest (l ++ [0]) m) dest l.
Proof.
  intros Hs Hc Hlen Hm Ho. split.
  - rewrite /strcpy /bind (strlen_ok m src l Hs Hc); [|lia]. rewrite u64_small; [|lia].
    replace (Z.of_nat (length l) + 1) with (Z.of_nat (length (l ++ [0]))) by (rewrite length_app /=; lia).
    apply memcpy_ok; [apply Hc| |]; rewrite length_app /=; [|lia].
    by replace (Z.of_nat (length l + 1)) with (Z.of_nat (length l) + 1) by lia.
  - split; [|apply Hc]. intros i b Hi. pose proof (lookup_lt_Some _ _ _ Hi) as Hlt.
    rewrite write_bytes_lookup decide_True; [|lia]. by replace (Z.to_nat (dest + Z.of_nat i - dest)) with i by lia.
Qed.

(** ** Comparing *)

(** The difference of the first bytes in which two strings differ, the end of a string
    counting as 0. *)
Fixpoint str_diff (l1 l2 : list Z) : Z :=
  match l1, l2 with
  | [], [] => 0
  | [], b :: _ => - b
  | a :: _, [] => a
  | a :: l1, b :: l2 => if a =? b then str_diff l1 l2 else a - b
  end.

(** The dictionary order. *)
Fixpoint str_lt (l1 l2 : list Z) : Prop :=
  match l1, l2 with
  | _, [] => False
  | [], _ :: _ => True
  | a :: l1, b :: l2 => a < b ∨ a = b ∧ str_lt l1 l2
  end.

Definition str_bytes (l : list Z) : Prop := Forall (λ b, 0 < b < 256) l.

Lemma str_diff_zero l1 l2 : str_bytes l1 → str_bytes l2 → str_diff l1 l2 = 0 ↔ l1 = l2.
Proof.
  intros H1. revert l2. induction H1 as [|a l1 Ha _ IH]; intros l2 H2; destruct H2 as [|b l2 Hb H2]; simpl.
  - done.
  - split; [lia|done].
  - split; [lia|done].
  - destruct (Z.eqb_spec a b) as [->|Hne]; [|split; [lia|congruence]].
    rewrite IH //. split; congruence.
Qed.

Lemma str_diff_neg l1 l2 : str_bytes l1 → str_bytes l2 → str_diff l1 l2 < 0 ↔ str_lt l1 l2.
Proof.
  intros H1. revert l2. induction H1 as [|a l1 Ha _ IH]; intros l2 H2; destruct H2 as [|b l2 Hb H2]; simpl.
  - lia.
  - split; [done|lia].
  - split; [lia|done].
  - destruct (Z.eqb_spec a b) as [->|Hne]; [|lia]. rewrite IH //. split; [by right|].
    intros [?|[_ ?]]; [lia|done].
Qed.

Lemma cstring_cons m p b l : cstring m p (b :: l) → m !! p = Some b ∧ 0 < b < 256 ∧ cstring m (p + 1) l.
Proof.
  intros [Hb Hnz]. apply Forall_cons in Hnz as [Hb0 Hnz]. split; [|split; [done|split; [|done]]].
  - rewrite -(Hb 0%nat b eq_refl). f_equal. lia.
  - intros i c Hi. rewrite -(Hb (S i) c Hi). f_equal. lia.
Qed.

Lemma cstring_nil m p : cstring m p [] → m !! p = Some 0.
Proof. intros Hs. rewrite -(cstring_end m p [] Hs) /=. f_equal. lia. Qed.

Lemma strcmp_loop_ok m l1 l2 p1 p2 fuel :
  cstring m p1 l1 → cstring m p2 l2 → (length l1 < fuel)%nat →
  strcmp_loop fuel p1 p2 m = Ok (str_diff l1 l2, m).
Proof.
  revert l2 p1 p2 fuel. induction l1 as [|a l1 IH]; intros l2 p1 p2 [|fuel] H1 H2 Hf;
    try (simpl in Hf; lia); cbn [strcmp_loop].
  - apply cstring_nil in H1. rewrite /bind (load_ok _ _ _ H1). destruct l2 as [|b l2].
    + apply cstring_nil in H2. by rewrite (load_ok _ _ _ H2).
    + apply cstring_cons in H2 as (H2 & _ & _). rewrite (load_ok _ _ _ H2) /=. by rewrite /ret.
  - apply cstring_cons in H1 as (H1 & Ha & H1'). rewrite /bind (load_ok _ _ _ H1).
    destruct l2 as [|b l2].
    + apply cstring_nil in H2. rewrite (load_ok _ _ _ H2) (proj2 (Z.eqb_neq a 0)) ?Z.sub_0_r //. lia.
    + apply cstring_cons in H2 as (H2 & Hb & H2'). rewrite (load_ok _ _ _ H2) (proj2 (Z.eqb_neq a 0)); [|lia].
      simpl. destruct (a =? b); [|done]. apply IH; [done|done|simpl in Hf; lia].
Qed.

Lemma strcmp_ok m p1 p2 l1 l2 :
  cstring m p1 l1 → cstring m p2 l2 → strcmp p1 p2 m = Ok (str_diff l1 l2, m).
Proof.
  intros H1 H2. rewrite /strcmp /bind /gets. apply strcmp_loop_ok; [done|done|].
  by apply (cstring_fuel m p1).
Qed.

Lemma strncmp_loop_ok m k l1 l2 p1 p2 :
  cstring m p1 l1 → cstring m p2 l2 →
  strncmp_loop k p1 p2 m = Ok (str_diff (take k l1) (take k l2), m).
Proof.
  revert l1 l2 p1 p2. induction k as [|k IH]; intros l1 l2 p1 p2 H1 H2; [done|]. cbn [strncmp_loop].
  destruct l1 as [|a l1], l2 as [|b l2].
  - apply cstring_nil in H1, H2. by rewrite /bind (load_ok _ _ _ H1) (load_ok _ _ _ H2).
  - apply cstring_nil in H1. apply cstring_cons in H2 as (H2 & Hb & _).
    rewrite /bind (load_ok _ _ _ H1) (load_ok _ _ _ H2) (proj2 (Z.eqb_neq 0 b)); [|lia]. done.
  - apply cstring_nil in H2. apply cstring_cons in H1 as (H1 & Ha & _).
    rewrite /bind (load_ok _ _ _ H1) (load_ok _ _ _ H2) (proj2 (Z.eqb_neq a 0)); [|lia]. cbn [negb].
    by rewrite Z.sub_0_r.
  - apply cstring_cons in H1 as (H1 & Ha & H1'). apply cstring_cons in H2 as (H2 & Hb & H2').
    rewrite /bind (load_ok _ _ _ H1) (load_ok _ _ _ H2). cbn [take str_diff].
    destruct (Z.eqb_spec a b) as [->|Hne]; cbn [negb]; [|done].
    rewrite (proj2 (Z.eqb_neq b 0)); [|lia]. by apply IH.
Qed.

Lemma memcmp_loop_ok m bs1 bs2 p1 p2 i :
  bytes_at m (p1 + i) bs1 → bytes_at m (p2 + i) bs2 → length bs1 = length bs2 →
  ∃ r, memcmp_loop (length bs1) p1 p2 i m = Ok (r, m) ∧ (r = 0 ↔ bs1 = bs2) ∧
    (r < 0 ↔ str_lt bs1 bs2).
Proof.
  revert bs2 i. induction bs1 as [|a bs1 IH]; intros [|b bs2] i H1 H2 Hlen; try discriminate Hlen.
  - by exists 0.
  - cbn [length memcmp_loop].
    assert (m !! (p1 + i) = Some a) as Ha by (rewrite -(H1 0%nat a eq_refl); f_equal; lia).
    assert (m !! (p2 + i) = Some b) as Hb by (rewrite -(H2 0%nat b eq_refl); f_equal; lia).
    rewrite /bind (load_ok _ _ _ Ha) (load_ok _ _ _ Hb). destruct (Z.eqb_spec a b) as [->|Hne]; cbn [negb].
    + destruct (IH bs2 (i + 1)) as (r & E & Hr0 & Hrn); [| |by injection Hlen|].
      { intros j c Hj. rewrite -(H1 (S j) c Hj). f_equal. lia. }
      { intros j c Hj. rewrite -(H2 (S j) c Hj). f_equal. lia. }
      exists r. split; [done|]. rewrite Hr0 Hrn. simpl. split; [split; congruence|].
      split; [by right|]. intros [?|[_ ?]]; [lia|done].
    + eexists. split; [reflexivity|]. simpl. destruct (Z.ltb_spec a b) as [Hlt|Hge].
      * split; [split; [lia|congruence]|]. split; [by left|lia].
      * split; [split; [lia|congruence]|]. split; [lia|]. intros [?|[? _]]; lia.
Qed.

(** ** Theorems *)

(** C26: [memset], with its unaligned head, its loop over 64-bit words and its tail, has the
    effect of a byte-wise fill of exactly the region, for every start address, length and
    value, and returns the start address. *)
Theorem memset_fills s c n m :
  0 ≤ n → mapped m s n →
  memset s c n m = Ok (s, write_bytes s (replicate (Z.to_nat n) (u8 c)) m).
Proof. apply memset_ok. Qed.

Definition demo_bytes : bytes :=
  write_bytes 0x1003 [112; 108; 111; 115; 0; 112; 108; 111; 119; 0; 1; 2; 3; 4; 5; 6; 7; 8; 9; 10] ∅.

Lemma demo_mapped p n : 0x1003 ≤ p → p + n ≤ 0x1017 → mapped demo_bytes p n.
Proof.
  intros H1 H2 a Ha. rewrite /demo_bytes write_bytes_lookup decide_True; [|simpl; lia].
  apply lookup_lt_is_Some. simpl. lia.
Qed.

Lemma memset_fills_witness :
  memset 0x1003 0x1AB 19 demo_bytes = Ok (0x1003, write_bytes 0x1003 (replicate 19 0xAB) demo_bytes).
Proof.
  apply (memset_fills 0x1003 0x1AB 19 demo_bytes).
  - lia.
  - apply demo_mapped; lia.
Defined.

(** C27: [memmove] makes the destination hold what the source held before the call, and
    changes nothing else, however the two regions overlap. *)
Theorem memmove_copies dest src bs m :
  bytes_at m src bs → mapped m dest (Z.of_nat (length bs)) →
  ∃ m', memmove dest src (Z.of_nat (length bs)) m = Ok (dest, m') ∧ bytes_at m' dest bs ∧
    ∀ a, ¬ dest ≤ a < dest + Z.of_nat (length bs) → m' !! a = m !! a.
Proof.
  intros Hs Hd. eexists. split; [by apply memmove_ok|]. split.
  - intros i b Hi. pose proof (lookup_lt_Some _ _ _ Hi).
    rewrite write_bytes_lookup decide_True; [|lia].
    by replace (Z.to_nat (dest + Z.of_nat i - dest)) with i by lia.
  - intros a Ha. by rewrite write_bytes_lookup decide_False.
Qed.

Lemma memmove_copies_witness :
  ∃ m', memmove 0x1005 0x1003 4 demo_bytes = Ok (0x1005, m') ∧ bytes_at m' 0x1005 [112; 108; 111; 115].
Proof.
  destruct (memmove_copies 0x1005 0x1003 [112; 108; 111; 115] demo_bytes) as (m' & E & H & _).
  - intros i b Hi. do 4 (destruct i as [|i]; [vm_compute in Hi |- *; exact Hi|]). discriminate Hi.
  - apply demo_mapped; cbn; lia.
  - exists m'. split; [exact E|exact H].
Defined.

(** On strings, [strlen] counts the bytes before the terminator, [strcmp] is zero
    exactly for equal strings and negative exactly when the first comes first in
    dictionary order, and [strncmp] does the same on the first [n] bytes. All of them end
    and leave memory as it was. *)
Lemma string_order m p1 p2 l1 l2 n :
  p1 ≠ 0 → cstring m p1 l1 → cstring m p2 l2 → Z.of_nat (length l1) < 2 ^ 64 →
  strlen p1 m = Ok (Z.of_nat (length l1), m) ∧
  (∃ r, strcmp p1 p2 m = Ok (r, m) ∧ (r = 0 ↔ l1 = l2) ∧ (r < 0 ↔ str_lt l1 l2)) ∧
  (∃ r, strncmp p1 p2 n m = Ok (r, m) ∧ (r = 0 ↔ take (Z.to_nat n) l1 = take (Z.to_nat n) l2) ∧
     (r < 0 ↔ str_lt (take (Z.to_nat n) l1) (take (Z.to_nat n) l2))).
Proof.
  intros Hp H1 H2 Hlen. split; [by apply strlen_ok|].
  assert (str_bytes l1 ∧ str_bytes l2) as [Hb1 Hb2] by (split; [apply H1|apply H2]). split.
  - exists (str_diff l1 l2). split; [by apply strcmp_ok|].
    split; [by apply str_diff_zero|by apply str_diff_neg].
  - exists (str_diff (take (Z.to_nat n) l1) (take (Z.to_nat n) l2)).
    split; [by apply strncmp_loop_ok|].
    split; [apply str_diff_zero|apply str_diff_neg]; by apply Forall_take.
Qed.

Lemma string_order_witness :
  strlen 0x1003 demo_bytes = Ok (4, demo_bytes) ∧
  ∃ r, strcmp 0x1003 0x1008 demo_bytes = Ok (r, demo_bytes) ∧ r < 0.
Proof.
  destruct (string_order demo_bytes 0x1003 0x1008 [112; 108; 111; 115] [112; 108; 111; 119] 3)
    as (E1 & (r & E2 & _ & Hr) & _).
  - lia.
  - split; [|repeat constructor].
    intros i b Hi. do 5 (destruct i as [|i]; [vm_compute in Hi |- *; exact Hi|]). discriminate Hi.
  - split; [|repeat constructor].
    intros i b Hi. do 5 (destruct i as [|i]; [vm_compute in Hi |- *; exact Hi|]). discriminate Hi.
  - cbn. lia.
  - split; [exact E1|]. exists r. split; [exact E2|]. apply Hr. cbn. lia.
Defined.
