(* ===== verification/Kheap.v ===== *)
(** * The kernel heap: model (memory/kheap.c, memory/kheap.h)

    The linked-list allocator: block headers at the addresses they have in the heap, the
    heap's virtual range, and the page tables and the frame allocator it grows with. The
    heap's mutex is a flag here: taking it when it is taken puts the caller to sleep
    ([Block]); what the mutex itself promises is in Mutex.v. Properties are in
    KheapSpec.v. *)

From stdpp Require Import base gmap list numbers functions.
From S2P Require Import Prelude Hhdm FrameAlloc Paging.

Definition KHEAP_STARTING_SIZE : Z := 0x100000.
Definition KHEAP_MIN_SPLITTING_SIZE : Z := 16.
Definition KHEAP_BLOCK_SIZE : Z := 16.
Definition KHEAP_EXTENDING_AMOUNT : Z := 0x100000.

(** [struct kheap_node], the header of a block: 8 bytes of size, the flag padded to 8
    bytes, 8 bytes of pointer. *)
Record kheap_node := mkNode { size : Z; isFree : bool; next : Z }.
Definition sizeof_kheap_node : Z := 24.

Record kheap_state (S : Type) := mkHeap {
  paging : paging_state S;
  kheap_start : Z;
  kheap_end : Z;
  kheap_head : Z;
  kheap_locked : bool;
  nodes : gmap Z kheap_node;      (** the headers, by address *)
}.
Arguments mkHeap {S} _ _ _ _ _ _.
Arguments paging {S} _.
Arguments kheap_start {S} _.
Arguments kheap_end {S} _.
Arguments kheap_head {S} _.
Arguments kheap_locked {S} _.
Arguments nodes {S} _.

Section kheap.
Context {S : Type} `{FrameAlloc S}.
Implicit Types s : kheap_state S.

Definition with_paging (p : paging_state S) s : kheap_state S :=
  mkHeap p (kheap_start s) (kheap_end s) (kheap_head s) (kheap_locked s) (nodes s).
Definition with_range (a e : Z) s : kheap_state S :=
  mkHeap (paging s) a e (kheap_head s) (kheap_locked s) (nodes s).
Definition with_head (h : Z) s : kheap_state S :=
  mkHeap (paging s) (kheap_start s) (kheap_end s) h (kheap_locked s) (nodes s).
Definition with_locked (b : bool) s : kheap_state S :=
  mkHeap (paging s) (kheap_start s) (kheap_end s) (kheap_head s) b (nodes s).
Definition with_nodes (ns : gmap Z kheap_node) s : kheap_state S :=
  mkHeap (paging s) (kheap_start s) (kheap_end s) (kheap_head s) (kheap_locked s) ns.

Definition on_paging {A} (m : M (paging_state S) A) : M (kheap_state S) A := λ s,
  match m (paging s) with
  | Ok (a, p) => Ok (a, with_paging p s)
  | Err e => Err e
  end.

Definition read_node (p : Z) : M (kheap_state S) kheap_node := reads (λ s, nodes s !! p).
Definition write_node (p : Z) (n : kheap_node) : M (kheap_state S) unit :=
  modify (λ s, with_nodes (<[p := n]> (nodes s)) s).

Definition heap_acquire : M (kheap_state S) unit := λ s,
  if kheap_locked s then Err Block else Ok (tt, with_locked true s).
Definition heap_release : M (kheap_state S) unit := modify (with_locked false).

(** ** Growing the heap *)

(** The loop over the new pages. *)
Fixpoint extend_loop (fuel : nat) (kernel_pml4 virtual lim : Z) : M (kheap_state S) bool :=
  match fuel with
  | O => fail OutOfFuel
  | Datatypes.S fuel =>
      if virtual <? lim then
        newPage <- on_paging (on_frames (fa_alloc PAGING_PAGE_SIZE));;
        if newPage =? 0 then ret false
        else
          on_paging (
            off <- gets hhdm_offset;;
            paging_map_page (hhdm_physToVirt off kernel_pml4) virtual newPage
              (Z.lor PTE_FLAG_RW PTE_FLAG_GLOBAL) false);;;
          extend_loop fuel kernel_pml4 (u64 (virtual + PAGING_PAGE_SIZE)) lim
      else ret true
  end.

(** [while(current != NULL && current->next != NULL) current = current->next] *)
Fixpoint last_node (fuel : nat) (current : Z) : M (kheap_state S) Z :=
  match fuel with
  | O => fail OutOfFuel
  | Datatypes.S fuel =>
      if current =? 0 then ret current
      else
        n <- read_node current;;
        if next n =? 0 then ret current else last_node fuel (next n)
  end.

(** Fuel for a walk over the list. *)
Definition list_fuel s : nat := (2 + base.size (nodes s))%nat.

Definition kheap_extend (sz : Z) : M (kheap_state S) bool :=
  let numPages := sz / PAGING_PAGE_SIZE + (if sz mod PAGING_PAGE_SIZE =? 0 then 0 else 1) in
  kernel_pml4_phys <- on_paging paging_getKernelRoot;;
  kend <- gets kheap_end;;
  ok <- extend_loop (1 + Z.to_nat numPages) kernel_pml4_phys kend
          (u64 (kend + u64 (numPages * PAGING_PAGE_SIZE)));;
  if negb ok then ret false
  else
    head <- gets kheap_head;;
    fuel <- gets list_fuel;;
    current <- last_node fuel head;;
    occupied <- (if current =? 0 then ret true else n <- read_node current;; ret (negb (isFree n)));;
    (if (occupied : bool) then
       write_node kend (mkNode (u64 (u64 (numPages * PAGING_PAGE_SIZE) - sizeof_kheap_node)) true 0);;;
       (if current =? 0 then modify (with_head kend)
        else n <- read_node current;; write_node current (mkNode (size n) (isFree n) kend))
     else
       n <- read_node current;;
       write_node current
         (mkNode (u64 (size n + u64 (numPages * PAGING_PAGE_SIZE))) (isFree n) (next n)));;;
    modify (λ s, with_range (kheap_start s) (u64 (kheap_end s + u64 (numPages * PAGING_PAGE_SIZE))) s);;;
    ret true.

(** [kheap_init]: [kernel_end] is the address of the linker symbol [_KERNEL_END]. *)
Definition kheap_init (kernel_end : Z) : M (kheap_state S) unit :=
  let start := u64 (kernel_end + 0x100000) in
  let start := if negb (start mod PAGING_PAGE_SIZE =? 0)
               then u64 (start + (PAGING_PAGE_SIZE - start mod PAGING_PAGE_SIZE)) else start in
  modify (with_range start start);;;
  kheap_extend KHEAP_STARTING_SIZE;;;
  ret tt.

(** ** Allocating *)

(** The inner loop: the first free block that is big enough. *)
Fixpoint find_fit (fuel : nat) (currentNode sz : Z) : M (kheap_state S) (option Z) :=
  match fuel with
  | O => fail OutOfFuel
  | Datatypes.S fuel =>
      if currentNode =? 0 then ret None
      else
        n <- read_node currentNode;;
        if isFree n && (sz <=? size n) then ret (Some currentNode)
        else find_fit fuel (next n) sz
  end.

(** Lines 138-159: splits the block when the rest is big enough, and takes it. *)
Definition take_block (currentNode sz : Z) : M (kheap_state S) Z :=
  n <- read_node currentNode;;
  (if sizeof_kheap_node + KHEAP_MIN_SPLITTING_SIZE <=? u64 (size n - sz) then
     let newNode := u64 (currentNode + sizeof_kheap_node + sz) in
     write_node newNode (mkNode (u64 (size n - sz - sizeof_kheap_node)) true (next n));;;
     write_node currentNode (mkNode sz (isFree n) newNode)
   else ret tt);;;
  n <- read_node currentNode;;
  write_node currentNode (mkNode (size n) false (next n));;;
  ret (u64 (currentNode + sizeof_kheap_node)).

Fixpoint kmalloc_loop (fuel : nat) (sz : Z) : M (kheap_state S) Z :=
  match fuel with
  | O => fail OutOfFuel
  | Datatypes.S fuel =>
      head <- gets kheap_head;;
      walk <- gets list_fuel;;
      found <- find_fit walk head sz;;
      match found with
      | Some currentNode =>
          p <- take_block currentNode sz;;
          heap_release;;;
          ret p
      | None =>
          ok <- kheap_extend KHEAP_EXTENDING_AMOUNT;;
          if negb ok then heap_release;;; ret 0
          else kmalloc_loop fuel sz
      end
  end.

(** The size rounded up to a multiple of 16. *)
Definition round_size (sz : Z) : Z :=
  if negb (sz mod KHEAP_BLOCK_SIZE =? 0)
  then u64 (sz + (KHEAP_BLOCK_SIZE - sz mod KHEAP_BLOCK_SIZE)) else sz.

(** Fuel: every extension adds a megabyte to the last block, so the request fits after
    that many of them. *)
Definition kmalloc_fuel (sz : Z) : nat := (3 + Z.to_nat (sz / KHEAP_EXTENDING_AMOUNT))%nat.

Definition kmalloc (sz : Z) : M (kheap_state S) Z :=
  let sz := round_size sz in
  heap_acquire;;;
  kmalloc_loop (kmalloc_fuel sz) sz.

(** ** Freeing *)

Fixpoint coalesce_loop (fuel : nat) (current : Z) : M (kheap_state S) unit :=
  match fuel with
  | O => fail OutOfFuel
  | Datatypes.S fuel =>
      if current =? 0 then ret tt
      else
        n <- read_node current;;
        if next n =? 0 then ret tt
        else
          m <- read_node (next n);;
          if isFree n && isFree m then
            write_node current (mkNode (u64 (size n + u64 (size m + sizeof_kheap_node))) (isFree n) (next m));;;
            coalesce_loop fuel current
          else coalesce_loop fuel (next n)
  end.

Definition kheap_coalesce : M (kheap_state S) unit :=
  head <- gets kheap_head;;
  fuel <- gets list_fuel;;
  coalesce_loop fuel head.

Definition kfree (ptr : Z) : M (kheap_state S) unit :=
  if ptr =? 0 then ret tt
  else
    heap_acquire;;;
    let node_to_free := u64 (ptr - sizeof_kheap_node) in
    n <- read_node node_to_free;;
    if isFree n then heap_release
    else
      write_node node_to_free (mkNode (size n) true (next n));;;
      kheap_coalesce;;;
      heap_release.
End kheap.
