(* ===== verification/KheapSpec.v ===== *)
(** * The kernel heap: blocks

    The list of headers as a list of blocks that tile the heap, and what the operations of
    Kheap.v do to it. *)

From stdpp Require Import base gmap list numbers functions.
From S2P Require Import Prelude Hhdm FrameAlloc Paging Kheap.

#[local] Ltac Zify.zify_post_hook ::= Z.to_euclidean_division_equations.

(** A block: its size without the header, and whether it is free. *)
Notation hblock := (Z * bool)%type.

(** The bytes a list of blocks takes, headers included. *)
Fixpoint span (L : list hblock) : Z :=
  match L with [] => 0 | b :: L => sizeof_kheap_node + b.1 + span L end.

(** The pointer to a list of blocks that starts at [a]; [nx] when it is empty. *)
Definition ptr (a : Z) (L : list hblock) (nx : Z) : Z := match L with [] => nx | _ => a end.

(** The headers of the blocks [L] are in memory from address [a] on, one after the other,
    the last one pointing at [nx]. *)
Fixpoint heap_seg (ns : gmap Z kheap_node) (a : Z) (L : list hblock) (nx : Z) : Prop :=
  match L with
  | [] => True
  | b :: L => ns !! a = Some (mkNode b.1 b.2 (ptr (a + sizeof_kheap_node + b.1) L nx)) ∧
      heap_seg ns (a + sizeof_kheap_node + b.1) L nx
  end.

(** The blocks in use: the address of the header and the size. *)
Fixpoint used (a : Z) (L : list hblock) : list (Z * Z) :=
  match L with
  | [] => []
  | b :: L => (if b.2 then [] else [(a, b.1)]) ++ used (a + sizeof_kheap_node + b.1) L
  end.

(** No two neighbours are free. *)
Fixpoint compact (L : list hblock) : Prop :=
  match L with
  | b :: L => match L with c :: _ => b.2 && c.2 = false | [] => True end ∧ compact L
  | [] => True
  end.

Definition sizes_ok (L : list hblock) : Prop := Forall (λ b, 0 ≤ b.1 ∧ b.1 mod 8 = 0) L.

Lemma span_app L1 L2 : span (L1 ++ L2) = span L1 + span L2.
Proof. induction L1 as [|b L1 IH]; simpl; [done|]. rewrite IH. lia. Qed.

Lemma span_nonneg L : sizes_ok L → 0 ≤ span L.
Proof. induction 1 as [|b L Hb _ IH]; simpl; [done|]. unfold sizeof_kheap_node. lia. Qed.

Lemma span_mod L : sizes_ok L → span L mod 8 = 0.
Proof. induction 1 as [|b L Hb _ IH]; simpl; [done|]. unfold sizeof_kheap_node. lia. Qed.

Lemma ptr_app a L1 L2 nx : ptr a (L1 ++ L2) nx = ptr a L1 (ptr (a + span L1) L2 nx).
Proof. destruct L1; simpl; [|done]. by rewrite Z.add_0_r. Qed.

Lemma heap_seg_app ns a L1 L2 nx :
  heap_seg ns a (L1 ++ L2) nx ↔
  heap_seg ns a L1 (ptr (a + span L1) L2 nx) ∧ heap_seg ns (a + span L1) L2 nx.
Proof.
  revert a. induction L1 as [|b L1 IH]; intros a; simpl.
  - rewrite Z.add_0_r. tauto.
  - rewrite IH ptr_app. rewrite !Z.add_assoc. tauto.
Qed.

Lemma used_app a L1 L2 : used a (L1 ++ L2) = used a L1 ++ used (a + span L1) L2.
Proof.
  revert a. induction L1 as [|b L1 IH]; intros a; simpl; [by rewrite Z.add_0_r|].
  by rewrite IH -app_assoc !Z.add_assoc.
Qed.

(** Headers outside the segment do not matter. *)
Lemma heap_seg_frame ns ns' a L nx :
  sizes_ok L → heap_seg ns a L nx → (∀ x, a ≤ x < a + span L → ns' !! x = ns !! x) →
  heap_seg ns' a L nx.
Proof.
  intros Hs. revert a. induction Hs as [|b L Hb Hs IH]; intros a; simpl; [done|].
  intros [H1 H2] Hf. pose proof (span_nonneg L Hs). unfold sizeof_kheap_node in *. split.
  - rewrite Hf; [done|lia].
  - apply IH; [done|]. intros x Hx. apply Hf. lia.
Qed.

Lemma compact_app_r L1 L2 : compact (L1 ++ L2) → compact L2.
Proof. induction L1 as [|b L1 IH]; simpl; [done|]. intros [_ Hc]. by apply IH. Qed.

Lemma compact_app_l L1 L2 : compact (L1 ++ L2) → compact L1.
Proof.
  induction L1 as [|b L1 IH]; simpl; [done|]. intros [H1 H2]. split; [|by apply IH].
  by destruct L1.
Qed.

(** Joining two compact lists whose neighbours are not both free. *)
Lemma compact_join L1 L2 :
  compact L1 → compact L2 →
  (∀ b c, last L1 = Some b → head L2 = Some c → b.2 && c.2 = false) → compact (L1 ++ L2).
Proof.
  induction L1 as [|b L1 IH]; simpl; [done|]. intros [H1 H2] H3 Hj. split.
  - destruct L1 as [|c L1]; simpl; [|done]. destruct L2 as [|c L2]; [done|]. by apply Hj.
  - apply IH; [done|done|]. intros b' c' Hb Hc. apply Hj; [|done]. rewrite last_cons Hb //.
Qed.

Lemma compact_mid L1 b L2 :
  compact (L1 ++ b :: L2) →
  (∀ x, last L1 = Some x → x.2 && b.2 = false) ∧ (∀ y, head L2 = Some y → b.2 && y.2 = false).
Proof.
  intros Hc. split.
  - intros x Hx. apply last_Some in Hx as [L1' ->]. rewrite -app_assoc in Hc.
    apply compact_app_r in Hc. apply Hc.
  - intros y Hy. apply compact_app_r in Hc. destruct L2; [done|]. injection Hy as <-. apply Hc.
Qed.

(** ** The heap *)
Section heap.
Context {S : Type} `{FrameAlloc S}.
Implicit Types s : kheap_state S.

(** The heap between its operations ([locked] false) and inside them. *)
Record heap_rep s (locked : bool) (L : list hblock) : Prop := {
  hr_seg : heap_seg (nodes s) (kheap_start s) L 0;
  hr_head : kheap_head s = ptr (kheap_start s) L 0;
  hr_end : kheap_end s = kheap_start s + span L;
  hr_start : 0 < kheap_start s ∧ kheap_start s mod PAGING_PAGE_SIZE = 0;
  hr_top : kheap_end s < 2 ^ 64 ∧ kheap_end s mod PAGING_PAGE_SIZE = 0;
  hr_sizes : sizes_ok L;
  hr_compact : compact L;
  hr_lock : kheap_locked s = locked;
}.

Lemma nodes_size ns a L nx :
  sizes_ok L → heap_seg ns a L nx → (length L ≤ base.size ns)%nat.
Proof.
  intros Hs Hseg.
  assert (∃ l : list Z, length l = length L ∧ NoDup l ∧ Forall (λ x, a ≤ x) l ∧
            Forall (λ x, is_Some (ns !! x)) l) as (l & <- & Hnd & _ & Hin).
  { revert a Hseg. induction Hs as [|b L Hb Hs IH]; intros a Hseg.
    - exists []. split; [done|]. split; [apply NoDup_nil_2|]. split; constructor.
    - destruct Hseg as [H1 H2]. destruct (IH _ H2) as (l & Hl & Hnd & Hge & Hin).
      exists (a :: l). unfold sizeof_kheap_node in Hge. split; [simpl; by rewrite Hl|]. split; [|split].
      + apply NoDup_cons. split; [|done]. intros Ha. rewrite Forall_forall in Hge.
        apply Hge in Ha. lia.
      + constructor; [lia|]. eapply Forall_impl; [exact Hge|]. intros x Hx. simpl in Hx. lia.
      + constructor; [by eexists|done]. }
  rewrite -(size_list_to_set (C := gset Z)) // -size_dom. apply subseteq_size. intros x Hx.
  apply elem_of_list_to_set in Hx. rewrite Forall_forall in Hin. by apply elem_of_dom, Hin.
Qed.

Lemma rep_fuel s b L : heap_rep s b L → (length L < list_fuel s)%nat.
Proof.
  intros Hr. pose proof (nodes_size _ _ _ _ (hr_sizes _ _ _ Hr) (hr_seg _ _ _ Hr)).
  rewrite /list_fuel. lia.
Qed.

(** *** The walks *)

Definition fits (sz : Z) (b : hblock) : bool := b.2 && (sz <=? b.1).

Lemma find_fit_ok s sz L a fuel :
  heap_seg (nodes s) a L 0 → sizes_ok L → 0 < a → (length L < fuel)%nat →
  (∃ L1 b L2, L = L1 ++ b :: L2 ∧ fits sz b = true ∧
     find_fit fuel (ptr a L 0) sz s = Ok (Some (a + span L1), s)) ∨
  (Forall (λ b, fits sz b = false) L ∧ find_fit fuel (ptr a L 0) sz s = Ok (None, s)).
Proof.
  intros Hseg Hs. revert a fuel Hseg. induction Hs as [|b L Hb Hs IH]; intros a [|fuel] Hseg Ha Hf;
    try (simpl in Hf; lia).
  - right. split; [constructor|done].
  - destruct Hseg as [H1 H2]. cbn [ptr find_fit]. rewrite (proj2 (Z.eqb_neq a 0)); [|lia].
    rewrite /bind /read_node /reads H1. cbn [isFree size next].
    destruct (b.2 && (sz <=? b.1)) eqn:Ef.
    + left. exists [], b, L. by rewrite /= Z.add_0_r.
    + unfold sizeof_kheap_node in *.
      destruct (IH _ fuel H2) as [(L1 & c & L2 & -> & Hc & E)|[Hno E]]; [lia|simpl in Hf; lia| |].
      * left. exists (b :: L1), c, L2. split; [done|]. split; [done|]. rewrite E /=. do 3 f_equal.
        unfold sizeof_kheap_node. lia.
      * right. split; [by constructor|done].
Qed.

Lemma last_node_ok s L a fuel :
  heap_seg (nodes s) a L 0 → sizes_ok L → 0 < a → (length L < fuel)%nat →
  last_node fuel (ptr a L 0) s =
    Ok (match L with [] => 0 | _ => a + span (removelast L) end, s).
Proof.
  intros Hseg Hs. revert a fuel Hseg. induction Hs as [|b L Hb Hs IH]; intros a [|fuel] Hseg Ha Hf;
    try (simpl in Hf; lia).
  - done.
  - destruct Hseg as [H1 H2]. cbn [ptr last_node]. rewrite (proj2 (Z.eqb_neq a 0)); [|lia].
    rewrite /bind /read_node /reads H1. cbn [next]. unfold sizeof_kheap_node in *. destruct L as [|c L].
    + simpl. by rewrite Z.add_0_r.
    + cbn [ptr]. rewrite (proj2 (Z.eqb_neq _ 0)); [|lia].
      rewrite (IH (a + 24 + b.1) fuel H2); [|lia|simpl in Hf |- *; lia].
      do 2 f_equal. cbn [removelast]. cbn [span]. unfold sizeof_kheap_node. destruct L; simpl; lia.
Qed.

(** *** Taking a block *)

Definition taken (bs sz : Z) : list hblock :=
  if 40 <=? bs - sz then [(sz, false); (bs - sz - 24, true)] else [(bs, false)].

Lemma span_taken bs sz : span (taken bs sz) = 24 + bs.
Proof. rewrite /taken. destruct (40 <=? _); simpl; unfold sizeof_kheap_node; lia. Qed.

(** Replacing the blocks in the middle of the list. *)
Lemma rep_replace s b b' L1 M L2 M' ns' :
  heap_rep s b (L1 ++ M ++ L2) → M ≠ [] → M' ≠ [] → span M' = span M → sizes_ok M' →
  compact (L1 ++ M' ++ L2) →
  heap_seg ns' (kheap_start s + span L1) M' (ptr (kheap_start s + span L1 + span M) L2 0) →
  (∀ x, ¬ kheap_start s + span L1 ≤ x < kheap_start s + span L1 + span M → ns' !! x = nodes s !! x) →
  heap_rep (with_locked b' (with_nodes ns' s)) b' (L1 ++ M' ++ L2).
Proof.
  intros [H1 H2 H3 H4 H5 H6 H7 H8] HM HM' Esp Hs' Hc Hseg Hf.
  apply Forall_app in H6 as [HsL1 H6]. apply Forall_app in H6 as [HsM HsL2].
  apply heap_seg_app in H1 as [Hs1 H1]. apply heap_seg_app in H1 as [_ Hs2].
  pose proof (span_nonneg L1 HsL1). pose proof (span_nonneg M HsM).
  split; simpl; [| | |done|done|by repeat apply Forall_app_2|done|done].
  - apply heap_seg_app. split; [|apply heap_seg_app; split].
    + destruct M as [|c M]; [done|]. destruct M' as [|c' M']; [done|]. simpl in *.
      eapply heap_seg_frame; [exact HsL1|exact Hs1|]. intros x Hx. apply Hf. lia.
    + by rewrite Esp.
    + rewrite Esp. eapply heap_seg_frame; [exact HsL2|exact Hs2|]. intros x Hx. apply Hf. lia.
  - rewrite H2. destruct L1, M, M'; done.
  - rewrite H3 !span_app Esp. done.
Qed.

Lemma rep_bounds s b L1 bs fr L2 :
  heap_rep s b (L1 ++ (bs, fr) :: L2) →
  let a := kheap_start s + span L1 in
  0 < a ∧ a mod 8 = 0 ∧ a + 24 + bs ≤ kheap_end s ∧ kheap_end s < 2 ^ 64 ∧ 0 ≤ bs ∧ bs mod 8 = 0 ∧
  nodes s !! a = Some (mkNode bs fr (ptr (a + 24 + bs) L2 0)) ∧ sizes_ok L1 ∧ sizes_ok L2 ∧
  heap_seg (nodes s) (a + 24 + bs) L2 0.
Proof.
  intros [H1 H2 H3 H4 H5 H6 H7 H8]. apply Forall_app in H6 as [HsL1 H6].
  apply Forall_cons in H6 as [Hbs HsL2]. simpl in Hbs.
  apply heap_seg_app in H1 as [_ [Ha Hs2]]. simpl in Ha, Hs2.
  pose proof (span_nonneg L1 HsL1). pose proof (span_nonneg L2 HsL2). pose proof (span_mod L1 HsL1).
  rewrite H3 span_app /= in H5 |- *. unfold sizeof_kheap_node, PAGING_PAGE_SIZE in *. simpl.
  repeat split; try lia; done.
Qed.

Lemma taken_compact L1 bs sz L2 :
  compact (L1 ++ (bs, true) :: L2) → compact (L1 ++ taken bs sz ++ L2).
Proof.
  intros Hc. destruct (compact_mid _ _ _ Hc) as [Hl Hr].
  pose proof (compact_app_l _ _ Hc) as H1. apply compact_app_r in Hc as H2.
  destruct H2 as [_ H2]. apply compact_join; [done| |].
  - rewrite /taken. destruct (40 <=? _); simpl.
    + split; [done|]. split; [|done]. destruct L2 as [|c L2]; [done|]. exact (Hr c eq_refl).
    + split; [|done]. by destruct L2.
  - intros x y Hx Hy. rewrite /taken in Hy. destruct (40 <=? _); simpl in Hy; injection Hy as <-;
      apply andb_false_r.
Qed.

Lemma take_block_ok s b L1 bs L2 sz :
  heap_rep s b (L1 ++ (bs, true) :: L2) → 0 ≤ sz ≤ bs → sz mod 8 = 0 →
  ∃ ns', take_block (kheap_start s + span L1) sz s =
      Ok (kheap_start s + span L1 + 24, with_nodes ns' s) ∧
    ∀ b', heap_rep (with_locked b' (with_nodes ns' s)) b' (L1 ++ taken bs sz ++ L2).
Proof.
  intros Hr Hsz Hmod. pose proof (rep_bounds s b L1 bs true L2 Hr) as Hb. cbv zeta in Hb.
  set a := kheap_start s + span L1 in Hb |- *.
  destruct Hb as (Ha0 & Ham & Hae & Htop & Hbs & Hbm & Hn & Hs1 & Hs2 & Hseg2).
  set nx := ptr (a + 24 + bs) L2 0 in Hn.
  assert (∃ ns', take_block a sz s = Ok (a + 24, with_nodes ns' s) ∧
    heap_seg ns' a (taken bs sz) nx ∧
    ∀ x, ¬ a ≤ x < a + (24 + bs) → ns' !! x = nodes s !! x) as (ns' & E & Hseg & Hf).
  { rewrite /take_block /bind /read_node {1}/reads Hn. cbn [size isFree next].
    rewrite (u64_small (bs - sz)); [|lia]. rewrite /taken /sizeof_kheap_node /KHEAP_MIN_SPLITTING_SIZE.
    change (24 + 16) with 40. destruct (Z.leb_spec 40 (bs - sz)) as [Hsplit|Hno].
    - rewrite /write_node /modify /reads. rewrite (u64_small (a + 24 + sz)); [|lia].
      rewrite (u64_small (bs - sz - 24)); [|lia]. cbn [nodes with_nodes]. rewrite lookup_insert_eq.
      cbn [nodes with_nodes size next]. eexists. split; [rewrite (u64_small (a + 24)); [reflexivity|lia]|].
      rewrite insert_insert_eq. split.
      + simpl. unfold sizeof_kheap_node. rewrite lookup_insert_eq. split; [done|].
        rewrite lookup_insert_ne; [|lia]. rewrite lookup_insert_eq. split; [done|].
        done.
      + intros x Hx. rewrite lookup_insert_ne; [|lia]. rewrite lookup_insert_ne //. lia.
    - rewrite /ret /reads Hn /write_node /modify. cbn [size next].
      eexists. split; [rewrite (u64_small (a + 24)); [reflexivity|lia]|]. split.
      + simpl. unfold sizeof_kheap_node. rewrite lookup_insert_eq. done.
      + intros x Hx. rewrite lookup_insert_ne //. lia. }
  exists ns'. split; [done|]. intros b'.
  apply (rep_replace s b b' L1 [(bs, true)] L2 (taken bs sz)); [done|done| | | | | |].
  - rewrite /taken. by destruct (40 <=? _).
  - rewrite span_taken /=. unfold sizeof_kheap_node. lia.
  - rewrite /taken. destruct (Z.leb_spec 40 (bs - sz)); repeat constructor; simpl; lia.
  - apply taken_compact. apply Hr.
  - fold a. simpl. unfold sizeof_kheap_node. replace (a + (24 + bs + 0)) with (a + 24 + bs) by lia. done.
  - fold a. intros x Hx. simpl in Hx. unfold sizeof_kheap_node in Hx. apply Hf. lia.
Qed.

(** *** Growing *)

(** The blocks after the heap has grown by [amt] bytes. *)
Definition grow_list (amt : Z) (L : list hblock) : list hblock :=
  match last L with
  | Some (bs, true) => removelast L ++ [(bs + amt, true)]
  | _ => L ++ [(amt - 24, true)]
  end.

Lemma extend_frame fuel k v lim s r s' :
  extend_loop fuel k v lim s = Ok (r, s') → s' = with_paging (paging s') s.
Proof.
  revert v s. induction fuel as [|fuel IH]; intros v s E; [done|]. cbn [extend_loop] in E.
  destruct (v <? lim); [|injection E as <- <-; by destruct s].
  rewrite {1}/bind {1}/on_paging in E.
  destruct (on_frames _ _) as [[np p1]|]; [|done]. destruct (np =? 0); [by injection E as <- <-|].
  rewrite /bind {1}/on_paging in E. destruct (match gets hhdm_offset _ with Ok _ => _ | Err _ => _ end)
    as [[[] p2]|]; [|done]. apply IH in E. rewrite E. by destruct s.
Qed.

Lemma grow_last_free L bs amt : grow_list amt (L ++ [(bs, true)]) = L ++ [(bs + amt, true)].
Proof. by rewrite /grow_list last_snoc removelast_last. Qed.
Lemma grow_last_used L bs amt :
  grow_list amt (L ++ [(bs, false)]) = L ++ [(bs, false); (amt - 24, true)].
Proof. rewrite /grow_list last_snoc. by rewrite -app_assoc. Qed.

(** Shared by the three cases: the header list after growing. *)
Lemma rep_grow s b L L' ns' hd p amt :
  heap_rep s b L → heap_seg ns' (kheap_start s) L' 0 → hd = ptr (kheap_start s) L' 0 →
  span L' = span L + amt → sizes_ok L' → compact L' →
  kheap_end s + amt < 2 ^ 64 → amt mod PAGING_PAGE_SIZE = 0 →
  heap_rep (mkHeap p (kheap_start s) (kheap_end s + amt) hd (kheap_locked s) ns') b L'.
Proof.
  intros [H1 H2 H3 H4 H5 H6 H7 H8] Hseg Hh Hsp Hs Hc Hlt Hm. split; simpl; try done.
  - rewrite H3 Hsp. lia.
  - split; [done|]. unfold PAGING_PAGE_SIZE in *. lia.
Qed.

Lemma kheap_extend_ok s b L amt p' :
  heap_rep s b L → 24 ≤ amt → amt mod PAGING_PAGE_SIZE = 0 → kheap_end s + amt < 2 ^ 64 →
  extend_loop (1 + Z.to_nat (amt / PAGING_PAGE_SIZE)) (kernel_pml4_phys (paging s)) (kheap_end s)
    (kheap_end s + amt) s = Ok (true, with_paging p' s) →
  ∃ s', kheap_extend amt s = Ok (true, s') ∧ paging s' = p' ∧ kheap_start s' = kheap_start s ∧
    kheap_end s' = kheap_end s + amt ∧ heap_rep s' b (grow_list amt L).
Proof.
  intros Hr Hamt Hmod Htop Eloop.
  assert (0 < kheap_start s ∧ 0 ≤ span L) as [Hst Hspn] by (split; [apply Hr|apply span_nonneg, Hr]).
  pose proof (hr_end _ _ _ Hr) as Hend. pose proof (hr_sizes _ _ _ Hr) as Hsz.
  assert (u64 (amt / PAGING_PAGE_SIZE * PAGING_PAGE_SIZE) = amt) as Epages.
  { unfold PAGING_PAGE_SIZE in *. rewrite u64_small; lia. }
  rewrite /kheap_extend Hmod Z.eqb_refl Z.add_0_r Epages.
  rewrite {1}/bind {1}/on_paging /paging_getKernelRoot /gets.
  assert (with_paging (paging s) s = s) as -> by by destruct s.
  rewrite {1}/bind {1}/bind (u64_small (kheap_end s + amt)); [|lia]. rewrite Eloop. cbn [negb]. rewrite {1}/bind {1}/bind {1}/bind.
  assert (heap_rep (with_paging p' s) b L) as Hr' by (destruct Hr; by split).
  change (kheap_head (with_paging p' s)) with (kheap_head s). rewrite (hr_head _ _ _ Hr).
  rewrite (last_node_ok (with_paging p' s) L (kheap_start s)); [|apply Hr|done|done|by apply (rep_fuel _ b)].
  destruct L as [|c L _] using rev_ind.
  - simpl in Hend. rewrite Z.eqb_refl /bind /ret /write_node /modify. cbn [kheap_start kheap_end with_range with_head with_nodes with_paging nodes].
    rewrite (u64_small (amt - sizeof_kheap_node)) /sizeof_kheap_node; [|lia].
    rewrite (u64_small (kheap_end s + amt)); [|lia].
    eexists. split; [reflexivity|]. split; [done|]. split; [done|]. split; [done|].
    apply (rep_grow s b [] [(amt - 24, true)]); try done; [| |simpl; unfold sizeof_kheap_node; lia|].
    + simpl. rewrite Hend Z.add_0_r lookup_insert_eq. done.
    + simpl. lia.
    + repeat constructor; simpl; unfold PAGING_PAGE_SIZE in *; lia.
  - destruct c as [bs fr]. pose proof (rep_bounds s b L bs fr [] Hr) as Hb. cbv zeta in Hb.
    assert (∀ X Y : Z, match L ++ [(bs, fr)] with [] => X | _ :: _ => Y end = Y) as Em by by destruct L.
    rewrite Em removelast_last. set a := kheap_start s + span L in Hb |- *.
    destruct Hb as (Ha0 & Ham & Hae & _ & Hbs & Hbm & Hn & Hs1 & _ & _).
    rewrite (proj2 (Z.eqb_neq a 0)); [|lia]. rewrite span_app /= in Hend. unfold sizeof_kheap_node in Hend.
    rewrite {1}/bind {1}/bind {1}/read_node {1}/reads. cbn [nodes with_paging]. rewrite Hn. cbn [isFree ret].
    pose proof (hr_seg _ _ _ Hr) as Hseg. apply heap_seg_app in Hseg as [HsegL _]. fold a in HsegL.
    pose proof (span_nonneg L Hs1) as HspL.
    destruct fr; cbn [negb].
    + rewrite grow_last_free. rewrite /bind /read_node /reads /write_node /modify. cbn [nodes with_paging].
      rewrite Hn. cbn [size isFree next]. cbn [kheap_start kheap_end with_range with_nodes with_paging].
      rewrite (u64_small (bs + amt)); [|lia]. rewrite (u64_small (kheap_end s + amt)); [|lia].
      eexists. split; [reflexivity|]. split; [done|]. split; [done|]. split; [done|].
      apply (rep_grow s b (L ++ [(bs, true)])); try done.
      * apply heap_seg_app. split.
        -- eapply heap_seg_frame; [exact Hs1|exact HsegL|]. intros x Hx. rewrite lookup_insert_ne //. fold a. lia.
        -- fold a. simpl. by rewrite lookup_insert_eq.
      * rewrite (hr_head _ _ _ Hr). by destruct L.
      * rewrite !span_app /=. unfold sizeof_kheap_node. lia.
      * apply Forall_app. split; [done|]. repeat constructor; simpl; unfold PAGING_PAGE_SIZE in *; lia.
      * pose proof (hr_compact _ _ _ Hr) as Hc. apply compact_join; [by apply compact_app_l in Hc|done|].
        intros x y Hx [= <-]. by apply (compact_mid _ _ _ Hc).
    + rewrite grow_last_used. rewrite /bind /read_node /reads /write_node /modify. cbn [nodes with_nodes with_paging].
      rewrite lookup_insert_ne; [|lia]. rewrite Hn. cbn [size isFree next nodes with_nodes].
      cbn [kheap_start kheap_end with_range with_nodes with_paging].
      rewrite (u64_small (amt - sizeof_kheap_node)) /sizeof_kheap_node; [|lia].
      rewrite (u64_small (kheap_end s + amt)); [|lia].
      eexists. split; [reflexivity|]. split; [done|]. split; [done|]. split; [done|].
      apply (rep_grow s b (L ++ [(bs, false)])); try done.
      * apply heap_seg_app. split.
        -- eapply heap_seg_frame; [exact Hs1|exact HsegL|]. intros x Hx. rewrite !lookup_insert_ne //; fold a; lia.
        -- fold a. simpl. unfold sizeof_kheap_node. rewrite lookup_insert_eq.
           assert (a + 24 + bs = kheap_end s) as -> by lia.
           split; [done|]. rewrite lookup_insert_ne; [|lia]. by rewrite lookup_insert_eq.
      * rewrite (hr_head _ _ _ Hr). by destruct L.
      * rewrite !span_app /=. unfold sizeof_kheap_node. lia.
      * apply Forall_app. split; [done|]. repeat constructor; simpl; unfold PAGING_PAGE_SIZE in *; lia.
      * pose proof (hr_compact _ _ _ Hr) as Hc. apply compact_join; [by apply compact_app_l in Hc|done|].
        intros x y Hx [= <-]. apply andb_false_r.
Qed.

(** *** Coalescing *)

Fixpoint merge_from (b : hblock) (L : list hblock) : list hblock :=
  match L with
  | [] => [b]
  | c :: L => if b.2 && c.2 then merge_from (b.1 + (c.1 + 24), b.2) L else b :: merge_from c L
  end.

Lemma merge_head b L : ∃ z L', merge_from b L = (z, b.2) :: L'.
Proof.
  revert b. induction L as [|c L IH]; intros b; simpl; [exists b.1, []; by destruct b|].
  destruct (b.2 && c.2); [apply (IH (b.1 + (c.1 + 24), b.2))|].
  exists b.1. eexists. by destruct b.
Qed.

Lemma merge_span b L : span (merge_from b L) = span (b :: L).
Proof.
  revert b. induction L as [|c L IH]; intros b; simpl; [done|].
  destruct (b.2 && c.2); simpl; rewrite IH /=; unfold sizeof_kheap_node; lia.
Qed.

Lemma merge_sizes b L : sizes_ok (b :: L) → sizes_ok (merge_from b L).
Proof.
  revert b. induction L as [|c L IH]; intros b Hs; simpl; [done|].
  apply Forall_cons in Hs as [Hb Hs]. apply Forall_cons in Hs as [Hc Hs].
  destruct (b.2 && c.2).
  - apply IH. constructor; [simpl; lia|done].
  - constructor; [done|]. apply IH. by constructor.
Qed.

Lemma merge_compact b L : compact (merge_from b L).
Proof.
  revert b. induction L as [|c L IH]; intros b; simpl; [done|].
  destruct (b.2 && c.2) eqn:E; [apply IH|].
  destruct (merge_head c L) as (z & L' & Em). pose proof (IH c) as Hc. rewrite Em in Hc |- *. done.
Qed.

Lemma merge_used a b L : used a (merge_from b L) = used a (b :: L).
Proof.
  revert a b. induction L as [|c L IH]; intros a b; simpl; [done|].
  destruct (b.2 && c.2) eqn:E.
  - apply andb_true_iff in E as [Eb Ec]. rewrite IH /= Eb Ec /=. f_equal. unfold sizeof_kheap_node. lia.
  - simpl. by rewrite IH.
Qed.

Lemma coalesce_loop_ok L b a fuel s :
  heap_seg (nodes s) a (b :: L) 0 → sizes_ok (b :: L) → 0 < a → a + span (b :: L) < 2 ^ 64 →
  (length L < fuel)%nat →
  ∃ ns', coalesce_loop fuel a s = Ok (tt, with_nodes ns' s) ∧ heap_seg ns' a (merge_from b L) 0 ∧
    ∀ x, x < a → ns' !! x = nodes s !! x.
Proof.
  revert b a fuel s. induction L as [|c L IH]; intros b a [|fuel] s Hseg Hs Ha Htop Hf; try (simpl in Hf; lia);
    cbn [coalesce_loop]; rewrite (proj2 (Z.eqb_neq a 0)); [|lia| |lia];
    destruct Hseg as [H1 H2]; rewrite /bind /read_node {1}/reads H1; cbn [next ptr].
  - rewrite Z.eqb_refl. exists (nodes s). split; [by destruct s|done].
  - apply Forall_cons in Hs as [Hb Hs]. apply Forall_cons in Hs as [Hc Hs]. pose proof (span_nonneg L Hs) as HspL.
    simpl in Htop. unfold sizeof_kheap_node in *.
    rewrite (proj2 (Z.eqb_neq _ 0)); [|lia]. destruct H2 as [H2 H3]. rewrite /reads H2. cbn [isFree size next merge_from].
    destruct (b.2 && c.2) eqn:E.
    + rewrite /write_node /modify. set a2 := a + 24 + b.1 + 24 + c.1 in H3 |- *.
      rewrite (u64_small (c.1 + 24)) ?(u64_small (b.1 + (c.1 + 24))); [|lia..].
      set s1 := with_nodes _ s.
      destruct (IH (b.1 + (c.1 + 24), b.2) a fuel s1) as (ns' & E1 & Hseg' & Hf').
      * simpl. unfold sizeof_kheap_node. rewrite lookup_insert_eq. assert (a + 24 + (b.1 + (c.1 + 24)) = a2) as -> by lia.
        split; [done|]. eapply heap_seg_frame; [exact Hs|exact H3|]. intros x Hx. rewrite lookup_insert_ne //. lia.
      * constructor; [simpl; lia|done].
      * done.
      * simpl. unfold sizeof_kheap_node. lia.
      * simpl in Hf. lia.
      * exists ns'. split; [done|]. split; [done|]. intros x Hx. rewrite (Hf' x Hx) /=.
        rewrite lookup_insert_ne //. lia.
    + destruct (IH c (a + 24 + b.1) fuel s) as (ns' & E1 & Hseg' & Hf').
      * split; done.
      * by constructor.
      * lia.
      * simpl. unfold sizeof_kheap_node. lia.
      * simpl in Hf. lia.
      * exists ns'. split; [done|]. split; [|intros x Hx; apply Hf'; lia].
        cbn [heap_seg]. rewrite Hf'; [|unfold sizeof_kheap_node; lia]. split; [|done].
        destruct (merge_head c L) as (z & L' & ->). done.
Qed.

(** *** Freeing *)

Definition free_list (L1 : list hblock) (bs : Z) (L2 : list hblock) : list hblock :=
  match L1 ++ (bs, true) :: L2 with [] => [] | b :: L => merge_from b L end.

Lemma free_list_used a L1 bs L2 :
  used a (free_list L1 bs L2) = used a L1 ++ used (a + span L1 + 24 + bs) L2.
Proof.
  rewrite /free_list. destruct (L1 ++ (bs, true) :: L2) as [|b L] eqn:E; [by destruct L1|].
  rewrite merge_used -E used_app. simpl. done.
Qed.

Lemma kfree_ok s L1 bs L2 :
  heap_rep s false (L1 ++ (bs, false) :: L2) →
  ∃ s', kfree (kheap_start s + span L1 + 24) s = Ok (tt, s') ∧ heap_rep s' false (free_list L1 bs L2) ∧
    s' = with_nodes (nodes s') s.
Proof.
  intros Hr. pose proof (rep_bounds s false L1 bs false L2 Hr) as Hb. cbv zeta in Hb.
  set a := kheap_start s + span L1 in Hb |- *.
  destruct Hb as (Ha0 & Ham & Hae & Htop & Hbs & Hbm & Hn & Hs1 & Hs2 & Hseg2).
  pose proof (hr_lock _ _ _ Hr) as Hl.
  set ns1 := <[a := mkNode bs true (ptr (a + 24 + bs) L2 0)]> (nodes s).
  set s1 := with_nodes ns1 (with_locked true s).
  assert (heap_seg ns1 (kheap_start s) (L1 ++ (bs, true) :: L2) 0) as Hseg1.
  { pose proof (hr_seg _ _ _ Hr) as Hseg. apply heap_seg_app in Hseg as [HsegL1 _].
    apply heap_seg_app. split; [|split].
    - eapply heap_seg_frame; [exact Hs1|exact HsegL1|]. intros x Hx. rewrite lookup_insert_ne //. lia.
    - fold a. simpl. unfold sizeof_kheap_node. by rewrite lookup_insert_eq.
    - fold a. simpl. unfold sizeof_kheap_node. eapply heap_seg_frame; [exact Hs2|exact Hseg2|].
      intros x Hx. rewrite lookup_insert_ne //. lia. }
  assert (sizes_ok (L1 ++ (bs, true) :: L2)) as Hsz by (apply Forall_app; split; [done|by constructor]).
  assert (span (L1 ++ (bs, true) :: L2) = span (L1 ++ (bs, false) :: L2)) as Espan by by rewrite !span_app.
  pose proof (hr_end _ _ _ Hr) as Hend.
  destruct (L1 ++ (bs, true) :: L2) as [|b L] eqn:EL; [by destruct L1|].
  destruct (coalesce_loop_ok L b (kheap_start s) (list_fuel s1) s1) as (ns' & Ec & Hseg' & _).
  { exact Hseg1. } { done. } { apply Hr. } { rewrite Espan. pose proof (hr_top _ _ _ Hr). lia. }
  { pose proof (nodes_size _ _ _ _ Hsz Hseg1) as Hsize. rewrite /list_fuel. simpl in Hsize |- *. lia. }
  exists (with_nodes ns' s). split.
  - rewrite /kfree (proj2 (Z.eqb_neq _ 0)); [|lia]. rewrite {1}/bind /heap_acquire Hl.
    rewrite /sizeof_kheap_node. replace (a + 24 - 24) with a by lia. rewrite (u64_small a); [|lia].
    rewrite {1}/bind /read_node /reads. cbn [nodes with_locked]. rewrite Hn. cbn [isFree size next].
    rewrite {1}/bind /write_node /modify. cbn [nodes with_locked]. fold ns1. fold s1.
    rewrite /kheap_coalesce {1}/bind {1}/bind /gets {1}/bind.
    change (kheap_head s1) with (kheap_head s).
    assert (kheap_head s = kheap_start s) as -> by (rewrite (hr_head _ _ _ Hr); by destruct L1).
    rewrite Ec /heap_release /modify. rewrite /s1 /with_nodes /with_locked /=. by rewrite Hl.
  - split; [|done]. rewrite /free_list EL. split; simpl.
    + done.
    + destruct (merge_head b L) as (z & L' & ->). simpl. rewrite (hr_head _ _ _ Hr). by destruct L1.
    + by rewrite merge_span Espan.
    + apply Hr.
    + apply Hr.
    + by apply merge_sizes.
    + apply merge_compact.
    + done.
Qed.

(** Freeing a free block changes nothing. *)
Lemma kfree_double s L1 bs L2 :
  heap_rep s false (L1 ++ (bs, true) :: L2) → kfree (kheap_start s + span L1 + 24) s = Ok (tt, s).
Proof.
  intros Hr. pose proof (rep_bounds s false L1 bs true L2 Hr) as Hb. cbv zeta in Hb.
  set a := kheap_start s + span L1 in Hb |- *.
  destruct Hb as (Ha0 & Ham & Hae & Htop & Hbs & Hbm & Hn & _). pose proof (hr_lock _ _ _ Hr) as Hl.
  rewrite /kfree (proj2 (Z.eqb_neq _ 0)); [|lia]. rewrite {1}/bind /heap_acquire Hl.
  rewrite /sizeof_kheap_node. replace (a + 24 - 24) with a by lia. rewrite (u64_small a); [|lia].
  rewrite {1}/bind /read_node /reads. cbn [nodes with_locked]. rewrite Hn. cbn [isFree].
  rewrite /heap_release /modify /with_locked /=. rewrite -Hl. by destruct s.
Qed.
End heap.
