(* ===== verification/KheapMem.v ===== *)
(** * The kernel heap: the memory behind it

    What [kheap_extend] does to the page tables: every page of the heap is mapped
    writable to a frame of its own, and no other translation changes. *)

From stdpp Require Import base gmap list numbers functions.
From S2P Require Import Prelude Hhdm Pmm FrameAlloc Paging PagingSpec PagingInit Kheap KheapSpec.

#[local] Ltac Zify.zify_post_hook ::= Z.to_euclidean_division_equations.

Definition HEAP_FLAGS : Z := Z.lor PTE_FLAG_RW PTE_FLAG_GLOBAL.

(** The kernel's upper half, where the heap is. *)
Definition kernel_half (lo hi : Z) : Prop := 2 ^ 64 - 2 ^ 47 ≤ lo ∧ hi < 2 ^ 64.

Section mem.
Context {S : Type} `{FrameAllocSpec S}.
Implicit Types (P : paging_state S) (T : gmap (list Z) Z) (A : gset Z) (fr : gmap Z Z).

(** The pages from [lo] to [hi] are mapped, each to the frame [fr] gives for its page
    number; different pages have different frames, all of them allocated. *)
Record backed P T A fr (lo hi : Z) : Prop := {
  bk_view : ∀ v, lo ≤ v < hi → ∃ f, fr !! (v / PAGING_PAGE_SIZE) = Some f ∧
    view (mem P) T v = Some (Page4K (map_entry f HEAP_FLAGS false));
  bk_owned : ∀ k f, fr !! k = Some f → f ∈ A;
  bk_range : ∀ k f, fr !! k = Some f → lo ≤ k * PAGING_PAGE_SIZE < hi;
  bk_inj : ∀ k1 k2 f, fr !! k1 = Some f → fr !! k2 = Some f → k1 = k2;
}.

(** The heap may grow up to [lim]: nothing there is mapped as a huge page. *)
Definition growable P T (root v lim : Z) : Prop :=
  hhdm_physToVirt (hhdm_offset P) root ≠ 0 ∧ kernel_half v lim ∧
  ∀ w e, v ≤ w < lim → view (mem P) T w ≠ Some (Page2M e).

(** More memory is in use: [T] are the page tables, [A] all frames taken from the allocator
    and [fr] the frames of the heap. What is new is a table or a page of the heap, not
    both, and nothing that was in use before. *)
Record grows T A fr T' A' fr' : Prop := {
  gw_tables : T ⊆ T';
  gw_owned : A ⊆ A';
  gw_frames : fr ⊆ fr';
  gw_new : ∀ f, f ∈ A' → f ∈ A ∨ (∃ p, T' !! p = Some f) ∨ (∃ k, fr' !! k = Some f);
  gw_fresh : ∀ p f, T' !! p = Some f → f ∈ A → T !! p = Some f;
  gw_heap : ∀ k f, fr' !! k = Some f → f ∈ A → fr !! k = Some f;
  gw_apart : ∀ k p f, fr' !! k = Some f → T' !! p = Some f → f ∈ A;
}.

Lemma grows_refl T A fr : (∀ p f, T !! p = Some f → f ∈ A) → grows T A fr T A fr.
Proof. intros HT. split; try done; [by left|]. intros k p f _. apply HT. Qed.

Lemma grows_trans T A fr T1 A1 fr1 T2 A2 fr2 :
  grows T A fr T1 A1 fr1 → grows T1 A1 fr1 T2 A2 fr2 → grows T A fr T2 A2 fr2.
Proof.
  intros [H1 H2 H3 H4 H5 H6 H7] [I1 I2 I3 I4 I5 I6 I7]. split; [by etrans|by etrans|by etrans| | | |].
  - intros f [Hf|[Hf|Hf]]%I4; [|by right; left|by right; right].
    destruct (H4 f Hf) as [?|[[p Hp]|[k Hk]]]; [by left|right; left|right; right].
    + exists p. by eapply lookup_weaken.
    + exists k. by eapply lookup_weaken.
  - intros p f Hp Hf. apply H5; [|done]. apply I5; [done|by apply H2].
  - intros k f Hk Hf. apply H6; [|done]. apply I6; [done|by apply H2].
  - intros k p f Hk Hp. pose proof (I7 k p f Hk Hp) as Hf1. by apply (H7 k p); [apply I6|apply I5].
Qed.

(** Tables alone. *)
Lemma grows_tables T A fr T' A' :
  new_tables T A T' A' → (∀ k f, fr !! k = Some f → f ∈ A) → grows T A fr T' A' fr.
Proof.
  intros [HT HA Hnew Hfresh] Hfr. split; try done.
  - intros f [?|?]%Hnew; [by left|by right; left].
  - intros k p f Hk _. by apply (Hfr k).
Qed.

Definition new_page (root v : Z) : M (paging_state S) bool :=
  newPage <- on_frames (fa_alloc PAGING_PAGE_SIZE);;
  if newPage =? 0 then ret false
  else
    off <- gets hhdm_offset;;
    paging_map_page (hhdm_physToVirt off root) v newPage HEAP_FLAGS false;;;
    ret true.

Lemma new_page_wp P T A n fr root lo v lim :
  pt_ok P root T A n → (4 ≤ n)%nat → v mod PAGING_PAGE_SIZE = 0 → lo mod PAGING_PAGE_SIZE = 0 →
  lo ≤ v → v + PAGING_PAGE_SIZE ≤ lim → kernel_half lo lim →
  backed P T A fr lo v → growable P T root v lim →
  ∃ P' T' A' n' f, new_page root v P = Ok (true, P') ∧ pt_ok P' root T' A' n' ∧ (n ≤ n' + 4)%nat ∧
    grows T A fr T' A' (<[v / PAGING_PAGE_SIZE := f]> fr) ∧ regs P' = regs P ∧
    backed P' T' A' (<[v / PAGING_PAGE_SIZE := f]> fr) lo (v + PAGING_PAGE_SIZE) ∧
    growable P' T' root (v + PAGING_PAGE_SIZE) lim ∧
    (∀ w, canonical_addr w → ¬ v ≤ w < v + PAGING_PAGE_SIZE → view (mem P') T' w = view (mem P) T w).
Proof.
  intros Hok Hn Hv Hlo Hlov Hlim Hhalf Hbk (Hroot & [Hg1 Hg2] & Hhuge).
  destruct n as [|n]; [lia|]. unfold PAGING_PAGE_SIZE, kernel_half in *.
  pose proof (owned_alloc_room (frames P) A n (ok_owned _ _ _ _ _ Hok)) as Ha.
  change PMM_PAGE_SIZE with 4096 in Ha.
  apply wp_run in Ha as (r & fs & Ea & Htop & Hr & Hfr & Ho).
  set P1 := with_frames fs P.
  assert (pt_ok P1 root T ({[r]} ∪ A) n) as Hok1.
  { split; [apply Hok|done|]. intros p f Hp. apply elem_of_union_r. by eapply ok_tables. }
  assert (canonical_addr v) as Hcv by (rewrite /canonical_addr; lia).
  assert (valid_target P1 root v) as Htgt by (split; [done|split; [lia|done]]).
  assert (can_map T (view (mem P1) T) false v) as Hcan by (intros e; apply Hhuge; lia).
  pose proof (map_page_wp root T _ n P1 v r HEAP_FLAGS false Hok1 Htgt Hcan ltac:(lia)) as Hm.
  apply wp_run in Hm as ([] & P' & Em & T' & A' & n' & B).
  assert (∀ w, canonical_addr w → view (mem P') T' w =
    if decide (w / 4096 = v / 4096) then Some (Page4K (map_entry r HEAP_FLAGS false)) else view (mem P) T w) as Hview.
  { intros w Hw. rewrite (bc_view _ _ _ _ _ _ _ _ _ _ _ _ B) /upd.
    pose proof (same_leaf_page false w v Hw Hcv) as Hsl. rewrite /step_size /PAGING_PAGE_SIZE in Hsl.
    repeat case_decide; try tauto; done. }
  exists P', T', A', n', r. split.
  - rewrite /new_page {1}/bind /on_frames Ea. rewrite (proj2 (Z.eqb_neq r 0)); [|destruct Hfr; lia].
    rewrite /bind /gets. change (hhdm_offset (with_frames fs P)) with (hhdm_offset P1). by rewrite Em.
  - split; [apply B|]. split; [pose proof (bc_room _ _ _ _ _ _ _ _ _ _ _ _ B); lia|].
    split.
    { pose proof B as [_ BT BA _ _ _ _ _ Bn _ Bf]. split; [done|set_solver| | | | |].
      - apply insert_subseteq. destruct (fr !! (v / PAGING_PAGE_SIZE)) as [f'|] eqn:Ef; [|done].
        pose proof (bk_range _ _ _ _ _ _ Hbk _ _ Ef) as Hrg. unfold PAGING_PAGE_SIZE in Hrg. lia.
      - intros f [[->%elem_of_singleton|Hf]%elem_of_union|Hf]%Bn; [|by left|by right; left].
        right; right. exists (v / PAGING_PAGE_SIZE). apply lookup_insert_eq.
      - intros p f Hp Hf. apply Bf; [done|set_solver].
      - intros k f Hk Hf. apply lookup_insert_Some in Hk as [[_ <-]|[_ Hk]]; [by apply Hr in Hf|done].
      - intros k p f Hk Hp. apply lookup_insert_Some in Hk as [[_ <-]|[_ Hk]]; [|by apply (bk_owned _ _ _ _ _ _ Hbk k)].
        apply Bf in Hp; [|set_solver]. by apply (ok_tables _ _ _ _ _ Hok p). }
    split.
    { rewrite (bc_regs _ _ _ _ _ _ _ _ _ _ _ _ B) /regs /P1 /= Htop. done. }
    split; [|split; [split; [|split]|]].
    + destruct Hbk as [Hb1 Hb2 Hb3 Hb4]. split.
      * intros w Hw. rewrite Hview; [|rewrite /canonical_addr; lia]. case_decide as Ew.
        -- exists r. by rewrite Ew lookup_insert_eq.
        -- rewrite lookup_insert_ne //. apply Hb1. lia.
      * intros k f Hk. apply (bc_frames _ _ _ _ _ _ _ _ _ _ _ _ B).
        apply lookup_insert_Some in Hk as [[<- <-]|[_ Hk]]; [set_solver|].
        apply elem_of_union_r. by apply (Hb2 k).
      * intros k f Hk. apply lookup_insert_Some in Hk as [[<- <-]|[_ Hk]]; [unfold PAGING_PAGE_SIZE; lia|].
        pose proof (Hb3 k f Hk). unfold PAGING_PAGE_SIZE in *. lia.
      * intros k1 k2 f H1 H2. apply lookup_insert_Some in H1 as [[<- <-]|[Hne1 H1]];
          apply lookup_insert_Some in H2 as [[<- E2]|[Hne2 H2]]; try done.
        -- by apply Hb2 in H2.
        -- subst f. by apply Hb2 in H1.
        -- by apply (Hb4 k1 k2 f).
    + pose proof (bc_regs _ _ _ _ _ _ _ _ _ _ _ _ B) as Er. injection Er as -> _ _ _ _ _. done.
    + unfold kernel_half. lia.
    + intros w e Hw. rewrite Hview; [|rewrite /canonical_addr; lia]. case_decide; [done|]. apply Hhuge. lia.
    + intros w Hw Hnw. rewrite Hview //. rewrite decide_False //. lia.
Qed.

(** The loop of [kheap_extend], in terms of the pages it maps. *)
Lemma extend_loop_step fuel root v lim (s : kheap_state S) :
  v < lim → v + PAGING_PAGE_SIZE < 2 ^ 64 → 0 ≤ v →
  extend_loop (Datatypes.S fuel) root v lim s =
    match new_page root v (paging s) with
    | Ok (true, p) => extend_loop fuel root (v + PAGING_PAGE_SIZE) lim (with_paging p s)
    | Ok (false, p) => Ok (false, with_paging p s)
    | Err e => Err e
    end.
Proof.
  intros Hlt Hv Hv0. cbn [extend_loop]. rewrite (proj2 (Z.ltb_lt _ _) Hlt).
  rewrite /new_page {1}/bind {1}/on_paging /bind.
  destruct (on_frames _ (paging s)) as [[np p1]|]; [|done]. destruct (np =? 0); [done|].
  rewrite /on_paging. cbn [paging with_paging]. destruct (gets hhdm_offset p1) as [[off p2]|]; [|done].
  fold HEAP_FLAGS. destruct (paging_map_page _ _ _ _ _ _) as [[[] p3]|]; [|done].
  rewrite u64_small; [done|]. unfold PAGING_PAGE_SIZE in *. lia.
Qed.

Lemma extend_loop_wp k (s : kheap_state S) T A n fr root lo v lim lim' :
  pt_ok (paging s) root T A n → (4 * k ≤ n)%nat → v mod PAGING_PAGE_SIZE = 0 → lo mod PAGING_PAGE_SIZE = 0 →
  lo ≤ v → lim = v + Z.of_nat k * PAGING_PAGE_SIZE → lim ≤ lim' → kernel_half lo lim' →
  backed (paging s) T A fr lo v → growable (paging s) T root v lim' →
  ∃ P' T' A' n' fr', extend_loop (1 + k) root v lim s = Ok (true, with_paging P' s) ∧
    pt_ok P' root T' A' n' ∧ (n ≤ n' + 4 * k)%nat ∧ grows T A fr T' A' fr' ∧ regs P' = regs (paging s) ∧
    backed P' T' A' fr' lo lim ∧ growable P' T' root lim lim' ∧
    (∀ w, canonical_addr w → ¬ v ≤ w < lim → view (mem P') T' w = view (mem (paging s)) T w).
Proof.
  revert s T A n fr v. induction k as [|k IH]; intros s T A n fr v Hok Hn Hv Hlo Hlov El Hlim Hhalf Hbk Hg.
  - replace (Z.of_nat 0 * PAGING_PAGE_SIZE) with 0 in El by lia. rewrite Z.add_0_r in El. subst lim.
    exists (paging s), T, A, n, fr. cbn [extend_loop Nat.add]. rewrite Z.ltb_irrefl.
    split; [by destruct s|]. split; [done|]. split; [lia|]. split; [by eapply grows_refl, ok_tables|]. done.
  - unfold PAGING_PAGE_SIZE, kernel_half in *.
    destruct (new_page_wp (paging s) T A n fr root lo v lim') as
      (P1 & T1 & A1 & n1 & f & E1 & Hok1 & Hn1 & HA1 & Er1 & Hbk1 & Hg1 & Hv1);
      [done|lia|done|done|done|unfold PAGING_PAGE_SIZE; lia|done|done|done|]. unfold PAGING_PAGE_SIZE in *.
    destruct (IH (with_paging P1 s) T1 A1 n1 (<[v / 4096 := f]> fr) (v + 4096)) as
      (P2 & T2 & A2 & n2 & fr2 & E2 & Hok2 & Hn2 & HA2 & Er2 & Hbk2 & Hg2 & Hv2);
      [done|lia|lia|done|lia|lia|done|done|done|done|].
    exists P2, T2, A2, n2, fr2. split.
    { rewrite extend_loop_step; [|lia|unfold PAGING_PAGE_SIZE; lia|lia]. rewrite E1.
      unfold PAGING_PAGE_SIZE. exact E2. }
    split; [done|]. split; [lia|]. split; [by eapply grows_trans|]. split; [by rewrite Er2|]. split; [done|].
    split; [done|].
    intros w Hw Hnw. rewrite Hv2; [|done|lia]. apply Hv1; [done|lia].
Qed.
End mem.
