(* ===== verification/KheapThms.v ===== *)
(** * The kernel heap: theorems

    What [kmalloc], [kfree] and [kheap_init] promise their callers: disjoint blocks backed
    by memory of their own, for every sequence of calls. *)

From stdpp Require Import base gmap list numbers functions.
From S2P Require Import Prelude Hhdm Pmm PmmSpec FrameAlloc Paging PagingSpec PagingInit PagingThms.
From S2P Require Import Kheap KheapSpec KheapMem.

#[local] Ltac Zify.zify_post_hook ::= Z.to_euclidean_division_equations.

(** ** Blocks in use *)

Lemma used_taken a bs sz :
  used a (taken bs sz) = [(a, if 40 <=? bs - sz then sz else bs)].
Proof. rewrite /taken. by destruct (40 <=? _). Qed.

Lemma used_after_take a L1 bs L2 sz :
  used a (L1 ++ taken bs sz ++ L2) ≡ₚ
    (a + span L1, if 40 <=? bs - sz then sz else bs) :: used a (L1 ++ (bs, true) :: L2).
Proof.
  rewrite !used_app used_taken span_taken /=. unfold sizeof_kheap_node.
  replace (a + span L1 + (24 + bs)) with (a + span L1 + 24 + bs) by lia.
  by rewrite -Permutation_middle.
Qed.

Lemma used_grow a L amt : used a (grow_list amt L) = used a L.
Proof.
  destruct L as [|[bs fr] L _] using rev_ind; [done|]. destruct fr.
  - rewrite grow_last_free !used_app. done.
  - rewrite grow_last_used (app_assoc L [(bs, false)] [(amt - 24, true)]) used_app /=. by rewrite app_nil_r.
Qed.

Lemma used_split a L x z :
  (x, z) ∈ used a L → ∃ L1 L2, L = L1 ++ (z, false) :: L2 ∧ x = a + span L1.
Proof.
  revert a. induction L as [|[bs fr] L IH]; intros a; simpl; [by intros ?%not_elem_of_nil|].
  rewrite elem_of_app. intros [Hin|Hin].
  - destruct fr; [by apply not_elem_of_nil in Hin|]. apply list_elem_of_singleton in Hin as [= -> ->].
    exists [], L. split; [done|]. simpl. lia.
  - destruct (IH _ Hin) as (L1 & L2 & -> & ->). exists ((bs, fr) :: L1), L2. split; [done|].
    simpl. unfold sizeof_kheap_node. lia.
Qed.

(** Blocks in use do not overlap, headers included, and lie in the heap. *)
Lemma used_disjoint a L :
  sizes_ok L → ∀ i j x1 z1 x2 z2, (i < j)%nat → used a L !! i = Some (x1, z1) →
  used a L !! j = Some (x2, z2) → x1 + 24 + z1 ≤ x2.
Proof.
  intros Hs. assert (∀ a L, sizes_ok L → ∀ j x z, used a L !! j = Some (x, z) → a ≤ x) as Hge.
  { clear. intros a L Hs. revert a. induction Hs as [|b L Hb Hs IH]; intros a j x z Hj; [done|].
    simpl in Hj. unfold sizeof_kheap_node in *. destruct b.2.
    - apply IH in Hj. lia.
    - destruct j; [by injection Hj as <- _|]. apply (IH _ j) in Hj. lia. }
  revert a. induction Hs as [|b L Hb Hs IH]; intros a i j x1 z1 x2 z2 Hij Hi Hj; [done|].
  simpl in Hi, Hj. unfold sizeof_kheap_node in *. destruct b.2; [by apply (IH (a + 24 + b.1) i j x1 z1 x2 z2)|].
  destruct j as [|j]; [lia|]. destruct i as [|i].
  - injection Hi as <- <-. apply (Hge _ L Hs) in Hj. lia.
  - by apply (IH (a + 24 + b.1) i j x1 z1 x2 z2 ltac:(lia)).
Qed.

Section client.
Context {S : Type} `{FrameAllocSpec S}.
Implicit Types s : kheap_state S.

(** ** Allocation, whenever it returns *)

Lemma kmalloc_found s L sz fuel L1 b L2 :
  heap_rep s true L → 0 ≤ sz → sz mod 8 = 0 → L = L1 ++ b :: L2 → fits sz b = true →
  find_fit (list_fuel s) (ptr (kheap_start s) L 0) sz s = Ok (Some (kheap_start s + span L1), s) →
  ∃ ns', let s' := with_locked false (with_nodes ns' s) in
    kmalloc_loop (1 + fuel) sz s = Ok (kheap_start s + span L1 + 24, s') ∧
    heap_rep s' false (L1 ++ taken b.1 sz ++ L2) ∧ b = (b.1, true) ∧ sz ≤ b.1.
Proof.
  intros Hr Hsz Hmod EL Hfit E. destruct b as [bs fr]. rewrite /fits /= in Hfit.
  apply andb_true_iff in Hfit as [-> Hle%Z.leb_le]. subst L.
  destruct (take_block_ok s true L1 bs L2 sz Hr ltac:(lia) Hmod) as (ns' & Et & Hr').
  exists ns'. split; [|done]. cbn [Nat.add kmalloc_loop].
  rewrite {1}/bind /gets {1}/bind (hr_head _ _ _ Hr) {1}/bind E {1}/bind Et. done.
Qed.

Lemma kheap_extend_returns s L amt r s' :
  heap_rep s true L → 24 ≤ amt → amt mod PAGING_PAGE_SIZE = 0 → kheap_end s + amt < 2 ^ 64 →
  kheap_extend amt s = Ok (r, s') →
  kheap_start s' = kheap_start s ∧
  if r then kheap_end s' = kheap_end s + amt ∧ heap_rep s' true (grow_list amt L)
  else s' = with_paging (paging s') s.
Proof.
  intros Hr Hamt Hmod Htop E.
  assert (u64 (amt / PAGING_PAGE_SIZE * PAGING_PAGE_SIZE) = amt) as Epages.
  { pose proof (span_nonneg L (hr_sizes _ _ _ Hr)). pose proof (hr_end _ _ _ Hr). pose proof (hr_start _ _ _ Hr).
    unfold PAGING_PAGE_SIZE in *. rewrite u64_small; lia. }
  assert (0 ≤ kheap_end s) as He0.
  { pose proof (span_nonneg L (hr_sizes _ _ _ Hr)). pose proof (hr_end _ _ _ Hr). pose proof (hr_start _ _ _ Hr). lia. }
  destruct (extend_loop (1 + Z.to_nat (amt / PAGING_PAGE_SIZE)) (kernel_pml4_phys (paging s)) (kheap_end s)
    (kheap_end s + amt) s) as [[ok s1]|e] eqn:El.
  - pose proof (extend_frame _ _ _ _ _ _ _ El) as Es1. destruct ok.
    + rewrite Es1 in El. destruct (kheap_extend_ok s true L amt (paging s1) Hr Hamt Hmod Htop El)
        as (s2 & E2 & _ & Est & Een & Hr2). rewrite E2 in E. by injection E as <- <-.
    + rewrite /kheap_extend Hmod Z.eqb_refl Z.add_0_r Epages in E.
      rewrite {1}/bind {1}/on_paging /paging_getKernelRoot /gets in E.
      assert (with_paging (paging s) s = s) as Ew by by destruct s. rewrite Ew in E.
      rewrite {1}/bind {1}/bind (u64_small (kheap_end s + amt)) in E; [|lia]. rewrite El in E.
      injection E as <- <-. rewrite Es1. by destruct s.
  - rewrite /kheap_extend Hmod Z.eqb_refl Z.add_0_r Epages in E.
    rewrite {1}/bind {1}/on_paging /paging_getKernelRoot /gets in E.
    assert (with_paging (paging s) s = s) as Ew by by destruct s. rewrite Ew in E.
    rewrite {1}/bind {1}/bind (u64_small (kheap_end s + amt)) in E; [|lia]. by rewrite El in E.
Qed.

(** What a call of [kmalloc] may do to the blocks. *)
Definition alloc_outcome s L sz p s' : Prop :=
  kheap_start s' = kheap_start s ∧ ∃ L', heap_rep s' false L' ∧
    ((p = 0 ∧ used (kheap_start s) L' = used (kheap_start s) L) ∨
     ∃ a bs, p = a + 24 ∧ sz ≤ bs ∧ used (kheap_start s) L' ≡ₚ (a, bs) :: used (kheap_start s) L).

Lemma kmalloc_loop_returns fuel s L sz p s' :
  heap_rep s true L → 0 ≤ sz → sz mod 8 = 0 →
  kheap_end s + Z.of_nat fuel * KHEAP_EXTENDING_AMOUNT < 2 ^ 64 →
  kmalloc_loop fuel sz s = Ok (p, s') → alloc_outcome s L sz p s'.
Proof.
  unfold KHEAP_EXTENDING_AMOUNT. revert s L. induction fuel as [|fuel IH]; intros s L Hr Hsz Hmod Htop E; [done|].
  destruct (find_fit_ok s sz L (kheap_start s) (list_fuel s)) as [(L1 & b & L2 & EL & Hfit & Ef)|[_ Ef]];
    [apply Hr|apply Hr|apply Hr|by apply (rep_fuel s true)| |].
  - destruct (kmalloc_found s L sz fuel L1 b L2 Hr Hsz Hmod EL Hfit Ef) as (ns' & Ek & Hr' & Eb & Hle).
    cbn [Nat.add] in Ek. rewrite Ek in E. injection E as <- <-. split; [done|].
    eexists. split; [exact Hr'|]. right.
    exists (kheap_start s + span L1), (if 40 <=? b.1 - sz then sz else b.1). split; [done|]. split.
    + destruct (40 <=? b.1 - sz); lia.
    + rewrite EL. pose proof (used_after_take (kheap_start s) L1 b.1 L2 sz) as Hu. by rewrite -Eb in Hu.
  - cbn [kmalloc_loop] in E. rewrite {1}/bind /gets {1}/bind (hr_head _ _ _ Hr) {1}/bind Ef {1}/bind in E.
    destruct (kheap_extend KHEAP_EXTENDING_AMOUNT s) as [[r s1]|] eqn:Ee; [|done].
    apply (kheap_extend_returns s L) in Ee as [Est Hext];
      [|done|done|done|unfold KHEAP_EXTENDING_AMOUNT; lia].
    destruct r; cbn [negb] in E.
    + destruct Hext as [Een Hr1]. unfold KHEAP_EXTENDING_AMOUNT in Een, Hr1.
      destruct (IH s1 _ Hr1 Hsz Hmod ltac:(lia) E) as [Est' (L' & Hr' & Hout)].
      rewrite Est used_grow in Hout. split; [by rewrite Est'|]. by exists L'.
    + rewrite /bind /heap_release /modify in E. injection E as <- <-. split; [by rewrite Hext|].
      exists L. rewrite Hext. split; [destruct Hr; by split|by left].
Qed.

Lemma round_size_ok sz : 0 ≤ sz ≤ 2 ^ 64 - 16 → sz ≤ round_size sz < sz + 16 ∧ round_size sz mod 8 = 0.
Proof.
  intros Hsz. rewrite /round_size /KHEAP_BLOCK_SIZE. destruct (Z.eqb_spec (sz mod 16) 0); cbn [negb]; [lia|].
  rewrite u64_small; lia.
Qed.

Lemma round_size_mod sz : 0 ≤ sz < 2 ^ 64 → 0 ≤ round_size sz ∧ round_size sz mod 8 = 0.
Proof.
  intros Hsz. rewrite /round_size /KHEAP_BLOCK_SIZE. destruct (Z.eqb_spec (sz mod 16) 0); cbn [negb]; [lia|].
  rewrite /u64. lia.
Qed.

(** The heap stays below the end of the address space however often the call extends it. *)
Definition room_for s sz : Prop :=
  kheap_end s + Z.of_nat (kmalloc_fuel (round_size sz)) * KHEAP_EXTENDING_AMOUNT < 2 ^ 64.

Lemma heap_acquire_ok s L :
  heap_rep s false L → heap_acquire s = Ok (tt, with_locked true s) ∧ heap_rep (with_locked true s) true L.
Proof. intros Hr. rewrite /heap_acquire (hr_lock _ _ _ Hr). split; [done|]. destruct Hr. by split. Qed.

Lemma kmalloc_returns s L sz p s' :
  heap_rep s false L → 0 ≤ sz < 2 ^ 64 → room_for s sz → kmalloc sz s = Ok (p, s') →
  alloc_outcome s L (round_size sz) p s'.
Proof.
  intros Hr Hsz Hroom E. destruct (round_size_mod sz Hsz) as [H1 H2].
  destruct (heap_acquire_ok s L Hr) as [Ea Hr1]. rewrite /kmalloc /bind Ea in E.
  by apply (kmalloc_loop_returns _ (with_locked true s) L) in E.
Qed.

(** ** Allocation with memory to spare *)

(** The heap's pages, and where it may still grow. *)
Record heap_mem s T A n fr (lim : Z) : Prop := {
  hm_tables : pt_ok (paging s) (kernel_pml4_phys (paging s)) T A n;
  hm_backed : backed (paging s) T A fr (kheap_start s) (kheap_end s);
  hm_grow : growable (paging s) T (kernel_pml4_phys (paging s)) (kheap_end s) lim;
  hm_half : kernel_half (kheap_start s) lim;
}.

(** Frames that growing by [amt] bytes may take: one per page and up to three tables. *)
Definition frames_for (amt : Z) : nat := 4 * Z.to_nat (amt / PAGING_PAGE_SIZE).

Lemma kheap_extend_total s b L T A n fr lim amt :
  heap_rep s b L → heap_mem s T A n fr lim → 24 ≤ amt → amt mod PAGING_PAGE_SIZE = 0 →
  kheap_end s + amt ≤ lim → (frames_for amt ≤ n)%nat →
  ∃ s' T' A' n' fr', kheap_extend amt s = Ok (true, s') ∧ heap_rep s' b (grow_list amt L) ∧
    heap_mem s' T' A' n' fr' lim ∧ (n ≤ n' + frames_for amt)%nat ∧ grows T A fr T' A' fr' ∧
    kheap_start s' = kheap_start s ∧ kheap_end s' = kheap_end s + amt ∧ regs (paging s') = regs (paging s) ∧
    (∀ w, canonical_addr w → ¬ kheap_end s ≤ w < kheap_end s + amt →
       view (mem (paging s')) T' w = view (mem (paging s)) T w).
Proof.
  intros Hr [Hok Hbk Hg Hh] Hamt Hmod Hlim Hn. pose proof Hh as [Hh1 Hh2].
  destruct (hr_start _ _ _ Hr) as [Hs0 Hsm]. destruct (hr_top _ _ _ Hr) as [Ht Htm].
  pose proof (span_nonneg L (hr_sizes _ _ _ Hr)) as Hsp. pose proof (hr_end _ _ _ Hr) as Hend.
  set np := Z.to_nat (amt / PAGING_PAGE_SIZE).
  assert (kheap_end s + amt = kheap_end s + Z.of_nat np * PAGING_PAGE_SIZE) as Elim
    by (rewrite /np; unfold PAGING_PAGE_SIZE in *; lia).
  destruct (extend_loop_wp np s T A n fr (kernel_pml4_phys (paging s)) (kheap_start s) (kheap_end s)
    (kheap_end s + amt) lim) as (P' & T' & A' & n' & fr' & E & Hok' & Hn' & HA & Er & Hbk' & Hg' & Hv);
    [done|done|done|done|lia|done|done|done|done|done|].
  destruct (kheap_extend_ok s b L amt P' Hr Hamt Hmod ltac:(lia) E) as (s' & Es & Ep & Est & Een & Hr').
  exists s', T', A', n', fr'. split; [done|]. split; [done|].
  assert (kernel_pml4_phys P' = kernel_pml4_phys (paging s)) as Ek by by injection Er.
  split; [split; rewrite ?Ep ?Ek ?Est ?Een //|]. split; [done|]. split; [done|].
  split; [done|]. split; [done|]. by rewrite Ep.
Qed.

(** The size of the free block at the end of the heap. *)
Definition tail_room (L : list hblock) : Z :=
  match last L with Some (bs, true) => bs | _ => -24 end.

Lemma tail_room_grow L amt : tail_room (grow_list amt L) = tail_room L + amt.
Proof.
  destruct L as [|[bs fr] L _] using rev_ind; [rewrite /tail_room /=; lia|]. destruct fr.
  - rewrite grow_last_free /tail_room !last_snoc. done.
  - rewrite grow_last_used (app_assoc L [(bs, false)]) /tail_room !last_snoc. lia.
Qed.

Lemma tail_room_fits L sz :
  0 ≤ sz → sz ≤ tail_room L → ¬ Forall (λ b, fits sz b = false) L.
Proof.
  intros H1 H2 Hno. rewrite /tail_room in H2. destruct (last L) as [[bs []]|] eqn:E; [|lia..].
  apply last_Some_elem_of in E. rewrite Forall_forall in Hno. apply Hno in E.
  rewrite /fits /= in E. apply Z.leb_gt in E. lia.
Qed.

(** The block [kmalloc] hands out, in the heap it leaves behind. *)
Record handed_out s L sz p s' L' : Prop := {
  ho_rep : heap_rep s' false L';
  ho_start : kheap_start s' = kheap_start s;
  ho_used : ∃ bs, sz ≤ bs ∧ used (kheap_start s) L' ≡ₚ (p - 24, bs) :: used (kheap_start s) L;
}.

(** The heap has grown by at most [k] megabytes; nothing outside the new part moved. *)
Record extended s (T : gmap (list Z) Z) (A : gset Z) (n : nat) (fr : gmap Z Z) (k : nat)
    s' (T' : gmap (list Z) Z) (A' : gset Z) (n' : nat) (fr' : gmap Z Z) : Prop := {
  ex_room : (n ≤ n' + k * frames_for KHEAP_EXTENDING_AMOUNT)%nat;
  ex_grows : grows T A fr T' A' fr';
  ex_regs : regs (paging s') = regs (paging s);
  ex_end : kheap_end s ≤ kheap_end s' ≤ kheap_end s + Z.of_nat k * KHEAP_EXTENDING_AMOUNT;
  ex_view : ∀ w, canonical_addr w → ¬ kheap_end s ≤ w < kheap_end s' →
    view (mem (paging s')) T' w = view (mem (paging s)) T w;
}.

Lemma ex_owned s T A n fr k s' T' A' n' fr' : extended s T A n fr k s' T' A' n' fr' → A ⊆ A'.
Proof. intros Hex. apply Hex. Qed.
Lemma ex_frames s T A n fr k s' T' A' n' fr' : extended s T A n fr k s' T' A' n' fr' → fr ⊆ fr'.
Proof. intros Hex. apply Hex. Qed.

Lemma extended_same s T A n fr k s' :
  (∀ p f, T !! p = Some f → f ∈ A) →
  paging s' = paging s → kheap_end s' = kheap_end s → extended s T A n fr k s' T A n fr.
Proof.
  intros HT Ep Ee. unfold KHEAP_EXTENDING_AMOUNT.
  split; [lia|by apply grows_refl|by rewrite Ep|unfold KHEAP_EXTENDING_AMOUNT; lia|by rewrite Ep].
Qed.

Lemma extended_trans s T A n fr k s1 T1 A1 n1 fr1 k' s2 T2 A2 n2 fr2 :
  extended s T A n fr k s1 T1 A1 n1 fr1 → extended s1 T1 A1 n1 fr1 k' s2 T2 A2 n2 fr2 →
  extended s T A n fr (k + k') s2 T2 A2 n2 fr2.
Proof.
  intros [H1 H2 H3 H4 H5] [I1 I2 I3 I4 I5]. split; [lia|by eapply grows_trans|by rewrite I3|lia|].
  intros w Hw Hnw. rewrite I5; [|done|lia]. apply H5; [done|lia].
Qed.

Lemma kmalloc_loop_total k fuel s L T A n fr lim sz :
  heap_rep s true L → heap_mem s T A n fr lim → 0 ≤ sz → sz mod 8 = 0 →
  (k < fuel)%nat → sz ≤ tail_room L + Z.of_nat k * KHEAP_EXTENDING_AMOUNT →
  (k * frames_for KHEAP_EXTENDING_AMOUNT ≤ n)%nat →
  kheap_end s + Z.of_nat k * KHEAP_EXTENDING_AMOUNT ≤ lim →
  ∃ p s' L' T' A' n' fr', kmalloc_loop fuel sz s = Ok (p, s') ∧ handed_out s L sz p s' L' ∧
    heap_mem s' T' A' n' fr' lim ∧ extended s T A n fr k s' T' A' n' fr'.
Proof.
  unfold KHEAP_EXTENDING_AMOUNT. revert fuel s L T A n fr.
  induction k as [|k IH]; intros [|fuel] s L T A n fr Hr Hm Hsz Hmod Hf Htail Hn Hlim; try lia;
    (destruct (find_fit_ok s sz L (kheap_start s) (list_fuel s)) as [(L1 & b & L2 & EL & Hfit & Ef)|[Hno Ef]];
      [apply Hr|apply Hr|apply Hr|by apply (rep_fuel s true)| |]).
  2:{ exfalso. apply (tail_room_fits L sz); [done|lia|done]. }
  1,2: destruct (kmalloc_found s L sz fuel L1 b L2 Hr Hsz Hmod EL Hfit Ef) as (ns' & Ek & Hr' & Eb & Hle);
    eexists _, _, _, T, A, n, fr; (split; [exact Ek|]); (split; [split; [exact Hr'|done|]|]);
      [exists (if 40 <=? b.1 - sz then sz else b.1); split; [destruct (40 <=? b.1 - sz); lia|];
        rewrite EL; pose proof (used_after_take (kheap_start s) L1 b.1 L2 sz) as Hu; rewrite -Eb in Hu;
        by replace (kheap_start s + span L1 + 24 - 24) with (kheap_start s + span L1) by lia|];
      (split; [by destruct Hm|]); (apply extended_same; [by eapply ok_tables, hm_tables|done|done]).
  cbn [kmalloc_loop]. rewrite {1}/bind /gets {1}/bind (hr_head _ _ _ Hr) {1}/bind Ef {1}/bind.
  destruct (kheap_extend_total s true L T A n fr lim KHEAP_EXTENDING_AMOUNT Hr Hm)
    as (s1 & T1 & A1 & n1 & fr1 & E1 & Hr1 & Hm1 & Hn1 & HA1 & Est1 & Een1 & Erg1 & Hv1);
    [done|done|unfold KHEAP_EXTENDING_AMOUNT; lia|unfold KHEAP_EXTENDING_AMOUNT; lia|].
  assert (extended s T A n fr 1 s1 T1 A1 n1 fr1) as Hex.
  { split; [lia|done|done|unfold KHEAP_EXTENDING_AMOUNT in *; lia|]. intros w Hw Hnw. apply Hv1; [done|lia]. }
  rewrite E1. cbn [negb]. unfold KHEAP_EXTENDING_AMOUNT in *.
  destruct (IH fuel s1 _ T1 A1 n1 fr1 Hr1 Hm1 Hsz Hmod) as (p & s2 & L2 & T2 & A2 & n2 & fr2 & E2 & Ho & Hm2 & Hex2);
    [lia|rewrite tail_room_grow; lia|lia|lia|].
  exists p, s2, L2, T2, A2, n2, fr2. split; [done|]. split; [|split; [done|by eapply (extended_trans _ _ _ _ _ 1)]].
  destruct Ho as [Ho1 Ho2 (bs & Ho3 & Ho4)]. split; [done|by rewrite Ho2|]. exists bs. split; [done|].
  by rewrite Est1 used_grow in Ho4.
Qed.

(** ** Clients

    The blocks a client holds: the pointer it was given and the size it asked for. *)

Inductive heap_step : kheap_state S * list (Z * Z) → kheap_state S * list (Z * Z) → Prop :=
  | h_alloc s live sz p s' :
      0 ≤ sz ≤ 2 ^ 64 - 16 → room_for s sz → kmalloc sz s = Ok (p, s') → p ≠ 0 →
      heap_step (s, live) (s', (p, sz) :: live)
  | h_alloc_null s live sz s' :
      0 ≤ sz ≤ 2 ^ 64 - 16 → room_for s sz → kmalloc sz s = Ok (0, s') →
      heap_step (s, live) (s', live)
  | h_free s l1 p sz l2 s' :
      kfree p s = Ok (tt, s') → heap_step (s, l1 ++ (p, sz) :: l2) (s', l1 ++ l2)
  | h_free_null s live s' :
      kfree 0 s = Ok (tt, s') → heap_step (s, live) (s', live).

(** A client's block lies in a block of the heap. *)
Definition holds (c : Z * Z) (b : Z * Z) : Prop := c.1 = b.1 + 24 ∧ 0 ≤ c.2 ≤ b.2.

Definition client_inv (p : kheap_state S * list (Z * Z)) : Prop :=
  ∃ L B, heap_rep p.1 false L ∧ Forall2 holds p.2 B ∧ B ≡ₚ used (kheap_start p.1) L.

Lemma used_positive s L a bs :
  heap_rep s false L → (a, bs) ∈ used (kheap_start s) L →
  kheap_start s ≤ a ∧ 0 < a ∧ a mod 8 = 0 ∧ a + 24 + bs ≤ kheap_end s ∧ kheap_end s < 2 ^ 64.
Proof.
  intros Hr Hin. destruct (used_split _ _ _ _ Hin) as (L1 & L2 & -> & ->).
  pose proof (rep_bounds s false L1 bs false L2 Hr) as Hb. cbv zeta in Hb.
  destruct Hb as (H1 & H2 & H3 & H4 & _ & _ & _ & H5 & _). pose proof (span_nonneg L1 H5). lia.
Qed.

Lemma client_free s L B l1 p sz l2 :
  heap_rep s false L → Forall2 holds (l1 ++ (p, sz) :: l2) B → B ≡ₚ used (kheap_start s) L →
  ∃ s', kfree p s = Ok (tt, s') ∧ client_inv (s', l1 ++ l2) ∧ s' = with_nodes (nodes s') s.
Proof.
  intros Hr HB Hp. apply Forall2_app_inv_l in HB as (B1 & B2 & HB1 & HB2 & ->).
  apply Forall2_cons_inv_l in HB2 as ([a bs] & B2' & [Ep Hsz] & HB2 & ->). simpl in Ep, Hsz. subst p.
  assert ((a, bs) ∈ used (kheap_start s) L) as Hin.
  { rewrite -Hp. apply elem_of_app. right. by left. }
  destruct (used_split _ _ _ _ Hin) as (L1 & L2 & -> & ->).
  destruct (kfree_ok s L1 bs L2 Hr) as (s' & E & Hr' & Es). exists s'. split; [done|]. split; [|done].
  exists (free_list L1 bs L2), (B1 ++ B2'). split; [done|]. split; [by apply Forall2_app|]. simpl.
  rewrite Es /= free_list_used. rewrite used_app /= in Hp. unfold sizeof_kheap_node in Hp.
  rewrite -!Permutation_middle in Hp. by apply Permutation_cons_inv in Hp.
Qed.

Lemma heap_step_inv p p' : client_inv p → heap_step p p' → client_inv p'.
Proof.
  intros (L & B & Hr & HB & Hp) Hs. destruct Hs; simpl in *.
  - destruct (kmalloc_returns s L sz p s' Hr ltac:(lia) H2 H3) as (Est & L' & Hr' & [[-> _]|Hout]); [done|].
    destruct Hout as (a & bs & -> & Hle & Hu). exists L', ((a, bs) :: B). split; [done|]. split.
    + constructor; [|done]. split; [done|]. simpl. pose proof (round_size_ok sz H1). lia.
    + by rewrite Est Hu Hp.
  - destruct (kmalloc_returns s L sz 0 s' Hr ltac:(lia) H2 H3) as (Est & L' & Hr' & [[_ Hu]|Hout]).
    + exists L', B. split; [done|]. split; [done|]. by rewrite Est Hu.
    + destruct Hout as (a & bs & Ea & Hle & Hu). exfalso.
      assert ((a, bs) ∈ used (kheap_start s') L') as Hin by (rewrite Est Hu; by left).
      pose proof (used_positive s' L' a bs Hr' Hin). lia.
  - destruct (client_free s L B l1 p sz l2 Hr HB Hp) as (s2 & E & Hi & _). rewrite H1 in E. by injection E as <-.
  - rewrite /kfree /= in H1. injection H1 as <-. by exists L, B.
Qed.

(** C3: The heap is safe. After any sequence of [kmalloc] and [kfree] calls in which
    clients free only what they hold, the blocks clients hold lie inside the heap, are
    8-byte aligned and pairwise disjoint (their headers included), freeing any of them
    succeeds, the headers tile the heap exactly, and no two neighbouring blocks are
    free. *)
Theorem kheap_client_safe s L s' live :
  heap_rep s false L → used (kheap_start s) L = [] → rtc heap_step (s, []) (s', live) →
  (∃ L', heap_rep s' false L') ∧
  (∀ p sz, (p, sz) ∈ live → kheap_start s' + 24 ≤ p ∧ p + sz ≤ kheap_end s' ∧ p mod 8 = 0) ∧
  (∀ i j p1 z1 p2 z2, i ≠ j → live !! i = Some (p1, z1) → live !! j = Some (p2, z2) →
     p1 + z1 ≤ p2 - 24 ∨ p2 + z2 ≤ p1 - 24) ∧
  (∀ p sz, (p, sz) ∈ live → ∃ s2, kfree p s' = Ok (tt, s2)).
Proof.
  intros Hr Hu Hs. assert (client_inv (s', live)) as Hi.
  { assert (client_inv (s, [])) as Hi0 by (exists L, []; by rewrite /= Hu).
    clear Hr Hu. remember (s, []) as p0 eqn:E0. remember (s', live) as p1 eqn:E1. clear E0. revert Hi0.
    induction Hs as [p|p q r Hpq _ IH]; intros Hi0; [by subst|]. apply (IH E1). by apply (heap_step_inv p). }
  destruct Hi as (L' & B & Hr' & HB & Hp). simpl in *.
  assert (∀ i p z, live !! i = Some (p, z) → ∃ bs, B !! i = Some (p - 24, bs) ∧ 0 ≤ z ≤ bs) as Hlk.
  { intros i p z Hi. destruct (Forall2_lookup_l _ _ _ _ _ HB Hi) as ([a bs] & Hb & [Ep Hz]).
    simpl in Ep, Hz. exists bs. split; [|done]. rewrite Hb. do 2 f_equal. lia. }
  split; [by exists L'|]. split; [|split].
  - intros p sz (i & Hi)%list_elem_of_lookup. destruct (Hlk i p sz Hi) as (bs & Hb & Hz).
    apply list_elem_of_lookup_2 in Hb. rewrite Hp in Hb.
    pose proof (used_positive s' L' _ _ Hr' Hb). lia.
  - intros i j p1 z1 p2 z2 Hij Hi Hj.
    destruct (Hlk i p1 z1 Hi) as (b1 & Hb1 & Hz1). destruct (Hlk j p2 z2 Hj) as (b2 & Hb2 & Hz2).
    apply Permutation_inj in Hp as [_ (g & Hinj & Hg)].
    rewrite Hg in Hb1. rewrite Hg in Hb2.
    assert (g i ≠ g j) as Hne by (intros E; by apply Hij, Hinj).
    destruct (decide (g i < g j)%nat) as [Hlt|Hge].
    + left. pose proof (used_disjoint _ _ (hr_sizes _ _ _ Hr') _ _ _ _ _ _ Hlt Hb1 Hb2). lia.
    + right. pose proof (used_disjoint _ _ (hr_sizes _ _ _ Hr') (g j) (g i) _ _ _ _ ltac:(lia) Hb2 Hb1). lia.
  - intros p sz (l1 & l2 & ->)%list_elem_of_split.
    destruct (client_free s' L' B l1 p sz l2 Hr' HB Hp) as (s2 & E & _). by exists s2.
Qed.

(** How many times a request may extend the heap. *)
Definition extensions (sz : Z) : nat := 2 + Z.to_nat (round_size sz / KHEAP_EXTENDING_AMOUNT).

(** [kmalloc] with the frames for its extensions. *)
Lemma kmalloc_total s L T A n fr lim sz :
  heap_rep s false L → heap_mem s T A n fr lim → 0 ≤ sz ≤ 2 ^ 64 - 16 →
  (extensions sz * frames_for KHEAP_EXTENDING_AMOUNT ≤ n)%nat →
  kheap_end s + Z.of_nat (extensions sz) * KHEAP_EXTENDING_AMOUNT ≤ lim →
  ∃ p s' L' T' A' n' fr', kmalloc sz s = Ok (p, s') ∧ handed_out s L (round_size sz) p s' L' ∧
    heap_mem s' T' A' n' fr' lim ∧ extended s T A n fr (extensions sz) s' T' A' n' fr'.
Proof.
  unfold extensions. intros Hr Hm Hsz Hn Hlim. destruct (round_size_ok sz Hsz) as [Hrs Hmod].
  destruct (heap_acquire_ok s L Hr) as [Ea Hr1].
  assert (heap_mem (with_locked true s) T A n fr lim) as Hm1 by by destruct Hm.
  assert (-24 ≤ tail_room L) as Htail.
  { rewrite /tail_room. destruct (last L) as [[bs []]|] eqn:E; [|lia..].
    apply last_Some_elem_of in E. pose proof (hr_sizes _ _ _ Hr) as Hss. rewrite /sizes_ok Forall_forall in Hss.
    apply Hss in E. simpl in E. lia. }
  set k := (2 + Z.to_nat (round_size sz / KHEAP_EXTENDING_AMOUNT))%nat in Hn, Hlim |- *.
  destruct (kmalloc_loop_total k (kmalloc_fuel (round_size sz)) (with_locked true s) L T A n fr lim
    (round_size sz) Hr1 Hm1) as (p & s' & L' & T' & A' & n' & fr' & E & [H1 H2 H3] & Hm' & [I1 I2 I3 I4 I5]);
    [lia|done|rewrite /k /kmalloc_fuel; lia|rewrite /k /KHEAP_EXTENDING_AMOUNT; lia|done|done|].
  exists p, s', L', T', A', n', fr'. split; [by rewrite /kmalloc /bind Ea|]. split; [by split|]. split; [done|by split].
Qed.

(** The same for a client that already holds [live]. *)
Lemma client_kmalloc_total s live T A n fr lim sz :
  client_inv (s, live) → heap_mem s T A n fr lim → 0 ≤ sz ≤ 2 ^ 64 - 16 →
  (extensions sz * frames_for KHEAP_EXTENDING_AMOUNT ≤ n)%nat →
  kheap_end s + Z.of_nat (extensions sz) * KHEAP_EXTENDING_AMOUNT ≤ lim →
  ∃ p s' T' A' n' fr', kmalloc sz s = Ok (p, s') ∧ p ≠ 0 ∧ client_inv (s', (p, sz) :: live) ∧
    heap_mem s' T' A' n' fr' lim ∧ extended s T A n fr (extensions sz) s' T' A' n' fr' ∧
    kheap_start s' = kheap_start s.
Proof.
  intros (L & B & Hr & HB & HL) Hm Hsz Hn Hlim. cbn [fst snd] in *.
  destruct (kmalloc_total s L T A n fr lim sz Hr Hm Hsz Hn Hlim)
    as (p & s' & L' & T' & A' & n' & fr' & E & [H1 H2 (bs & H3 & H4)] & Hm' & Hex).
  destruct (round_size_ok sz Hsz) as [Hrs _].
  assert ((p - 24, bs) ∈ used (kheap_start s') L') as Hin by (rewrite H2 H4; by left).
  pose proof (used_positive s' L' _ _ H1 Hin) as Hp.
  exists p, s', T', A', n', fr'. split; [done|]. split; [lia|]. split; [|done].
  exists L', ((p - 24, bs) :: B). split; [done|]. split; [|by rewrite /= H2 H4 HL].
  constructor; [|done]. split; simpl; lia.
Qed.

(** A client gives a block back. *)
Lemma client_kfree_total s live p sz l :
  client_inv (s, live) → live ≡ₚ (p, sz) :: l →
  ∃ s', kfree p s = Ok (tt, s') ∧ client_inv (s', l) ∧ s' = with_nodes (nodes s') s.
Proof.
  intros (L & B & Hr & HB & HL) Hp. cbn [fst snd] in *.
  destruct (Permutation_Forall2 Hp HB) as (B' & HB1 & HB').
  apply (client_free s L B' [] p sz l Hr HB'). by rewrite -HB1.
Qed.

(** C28: [kmalloc] succeeds whenever there is memory: with room in the address space and
    four free frames for each page the heap may have to grow by, it returns a block of at
    least the requested size, beside the blocks in use before; every byte of it is mapped
    writable, different pages to different frames, and no translation below the old end of
    the heap or beyond its limit has changed. *)
Theorem kmalloc_correct s L T A n fr lim sz :
  heap_rep s false L → heap_mem s T A n fr lim → 0 ≤ sz ≤ 2 ^ 64 - 16 →
  let k := (2 + Z.to_nat (round_size sz / KHEAP_EXTENDING_AMOUNT))%nat in
  (k * frames_for KHEAP_EXTENDING_AMOUNT ≤ n)%nat →
  kheap_end s + Z.of_nat k * KHEAP_EXTENDING_AMOUNT ≤ lim →
  ∃ p s' L' bs T' fr' A' n', kmalloc sz s = Ok (p, s') ∧ heap_rep s' false L' ∧
    sz ≤ bs ∧ used (kheap_start s) L' ≡ₚ (p - 24, bs) :: used (kheap_start s) L ∧
    heap_mem s' T' A' n' fr' lim ∧ fr ⊆ fr' ∧
    (∀ v, p ≤ v < p + bs → ∃ f, fr' !! (v / PAGING_PAGE_SIZE) = Some f ∧
       view (mem (paging s')) T' v = Some (Page4K (map_entry f HEAP_FLAGS false))) ∧
    (∀ w, canonical_addr w → ¬ kheap_end s ≤ w < lim →
       view (mem (paging s')) T' w = view (mem (paging s)) T w).
Proof.
  intros Hr Hm Hsz k Hn Hlim. destruct (round_size_ok sz Hsz) as [Hrs _].
  destruct (kmalloc_total s L T A n fr lim sz Hr Hm Hsz Hn Hlim)
    as (p & s' & L' & T' & A' & n' & fr' & E & [H1 H2 (bs & H3 & H4)] & Hm' & Hex).
  exists p, s', L', bs, T', fr', A', n'. split; [done|].
  split; [done|]. split; [lia|]. split; [done|]. split; [done|]. split; [apply Hex|]. split.
  2:{ intros w Hw Hnw. apply (ex_view _ _ _ _ _ _ _ _ _ _ _ Hex); [done|].
      pose proof (ex_end _ _ _ _ _ _ _ _ _ _ _ Hex). unfold extensions in *. lia. }
  intros v Hv'. apply (bk_view _ _ _ _ _ _ (hm_backed _ _ _ _ _ _ Hm')).
  assert ((p - 24, bs) ∈ used (kheap_start s') L') as Hin by (rewrite H2 H4; by left).
  pose proof (used_positive s' L' _ _ H1 Hin). lia.
Qed.
(** ** Taking a block and giving it back *)

(** With a free block that is big enough, [kmalloc] takes the first such block. *)
Lemma kmalloc_fits s L sz bs :
  heap_rep s false L → 0 ≤ sz < 2 ^ 64 → (bs, true) ∈ L → round_size sz ≤ bs →
  ∃ L1 b L2 s1, L = L1 ++ (b, true) :: L2 ∧ round_size sz ≤ b ∧
    kmalloc sz s = Ok (kheap_start s + span L1 + 24, s1) ∧ s1 = with_nodes (nodes s1) s ∧
    heap_rep s1 false (L1 ++ taken b (round_size sz) ++ L2).
Proof.
  intros Hr Hsz Hin Hle. destruct (round_size_mod sz Hsz) as [Hrs Hmod]. set z := round_size sz in Hle Hrs Hmod *.
  destruct (heap_acquire_ok s L Hr) as [Ea Hr1]. set sl := with_locked true s in Ea, Hr1.
  destruct (find_fit_ok sl z L (kheap_start sl) (list_fuel sl)) as [(L1 & b & L2 & EL & Hfit & Ef)|[Hno _]];
    [apply Hr1..|by apply (rep_fuel sl true)| |].
  2:{ exfalso. rewrite Forall_forall in Hno. apply Hno in Hin. rewrite /fits /= in Hin. lia. }
  destruct (kmalloc_found sl L z (2 + Z.to_nat (z / KHEAP_EXTENDING_AMOUNT)) L1 b L2 Hr1 Hrs Hmod EL Hfit Ef)
    as (ns1 & Ek & Hr2 & Eb & Hz).
  exists L1, b.1, L2, (with_locked false (with_nodes ns1 sl)). rewrite -Eb. split; [done|]. split; [done|].
  split; [by rewrite /kmalloc /bind Ea|]. split; [|done].
  rewrite /sl /with_nodes /with_locked /=. by rewrite (hr_lock _ _ _ Hr).
Qed.

(** The list of blocks after [kheap_coalesce]. *)
Definition merged (L : list hblock) : list hblock :=
  match L with [] => [] | b :: L => merge_from b L end.

Lemma merge_from_compact b L : compact (b :: L) → merge_from b L = b :: L.
Proof.
  revert b. induction L as [|c L IH]; intros b [H1' H2']; simpl; [done|]. by rewrite H1' IH.
Qed.

Lemma merged_pair L1 x y L2 :
  merged (L1 ++ (x, true) :: (y, true) :: L2) = merged (L1 ++ (x + (y + 24), true) :: L2).
Proof.
  destruct L1 as [|b L1]; [done|]. simpl. revert b. induction L1 as [|c L1 IH]; intros b; simpl.
  - destruct b as [z []]; simpl; [|done]. do 2 f_equal. lia.
  - destruct (b.2 && c.2); [apply IH|]. by rewrite IH.
Qed.

Lemma free_taken L1 bs L2 sz :
  compact (L1 ++ (bs, true) :: L2) →
  free_list L1 (if 40 <=? bs - sz then sz else bs) (tail (taken bs sz) ++ L2) = L1 ++ (bs, true) :: L2.
Proof.
  intros Hc. assert (merged (L1 ++ (bs, true) :: L2) = L1 ++ (bs, true) :: L2) as Em.
  { destruct L1; by apply merge_from_compact. }
  rewrite -{1}Em. rewrite /taken. destruct (40 <=? bs - sz); [|done]. simpl.
  pose proof (merged_pair L1 sz (bs - sz - 24) L2) as Hp.
  replace (sz + (bs - sz - 24 + 24)) with bs in Hp by lia. exact Hp.
Qed.


(** ** Requests that overflow *)

(** A request within 15 bytes of 2^64 overflows when it is rounded up: [kmalloc]
    treats it as a request of 0 bytes, and whenever the heap has a free block it succeeds
    with a block smaller than the caller asked for. *)
Lemma kmalloc_wraps s L sz bs :
  2 ^ 64 - 16 < sz < 2 ^ 64 → heap_rep s false L → (bs, true) ∈ L →
  kmalloc sz s = kmalloc 0 s ∧
  ∃ p s' L' b, kmalloc sz s = Ok (p, s') ∧ heap_rep s' false L' ∧
    used (kheap_start s) L' ≡ₚ (p - 24, b) :: used (kheap_start s) L ∧ b < sz.
Proof.
  intros Hsz Hr Hin.
  assert (round_size sz = 0) as E0.
  { rewrite /round_size /KHEAP_BLOCK_SIZE. destruct (Z.eqb_spec (sz mod 16) 0); cbn [negb]; [lia|].
    replace (sz + (16 - sz mod 16)) with (2 ^ 64) by lia. done. }
  split; [by rewrite /kmalloc E0|].
  destruct (kmalloc_fits s L sz bs Hr ltac:(lia) Hin) as (L1 & b & L2 & s1 & EL & Hb & Ek & Es1 & Hr1).
  { rewrite E0. pose proof (hr_sizes _ _ _ Hr) as Hs. rewrite /sizes_ok Forall_forall in Hs.
    by apply Hs in Hin as [? _]. }
  rewrite E0 in Hr1. eexists _, s1, _, _. split; [exact Ek|]. split; [exact Hr1|].
  replace (kheap_start s + span L1 + 24 - 24) with (kheap_start s + span L1) by lia.
  rewrite EL. split; [apply used_after_take|]. rewrite EL in Hr.
  pose proof (rep_bounds _ _ _ _ _ _ Hr) as Hbd. cbv zeta in Hbd. destruct (40 <=? b - 0) eqn:E; [lia|].
  apply Z.leb_gt in E. lia.
Qed.

(** ** The first heap *)

(** Where [kheap_init] puts the heap: a megabyte above the kernel image, on a page
    boundary. *)
Definition heap_base (kernel_end : Z) : Z :=
  (kernel_end + 0x100000 + 0xfff) / PAGING_PAGE_SIZE * PAGING_PAGE_SIZE.

(** Initialisation: with 1024 free frames, [kheap_init] returns a heap of one free
    block of a megabyte minus its header, on the first page boundary a megabyte above the
    kernel image; its pages are mapped writable to frames of their own, no other
    translation has changed, and the lock is free. *)
Lemma kheap_init_total s T A n lim kernel_end :
  kheap_head s = 0 → kheap_locked s = false →
  pt_ok (paging s) (kernel_pml4_phys (paging s)) T A n →
  growable (paging s) T (kernel_pml4_phys (paging s)) (heap_base kernel_end) lim →
  heap_base kernel_end + KHEAP_STARTING_SIZE ≤ lim → (frames_for KHEAP_STARTING_SIZE ≤ n)%nat →
  ∃ s' T' A' n' fr', kheap_init kernel_end s = Ok (tt, s') ∧
    kheap_start s' = heap_base kernel_end ∧ kheap_end s' = heap_base kernel_end + KHEAP_STARTING_SIZE ∧
    heap_rep s' false [(KHEAP_STARTING_SIZE - sizeof_kheap_node, true)] ∧
    heap_mem s' T' A' n' fr' lim ∧ (n ≤ n' + frames_for KHEAP_STARTING_SIZE)%nat ∧
    grows T A ∅ T' A' fr' ∧ regs (paging s') = regs (paging s) ∧
    (∀ w, canonical_addr w → ¬ heap_base kernel_end ≤ w < heap_base kernel_end + KHEAP_STARTING_SIZE →
       view (mem (paging s')) T' w = view (mem (paging s)) T w).
Proof.
  intros Hhead Hlock Hok Hg Hlim Hn. pose proof Hg as (_ & [Hh1 Hh2] & _).
  set a := heap_base kernel_end in Hg Hlim Hh1 Hh2 *. assert (a mod PAGING_PAGE_SIZE = 0) as Ham.
  { rewrite /a /heap_base. apply Z_mod_mult. }
  set s0 := with_range a a s.
  assert (kheap_init kernel_end s = (kheap_extend KHEAP_STARTING_SIZE;;; ret tt) s0) as Ei.
  { rewrite /kheap_init {1}/bind /modify. do 2 f_equal; rewrite /s0 /a /heap_base; f_equal.
    all: rewrite /a /heap_base in Hh1, Hlim; unfold PAGING_PAGE_SIZE, KHEAP_STARTING_SIZE in *.
    all: rewrite (u64_small (kernel_end + 0x100000)); [|lia].
    all: destruct (Z.eqb_spec ((kernel_end + 0x100000) mod 4096) 0); cbn [negb]; rewrite ?u64_small; lia. }
  assert (heap_rep s0 false []) as Hr0.
  { split; simpl; try done; unfold KHEAP_STARTING_SIZE in *; try lia. constructor. }
  assert (heap_mem s0 T A n ∅ lim) as Hm0.
  { split; [done| |done|done]. split; simpl; [lia|..]; intros *; by rewrite ?lookup_empty. }
  destruct (kheap_extend_total s0 false [] T A n ∅ lim KHEAP_STARTING_SIZE Hr0 Hm0)
    as (s' & T' & A' & n' & fr' & E & Hr' & Hm' & Hn' & Hgw & Est & Een & Erg & Hv); [done|done|done|done|].
  exists s', T', A', n', fr'. split; [by rewrite Ei /bind E|]. by rewrite Est Een.
Qed.
End client.

(** ** A concrete machine

    A frame allocator that hands out the frames below 2^40 in turn, an empty address
    space and the heap [kheap_init] builds in it. *)

#[local] Instance bump_alloc : FrameAlloc Z := {|
  fa_alloc _ := λ s, if s <? 2 ^ 40 then Ok (s, s + PMM_PAGE_SIZE) else Ok (0, s);
  fa_dec_ref _ := λ s, Ok (tt, s);
  fa_highest := λ s, Ok (2 ^ 40, s);
|}.

(** The frames [A] are below the next one, and [n] more are above it. *)
Definition bump_owned (s : Z) (A : gset Z) (n : nat) : Prop :=
  frame s ∧ s ≤ 2 ^ 40 ∧ s + Z.of_nat n * PMM_PAGE_SIZE ≤ 2 ^ 40 ∧ ∀ f, f ∈ A → frame f ∧ f < s.

Lemma bump_alloc_ok s A n :
  bump_owned s A n →
  wp (fa_alloc PMM_PAGE_SIZE) (λ r s', 2 ^ 40 = 2 ^ 40 ∧
    ((r = 0 ∧ n = 0%nat ∧ bump_owned s' A 0) ∨ (r ∉ A ∧ bump_owned s' ({[r]} ∪ A) (pred n)))) s.
Proof.
  intros ([H1 Hm] & H2 & H3 & HA). apply wp_run. rewrite /= /PMM_PAGE_SIZE /bump_owned /frame /PMM_PAGE_SIZE in H3 Hm |- *.
  destruct (Z.ltb_spec s (2 ^ 40)) as [Hlt|Hge]; eexists _, _; (split; [reflexivity|]); (split; [reflexivity|]).
  - right. split; [intros Hs; apply HA in Hs; lia|]. split; [lia|]. split; [lia|]. split; [lia|].
    intros f [->%elem_of_singleton|Hf]%elem_of_union; [lia|]. apply HA in Hf as [Hf Hfs]. split; [done|lia].
  - left. split; [done|]. split; [lia|]. split; [lia|]. split; [lia|]. split; [lia|]. done.
Qed.

Lemma bump_weaken s A n A' n' : bump_owned s A n → A' ⊆ A → (n' ≤ n)%nat → bump_owned s A' n'.
Proof.
  intros (H1 & H2 & H3 & HA) Hsub Hle. split; [done|]. split; [done|].
  split; [unfold PMM_PAGE_SIZE in *; lia|]. intros f Hf. by apply HA, Hsub.
Qed.

#[local] Instance bump_spec : FrameAllocSpec Z.
Proof.
  refine {| owned := bump_owned; fa_top _ := 2 ^ 40; owned_alloc := bump_alloc_ok; owned_weaken := bump_weaken |}.
  - intros s A n f (_ & _ & _ & HA) Hf. by apply HA.
  - intros s A n f (_ & Hs & _ & HA) Hf. apply HA in Hf. lia.
  - intros s A n f Ho Hf. apply wp_run. eexists _, _. split; [reflexivity|]. split; [done|].
    eapply bump_weaken; [exact Ho|set_solver|done].
  - intros s A n Ho. apply wp_run. eexists _, _. split; [reflexivity|]. done.
  - done.
Defined.

(** Before [kheap_init]: memory all zero, the root table in frame 0x1000. *)
Definition bare_heap : kheap_state Z :=
  mkHeap (mkPaging 0x2000 (zero_page 0x1000 (λ _, 0)) demo_offset 0x1000 0x1000 0 pat_val (mkTlb (λ _, None) (λ _, None)))
    0 0 0 false ∅.

Definition bare_tables : gmap (list Z) Z := {[ [] := 0x1000 ]}.
(** A million free frames, kept as a name for the arithmetic below. *)
Definition bare_room : nat := Z.to_nat 1000000.
Lemma bare_room_eq : Z.of_nat bare_room = 1000000.
Proof. by rewrite /bare_room Z2Nat.id. Qed.
Lemma frames_for_megabyte : Z.of_nat (frames_for 0x100000) = 1024.
Proof. reflexivity. Qed.

Definition bare_end : Z := 0xffffffff80004567.
Definition bare_lim : Z := 0xfffffffff0000000.

Lemma bare_frame : frame 0x1000.
Proof. split; [lia|done]. Qed.

Lemma bare_tables_ok :
  pt_ok (paging bare_heap) (kernel_pml4_phys (paging bare_heap)) bare_tables {[ 0x1000 ]} bare_room.
Proof.
  split.
  - apply pt_wf_empty, bare_frame.
  - split; [split; [simpl; lia|done]|]. split; [simpl; lia|]. split; [rewrite bare_room_eq; vm_compute; discriminate|].
    intros f ->%elem_of_singleton. split; [apply bare_frame|simpl; lia].
  - rewrite /bare_tables. intros p f [_ <-]%lookup_singleton_Some. by apply elem_of_singleton.
Qed.

Lemma bare_growable v :
  2 ^ 64 - 2 ^ 47 ≤ v → growable (paging bare_heap) bare_tables 0x1000 v bare_lim.
Proof.
  intros Hv. split; [done|]. split; [split; [done|]; rewrite /bare_lim; lia|]. intros w e _. by rewrite view_empty.
Qed.

Lemma heap_base_bare : heap_base bare_end = 0xffffffff80105000.
Proof. reflexivity. Qed.

(** The heap after [kheap_init]. *)
Lemma first_heap :
  ∃ s T A n fr, kheap_init bare_end bare_heap = Ok (tt, s) ∧ kheap_start s = 0xffffffff80105000 ∧
    kheap_end s = 0xffffffff80205000 ∧ heap_rep s false [(0xfffe8, true)] ∧ heap_mem s T A n fr bare_lim ∧
    100000 ≤ Z.of_nat n ∧ cr3 (paging s) = kernel_pml4_phys (paging s) ∧
    msr_pat (paging s) = pat_val ∧
    ∀ w, canonical_addr w → ¬ 0xffffffff80105000 ≤ w < 0xffffffff80205000 → view (mem (paging s)) T w = None.
Proof.
  destruct (kheap_init_total bare_heap bare_tables {[ 0x1000 ]} bare_room bare_lim bare_end)
    as (s & T & A & n & fr & E & H1 & H2 & H3 & H4 & H5 & _ & Erg & Hv);
    [done|done|exact bare_tables_ok|apply bare_growable; rewrite heap_base_bare; lia
    |rewrite heap_base_bare; vm_compute; discriminate|unfold KHEAP_STARTING_SIZE; pose proof frames_for_megabyte; pose proof bare_room_eq; lia|].
  exists s, T, A, n, fr. split; [done|]. split; [done|]. split; [done|]. split; [done|]. split; [done|].
  split; [unfold KHEAP_STARTING_SIZE in H5; pose proof frames_for_megabyte; pose proof bare_room_eq; lia|].
  injection Erg as _ Ek Ec _ Epat. split; [by rewrite Ek Ec|]. split; [exact Epat|].
  intros w Hw Hn. rewrite Hv; [apply view_empty|done|exact Hn].
Qed.

Lemma kmalloc_correct_witness :
  ∃ (s s' : kheap_state Z) p L' bs, kheap_init bare_end bare_heap = Ok (tt, s) ∧
    kmalloc 0x200000 s = Ok (p, s') ∧ heap_rep s' false L' ∧ 0x200000 ≤ bs ∧
    used (kheap_start s) L' ≡ₚ [(p - 24, bs)].
Proof.
  destruct first_heap as (s & T & A & n & fr & E & Hst & Hen & Hr & Hm & Hn & _).
  destruct (kmalloc_correct s _ T A n fr bare_lim 0x200000 Hr Hm) as (p & s' & L' & bs & T' & fr' & A' & n' & Ek & Hr' & Hbs & Hu & _).
  - clear. lia.
  - assert (2 + Z.to_nat (round_size 0x200000 / KHEAP_EXTENDING_AMOUNT) = 4)%nat as -> by (vm_compute; exact eq_refl).
    unfold KHEAP_EXTENDING_AMOUNT. pose proof frames_for_megabyte. clear - Hn H. lia.
  - assert (2 + Z.to_nat (round_size 0x200000 / KHEAP_EXTENDING_AMOUNT) = 4)%nat as -> by (vm_compute; exact eq_refl).
    rewrite Hen. vm_compute. discriminate.
  - exists s, s', p, L', bs. split; [exact E|]. split; [exact Ek|]. split; [exact Hr'|]. split; [exact Hbs|exact Hu].
Defined.


Lemma kmalloc_wraps_witness :
  ∃ (s s' : kheap_state Z) p, kheap_init bare_end bare_heap = Ok (tt, s) ∧
    kmalloc (2 ^ 64 - 1) s = kmalloc 0 s ∧ kmalloc (2 ^ 64 - 1) s = Ok (p, s').
Proof.
  destruct first_heap as (s & T & A & n & fr & E & Hst & Hen & Hr & Hm & Hn & _).
  destruct (kmalloc_wraps s [(0xfffe8, true)] (2 ^ 64 - 1) 0xfffe8) as [E0 (p & s' & L' & b & Ek & _)];
    [clear; lia|exact Hr|apply list_elem_of_singleton; exact eq_refl|].
  exists s, s', p. split; [exact E|]. split; [exact E0|exact Ek].
Defined.

Lemma kheap_client_safe_witness :
  ∃ (s s' : kheap_state Z) p, kheap_init bare_end bare_heap = Ok (tt, s) ∧
    rtc heap_step (s, []) (s', [(p, 100)]) ∧ kheap_start s' + 24 ≤ p ∧ p + 100 ≤ kheap_end s' ∧
    ∃ s2, kfree p s' = Ok (tt, s2).
Proof.
  destruct first_heap as (s & T & A & n & fr & E & Hst & Hen & Hr & Hm & Hn & _).
  destruct (kmalloc_fits s _ 100 0xfffe8 Hr) as (L1 & b & L2 & s1 & EL & Hb & Ek & _ & Hr1);
    [clear; lia|apply list_elem_of_singleton; exact eq_refl|vm_compute; discriminate|].
  set p := kheap_start s + span L1 + 24 in Ek *.
  assert (p ≠ 0) as Hp.
  { rewrite EL in Hr. pose proof (rep_bounds _ _ _ _ _ _ Hr) as Hbd. cbv zeta in Hbd. clear - p Hbd. subst p. lia. }
  assert (room_for s 100) as Hroom.
  { rewrite /room_for Hen. vm_compute. exact eq_refl. }
  assert (rtc heap_step (s, []) (s1, [(p, 100)])) as Hs.
  { eapply rtc_once, h_alloc; [clear; lia|exact Hroom|exact Ek|exact Hp]. }
  destruct (kheap_client_safe s _ s1 [(p, 100)] Hr eq_refl Hs) as (_ & Hin & _ & Hf).
  exists s, s1, p. split; [exact E|]. split; [exact Hs|].
  destruct (Hin p 100) as (H1 & H2 & _); [apply list_elem_of_singleton; exact eq_refl|].
  split; [exact H1|]. split; [exact H2|]. apply (Hf p 100). apply list_elem_of_singleton. exact eq_refl.
Defined.
