(* ===== verification/Vmm.v ===== *)
(** * The virtual memory manager: model (memory/vmm.c, memory/vmm.h)

    Address spaces and their areas as structs in memory, by address, over the kernel heap
    that holds the structs and the page tables below it (Kheap.v, Paging.v). The contents
    of a struct are dropped when it is freed, so that a use after free is undefined. The
    interrupt flag that the locks of address spaces save is a CPU state of their own.
    Properties are in VmmSpec.v and VmmThms.v. *)

From stdpp Require Import base gmap list numbers functions.
From S2P Require Import Prelude Spinlock Hhdm FrameAlloc Paging Kheap.

Definition VMM_USER_START : Z := 0x1000.
Definition VMM_USER_END : Z := 0x7FFFFFFFFFFF.
Definition VMM_KERNEL_START : Z := 0xFFFFC00000000000.
Definition VMM_KERNEL_END : Z := 0xFFFFFFFF80000000 - 1.

Definition VMM_FLAGS_READ : Z := Z.shiftl 1 0.
Definition VMM_FLAGS_WRITE : Z := Z.shiftl 1 1.
Definition VMM_FLAGS_EXEC : Z := Z.shiftl 1 2.
Definition VMM_FLAGS_USER : Z := Z.shiftl 1 3.
Definition VMM_FLAGS_ANON : Z := Z.shiftl 1 4.
Definition VMM_FLAGS_MMIO : Z := Z.shiftl 1 5.
Definition VMM_FLAGS_WC : Z := Z.shiftl 1 6.
Definition VMM_FLAGS_UC : Z := Z.shiftl 1 7.

Definition PAGE_FAULT_PRESENT : Z := Z.shiftl 1 0.
Definition PAGE_FAULT_WRITE : Z := Z.shiftl 1 1.
Definition PAGE_FAULT_INSTRUCTION_FETCH : Z := Z.shiftl 1 4.

(** [x & mask] as a condition. *)
Definition has (x mask : Z) : bool := negb (Z.land x mask =? 0).

Record vm_area := mkArea { base : Z; area_size : Z; flags : Z; area_next : Z }.
Record vm_address_space := mkSpace { pml4_phys : Z; region_list : Z; space_lock : spinlock_irq }.
Definition sizeof_vm_area : Z := 32.
Definition sizeof_vm_address_space : Z := 32.

Record vmm_state (S : Type) := mkVmm {
  heap : kheap_state S;
  vmm_cpu : cpu;
  kernel_vas : Z;
  current_vas : Z;
  spaces : gmap Z vm_address_space;
  areas : gmap Z vm_area;
}.
Arguments mkVmm {S} _ _ _ _ _ _.
Arguments heap {S} _.
Arguments vmm_cpu {S} _.
Arguments kernel_vas {S} _.
Arguments current_vas {S} _.
Arguments spaces {S} _.
Arguments areas {S} _.

Definition vmm_generic_to_x86_flags (genericFlags : Z) : Z :=
  let x86_flags := 0 in
  let x86_flags := if has genericFlags VMM_FLAGS_READ then Z.lor x86_flags 0 else x86_flags in
  let x86_flags := if has genericFlags VMM_FLAGS_WRITE then Z.lor x86_flags PTE_FLAG_RW else x86_flags in
  let x86_flags := if negb (has genericFlags VMM_FLAGS_EXEC)
                   then Z.lor x86_flags PTE_FLAG_NO_EXEC else x86_flags in
  let x86_flags := if has genericFlags VMM_FLAGS_WC then Z.lor x86_flags PTE_CACHE_WC else x86_flags in
  let x86_flags := if has genericFlags VMM_FLAGS_UC then Z.lor x86_flags PTE_CACHE_UC else x86_flags in
  if has genericFlags VMM_FLAGS_USER then Z.lor x86_flags PTE_FLAG_US
  else Z.lor x86_flags PTE_FLAG_GLOBAL.

Section vmm.
Context {S : Type} `{FrameAlloc S}.
Implicit Types s : vmm_state S.

Definition with_heap (h : kheap_state S) s : vmm_state S :=
  mkVmm h (vmm_cpu s) (kernel_vas s) (current_vas s) (spaces s) (areas s).
Definition with_cpu (c : cpu) s : vmm_state S :=
  mkVmm (heap s) c (kernel_vas s) (current_vas s) (spaces s) (areas s).
Definition with_kernel_vas (p : Z) s : vmm_state S :=
  mkVmm (heap s) (vmm_cpu s) p (current_vas s) (spaces s) (areas s).
Definition with_current_vas (p : Z) s : vmm_state S :=
  mkVmm (heap s) (vmm_cpu s) (kernel_vas s) p (spaces s) (areas s).
Definition with_spaces (m : gmap Z vm_address_space) s : vmm_state S :=
  mkVmm (heap s) (vmm_cpu s) (kernel_vas s) (current_vas s) m (areas s).
Definition with_areas (m : gmap Z vm_area) s : vmm_state S :=
  mkVmm (heap s) (vmm_cpu s) (kernel_vas s) (current_vas s) (spaces s) m.

Definition on_heap {A} (m : M (kheap_state S) A) : M (vmm_state S) A := λ s,
  match m (heap s) with
  | Ok (a, h) => Ok (a, with_heap h s)
  | Err e => Err e
  end.
(** A call of the paging code. *)
Definition on_tables {A} (m : M (paging_state S) A) : M (vmm_state S) A := on_heap (on_paging m).

Definition read_space (p : Z) : M (vmm_state S) vm_address_space := reads (λ s, spaces s !! p).
Definition write_space (p : Z) (x : vm_address_space) : M (vmm_state S) unit :=
  modify (λ s, with_spaces (<[p := x]> (spaces s)) s).
Definition read_area (p : Z) : M (vmm_state S) vm_area := reads (λ s, areas s !! p).
Definition write_area (p : Z) (x : vm_area) : M (vmm_state S) unit :=
  modify (λ s, with_areas (<[p := x]> (areas s)) s).

(** [kfree] of a struct. *)
Definition free_space (p : Z) : M (vmm_state S) unit :=
  on_heap (kfree p);;; modify (λ s, with_spaces (delete p (spaces s)) s).
Definition free_area (p : Z) : M (vmm_state S) unit :=
  on_heap (kfree p);;; modify (λ s, with_areas (delete p (areas s)) s).

(** [spinlock_irq_acquire(&space->lock, &irq_flags)] and its release. *)
Definition space_acquire (p : Z) : M (vmm_state S) Z :=
  a <- read_space p;;
  c <- gets vmm_cpu;;
  r <- lift (spinlock_irq_acquire (space_lock a) c);;
  write_space p (mkSpace (pml4_phys a) (region_list a) r.1.2);;;
  modify (with_cpu r.2);;;
  ret r.1.1.
Definition space_release (p irq_flags : Z) : M (vmm_state S) unit :=
  a <- read_space p;;
  c <- gets vmm_cpu;;
  let '(l, c) := spinlock_irq_release (space_lock a) irq_flags c in
  write_space p (mkSpace (pml4_phys a) (region_list a) l);;;
  modify (with_cpu c).

Definition set_region_list (p r : Z) : M (vmm_state S) unit :=
  a <- read_space p;; write_space p (mkSpace (pml4_phys a) r (space_lock a)).
Definition set_area_next (p n : Z) : M (vmm_state S) unit :=
  a <- read_area p;; write_area p (mkArea (base a) (area_size a) (flags a) n).

(** ** Address spaces *)

Definition vmm_init : M (vmm_state S) unit :=
  p <- on_heap (kmalloc sizeof_vm_address_space);;
  modify (with_kernel_vas p);;;
  if p =? 0 then fail Halt
  else
    root <- on_tables paging_getKernelRoot;;
    write_space p (mkSpace root 0 SPINLOCK_IRQ_INIT);;;
    modify (with_current_vas p).

(** [for(i = 256; i < 512; i++) virt_new_pml4[i] = virt_kernel_pml4[i]] *)
Fixpoint copy_upper (k : nat) (i virt_new_pml4 virt_kernel_pml4 : Z) : M (paging_state S) unit :=
  match k with
  | O => ret tt
  | Datatypes.S k =>
      e <- load (entry_ptr virt_kernel_pml4 i);;
      store (entry_ptr virt_new_pml4 i) e;;;
      copy_upper k (i + 1) virt_new_pml4 virt_kernel_pml4
  end.

Definition vmm_new_address_space : M (vmm_state S) Z :=
  new_address_space <- on_heap (kmalloc sizeof_vm_address_space);;
  if new_address_space =? 0 then ret 0
  else
    new_pml4 <- on_tables (on_frames (fa_alloc PAGING_PAGE_SIZE));;
    if new_pml4 =? 0 then on_heap (kfree new_address_space);;; ret 0
    else
      write_space new_address_space (mkSpace new_pml4 0 SPINLOCK_IRQ_INIT);;;
      off <- on_tables (gets hhdm_offset);;
      let virt_new_pml4 := hhdm_physToVirt off new_pml4 in
      on_tables (clear_page virt_new_pml4);;;
      kernel <- gets kernel_vas;;
      k <- read_space kernel;;
      on_tables (copy_upper 256 256 virt_new_pml4 (hhdm_physToVirt off (pml4_phys k)));;;
      ret new_address_space.

(** ** Areas *)

(** Fuel for a walk over the areas of a space. *)
Definition areas_fuel s : nat := Datatypes.S (base.size (areas s)).

(** The search for a hole: [None] when there is no room left before the end, otherwise
    [prev], [current] and [candidate] where the loop stops. *)
Fixpoint find_hole (fuel : nat) (prev current candidate sz region_search_end : Z)
    : M (vmm_state S) (option (Z * Z * Z)) :=
  match fuel with
  | O => fail OutOfFuel
  | Datatypes.S fuel =>
      if current =? 0 then ret (Some (prev, current, candidate))
      else
        a <- read_area current;;
        if (u64 (candidate + sz) <=? base a) && (u64 (candidate + sz) <=? region_search_end)
        then ret (Some (prev, current, candidate))
        else
          let candidate := u64 (base a + area_size a) in
          if region_search_end <=? candidate then ret None
          else find_hole fuel current (area_next a) candidate sz region_search_end
  end.

(** The size rounded up to whole pages. *)
Definition round_up (sz : Z) : Z :=
  if negb (sz mod PAGING_PAGE_SIZE =? 0)
  then u64 (sz + (PAGING_PAGE_SIZE - sz mod PAGING_PAGE_SIZE)) else sz.

Definition vmm_alloc (space sz fl arg : Z) : M (vmm_state S) Z :=
  let sz := round_up sz in
  if (space =? 0) || (sz =? 0) then ret 0
  else
    irq_flags <- space_acquire space;;
    kernel <- gets kernel_vas;;
    let '(region_search_start, region_search_end, fl) :=
      if space =? kernel
      then (VMM_KERNEL_START, VMM_KERNEL_END,
            if has fl VMM_FLAGS_USER then Z.ldiff fl VMM_FLAGS_USER else fl)
      else (VMM_USER_START, VMM_USER_END, fl) in
    a <- read_space space;;
    fuel <- gets areas_fuel;;
    hole <- find_hole fuel 0 (region_list a) region_search_start sz region_search_end;;
    match hole with
    | None => space_release space irq_flags;;; ret 0
    | Some (prev, current, candidate) =>
        new_area <- on_heap (kmalloc sizeof_vm_area);;
        if new_area =? 0 then space_release space irq_flags;;; ret 0
        else
          write_area new_area (mkArea candidate sz fl current);;;
          (if prev =? 0 then set_region_list space new_area else set_area_next prev new_area);;;
          (if has fl VMM_FLAGS_MMIO then
             n <- read_area new_area;;
             a <- read_space space;;
             on_tables (
               off <- gets hhdm_offset;;
               paging_map_region (hhdm_physToVirt off (pml4_phys a)) (base n) arg sz
                 (vmm_generic_to_x86_flags fl) false)
           else if has fl VMM_FLAGS_ANON then ret tt
           else space_release space irq_flags;;; fail Halt);;;
          space_release space irq_flags;;;
          n <- read_area new_area;;
          ret (base n)
    end.

Fixpoint find_area (fuel : nat) (current vaddr : Z) : M (vmm_state S) Z :=
  match fuel with
  | O => fail OutOfFuel
  | Datatypes.S fuel =>
      if current =? 0 then ret 0
      else
        a <- read_area current;;
        if (base a <=? vaddr) && (vaddr <? u64 (base a + area_size a)) then ret current
        else find_area fuel (area_next a) vaddr
  end.

Definition vmm_get_vm_area (space vaddr : Z) : M (vmm_state S) Z :=
  if space =? 0 then ret 0
  else
    a <- read_space space;;
    fuel <- gets areas_fuel;;
    find_area fuel (region_list a) vaddr.

(** The loop of [vmm_free]: [prev] and [current] where the area is found. *)
Fixpoint find_prev (fuel : nat) (prev current addr : Z) : M (vmm_state S) (option (Z * Z)) :=
  match fuel with
  | O => fail OutOfFuel
  | Datatypes.S fuel =>
      if current =? 0 then ret None
      else
        a <- read_area current;;
        if (base a <=? addr) && (addr <? u64 (base a + area_size a)) then ret (Some (prev, current))
        else find_prev fuel current (area_next a) addr
  end.

Definition vmm_free (space addr : Z) : M (vmm_state S) unit :=
  if (space =? 0) || (addr =? 0) then ret tt
  else
    irq_flags <- space_acquire space;;
    a <- read_space space;;
    fuel <- gets areas_fuel;;
    found <- find_prev fuel 0 (region_list a) addr;;
    match found with
    | None => space_release space irq_flags
    | Some (prev, current) =>
        c <- read_area current;;
        (if prev =? 0 then set_region_list space (area_next c) else set_area_next prev (area_next c));;;
        a <- read_space space;;
        on_tables (
          off <- gets hhdm_offset;;
          paging_unmap_region (hhdm_physToVirt off (pml4_phys a)) (base c) (area_size c) false
            (negb (has (flags c) VMM_FLAGS_MMIO)));;;
        free_area current;;;
        space_release space irq_flags
    end.

Fixpoint free_areas (fuel : nat) (space current : Z) : M (vmm_state S) unit :=
  match fuel with
  | O => fail OutOfFuel
  | Datatypes.S fuel =>
      if current =? 0 then ret tt
      else
        a <- read_area current;;
        vmm_free space (base a);;;
        free_areas fuel space (area_next a)
  end.

Definition vmm_destroy_address_space (space : Z) : M (vmm_state S) unit :=
  kernel <- gets kernel_vas;;
  if (space =? 0) || (space =? kernel) then ret tt
  else
    a <- read_space space;;
    fuel <- gets areas_fuel;;
    free_areas fuel space (region_list a);;;
    a <- read_space space;;
    on_tables (on_frames (fa_dec_ref (pml4_phys a)));;;
    free_space space.

Definition vmm_switch_address_space (space : Z) : M (vmm_state S) unit :=
  if space =? 0 then ret tt
  else
    modify (with_current_vas space);;;
    a <- read_space space;;
    on_tables (paging_switch_context (pml4_phys a)).

Definition vmm_get_kernel_vas : M (vmm_state S) Z := gets kernel_vas.

(** ** Page faults *)

(** [vmm_page_fault_handler] with the faulting address of CR2 and the error code of the
    interrupt frame. *)
Definition vmm_page_fault_handler (cr2 error_code : Z) : M (vmm_state S) unit :=
  let present := has error_code PAGE_FAULT_PRESENT in
  let write := has error_code PAGE_FAULT_WRITE in
  let execute := has error_code PAGE_FAULT_INSTRUCTION_FETCH in
  kernel <- gets kernel_vas;;
  current <- gets current_vas;;
  let target_vas := if VMM_KERNEL_START <=? cr2 then kernel else current in
  irq_flags <- space_acquire target_vas;;
  target_area <- vmm_get_vm_area target_vas cr2;;
  if target_area =? 0 then fail Halt
  else
    ta <- read_area target_area;;
    (if present then
       (if write && negb (has (flags ta) VMM_FLAGS_WRITE) then fail Halt else ret tt);;;
       (if execute && negb (has (flags ta) VMM_FLAGS_EXEC) then fail Halt else ret tt);;;
       fail Halt
     else ret tt);;;
    phys_page <- on_tables (on_frames (fa_alloc PAGING_PAGE_SIZE));;
    if phys_page =? 0 then fail Halt
    else
      off <- on_tables (gets hhdm_offset);;
      on_tables (clear_page (hhdm_physToVirt off phys_page));;;
      a <- read_space target_vas;;
      on_tables (paging_map_page (hhdm_physToVirt off (pml4_phys a)) cr2 phys_page
                   (vmm_generic_to_x86_flags (flags ta)) false);;;
      space_release target_vas irq_flags.
End vmm.
