(* ===== verification/VmmSpec.v ===== *)
(** * The virtual memory manager: areas

    The struct lists of Vmm.v as lists of regions, and what the operations do to them. *)

From stdpp Require Import base gmap list numbers functions.
From S2P Require Import Prelude Spinlock Hhdm FrameAlloc Paging Kheap KheapSpec KheapThms Vmm.

#[local] Ltac Zify.zify_post_hook ::= Z.to_euclidean_division_equations.

(** An area: where its struct is, and what the struct says. *)
Record region := mkRegion { r_ptr : Z; r_base : Z; r_size : Z; r_flags : Z }.
Definition r_end (r : region) : Z := r_base r + r_size r.

Definition fst_ptr (l : list region) : Z := match l with [] => 0 | r :: _ => r_ptr r end.
Definition last_ptr (prev : Z) (l : list region) : Z := from_option r_ptr prev (last l).

(** The structs of the regions [l], linked in this order. *)
Fixpoint area_seg (m : gmap Z vm_area) (l : list region) (nx : Z) : Prop :=
  match l with
  | [] => True
  | r :: l => m !! r_ptr r = Some (mkArea (r_base r) (r_size r) (r_flags r)
                (match l with [] => nx | _ => fst_ptr l end)) ∧ area_seg m l nx
  end.

(** Whole pages, in increasing order and disjoint, starting in [[lo, hi)]. *)
Fixpoint sorted_from (lo hi : Z) (l : list region) : Prop :=
  match l with
  | [] => True
  | r :: l => lo ≤ r_base r < hi ∧ 0 < r_size r ∧ r_base r mod PAGING_PAGE_SIZE = 0 ∧
      r_size r mod PAGING_PAGE_SIZE = 0 ∧ r_end r < 2 ^ 64 ∧ sorted_from (r_end r) hi l
  end.

(** The addresses [[b, b + sz)] are in no region of [l]. *)
Definition free_at (l : list region) (b sz : Z) : Prop :=
  Forall (λ r, b + sz ≤ r_base r ∨ r_end r ≤ b) l.

Lemma area_seg_app m l1 l2 nx :
  area_seg m (l1 ++ l2) nx ↔
  area_seg m l1 (match l2 with [] => nx | _ => fst_ptr l2 end) ∧ area_seg m l2 nx.
Proof.
  induction l1 as [|r l1 IH]; simpl; [tauto|]. rewrite IH.
  destruct l1; simpl; [|tauto]. destruct l2; tauto.
Qed.

Lemma area_seg_frame m m' l nx :
  (∀ p, p ∈ (r_ptr <$> l) → m' !! p = m !! p) → area_seg m l nx → area_seg m' l nx.
Proof.
  induction l as [|r l IH]; simpl; [done|]. intros Hf [H1 H2]. split.
  - rewrite Hf //. by left.
  - apply IH; [|done]. intros p Hp. apply Hf. by right.
Qed.

Lemma sorted_from_mono lo lo' hi l : lo' ≤ lo → sorted_from lo hi l → sorted_from lo' hi l.
Proof. destruct l; simpl; [done|]. intros ? (? & ?). split; [lia|done]. Qed.

Lemma sorted_from_elem lo hi l r :
  sorted_from lo hi l → r ∈ l → lo ≤ r_base r < hi ∧ 0 < r_size r ∧ r_base r mod PAGING_PAGE_SIZE = 0 ∧
    r_size r mod PAGING_PAGE_SIZE = 0 ∧ r_end r < 2 ^ 64.
Proof.
  revert lo. induction l as [|x l IH]; intros lo; [by intros _ ?%not_elem_of_nil|].
  intros (H1 & H2 & H3 & H4 & H5 & H6) [->|Hr]%elem_of_cons; [done|].
  apply (IH _ H6) in Hr as (H7 & H8). rewrite /r_end in H7. split; [lia|done].
Qed.

Lemma sorted_from_remove lo hi l1 r l2 : sorted_from lo hi (l1 ++ r :: l2) → sorted_from lo hi (l1 ++ l2).
Proof.
  revert lo. induction l1 as [|x l1 IH]; intros lo; simpl.
  - intros (H1 & H2 & _ & _ & _ & H6). eapply sorted_from_mono; [|exact H6]. rewrite /r_end. lia.
  - intros (H1 & H2 & H3 & H4 & H5 & H6). by repeat split; try apply H1; auto.
Qed.

(** Regions of a sorted list are disjoint. *)
Lemma sorted_disjoint lo hi l i j r1 r2 :
  sorted_from lo hi l → (i < j)%nat → l !! i = Some r1 → l !! j = Some r2 → r_end r1 ≤ r_base r2.
Proof.
  revert lo i j. induction l as [|x l IH]; intros lo i j Hs Hij Hi Hj; [done|].
  destruct Hs as (H1 & H2 & H3 & H4 & H5 & H6). destruct j as [|j]; [lia|]. simpl in Hj.
  destruct i as [|i]; simpl in Hi.
  - injection Hi as <-. apply list_elem_of_lookup_2 in Hj. apply (sorted_from_elem _ _ _ _ H6) in Hj. lia.
  - apply (IH (r_end x) i j H6); [lia|done|done].
Qed.

(** An address lies in at most one region. *)
Lemma sorted_unique lo hi l1 r l2 v :
  sorted_from lo hi (l1 ++ r :: l2) → r_base r ≤ v < r_end r →
  Forall (λ x, ¬ r_base x ≤ v < r_end x) l1.
Proof.
  intros Hs Hv. apply Forall_forall. intros x (i & Hi)%list_elem_of_lookup Hx.
  assert (r_end x ≤ r_base r); [|lia].
  apply (sorted_disjoint lo hi (l1 ++ r :: l2) i (length l1)); [done|by apply lookup_lt_Some in Hi| |].
  - rewrite lookup_app_l //. by apply lookup_lt_Some in Hi.
  - by rewrite list_lookup_middle.
Qed.

(** ** The list of an address space *)
Section vmm.
Context {S : Type} `{FrameAlloc S}.
Implicit Types s : vmm_state S.

Definition region_start s (sp : Z) : Z := if sp =? kernel_vas s then VMM_KERNEL_START else VMM_USER_START.
Definition region_end s (sp : Z) : Z := if sp =? kernel_vas s then VMM_KERNEL_END else VMM_USER_END.

(** *** Searching *)

Lemma find_hole_ok l fuel prev cand sz hi s :
  area_seg (areas s) l 0 → Forall (λ r, r_ptr r ≠ 0) l → sorted_from cand hi l →
  0 ≤ cand < hi → cand mod PAGING_PAGE_SIZE = 0 → 0 < sz → sz mod PAGING_PAGE_SIZE = 0 → hi + sz < 2 ^ 64 →
  (length l < fuel)%nat →
  (find_hole fuel prev (fst_ptr l) cand sz hi s = Ok (None, s) ∧
     ∀ b, cand ≤ b → free_at l b sz → hi ≤ b) ∨
  (∃ l1 l2 c, l = l1 ++ l2 ∧
     find_hole fuel prev (fst_ptr l) cand sz hi s = Ok (Some (last_ptr prev l1, fst_ptr l2, c), s) ∧
     cand ≤ c < hi ∧ (∀ p f, sorted_from cand hi (l1 ++ mkRegion p c sz f :: l2)) ∧
     ∀ b, cand ≤ b → free_at l b sz → c ≤ b).
Proof.
  unfold PAGING_PAGE_SIZE. revert fuel prev cand. induction l as [|r l IH]; intros [|fuel] prev cand Hseg Hp Hs Hc Hcm Hsz Hszm Hhi Hf;
    try (simpl in Hf; lia).
  - right. exists [], [], cand. split; [done|]. split; [done|]. split; [lia|]. split; [|done].
    intros p f. simpl. unfold PAGING_PAGE_SIZE. rewrite /r_end /=. lia.
  - destruct Hs as (H1 & H2 & H3 & H4 & H5 & H6). apply Forall_cons in Hp as [Hp0 Hp].
    destruct Hseg as [Ha Hseg]. unfold PAGING_PAGE_SIZE in *.
    cbn [find_hole fst_ptr]. rewrite (proj2 (Z.eqb_neq _ 0) Hp0) /bind /read_area /reads Ha.
    cbn [base area_size area_next]. rewrite (u64_small (cand + sz)); [|lia]. rewrite u64_small; [|rewrite /r_end in H5; lia].
    destruct (Z.leb_spec (cand + sz) (r_base r)) as [Hle|Hgt]; cbn [andb].
    + rewrite (proj2 (Z.leb_le _ _)); [|lia]. right. exists [], (r :: l), cand.
      split; [done|]. split; [done|]. split; [lia|]. split; [|done].
      intros p f. simpl. unfold PAGING_PAGE_SIZE. rewrite /r_end /= in H5 H6 |- *. repeat split; try lia; done.
    + fold (r_end r). assert (∀ b, cand ≤ b → free_at (r :: l) b sz → r_end r ≤ b ∧ free_at l b sz) as Hmin.
      { intros b Hb [Hr Hl]%Forall_cons. split; [lia|done]. }
      destruct (Z.leb_spec hi (r_end r)) as [Hend|Hend].
      * left. split; [done|]. intros b Hb Hfr. destruct (Hmin b Hb Hfr). lia.
      * destruct (IH fuel (r_ptr r) (r_end r)) as [[E Hno]|(l1 & l2 & c & -> & E & Hcr & Hso & Hleast)];
          [by destruct l|done|done|rewrite /r_end in Hend |- *; lia|rewrite /r_end; lia|done|done|done|simpl in Hf; lia| |].
        -- left. destruct l; (split; [exact E|]); intros b Hb Hfr; destruct (Hmin b Hb Hfr); by apply Hno.
        -- right. exists (r :: l1), l2, c. split; [done|]. split.
           { rewrite /last_ptr last_cons. rewrite /last_ptr in E. destruct (last l1) eqn:El; destruct (l1 ++ l2); exact E. }
           split; [rewrite /r_end in Hcr; lia|]. split.
           { intros p f. simpl. unfold PAGING_PAGE_SIZE. repeat split; try lia. apply Hso. }
           intros b Hb Hfr. destruct (Hmin b Hb Hfr). by apply Hleast.
Qed.

Definition contains (v : Z) (r : region) : Prop := r_base r ≤ v < r_end r.
#[global] Instance contains_dec v r : Decision (contains v r).
Proof. rewrite /contains. apply _. Defined.

Lemma contains_bool v r : r_end r < 2 ^ 64 → 0 ≤ r_end r →
  (r_base r <=? v) && (v <? u64 (r_base r + r_size r)) = bool_decide (contains v r).
Proof.
  intros H1 H2. rewrite /r_end in H1 H2. rewrite u64_small; [|done]. rewrite /contains /r_end.
  case_bool_decide; [apply andb_true_iff|apply andb_false_iff]; rewrite ?Z.leb_le ?Z.ltb_lt ?Z.leb_gt ?Z.ltb_ge; lia.
Qed.

Lemma find_prev_ok l fuel prev v lo hi s :
  area_seg (areas s) l 0 → Forall (λ r, r_ptr r ≠ 0) l → 0 ≤ lo → sorted_from lo hi l → (length l < fuel)%nat →
  (find_prev fuel prev (fst_ptr l) v s = Ok (None, s) ∧ Forall (λ r, ¬ contains v r) l) ∨
  (∃ l1 r l2, l = l1 ++ r :: l2 ∧ contains v r ∧
     find_prev fuel prev (fst_ptr l) v s = Ok (Some (last_ptr prev l1, r_ptr r), s)).
Proof.
  revert fuel prev lo. induction l as [|r l IH]; intros [|fuel] prev lo Hseg Hp Hlo Hs Hf; try (simpl in Hf; lia).
  - left. split; [done|constructor].
  - destruct Hs as (H1 & H2 & H3 & H4 & H5 & H6). apply Forall_cons in Hp as [Hp0 Hp]. destruct Hseg as [Ha Hseg].
    cbn [find_prev fst_ptr]. rewrite (proj2 (Z.eqb_neq _ 0) Hp0) /bind /read_area /reads Ha. cbn [base area_size area_next].
    rewrite contains_bool; [|done|rewrite /r_end; lia]. case_bool_decide as Hc.
    + right. exists [], r, l. done.
    + destruct (IH fuel (r_ptr r) (r_end r)) as [[E Hno]|(l1 & x & l2 & -> & Hx & E)];
        [by destruct l|done|rewrite /r_end; lia|done|simpl in Hf; lia| |].
      * left. destruct l; (split; [exact E|]); by constructor.
      * right. exists (r :: l1), x, l2. split; [done|]. split; [done|].
        rewrite /last_ptr last_cons. rewrite /last_ptr in E. destruct (last l1) eqn:El; destruct l1; exact E.
Qed.

Lemma find_area_ok l fuel v lo hi s :
  area_seg (areas s) l 0 → Forall (λ r, r_ptr r ≠ 0) l → 0 ≤ lo → sorted_from lo hi l → (length l < fuel)%nat →
  (find_area fuel (fst_ptr l) v s = Ok (0, s) ∧ Forall (λ r, ¬ contains v r) l) ∨
  (∃ l1 r l2, l = l1 ++ r :: l2 ∧ contains v r ∧ find_area fuel (fst_ptr l) v s = Ok (r_ptr r, s)).
Proof.
  revert fuel lo. induction l as [|r l IH]; intros [|fuel] lo Hseg Hp Hlo Hs Hf; try (simpl in Hf; lia).
  - left. split; [done|constructor].
  - destruct Hs as (H1 & H2 & H3 & H4 & H5 & H6). apply Forall_cons in Hp as [Hp0 Hp]. destruct Hseg as [Ha Hseg].
    cbn [find_area fst_ptr]. rewrite (proj2 (Z.eqb_neq _ 0) Hp0) /bind /read_area /reads Ha. cbn [base area_size area_next].
    rewrite contains_bool; [|done|rewrite /r_end; lia]. case_bool_decide as Hc.
    + right. exists [], r, l. done.
    + destruct (IH fuel (r_end r)) as [[E Hno]|(l1 & x & l2 & -> & Hx & E)];
        [by destruct l|done|rewrite /r_end; lia|done|simpl in Hf; lia| |].
      * left. destruct l; (split; [exact E|]); by constructor.
      * right. exists (r :: l1), x, l2. split; [done|]. split; [done|]. by destruct l1.
Qed.

(** *** Linking and unlinking *)

(** The list after [r] has been inserted between [l1] and [l2]: the last struct of [l1]
    points at it. *)
Definition linked (m : gmap Z vm_area) (l1 : list region) (p : Z) : gmap Z vm_area :=
  match last l1 with
  | Some x => <[r_ptr x := mkArea (r_base x) (r_size x) (r_flags x) p]> m
  | None => m
  end.

Lemma linked_ne m l1 p q : q ∉ (r_ptr <$> l1) → linked m l1 p !! q = m !! q.
Proof.
  intros Hq. rewrite /linked. destruct (last l1) as [x|] eqn:E; [|done].
  apply last_Some_elem_of in E. rewrite lookup_insert_ne //. intros <-. by apply Hq, list_elem_of_fmap_2.
Qed.

Lemma area_seg_linked m l1 nx p :
  NoDup (r_ptr <$> l1) → area_seg m l1 nx → area_seg (linked m l1 p) l1 p.
Proof.
  intros Hnd Hseg. destruct l1 as [|x l1 _] using rev_ind; [done|].
  rewrite /linked last_snoc. rewrite fmap_app in Hnd. apply NoDup_app in Hnd as (_ & Hdis & _).
  apply area_seg_app in Hseg as [Hs1 _]. apply area_seg_app. split.
  - eapply area_seg_frame; [|exact Hs1]. intros q Hq. rewrite lookup_insert_ne //. intros <-.
    apply (Hdis _ Hq). by left.
  - simpl. by rewrite lookup_insert_eq.
Qed.

Lemma area_seg_last m l1 x nx :
  area_seg m (l1 ++ [x]) nx → m !! r_ptr x = Some (mkArea (r_base x) (r_size x) (r_flags x) nx).
Proof. intros [_ [Hx _]]%area_seg_app. done. Qed.

Lemma area_seg_insert m l1 r l2 :
  NoDup (r_ptr <$> (l1 ++ r :: l2)) → area_seg m (l1 ++ l2) 0 →
  area_seg (linked (<[r_ptr r := mkArea (r_base r) (r_size r) (r_flags r) (fst_ptr l2)]> m) l1 (r_ptr r))
    (l1 ++ r :: l2) 0.
Proof.
  intros Hnd Hseg. rewrite fmap_app /= in Hnd. apply NoDup_app in Hnd as (Hn1 & Hdis & [Hr Hn2]%NoDup_cons).
  apply area_seg_app in Hseg as [Hs1 Hs2]. apply area_seg_app. split.
  - eapply area_seg_linked; [done|]. eapply area_seg_frame; [|exact Hs1].
    intros q Hq. rewrite lookup_insert_ne //. intros <-. apply (Hdis _ Hq). by left.
  - simpl. split.
    + rewrite linked_ne; [|intros Hin; apply (Hdis _ Hin); by left]. rewrite lookup_insert_eq. by destruct l2.
    + eapply area_seg_frame; [|exact Hs2]. intros q Hq. rewrite linked_ne.
      * rewrite lookup_insert_ne //. by intros <-.
      * intros Hin. apply (Hdis _ Hin). by right.
Qed.

Lemma area_seg_unlink m l1 r l2 :
  NoDup (r_ptr <$> (l1 ++ r :: l2)) → area_seg m (l1 ++ r :: l2) 0 →
  area_seg (delete (r_ptr r) (linked m l1 (fst_ptr l2))) (l1 ++ l2) 0.
Proof.
  intros Hnd Hseg. rewrite fmap_app /= in Hnd. apply NoDup_app in Hnd as (Hn1 & Hdis & [Hr Hn2]%NoDup_cons).
  apply area_seg_app in Hseg as [Hs1 [_ Hs2]]. apply area_seg_app.
  assert (∀ q, q ∈ (r_ptr <$> l1) ∨ q ∈ (r_ptr <$> l2) → q ≠ r_ptr r) as Hne.
  { intros q [Hq|Hq] ->; [apply (Hdis _ Hq); by left|done]. }
  split.
  - eapply area_seg_frame; [|eapply area_seg_linked; [done|exact Hs1]].
    intros q Hq. rewrite lookup_delete_ne; [|by apply not_eq_sym, Hne; left]. by destruct l2.
  - eapply area_seg_frame; [|exact Hs2]. intros q Hq.
    rewrite lookup_delete_ne; [|by apply not_eq_sym, Hne; right]. rewrite linked_ne //.
    intros Hin. apply (Hdis _ Hin). by right.
Qed.

(** ** The lock of an address space *)

Lemma space_acquire_ok s sp a :
  spaces s !! sp = Some a → lock_free (space_lock a) →
  ∃ lk c, space_acquire sp s =
    Ok (rflags (vmm_cpu s), with_cpu c (with_spaces (<[sp := mkSpace (pml4_phys a) (region_list a) lk]> (spaces s)) s)) ∧
    lock_free (pass_turn lk).
Proof.
  intros Hsp Hfree. destruct (spinlock_acquire_free (space_lock a) (vmm_cpu s) Hfree) as (lk & c & E & Hheld & _).
  exists lk, c. rewrite /space_acquire /bind /read_space /reads Hsp /gets /lift /ask E. split; [done|].
  destruct (spinlock_release_held lk 0 c Hheld) as (l' & El & Hl'). rewrite /spinlock_irq_release in El. by injection El as ->.
Qed.

Lemma space_release_ok s sp a f :
  spaces s !! sp = Some a →
  space_release sp f s = Ok (tt, with_cpu (mkCpu f)
    (with_spaces (<[sp := mkSpace (pml4_phys a) (region_list a) (pass_turn (space_lock a))]> (spaces s)) s)).
Proof. intros Hsp. by rewrite /space_release /bind /read_space /reads Hsp. Qed.

(** ** Running the operations *)

(** An unlocked address space [sp] with the regions [l]. *)
Record space_rep s (sp : Z) (a : vm_address_space) (l : list region) : Prop := {
  sr_space : spaces s !! sp = Some a;
  sr_null : sp ≠ 0;
  sr_head : region_list a = fst_ptr l;
  sr_lock : lock_free (space_lock a);
  sr_seg : area_seg (areas s) l 0;
  sr_ptrs : NoDup (r_ptr <$> l) ∧ Forall (λ r, r_ptr r ≠ 0) l;
  sr_sorted : sorted_from (region_start s sp) (region_end s sp) l;
}.

Lemma area_fuel s l : area_seg (areas s) l 0 → NoDup (r_ptr <$> l) → (length l < areas_fuel s)%nat.
Proof.
  intros Hseg Hnd. rewrite /areas_fuel -(length_fmap r_ptr).
  rewrite -(size_list_to_set (C := gset Z)) // -size_dom. apply le_n_S, subseteq_size. intros x Hx.
  apply elem_of_list_to_set in Hx. apply elem_of_dom. clear Hnd. induction l as [|r l IH]; [by apply not_elem_of_nil in Hx|].
  destruct Hseg as [Hr Hseg]. apply elem_of_cons in Hx as [->|Hx]; [by eexists|by apply IH].
Qed.

Lemma region_bounds s sp :
  0 < region_start s sp < region_end s sp ∧ region_start s sp mod PAGING_PAGE_SIZE = 0 ∧
  region_end s sp + 2 ^ 31 < 2 ^ 64.
Proof. rewrite /region_start /region_end. by destruct (sp =? kernel_vas s). Qed.

(** Linking a new struct in, or the rest of the list past a struct. *)
Lemma link_run s sp rt lk l1 l2 q :
  spaces s !! sp = Some (mkSpace rt (fst_ptr (l1 ++ l2)) lk) →
  (∀ x, last l1 = Some x → r_ptr x ≠ 0 ∧ ∃ nx, areas s !! r_ptr x = Some (mkArea (r_base x) (r_size x) (r_flags x) nx)) →
  (if last_ptr 0 l1 =? 0 then set_region_list sp q else set_area_next (last_ptr 0 l1) q) s =
    Ok (tt, mkVmm (heap s) (vmm_cpu s) (kernel_vas s) (current_vas s)
              (<[sp := mkSpace rt (from_option r_ptr q (head l1)) lk]> (spaces s)) (linked (areas s) l1 q)).
Proof.
  intros Hsp Hlast. rewrite /last_ptr /linked. destruct l1 as [|x l1 _] using rev_ind.
  - cbn [last from_option]. rewrite Z.eqb_refl /set_region_list /bind /read_space /reads Hsp. done.
  - rewrite last_snoc. cbn [from_option]. rewrite last_snoc in Hlast. destruct (Hlast x eq_refl) as (Hx & nx & Ex).
    rewrite (proj2 (Z.eqb_neq _ 0) Hx) /set_area_next /bind /read_area /reads Ex.
    rewrite /write_area /modify /with_areas. cbn [base area_size flags]. do 3 f_equal.
    rewrite insert_id //. rewrite Hsp. by destruct l1.
Qed.

Lemma seg_last m l1 l2 x :
  area_seg m (l1 ++ l2) 0 → last l1 = Some x →
  ∃ nx, m !! r_ptr x = Some (mkArea (r_base x) (r_size x) (r_flags x) nx).
Proof.
  intros [Hseg _]%area_seg_app [l ->]%last_Some. eexists. by eapply area_seg_last.
Qed.

(** The flags an area is created with. *)
Definition area_flags s (sp fl : Z) : Z :=
  if sp =? kernel_vas s then (if has fl VMM_FLAGS_USER then Z.ldiff fl VMM_FLAGS_USER else fl) else fl.

(** What [vmm_alloc] does to the page tables. *)
Definition backing (root b arg sz fl : Z) : M (paging_state S) unit :=
  if has fl VMM_FLAGS_MMIO then
    off <- gets hhdm_offset;;
    paging_map_region (hhdm_physToVirt off root) b arg sz (vmm_generic_to_x86_flags fl) false
  else if has fl VMM_FLAGS_ANON then ret tt else fail Halt.

(** The state when an operation on [sp] has returned. *)
Definition returned_vmm s (sp : Z) (a : vm_address_space) (h : kheap_state S) (head : Z) lk m : vmm_state S :=
  mkVmm h (vmm_cpu s) (kernel_vas s) (current_vas s) (<[sp := mkSpace (pml4_phys a) head lk]> (spaces s)) m.

Lemma release_done s sp a c h rl lk0 lk m :
  with_cpu (mkCpu (rflags (vmm_cpu s))) (with_spaces (<[sp := mkSpace (pml4_phys a) rl lk]>
    (<[sp := mkSpace (pml4_phys a) rl lk0]> (spaces s))) (mkVmm h c (kernel_vas s) (current_vas s)
    (<[sp := mkSpace (pml4_phys a) rl lk0]> (spaces s)) m)) = returned_vmm s sp a h rl lk m.
Proof. rewrite insert_insert_eq /returned_vmm /with_cpu /with_spaces /=. by destruct (vmm_cpu s). Qed.

Lemma vmm_alloc_run s sp a l sz fl arg :
  space_rep s sp a l → let z := round_up sz in let fl' := area_flags s sp fl in
  0 < z ≤ 2 ^ 31 → z mod PAGING_PAGE_SIZE = 0 →
  ∃ lk, lock_free lk ∧
  ((vmm_alloc sp sz fl arg s = Ok (0, returned_vmm s sp a (heap s) (region_list a) lk (areas s)) ∧
      ∀ b, region_start s sp ≤ b → free_at l b z → region_end s sp ≤ b) ∨
   (∃ l1 l2 c, l = l1 ++ l2 ∧ region_start s sp ≤ c < region_end s sp ∧
      (∀ p f, sorted_from (region_start s sp) (region_end s sp) (l1 ++ mkRegion p c z f :: l2)) ∧
      (∀ b, region_start s sp ≤ b → free_at l b z → c ≤ b) ∧
      (∀ e, kmalloc sizeof_vm_area (heap s) = Err e → vmm_alloc sp sz fl arg s = Err e) ∧
      ∀ p h, p ∉ (r_ptr <$> l) → kmalloc sizeof_vm_area (heap s) = Ok (p, h) →
      vmm_alloc sp sz fl arg s =
        if p =? 0 then Ok (0, returned_vmm s sp a h (region_list a) lk (areas s))
        else match backing (pml4_phys a) c arg z fl' (paging h) with
             | Err e => Err e
             | Ok (_, P) => Ok (c, returned_vmm s sp a (with_paging P h) (fst_ptr (l1 ++ [mkRegion p c z fl'])) lk
                 (linked (<[p := mkArea c z fl' (fst_ptr l2)]> (areas s)) l1 p))
             end)).
Proof.
  intros [Hsp Hnull Hhead Hlk Hseg [Hnd Hnz] Hsort] z fl' Hz Hzm.
  destruct (space_acquire_ok s sp a Hsp Hlk) as (lk & c0 & Ea & Hlk'). exists (pass_turn lk). split; [done|].
  destruct (region_bounds s sp) as (Hb1 & Hb2 & Hb3).
  set s1 := with_cpu c0 _ in Ea.
  assert (spaces s1 !! sp = Some (mkSpace (pml4_phys a) (region_list a) lk)) as Hsp1 by apply lookup_insert_eq.
  eassert (vmm_alloc sp sz fl arg s =
    bind (find_hole (areas_fuel s1) 0 (fst_ptr l) (region_start s sp) z (region_end s sp)) _ s1) as Erun.
  { rewrite /vmm_alloc -/z. rewrite (proj2 (Z.eqb_neq sp 0) Hnull) (proj2 (Z.eqb_neq z 0)); [|lia]. cbn [orb].
    rewrite {1}/bind Ea. rewrite {1}/bind {1}/gets. change (kernel_vas s1) with (kernel_vas s).
    assert ((if sp =? kernel_vas s
        then (VMM_KERNEL_START, VMM_KERNEL_END, if has fl VMM_FLAGS_USER then Z.ldiff fl VMM_FLAGS_USER else fl)
        else (VMM_USER_START, VMM_USER_END, fl)) = (region_start s sp, region_end s sp, fl')) as ->.
    { rewrite /fl' /area_flags /region_start /region_end. by destruct (sp =? kernel_vas s). }
    rewrite {1}/bind {1}/read_space {1}/reads Hsp1. rewrite {1}/bind {1}/gets. cbn [region_list]. rewrite Hhead.
    reflexivity. }
  rewrite {1}/bind in Erun.
  destruct (find_hole_ok l (areas_fuel s1) 0 (region_start s sp) z (region_end s sp) s1) as
    [[E Hno]|(l1 & l2 & c & El & E & Hc & Hso & Hmin)];
    [done|done|done|lia|done|lia|done|lia|by apply (area_fuel s)| |].
  - left. split; [|done]. rewrite Erun E. rewrite /bind (space_release_ok s1 sp _ _ Hsp1) /ret. cbn [pml4_phys region_list space_lock].
    by rewrite -(release_done s sp a c0 _ _ lk).
  - right. exists l1, l2, c. do 4 (split; [done|]). split.
    { intros e Ek. rewrite Erun E {1}/bind /on_heap. change (heap s1) with (heap s). by rewrite Ek. }
    intros p h Hp Ek.
    rewrite Erun E. rewrite {1}/bind {1}/on_heap. change (heap s1) with (heap s). rewrite Ek.
    set s2 := with_heap h s1.
    assert (spaces s2 !! sp = Some (mkSpace (pml4_phys a) (region_list a) lk)) as Hsp2 by done.
    destruct (Z.eqb_spec p 0) as [->|Hp0].
    { rewrite /bind (space_release_ok s2 sp _ _ Hsp2) /ret. cbn [pml4_phys region_list space_lock].
      by rewrite -(release_done s sp a c0 _ _ lk). }
    set s3 := mkVmm h c0 (kernel_vas s) (current_vas s)
      (<[sp := mkSpace (pml4_phys a) (fst_ptr (l1 ++ [mkRegion p c z fl'])) lk]> (spaces s))
      (linked (<[p := mkArea c z fl' (fst_ptr l2)]> (areas s)) l1 p).
    assert ((write_area p (mkArea c z fl' (fst_ptr l2));;;
      (if last_ptr 0 l1 =? 0 then set_region_list sp p else set_area_next (last_ptr 0 l1) p)) s2 = Ok (tt, s3)) as El3.
    { rewrite /bind {1}/write_area {1}/modify.
      rewrite (link_run _ sp (pml4_phys a) lk l1 l2); [|by rewrite -El -Hhead|].
      - rewrite /s3. cbn. rewrite insert_insert_eq. by destruct l1.
      - intros x Hx. pose proof (last_Some_elem_of _ _ Hx) as Hin. split.
        + rewrite El Forall_app in Hnz. destruct Hnz as [Hnz _]. rewrite Forall_forall in Hnz. by apply Hnz.
        + cbn. rewrite lookup_insert_ne; [rewrite El in Hseg; by apply (seg_last _ _ _ _ Hseg)|].
          intros ->. apply Hp. rewrite El fmap_app elem_of_app. left. by apply list_elem_of_fmap_2. }
    rewrite /bind in El3 |- *. destruct (write_area _ _ s2) as [[[] s2']|]; [|done]. rewrite El3.
    assert (areas s3 !! p = Some (mkArea c z fl' (fst_ptr l2))) as Ha3.
    { simpl. rewrite linked_ne; [by rewrite lookup_insert_eq|]. intros Hin. apply Hp. rewrite El fmap_app elem_of_app. by left. }
    assert (spaces s3 !! sp = Some (mkSpace (pml4_phys a) (fst_ptr (l1 ++ [mkRegion p c z fl'])) lk)) as Hsp3 by apply lookup_insert_eq.
    rewrite /backing. destruct (has fl' VMM_FLAGS_MMIO).
    + rewrite /read_area /read_space {1}/reads Ha3 /reads Hsp3 /on_tables /on_heap /on_paging. cbn [base pml4_phys].
      change (paging (heap s3)) with (paging h). rewrite /bind /gets.
      destruct (paging_map_region _ _ _ _ _ _ (paging h)) as [[[] P]|]; [|done].
      change (heap s3) with h. set s4 := with_heap (with_paging P h) s3.
      rewrite (space_release_ok s4 sp _ _ Hsp3). cbn [areas with_cpu with_spaces s4 with_heap]. rewrite Ha3 /ret.
      cbn [pml4_phys region_list space_lock base]. by rewrite -(release_done s sp a c0 _ _ lk).
    + destruct (has fl' VMM_FLAGS_ANON); rewrite /ret (space_release_ok s3 sp _ _ Hsp3); [|done].
      rewrite /read_area /reads. cbn [areas with_cpu with_spaces]. rewrite Ha3.
      cbn [pml4_phys region_list space_lock base]. rewrite -(release_done s sp a c0 _ _ lk).
      by destruct h.
Qed.

(** What [vmm_free] does to the page tables. *)
Definition unbacking (root : Z) (r : region) : M (paging_state S) unit :=
  off <- gets hhdm_offset;;
  paging_unmap_region (hhdm_physToVirt off root) (r_base r) (r_size r) false
    (negb (has (r_flags r) VMM_FLAGS_MMIO)).

Lemma vmm_free_run s sp a l addr :
  space_rep s sp a l → addr ≠ 0 →
  ∃ lk, lock_free lk ∧
  ((vmm_free sp addr s = Ok (tt, returned_vmm s sp a (heap s) (region_list a) lk (areas s)) ∧
      Forall (λ r, ¬ contains addr r) l) ∨
   (∃ l1 r l2, l = l1 ++ r :: l2 ∧ contains addr r ∧
      vmm_free sp addr s =
        match unbacking (pml4_phys a) r (paging (heap s)) with
        | Err e => Err e
        | Ok (_, P) =>
            match kfree (r_ptr r) (with_paging P (heap s)) with
            | Err e => Err e
            | Ok (_, h) => Ok (tt, returned_vmm s sp a h (fst_ptr (l1 ++ l2)) lk
                (delete (r_ptr r) (linked (areas s) l1 (fst_ptr l2))))
            end
        end)).
Proof.
  intros [Hsp Hnull Hhead Hlk Hseg [Hnd Hnz] Hsort] Haddr.
  destruct (space_acquire_ok s sp a Hsp Hlk) as (lk & c0 & Ea & Hlk'). exists (pass_turn lk). split; [done|].
  destruct (region_bounds s sp) as (Hb1 & Hb2 & Hb3).
  set s1 := with_cpu c0 _ in Ea.
  assert (spaces s1 !! sp = Some (mkSpace (pml4_phys a) (region_list a) lk)) as Hsp1 by apply lookup_insert_eq.
  eassert (vmm_free sp addr s = bind (find_prev (areas_fuel s1) 0 (fst_ptr l) addr) _ s1) as Erun.
  { rewrite /vmm_free (proj2 (Z.eqb_neq sp 0) Hnull) (proj2 (Z.eqb_neq addr 0) Haddr). cbn [orb].
    rewrite {1}/bind Ea. rewrite {1}/bind {1}/read_space {1}/reads Hsp1. rewrite {1}/bind {1}/gets. cbn [region_list].
    rewrite Hhead. reflexivity. }
  rewrite {1}/bind in Erun.
  destruct (find_prev_ok l (areas_fuel s1) 0 addr (region_start s sp) (region_end s sp) s1) as
    [[E Hno]|(l1 & r & l2 & El & Hr & E)]; [done|done|lia|done|by apply (area_fuel s)| |].
  - left. split; [|done]. rewrite Erun E (space_release_ok s1 sp _ _ Hsp1). cbn [pml4_phys region_list space_lock].
    by rewrite -(release_done s sp a c0 _ _ lk).
  - right. exists l1, r, l2. split; [done|]. split; [done|]. rewrite Erun E.
    assert (areas s1 !! r_ptr r = Some (mkArea (r_base r) (r_size r) (r_flags r) (fst_ptr l2))) as Hrr.
    { simpl. rewrite El in Hseg. apply area_seg_app in Hseg as [_ [Hrr _]]. by destruct l2. }
    rewrite {1}/bind {1}/read_area {1}/reads Hrr. cbn [area_next base area_size flags]. rewrite {1}/bind.
    rewrite (link_run s1 sp (pml4_phys a) lk l1 (r :: l2)); [|by rewrite -El -Hhead|].
    2:{ intros x Hx. split; [|rewrite El in Hseg; by apply (seg_last _ _ _ _ Hseg)].
        apply last_Some_elem_of in Hx. rewrite El Forall_app in Hnz. destruct Hnz as [Hnz _].
        rewrite Forall_forall in Hnz. by apply Hnz. }
    set s2 := mkVmm _ _ _ _ _ _. set hd := from_option r_ptr _ _ in s2 *.
    assert (hd = fst_ptr (l1 ++ l2)) as Ehd by (rewrite /hd; by destruct l1).
    assert (spaces s2 !! sp = Some (mkSpace (pml4_phys a) hd lk)) as Hsp2 by apply lookup_insert_eq.
    rewrite {1}/bind {1}/read_space {1}/reads Hsp2 {1}/bind /on_tables {1}/on_heap {1}/on_paging.
    change (heap s2) with (heap s). rewrite /unbacking. cbn [pml4_phys].
    destruct (bind (gets hhdm_offset) _ (paging (heap s))) as [[[] P]|]; [|done].
    rewrite {1}/bind /free_area {1}/bind {1}/on_heap. cbn [heap with_heap].
    destruct (kfree (r_ptr r) (with_paging P (heap s))) as [[[] h]|]; [|done].
    rewrite {1}/modify. set s3 := with_areas _ _.
    rewrite (space_release_ok s3 sp _ _ Hsp2). cbn [pml4_phys region_list space_lock].
    rewrite -Ehd -(release_done s sp a c0 _ _ lk). simpl. rewrite /s3 /s2 !insert_insert_eq. done.
Qed.

(** *** Page faults *)

(** The page fault handler's work on the page tables: a zeroed frame, mapped at [cr2]. *)
Definition demand_page (root cr2 fl : Z) : M (paging_state S) unit :=
  phys_page <- on_frames (fa_alloc PAGING_PAGE_SIZE);;
  if phys_page =? 0 then fail Halt
  else
    off <- gets hhdm_offset;;
    clear_page (hhdm_physToVirt off phys_page);;;
    paging_map_page (hhdm_physToVirt off root) cr2 phys_page (vmm_generic_to_x86_flags fl) false.

(** The address space a fault at [cr2] belongs to. *)
Definition fault_space s (cr2 : Z) : Z := if VMM_KERNEL_START <=? cr2 then kernel_vas s else current_vas s.

Lemma fault_run s a l cr2 ec :
  let sp := fault_space s cr2 in
  space_rep s sp a l →
  (Forall (λ r, ¬ contains cr2 r) l ∧ vmm_page_fault_handler cr2 ec s = Err Halt) ∨
  (∃ l1 r l2 lk, l = l1 ++ r :: l2 ∧ contains cr2 r ∧ lock_free lk ∧
     vmm_page_fault_handler cr2 ec s =
       if has ec PAGE_FAULT_PRESENT then Err Halt
       else match demand_page (pml4_phys a) cr2 (r_flags r) (paging (heap s)) with
            | Err e => Err e
            | Ok (_, P) => Ok (tt, returned_vmm s sp a (with_paging P (heap s)) (region_list a) lk (areas s))
            end).
Proof.
  intros sp [Hsp Hnull Hhead Hlk Hseg [Hnd Hnz] Hsort].
  destruct (space_acquire_ok s sp a Hsp Hlk) as (lk & c0 & Ea & Hlk').
  destruct (region_bounds s sp) as (Hb1 & Hb2 & Hb3).
  set s1 := with_cpu c0 _ in Ea.
  assert (spaces s1 !! sp = Some (mkSpace (pml4_phys a) (region_list a) lk)) as Hsp1 by apply lookup_insert_eq.
  eassert (vmm_page_fault_handler cr2 ec s = bind (find_area (areas_fuel s1) (fst_ptr l) cr2) _ s1) as Erun.
  { rewrite /vmm_page_fault_handler {1}/bind {1}/gets {1}/bind {1}/gets. fold (fault_space s cr2). fold sp.
    rewrite {1}/bind Ea {1}/bind /vmm_get_vm_area (proj2 (Z.eqb_neq sp 0) Hnull).
    rewrite {1}/bind {1}/read_space {1}/reads Hsp1. rewrite {1}/bind {1}/gets. cbn [region_list].
    rewrite Hhead. reflexivity. }
  rewrite {1}/bind in Erun.
  destruct (find_area_ok l (areas_fuel s1) cr2 (region_start s sp) (region_end s sp) s1) as
    [[E Hno]|(l1 & r & l2 & El & Hr & E)]; [done|done|lia|done|by apply (area_fuel s)| |].
  { left. split; [done|]. by rewrite Erun E. }
  right. exists l1, r, l2, (pass_turn lk). split; [done|]. split; [done|]. split; [done|].
  assert (areas s1 !! r_ptr r = Some (mkArea (r_base r) (r_size r) (r_flags r) (fst_ptr l2))) as Hrr.
  { simpl. rewrite El in Hseg. apply area_seg_app in Hseg as [_ [Hrr _]]. by destruct l2. }
  rewrite Erun E. rewrite El Forall_app Forall_cons in Hnz. destruct Hnz as (_ & Hr0 & _).
  rewrite (proj2 (Z.eqb_neq _ 0) Hr0) {1}/bind {1}/read_area {1}/reads Hrr. cbn [flags].
  destruct (has ec PAGE_FAULT_PRESENT).
  { rewrite /bind. by destruct (_ && _), (_ && _). }
  rewrite {1}/bind {1}/ret /demand_page. rewrite /bind. rewrite /on_tables /on_heap /on_paging.
  change (heap s1) with (heap s).
  destruct (on_frames (fa_alloc PAGING_PAGE_SIZE) (paging (heap s))) as [[f P1]|]; [|done].
  destruct (f =? 0); [done|]. rewrite /gets. cbn [heap with_heap paging with_paging].
  rewrite /clear_page /modify. cbn [heap with_heap paging with_paging].
  rewrite /read_space /reads. cbn [spaces with_heap]. rewrite Hsp1. cbn [pml4_phys].
  destruct (paging_map_page _ _ _ _ _ _) as [[[] P]|]; [|done].
  erewrite space_release_ok; [|exact Hsp1]. cbn [pml4_phys region_list space_lock].
  by rewrite -(release_done s sp a c0 _ _ lk).
Qed.
End vmm.
