(* ===== verification/VmmInv.v ===== *)
(** * The virtual memory manager: invariant

    All address spaces together: their lists of areas, whose structs are blocks of the
    kernel heap that nobody else holds. Every operation keeps this invariant. *)

From stdpp Require Import base gmap list numbers functions.
From S2P Require Import Prelude Spinlock Hhdm FrameAlloc Paging Kheap KheapSpec KheapThms Vmm VmmSpec.

#[local] Ltac Zify.zify_post_hook ::= Z.to_euclidean_division_equations.

Section inv.
Context {S : Type} `{FrameAllocSpec S}.
Implicit Types (s : vmm_state S) (h : kheap_state S) (W : gmap Z (list region)).

(** ** The heap as its clients see it *)

Lemma client_perm h live live' : live ≡ₚ live' → client_inv (h, live) → client_inv (h, live').
Proof.
  intros Hp (L & B & Hr & HB & HL). simpl in *.
  destruct (Permutation_Forall2 Hp HB) as (B' & Hp' & HB'). exists L, B'.
  split; [done|]. split; [done|]. simpl. by rewrite -Hp'.
Qed.

Lemma client_paging h live P : client_inv (h, live) → client_inv (with_paging P h, live).
Proof. intros (L & B & Hr & HB & HL). exists L, B. split; [|done]. destruct Hr. by split. Qed.

Lemma client_nodup h live : client_inv (h, live) → NoDup live.*1 ∧ Forall (λ c, c.1 ≠ 0) live.
Proof.
  intros (L & B & Hr & HB & HL). simpl in *.
  assert (NoDup (used (kheap_start h) L).*1) as Hnd.
  { apply NoDup_alt. intros i j x Hi Hj.
    rewrite list_lookup_fmap in Hi. rewrite list_lookup_fmap in Hj.
    destruct (used _ _ !! i) as [[x1 z1]|] eqn:Ei; [|done]. destruct (used _ _ !! j) as [[x2 z2]|] eqn:Ej; [|done].
    injection Hi as ->. injection Hj as ->.
    pose proof (used_disjoint (kheap_start h) L (hr_sizes _ _ _ Hr)) as Hd.
    destruct (decide (i < j)%nat) as [Hlt|]; [|destruct (decide (j < i)%nat) as [Hlt|]; [|lia]].
    - pose proof (Hd _ _ _ _ _ _ Hlt Ei Ej). apply list_elem_of_lookup_2 in Ei.
      destruct (used_split _ _ _ _ Ei) as (L1 & L2 & -> & ->).
      pose proof (rep_bounds h false L1 z1 false L2 Hr) as Hb. cbv zeta in Hb. lia.
    - pose proof (Hd _ _ _ _ _ _ Hlt Ej Ei). apply list_elem_of_lookup_2 in Ej.
      destruct (used_split _ _ _ _ Ej) as (L1 & L2 & -> & ->).
      pose proof (rep_bounds h false L1 z2 false L2 Hr) as Hb. cbv zeta in Hb. lia. }
  assert (live.*1 = (λ b, b.1 + 24) <$> B) as ->.
  { clear - HB. induction HB as [|c b l B [Hc _] _ IH]; [done|]. rewrite !fmap_cons Hc IH. done. }
  split.
  - assert (Inj eq eq (λ x, x + 24)) by (intros x y; lia).
    rewrite (list_fmap_compose fst (λ x, x + 24) B). apply NoDup_fmap_2; [done|]. by rewrite HL.
  - apply Forall_forall. intros c (i & Hi)%list_elem_of_lookup.
    destruct (Forall2_lookup_l _ _ _ _ _ HB Hi) as ([a bs] & Hb & [Ep _]). simpl in Ep.
    apply list_elem_of_lookup_2 in Hb. rewrite HL in Hb. pose proof (used_positive h L _ _ Hr Hb). lia.
Qed.

Lemma client_kmalloc h live sz p h' :
  client_inv (h, live) → 0 ≤ sz ≤ 2 ^ 64 - 16 → room_for h sz → kmalloc sz h = Ok (p, h') →
  if decide (p = 0) then client_inv (h', live) else client_inv (h', (p, sz) :: live).
Proof.
  intros Hc Hsz Hroom E. case_decide as Hp.
  - subst. eapply heap_step_inv; [exact Hc|]. by eapply h_alloc_null.
  - eapply heap_step_inv; [exact Hc|]. by apply h_alloc.
Qed.

Lemma client_kfree h live l p sz h' :
  client_inv (h, live) → live ≡ₚ (p, sz) :: l → kfree p h = Ok (tt, h') → client_inv (h', l).
Proof.
  intros Hc Hp E. eapply client_perm in Hc; [|exact Hp].
  eapply heap_step_inv; [exact Hc|]. by eapply (h_free _ [] p sz l).
Qed.

(** ** Who holds the structs *)

(** The structs of all address spaces and their areas. *)
Definition own W : list Z := concat ((λ x, x.1 :: (r_ptr <$> x.2)) <$> map_to_list W).

Lemma own_empty : own ∅ = [].
Proof. by rewrite /own map_to_list_empty. Qed.

Lemma own_insert W sp l : own (<[sp := l]> W) ≡ₚ sp :: (r_ptr <$> l) ++ own (delete sp W).
Proof.
  rewrite -insert_delete_eq /own map_to_list_insert; [|apply lookup_delete_eq]. done.
Qed.

Lemma own_lookup W sp l : W !! sp = Some l → own W ≡ₚ sp :: (r_ptr <$> l) ++ own (delete sp W).
Proof. intros Hl. rewrite -{1}(insert_id W sp l Hl). apply own_insert. Qed.

Lemma own_elem W sp l p : W !! sp = Some l → p = sp ∨ p ∈ (r_ptr <$> l) → p ∈ own W.
Proof.
  intros Hl Hp. rewrite (own_lookup W sp l Hl) elem_of_cons elem_of_app. tauto.
Qed.

Lemma own_delete W sp l : W !! sp = Some l → NoDup (own W) →
  sp ∉ own (delete sp W) ∧ NoDup (r_ptr <$> l) ∧ (∀ p, p ∈ (r_ptr <$> l) → p ∉ own (delete sp W)).
Proof.
  intros Hl Hnd. rewrite (own_lookup W sp l Hl) in Hnd.
  apply NoDup_cons in Hnd as [Hsp (Hn1 & Hn2 & _)%NoDup_app]. rewrite elem_of_app in Hsp. tauto.
Qed.

(** The heap holds the structs of [W] and the blocks [others] of the rest of the kernel. *)
Definition holds_structs h W (others : list (Z * Z)) : Prop :=
  client_inv (h, ((λ p, (p, 32)) <$> own W) ++ others).

Lemma holds_own h W others : holds_structs h W others → NoDup (own W) ∧ Forall (λ p, p ≠ 0) (own W).
Proof.
  intros [Hnd Hnz]%client_nodup. rewrite fmap_app -list_fmap_compose in Hnd. split.
  - apply NoDup_app in Hnd as (Hnd & _ & _). by rewrite list_fmap_id in Hnd.
  - apply Forall_app in Hnz as [Hnz _]. by rewrite Forall_fmap in Hnz.
Qed.

Lemma holds_perm h live W others :
  client_inv (h, live) → live ≡ₚ ((λ p, (p, 32)) <$> own W) ++ others → holds_structs h W others.
Proof. intros Hc Hp. by eapply client_perm. Qed.

(** ** The invariant *)
Record vmm_rep s W (others : list (Z * Z)) : Prop := {
  vr_dom : dom W =@{gset Z} dom (spaces s);
  vr_space : ∀ sp l, W !! sp = Some l → ∃ a, space_rep s sp a l;
  vr_heap : holds_structs (heap s) W others;
  vr_kernel : is_Some (W !! kernel_vas s);
  vr_current : is_Some (W !! current_vas s);
}.

(** Changing the list of one space, and the heap. *)
Lemma rep_update s W others sp a l l' h lk m :
  vmm_rep s W others → W !! sp = Some l → space_rep s sp a l → lock_free lk →
  area_seg m l' 0 → (∀ p, p ∉ (r_ptr <$> l) → p ∉ (r_ptr <$> l') → m !! p = areas s !! p) →
  sorted_from (region_start s sp) (region_end s sp) l' →
  holds_structs h (<[sp := l']> W) others →
  vmm_rep (returned_vmm s sp a h (fst_ptr l') lk m) (<[sp := l']> W) others.
Proof.
  intros Hrep Hl Hsr Hlk Hseg Hm Hso Hh.
  destruct (holds_own _ _ _ Hh) as [Hnd' Hnz']. destruct (holds_own _ _ _ (vr_heap _ _ _ Hrep)) as [Hnd Hnz].
  destruct (own_delete _ sp l' (lookup_insert_eq _ _ _) Hnd') as (_ & Hnl' & Hd').
  destruct (own_delete _ sp l Hl Hnd) as (_ & _ & Hd).
  rewrite (delete_insert_eq W) in Hd'. split; simpl.
  - by rewrite !dom_insert_L (vr_dom _ _ _ Hrep).
  - intros sp2 l2 [[<- <-]|[Hne Hl2]]%lookup_insert_Some.
    + exists (mkSpace (pml4_phys a) (fst_ptr l') lk). split; simpl; try done; [by rewrite lookup_insert_eq|apply Hsr|].
      split; [done|]. rewrite (own_insert W sp l') in Hnz'. apply Forall_cons in Hnz' as [_ [Hnz' _]%Forall_app].
      by rewrite Forall_fmap in Hnz'.
    + destruct (vr_space _ _ _ Hrep sp2 l2 Hl2) as [a2 [H1 H2 H3 H4 H5 H6 H7]]. exists a2.
      split; simpl; try done; [by rewrite lookup_insert_ne|]. eapply area_seg_frame; [|exact H5].
      intros p Hp. assert (p ∈ own (delete sp W)) as Hown.
      { apply (own_elem _ sp2 l2); [by rewrite lookup_delete_ne|by right]. }
      apply Hm; [intros Hin; by apply (Hd p)|intros Hin; by apply (Hd' p)].
  - done.
  - apply lookup_insert_is_Some. destruct (decide (sp = kernel_vas s)); [by left|right]. split; [done|apply Hrep].
  - apply lookup_insert_is_Some. destruct (decide (sp = current_vas s)); [by left|right]. split; [done|apply Hrep].
Qed.

(** Nothing but the heap, the page tables and the lock changed. *)
Lemma rep_same s W others sp a l h lk :
  vmm_rep s W others → W !! sp = Some l → space_rep s sp a l → lock_free lk → holds_structs h W others →
  vmm_rep (returned_vmm s sp a h (region_list a) lk (areas s)) W others.
Proof.
  intros Hrep Hl Hsr Hlk Hh. rewrite (sr_head _ _ _ _ Hsr). rewrite -(insert_id W sp l Hl).
  eapply rep_update; try done; try apply Hsr. by rewrite insert_id.
Qed.

(** ** The operations keep it *)

Lemma round_up_ok sz :
  0 ≤ sz ≤ 2 ^ 31 → sz ≤ round_up sz ≤ 2 ^ 31 ∧ round_up sz < sz + PAGING_PAGE_SIZE ∧ round_up sz mod PAGING_PAGE_SIZE = 0.
Proof.
  intros Hsz. rewrite /round_up /PAGING_PAGE_SIZE. destruct (Z.eqb_spec (sz mod 4096) 0); cbn [negb]; [lia|].
  rewrite u64_small; lia.
Qed.

Lemma vmm_alloc_rep s W others sp l sz fl arg r s' :
  vmm_rep s W others → W !! sp = Some l → 0 ≤ sz ≤ 2 ^ 31 → room_for (heap s) 32 →
  vmm_alloc sp sz fl arg s = Ok (r, s') →
  (r = 0 ∧ vmm_rep s' W others) ∨
  (∃ l1 l2 p, l = l1 ++ l2 ∧ 0 < sz ∧ region_start s sp ≤ r < region_end s sp ∧
     vmm_rep s' (<[sp := l1 ++ mkRegion p r (round_up sz) (area_flags s sp fl) :: l2]> W) others).
Proof.
  intros Hrep Hl Hsz Hroom E. destruct (vr_space _ _ _ Hrep sp l Hl) as [a Hsr].
  destruct (round_up_ok sz Hsz) as (Hz & Hz' & Hzm).
  destruct (decide (round_up sz = 0)) as [E0|Hz0].
  { left. rewrite /vmm_alloc E0 orb_true_r in E. by injection E as <- <-. }
  destruct (vmm_alloc_run s sp a l sz fl arg Hsr ltac:(lia) Hzm) as (lk & Hlk & [[Er _]|(l1 & l2 & c & El & Hc & Hso & _ & Herr & Hrun)]).
  - left. rewrite Er in E. injection E as <- <-. split; [done|]. by eapply rep_same; try apply Hrep.
  - destruct (kmalloc sizeof_vm_area (heap s)) as [[p h]|e] eqn:Ek; [|by rewrite (Herr e eq_refl) in E].
    pose proof (client_kmalloc _ _ sizeof_vm_area _ _ (vr_heap _ _ _ Hrep) ltac:(done) Hroom Ek) as Hcl.
    assert (p ∉ (r_ptr <$> l)) as Hp.
    { intros Hin. assert (p ∈ own W) as Hown by (apply (own_elem W sp l); auto). case_decide as Hp0.
      - destruct (holds_own _ _ _ (vr_heap _ _ _ Hrep)) as [_ Hnz]. rewrite Forall_forall in Hnz. by apply (Hnz p).
      - apply client_nodup in Hcl as [Hnd _]. rewrite fmap_cons NoDup_cons fmap_app elem_of_app in Hnd. apply Hnd. left.
        rewrite -list_fmap_compose. apply list_elem_of_fmap. by exists p. }
    rewrite (Hrun p h Hp eq_refl) in E. destruct (Z.eqb_spec p 0) as [->|Hp0].
    { left. injection E as <- <-. split; [done|]. by eapply rep_same. }
    destruct (backing _ _ _ _ _ (paging h)) as [[[] P]|] eqn:Eb; [|done]. injection E as <- <-.
    right. exists l1, l2, p. split; [done|]. split; [destruct (decide (sz = 0)) as [->|]; [done|lia]|]. split; [done|]. set x := mkRegion p c _ _.
    assert (holds_structs (with_paging P h) (<[sp := l1 ++ x :: l2]> W) others) as Hh.
    { rewrite decide_False // in Hcl. apply (client_paging _ _ P) in Hcl. eapply holds_perm; [exact Hcl|].
      rewrite own_insert. rewrite (own_lookup W sp l Hl) El. rewrite !fmap_cons !fmap_app !fmap_cons /=.
      rewrite -!Permutation_middle. by constructor. }
    assert (fst_ptr (l1 ++ [x]) = fst_ptr (l1 ++ x :: l2)) as -> by by destruct l1.
    eapply rep_update; try done.
    + apply (area_seg_insert (areas s) l1 x l2); [|rewrite -El; apply Hsr].
      by destruct (own_delete _ sp _ (lookup_insert_eq _ _ _) (proj1 (holds_own _ _ _ Hh))) as (_ & ? & _).
    + intros q Hq1 Hq2. rewrite linked_ne; [|rewrite El fmap_app elem_of_app in Hq1; tauto].
      rewrite lookup_insert_ne //. intros <-. apply Hq2. rewrite fmap_app elem_of_app. right. by left.
    + apply Hso.
Qed.

Lemma vmm_free_rep s W others sp l addr s' :
  vmm_rep s W others → W !! sp = Some l → addr ≠ 0 → vmm_free sp addr s = Ok (tt, s') →
  (vmm_rep s' W others ∧ Forall (λ r, ¬ contains addr r) l) ∨
  (∃ l1 r l2, l = l1 ++ r :: l2 ∧ contains addr r ∧ vmm_rep s' (<[sp := l1 ++ l2]> W) others).
Proof.
  intros Hrep Hl Haddr E. destruct (vr_space _ _ _ Hrep sp l Hl) as [a Hsr].
  destruct (vmm_free_run s sp a l addr Hsr Haddr) as (lk & Hlk & [[Er Hno]|(l1 & r & l2 & El & Hr & Er)]); rewrite Er in E.
  - left. injection E as <-. split; [|done]. by eapply rep_same; try apply Hrep.
  - destruct (unbacking _ _ _) as [[[] P]|]; [|done]. destruct (kfree _ _) as [[[] h]|] eqn:Ef; [|done].
    injection E as <-. right. exists l1, r, l2. split; [done|]. split; [done|].
    destruct (holds_own _ _ _ (vr_heap _ _ _ Hrep)) as [Hnd Hnz].
    destruct (own_delete W sp l Hl Hnd) as (_ & Hnl & _). rewrite El in Hnl.
    eapply rep_update; try done.
    + apply area_seg_unlink; [done|]. rewrite -El. apply Hsr.
    + intros q Hq1 Hq2. rewrite El fmap_app elem_of_app fmap_cons elem_of_cons in Hq1.
      rewrite lookup_delete_ne; [|intros <-; tauto]. apply linked_ne. tauto.
    + apply (sorted_from_remove _ _ l1 r l2). rewrite -El. apply Hsr.
    + pose proof (client_paging _ _ P (vr_heap _ _ _ Hrep)) as Hcl.
      eapply (client_kfree _ _ _ _ 32); [exact Hcl| |exact Ef].
      rewrite own_insert (own_lookup W sp l Hl) El. rewrite !fmap_cons !fmap_app !fmap_cons.
      rewrite -!Permutation_middle. by constructor.
Qed.

(** *** Whole address spaces *)

Lemma read_space_ok s sp a s' : read_space sp s = Ok (a, s') → s' = s ∧ spaces s !! sp = Some a.
Proof. rewrite /read_space /reads. destruct (spaces s !! sp) eqn:E; [|done]. by intros [= -> <-]. Qed.

Lemma on_tables_frame {A} (m : M (paging_state S) A) s x s' :
  on_tables m s = Ok (x, s') → ∃ P, m (paging (heap s)) = Ok (x, P) ∧ s' = with_heap (with_paging P (heap s)) s.
Proof.
  rewrite /on_tables /on_heap /on_paging. destruct (m _) as [[y P]|]; [|done]. intros [= -> <-]. by exists P.
Qed.

(** The heap with the blocks of its other clients may change under the structs. *)
Lemma rep_heap s W others h others' :
  vmm_rep s W others → holds_structs h W others' → vmm_rep (with_heap h s) W others'.
Proof.
  intros [H1 H2 H3 H4 H5] Hh. split; simpl; try done.
  intros sp l Hl. destruct (H2 sp l Hl) as [a [? ? ? ? ? ? ?]]. exists a. by split.
Qed.

Lemma rep_paging s W others P :
  vmm_rep s W others → vmm_rep (with_heap (with_paging P (heap s)) s) W others.
Proof. intros Hrep. apply (rep_heap _ _ _ _ _ Hrep), client_paging, Hrep. Qed.

Lemma vmm_free_frame s W others sp l addr s' :
  vmm_rep s W others → W !! sp = Some l → addr ≠ 0 → vmm_free sp addr s = Ok (tt, s') →
  kernel_vas s' = kernel_vas s ∧ current_vas s' = current_vas s.
Proof.
  intros Hrep Hl Haddr E. destruct (vr_space _ _ _ Hrep sp l Hl) as [a Hsr].
  destruct (vmm_free_run s sp a l addr Hsr Haddr) as (lk & Hlk & [[Er Hno]|(l1 & r & l2 & El & Hr & Er)]); rewrite Er in E.
  - by injection E as <-.
  - destruct (unbacking _ _ _) as [[[] P]|]; [|done]. destruct (kfree _ _) as [[[] h]|] eqn:Ef; [|done]. by injection E as <-.
Qed.

Lemma free_areas_rep l fuel s W others sp s' :
  vmm_rep s W others → W !! sp = Some l → free_areas fuel sp (fst_ptr l) s = Ok (tt, s') →
  vmm_rep s' (<[sp := []]> W) others ∧ kernel_vas s' = kernel_vas s ∧ current_vas s' = current_vas s.
Proof.
  revert fuel s W. induction l as [|r l IH]; intros [|fuel] s W Hrep Hl E; try done.
  - cbn [free_areas fst_ptr] in E. rewrite Z.eqb_refl in E. injection E as <-. by rewrite insert_id.
  - destruct (vr_space _ _ _ Hrep sp _ Hl) as [a Hsr]. destruct (sr_ptrs _ _ _ _ Hsr) as [_ [Hr0 _]%Forall_cons].
    destruct (sr_seg _ _ _ _ Hsr) as [Hr _].
    cbn [free_areas fst_ptr] in E. rewrite (proj2 (Z.eqb_neq _ 0) Hr0) in E.
    apply bind_ok in E as (x & t & Ex & E). rewrite /read_area /reads Hr in Ex. injection Ex as <- <-.
    apply bind_ok in E as ([] & s1 & E1 & E). cbn [base area_next] in E1, E.
    pose proof (sr_sorted _ _ _ _ Hsr) as Hso. pose proof (region_bounds s sp) as Hb.
    assert (contains (r_base r) r) as Hcr by (destruct Hso as (? & ? & _); rewrite /contains /r_end; lia).
    assert (r_base r ≠ 0) as Hb0 by (destruct Hso as (? & _); lia).
    destruct (vmm_free_frame s W others sp _ _ s1 Hrep Hl Hb0 E1) as [Ek Ec].
    destruct (vmm_free_rep s W others sp _ _ s1 Hrep Hl Hb0 E1) as [[_ Hno]|(l1 & x & l2 & El & Hx & Hrep1)].
    { by apply Forall_cons in Hno as [Hno _]. }
    destruct l1 as [|y l1].
    + injection El as <- <-. destruct (IH fuel s1 _ Hrep1) as (Hrep2 & Ek2 & Ec2); [apply lookup_insert_eq|by destruct l|].
      rewrite insert_insert_eq in Hrep2. split; [done|]. split; congruence.
    + exfalso. injection El as -> ->. apply (sorted_unique (region_start s sp) (region_end s sp) (y :: l1) x l2) in Hx; [|done].
      by apply Forall_cons in Hx as [Hx _].
Qed.

Lemma rep_delete s W others sp h' :
  vmm_rep s W others → W !! sp = Some [] → sp ≠ kernel_vas s → sp ≠ current_vas s →
  kfree sp (heap s) = Ok (tt, h') →
  vmm_rep (with_spaces (delete sp (spaces s)) (with_heap h' s)) (delete sp W) others.
Proof.
  intros [H1 H2 H3 H4 H5] Hl Hk Hc Ef. split; simpl.
  - by rewrite !dom_delete_L H1.
  - intros sp2 l2 [Hne Hl2]%lookup_delete_Some. destruct (H2 sp2 l2 Hl2) as [a2 [? ? ? ? ? ? ?]].
    exists a2. split; simpl; try done. by rewrite lookup_delete_ne.
  - eapply (client_kfree _ _ _ _ 32); [exact H3| |exact Ef]. rewrite (own_lookup W sp [] Hl). done.
  - by rewrite lookup_delete_ne.
  - by rewrite lookup_delete_ne.
Qed.

Lemma vmm_destroy_rep s W others sp l s' :
  vmm_rep s W others → W !! sp = Some l → sp ≠ kernel_vas s → sp ≠ current_vas s →
  vmm_destroy_address_space sp s = Ok (tt, s') → vmm_rep s' (delete sp W) others.
Proof.
  intros Hrep Hl Hk Hc E. destruct (vr_space _ _ _ Hrep sp l Hl) as [a Hsr].
  rewrite /vmm_destroy_address_space in E. apply bind_ok in E as (k & t & [= <- <-] & E).
  rewrite (proj2 (Z.eqb_neq sp 0) (sr_null _ _ _ _ Hsr)) (proj2 (Z.eqb_neq sp _) Hk) in E. cbn [orb] in E.
  apply bind_ok in E as (x & t & Ex & E). rewrite /read_space /reads (sr_space _ _ _ _ Hsr) in Ex. injection Ex as <- <-.
  apply bind_ok in E as (fuel & t & [= <- <-] & E). rewrite (sr_head _ _ _ _ Hsr) in E.
  apply bind_ok in E as ([] & s1 & E1 & E).
  destruct (free_areas_rep l _ s W others sp s1 Hrep Hl E1) as (Hrep1 & Ek & Ec).
  apply bind_ok in E as (x & t & [-> _]%read_space_ok & E).
  apply bind_ok in E as ([] & s2 & (P & _ & ->)%on_tables_frame & E).
  apply (rep_paging _ _ _ P) in Hrep1.
  rewrite /free_space in E. apply bind_ok in E as ([] & s3 & E3 & [= <-]).
  rewrite /on_heap in E3. destruct (kfree sp _) as [[[] h']|] eqn:Ef; [|done]. injection E3 as <-.
  pose proof (rep_delete _ _ _ sp h' Hrep1) as Hd. rewrite delete_insert_eq in Hd.
  apply Hd; [apply lookup_insert_eq|by rewrite /= Ek|by rewrite /= Ec|exact Ef].
Qed.

Lemma rep_new s W others p f h :
  vmm_rep s W others → W !! p = None → holds_structs h (<[p := []]> W) others →
  vmm_rep (with_spaces (<[p := mkSpace f 0 SPINLOCK_IRQ_INIT]> (spaces s)) (with_heap h s)) (<[p := []]> W) others.
Proof.
  intros [H1 H2 H3 H4 H5] Hp Hh. split; simpl.
  - by rewrite !dom_insert_L H1.
  - intros sp l [[<- <-]|[Hne Hl]]%lookup_insert_Some.
    + exists (mkSpace f 0 SPINLOCK_IRQ_INIT). split; simpl; try done; [by rewrite lookup_insert_eq| |split; constructor].
      destruct (holds_own _ _ _ Hh) as [_ Hnz]. rewrite Forall_forall in Hnz. apply Hnz.
      apply (own_elem _ p []); [apply lookup_insert_eq|by left].
    + destruct (H2 sp l Hl) as [a [? ? ? ? ? ? ?]]. exists a. split; simpl; try done. by rewrite lookup_insert_ne.
  - done.
  - rewrite lookup_insert_ne //. intros ->. rewrite Hp in H4. by destruct H4.
  - rewrite lookup_insert_ne //. intros ->. rewrite Hp in H5. by destruct H5.
Qed.

(** A struct that [kmalloc] has just returned belongs to no address space. *)
Lemma fresh_space h W others p :
  client_inv (h, (p, 32) :: ((λ p, (p, 32)) <$> own W) ++ others) →
  W !! p = None ∧ holds_structs h (<[p := []]> W) others.
Proof.
  intros Hc. pose proof (client_nodup _ _ Hc) as [Hnd _].
  rewrite fmap_cons NoDup_cons fmap_app elem_of_app -list_fmap_compose in Hnd. destruct Hnd as [Hp _].
  assert (W !! p = None) as Hn.
  { destruct (W !! p) as [l|] eqn:El; [|done]. exfalso. apply Hp. left. apply list_elem_of_fmap. exists p.
    split; [done|]. apply (own_elem W p l p El). by left. }
  split; [done|]. eapply holds_perm; [exact Hc|]. rewrite own_insert delete_id //.
Qed.

Lemma vmm_new_rep s W others p s' :
  vmm_rep s W others → room_for (heap s) 32 → vmm_new_address_space s = Ok (p, s') →
  (p = 0 ∧ vmm_rep s' W others) ∨ (p ≠ 0 ∧ W !! p = None ∧ vmm_rep s' (<[p := []]> W) others).
Proof.
  intros Hrep Hroom E. rewrite /vmm_new_address_space in E.
  apply bind_ok in E as (q & s1 & E1 & E). rewrite /on_heap in E1.
  destruct (kmalloc _ _) as [[q' h]|] eqn:Ek; [|done]. injection E1 as -> <-.
  pose proof (client_kmalloc _ _ sizeof_vm_address_space _ _ (vr_heap _ _ _ Hrep) ltac:(done) Hroom Ek) as Hcl.
  destruct (Z.eqb_spec q 0) as [->|Hq].
  { left. injection E as <- <-. split; [done|]. by eapply rep_heap. }
  rewrite decide_False // in Hcl. destruct (fresh_space h W others q Hcl) as [Hn Hh].
  apply bind_ok in E as (f & s2 & (P1 & _ & ->)%on_tables_frame & E). cbn [heap with_heap] in E.
  destruct (f =? 0).
  - left. apply bind_ok in E as ([] & s3 & E3 & [= <- <-]). split; [done|]. rewrite /on_heap in E3.
    destruct (kfree q _) as [[[] h']|] eqn:Ef; [|done]. injection E3 as <-.
    apply (rep_heap s W others h' others Hrep). eapply (client_kfree _ _ _ _ 32); [exact (client_paging _ _ P1 Hcl)| |exact Ef]. done.
  - right. apply bind_ok in E as ([] & s3 & [= <-] & E).
    apply bind_ok in E as (off & s4 & (P2 & _ & ->)%on_tables_frame & E).
    apply bind_ok in E as ([] & s5 & (P3 & _ & ->)%on_tables_frame & E).
    apply bind_ok in E as (k & s6 & [= <- <-] & E).
    apply bind_ok in E as (ka & s7 & [-> _]%read_space_ok & E).
    apply bind_ok in E as ([] & s8 & (P4 & _ & ->)%on_tables_frame & [= <- <-]).
    split; [done|]. split; [done|].
    pose proof (rep_new s W others q f _ Hrep Hn (client_paging _ _ P4 Hh)) as Hr. done.
Qed.

Lemma vmm_fault_rep s W others cr2 ec s' :
  vmm_rep s W others → vmm_page_fault_handler cr2 ec s = Ok (tt, s') → vmm_rep s' W others.
Proof.
  intros Hrep E. assert (is_Some (W !! fault_space s cr2)) as [l Hl].
  { rewrite /fault_space. destruct (_ <=? _); apply Hrep. }
  destruct (vr_space _ _ _ Hrep _ l Hl) as [a Hsr].
  destruct (fault_run s a l cr2 ec Hsr) as [[_ Er]|(l1 & r & l2 & lk & El & Hr & Hlk & Er)]; rewrite Er in E; [done|].
  destruct (has ec _); [done|]. destruct (demand_page _ _ _ _) as [[[] P]|]; [|done]. injection E as <-.
  eapply rep_same; try done. apply client_paging, Hrep.
Qed.

Lemma vmm_switch_rep s W others sp s' :
  vmm_rep s W others → is_Some (W !! sp) → vmm_switch_address_space sp s = Ok (tt, s') → vmm_rep s' W others.
Proof.
  intros Hrep [l Hl] E. rewrite /vmm_switch_address_space in E. destruct (sp =? 0); [by injection E as <-|].
  apply bind_ok in E as ([] & s1 & [= <-] & E). apply bind_ok in E as (a & s2 & [-> _]%read_space_ok & E).
  apply on_tables_frame in E as (P & _ & ->). apply rep_paging.
  destruct Hrep as [H1 H2 H3 H4 H5]. split; simpl; try done. intros sp2 l2 Hl2.
  destruct (H2 sp2 l2 Hl2) as [a2 [? ? ? ? ? ? ?]]. exists a2. by split.
Qed.

Lemma vmm_init_rep s others s' :
  spaces s = ∅ → client_inv (heap s, others) → room_for (heap s) 32 → vmm_init s = Ok (tt, s') →
  vmm_rep s' {[ kernel_vas s' := [] ]} others ∧ current_vas s' = kernel_vas s'.
Proof.
  intros Hsp Hc Hroom E. rewrite /vmm_init in E. apply bind_ok in E as (p & s1 & E1 & E). rewrite /on_heap in E1.
  destruct (kmalloc _ _) as [[q h]|] eqn:Ek; [|done]. injection E1 as -> <-.
  pose proof (client_kmalloc _ _ sizeof_vm_address_space _ _ Hc ltac:(done) Hroom Ek) as Hcl.
  apply bind_ok in E as ([] & s2 & [= <-] & E). destruct (Z.eqb_spec p 0) as [|Hp]; [done|].
  rewrite decide_False // in Hcl. pose proof (fresh_space h ∅ others p) as Hf. rewrite own_empty in Hf.
  destruct (Hf Hcl) as [_ Hh].
  apply bind_ok in E as (root & s3 & (P & _ & ->)%on_tables_frame & E).
  apply bind_ok in E as ([] & s4 & [= <-] & [= <-]). rewrite -insert_empty. split; [|done]. split; simpl.
  - by rewrite Hsp !dom_insert_L !dom_empty_L.
  - intros sp l [[<- <-]|[Hne Hl]]%lookup_insert_Some; [|by rewrite lookup_empty in Hl].
    exists (mkSpace root 0 SPINLOCK_IRQ_INIT). split; simpl; try done; [by rewrite lookup_insert_eq|split; constructor].
  - by apply client_paging.
  - by rewrite lookup_insert_eq.
  - by rewrite lookup_insert_eq.
Qed.
(** With a free block of 32 bytes in a heap that nobody uses, [vmm_init] returns. *)
Lemma vmm_init_total s L bs :
  spaces s = ∅ → heap_rep (heap s) false L → used (kheap_start (heap s)) L = [] →
  (bs, true) ∈ L → 32 ≤ bs → room_for (heap s) 32 →
  ∃ s' L', vmm_init s = Ok (tt, s') ∧ vmm_rep s' {[ kernel_vas s' := [] ]} [] ∧
    current_vas s' = kernel_vas s' ∧
    spaces s' !! kernel_vas s' = Some (mkSpace (kernel_pml4_phys (paging (heap s))) 0 SPINLOCK_IRQ_INIT) ∧
    heap_rep (heap s') false L' ∧ heap s' = with_nodes (nodes (heap s')) (heap s).
Proof.
  intros Hsp Hr Hu Hin Hbs Hroom.
  destruct (kmalloc_fits (heap s) L 32 bs Hr ltac:(lia) Hin Hbs) as (L1 & b & L2 & h & -> & Hb & Ek & Eh & Hr').
  pose proof (rep_bounds _ _ _ _ _ _ Hr) as (Hpos & _). set p := _ + 24 in Ek.
  assert (p ≠ 0) as Hp by (rewrite /p; lia).
  set s' := mkVmm h (vmm_cpu s) p p
    (<[p := mkSpace (kernel_pml4_phys (paging (heap s))) 0 SPINLOCK_IRQ_INIT]> (spaces s)) (areas s) : vmm_state S.
  assert (paging h = paging (heap s)) as EP by by rewrite Eh.
  assert (vmm_init s = Ok (tt, s')) as E.
  { rewrite /vmm_init {1}/bind /on_heap Ek {1}/bind /modify (proj2 (Z.eqb_neq p 0) Hp).
    rewrite {1}/bind /on_tables /on_heap /on_paging. cbn [heap with_heap with_kernel_vas].
    rewrite /paging_getKernelRoot /gets /s' -EP. by destruct h. }
  assert (client_inv (heap s, [])) as Hc.
  { exists (L1 ++ (b, true) :: L2), []. rewrite /= Hu. split; [done|]. split; [constructor|done]. }
  destruct (vmm_init_rep s [] s' Hsp Hc Hroom E) as [Hrep Hcur].
  exists s'; eexists. split; [done|]. split; [done|]. split; [done|]. split; [exact (lookup_insert_eq _ _ _)|].
  split; [exact Hr'|exact Eh].
Qed.
End inv.
