(* ===== verification/VmmThms.v ===== *)
(** * The virtual memory manager: theorems

    What the virtual memory manager promises: disjoint areas in every address space after
    any sequence of calls, first-fit allocation, demand paging of zeroed frames with the
    rights of the area, and new address spaces that share the kernel's half. *)

From stdpp Require Import base gmap list numbers functions.
From S2P Require Import Prelude Spinlock Hhdm Pmm PmmSpec FrameAlloc Paging PagingSpec PagingInit PagingThms.
From S2P Require Import PagingUnmap Kheap KheapSpec KheapMem KheapThms Vmm VmmSpec VmmInv.

#[local] Ltac Zify.zify_post_hook ::= Z.to_euclidean_division_equations.

(** ** Memory outside the tables *)

Definition same_slots (T : gmap (list Z) Z) (m m' : Z → Z) : Prop :=
  ∀ p f i, T !! p = Some f → index i → slot m' f i = slot m f i.

Lemma pt_wf_same m m' root T : same_slots T m m' → pt_wf m root T → pt_wf m' root T.
Proof.
  intros Hs [H1 H2 H3 H4 H5 H6 H7]. split; try done; intros p i f Hp Hi;
    rewrite (Hs p f i Hp Hi); by eauto.
Qed.

Lemma walk_same m m' root T v : same_slots T m m' → pt_wf m root T → mmu_walk m' root v = mmu_walk m root v.
Proof.
  intros Hs Hwf. rewrite (walk_view m' root T); [|by eapply pt_wf_same]. rewrite (walk_view m root T v Hwf) /view.
  destruct (T !! path2m v) as [g|] eqn:E2; [by rewrite (Hs _ _ _ E2 (index_land _))|].
  destruct (T !! path3 v) as [g|] eqn:E3; [by rewrite (Hs _ _ _ E3 (index_land _))|done].
Qed.

(** The place of an element in a list without duplicates. *)
Lemma app_inj_middle {A} (l1 l2 k1 k2 : list A) x :
  l1 ++ x :: l2 = k1 ++ x :: k2 → NoDup (l1 ++ x :: l2) → k1 = l1 ∧ k2 = l2.
Proof.
  revert k1. induction l1 as [|y l1 IH]; intros [|z k1] E Hnd; simpl in *.
  - by injection E as ->.
  - injection E as -> ->. apply NoDup_cons in Hnd as [Hx _]. destruct Hx. apply elem_of_app. right. by left.
  - injection E as -> <-. apply NoDup_cons in Hnd as [Hx _]. destruct Hx. apply elem_of_app. right. by left.
  - injection E as -> E. apply NoDup_cons in Hnd as [_ Hnd]. by destruct (IH k1 E Hnd) as [-> ->].
Qed.

Section demand.
Context {S : Type} `{FrameAllocSpec S}.
Implicit Types (P : paging_state S) (T : gmap (list Z) Z) (A : gset Z).

(** A frame that is not a table may be cleared. *)
Lemma same_slots_zero T A f m :
  frame f → f ∉ A → (∀ p g, T !! p = Some g → g ∈ A) → (∀ p g, T !! p = Some g → frame g) →
  same_slots T m (zero_page f m).
Proof.
  intros Hf HfA HT HTf p g i Hg Hi. apply slot_zero_ne; [by eapply HTf|done|done|].
  intros ->. by apply HfA, (HT p).
Qed.

(** *** Demand paging *)

Lemma demand_page_ok P root T A n cr2 fl :
  pt_ok P root T A n → valid_target P root cr2 → can_map T (mmu_walk (mem P) root) false cr2 → (4 ≤ n)%nat →
  ∃ P' T' A' n' f, demand_page root cr2 fl P = Ok (tt, P') ∧ frame f ∧ f ∉ A ∧
    pt_ok P' root T' A' n' ∧ (n ≤ n' + 4)%nat ∧ new_tables T ({[f]} ∪ A) T' A' ∧ regs P' = regs P ∧
    (∀ w, mmu_walk (mem P') root w = upd (mmu_walk (mem P) root) false cr2
       (Some (Page4K (map_entry f (vmm_generic_to_x86_flags fl) false))) w) ∧
    (∀ x, f ≤ x < f + PAGING_PAGE_SIZE → mem P' x = 0) ∧
    (tlb_ok (tlb_of P) (mmu_walk (mem P) root) → tlb_ok (tlb_of P') (mmu_walk (mem P') root)).
Proof.
  intros Hok Htgt Hcan Hn. destruct n as [|n]; [lia|].
  pose proof (owned_alloc_room (frames P) A n (ok_owned _ _ _ _ _ Hok)) as Ha.
  apply wp_run in Ha as (f & fs & Ea & Htop & HfA & Hfr & Ho).
  set P2 := with_mem (zero_page f (mem P)) (with_frames fs P).
  assert (same_slots T (mem P) (mem P2)) as Hsame.
  { apply (same_slots_zero T A); [done|done|apply Hok|]. intros p g. by apply Hok. }
  assert (pt_ok P2 root T ({[f]} ∪ A) n) as Hok2.
  { split; [eapply pt_wf_same; [exact Hsame|apply Hok]|done|]. intros p g Hp. apply elem_of_union_r. by eapply ok_tables. }
  assert (∀ w, mmu_walk (mem P2) root w = mmu_walk (mem P) root w) as Hw2.
  { intros w. eapply walk_same; [exact Hsame|apply Hok]. }
  assert (can_map T (view (mem P2) T) false cr2) as Hcan2.
  { intros e. rewrite -(walk_view _ root); [|apply Hok2]. rewrite Hw2. apply Hcan. }
  pose proof (map_page_wp root T _ n P2 cr2 f (vmm_generic_to_x86_flags fl) false Hok2 Htgt Hcan2 ltac:(lia)) as Hm.
  apply wp_run in Hm as ([] & P' & Em & T' & A' & n' & B).
  destruct (became_walk _ _ _ _ _ _ _ _ _ _ _ _ _ _ Hok2 B) as [Hw Ht].
  exists P', T', A', n', f. split.
  { rewrite /demand_page {1}/bind /on_frames. change PAGING_PAGE_SIZE with PMM_PAGE_SIZE. rewrite Ea.
    rewrite (proj2 (Z.eqb_neq f 0)); [|destruct Hfr; lia]. rewrite /bind /gets /clear_page /modify.
    cbn [hhdm_offset with_frames]. rewrite frame_phys //. }
  split; [done|]. split; [done|]. split; [apply B|].
  split; [pose proof (bc_room _ _ _ _ _ _ _ _ _ _ _ _ B); lia|]. split; [by eapply became_tables|]. split.
  { rewrite (bc_regs _ _ _ _ _ _ _ _ _ _ _ _ B) /regs /P2 /=. by rewrite Htop. }
  split; [|split].
  - intros w. rewrite Hw. by apply upd_ext.
  - intros x Hx. rewrite (bc_mem _ _ _ _ _ _ _ _ _ _ _ _ B).
    + simpl. rewrite /zero_page. by rewrite (proj2 (Z.leb_le _ _)) ?(proj2 (Z.ltb_lt _ _)); [|lia..].
    + intros p g Hp Hxg. assert (f = g) as <-.
      { assert (frame g) as [_ Hgm] by (eapply wf_frame; [apply B|done]). destruct Hfr as [_ Hfm].
        unfold PAGING_PAGE_SIZE, PMM_PAGE_SIZE in *. lia. }
      apply (bc_fresh _ _ _ _ _ _ _ _ _ _ _ _ B) in Hp; [|set_solver]. by apply HfA, (ok_tables _ _ _ _ _ Hok p).
  - intros Htlb. apply Ht. eapply tlb_ok_ext; [|exact Htlb]. intros w. by rewrite Hw2.
Qed.
End demand.

(** ** Access rights *)

(** The entry bits of the generic flags: writable, user, no-execute, global, and the two
    cache bits; the address bits and the page-size bit stay clear. *)
Lemma x86_flags_bits fl :
  let x := vmm_generic_to_x86_flags fl in
  Z.testbit x 1 = Z.testbit fl 1 ∧ Z.testbit x 2 = Z.testbit fl 3 ∧ Z.testbit x 63 = negb (Z.testbit fl 2) ∧
  Z.testbit x 8 = negb (Z.testbit fl 3) ∧ Z.testbit x 3 = Z.testbit fl 6 ∧ Z.testbit x 4 = Z.testbit fl 7 ∧
  Z.testbit x 7 = false ∧ pte_addr x = 0.
Proof.
  cbv zeta. rewrite /vmm_generic_to_x86_flags /has /VMM_FLAGS_READ /VMM_FLAGS_WRITE /VMM_FLAGS_EXEC /VMM_FLAGS_WC
    /VMM_FLAGS_UC /VMM_FLAGS_USER !flag_test; [|lia..].
  destruct (Z.testbit fl 0), (Z.testbit fl 1), (Z.testbit fl 2), (Z.testbit fl 3), (Z.testbit fl 6), (Z.testbit fl 7);
    by vm_compute.
Qed.

(** The bits of the entry a page of an area is mapped with. *)
Lemma area_entry_bits f fl :
  frame f → let e := map_entry f (vmm_generic_to_x86_flags fl) false in
  pte_addr e = f ∧ Z.testbit e 1 = Z.testbit fl 1 ∧ Z.testbit e 2 = Z.testbit fl 3 ∧
  Z.testbit e 63 = negb (Z.testbit fl 2).
Proof.
  intros [Hf Hfm] e. destruct (x86_flags_bits fl) as (H1 & H2 & H3 & _ & _ & _ & _ & H8).
  assert (page_addr f) as Hpa by (split; [lia|done]).
  destruct (map_entry_bits f (vmm_generic_to_x86_flags fl) false Hpa Hfm H8) as (E1 & E2 & E3).
  split; [done|]. split; [by rewrite E2|]. split; [|by rewrite E3].
  rewrite /e /map_entry page_align_mult // !Z.lor_spec (page_addr_bit f 2) //; [|lia]. rewrite H2.
  by destruct (Z.testbit fl 3).
Qed.

Lemma contains_unique lo hi l r r' v :
  sorted_from lo hi l → r ∈ l → r' ∈ l → contains v r → contains v r' → r = r'.
Proof.
  intros Hs (i & Hi)%list_elem_of_lookup (j & Hj)%list_elem_of_lookup Hr Hr'. rewrite /contains in Hr, Hr'.
  destruct (decide (i = j)) as [->|Hne]; [congruence|].
  destruct (decide (i < j)%nat) as [Hlt|Hge].
  - pose proof (sorted_disjoint lo hi l i j r r' Hs Hlt Hi Hj). lia.
  - pose proof (sorted_disjoint lo hi l j i r' r Hs ltac:(lia) Hj Hi). lia.
Qed.

(** ** Steps *)
Section steps.
Context {S : Type} `{FrameAllocSpec S}.
Implicit Types s : vmm_state S.

(** The calls of the virtual memory manager, and those other components make of the heap
    below it. The second component lists the heap blocks of those other components. *)
Inductive vmm_step : vmm_state S * list (Z * Z) → vmm_state S * list (Z * Z) → Prop :=
  | v_alloc s others sp sz fl arg r s' :
      is_Some (spaces s !! sp) → 0 ≤ sz ≤ 2 ^ 31 → room_for (heap s) sizeof_vm_area →
      vmm_alloc sp sz fl arg s = Ok (r, s') → vmm_step (s, others) (s', others)
  | v_free s others sp addr s' :
      is_Some (spaces s !! sp) → vmm_free sp addr s = Ok (tt, s') → vmm_step (s, others) (s', others)
  | v_new s others p s' :
      room_for (heap s) sizeof_vm_address_space → vmm_new_address_space s = Ok (p, s') →
      vmm_step (s, others) (s', others)
  | v_destroy s others sp s' :
      is_Some (spaces s !! sp) → sp ≠ current_vas s → vmm_destroy_address_space sp s = Ok (tt, s') →
      vmm_step (s, others) (s', others)
  | v_switch s others sp s' :
      is_Some (spaces s !! sp) → vmm_switch_address_space sp s = Ok (tt, s') →
      vmm_step (s, others) (s', others)
  | v_fault s others cr2 ec s' :
      vmm_page_fault_handler cr2 ec s = Ok (tt, s') → vmm_step (s, others) (s', others)
  | v_heap s others h' others' :
      heap_step (heap s, others) (h', others') → vmm_step (s, others) (with_heap h' s, others').

Lemma heap_step_frame h others h' others' pre :
  heap_step (h, others) (h', others') → client_inv (S := S) (h, pre ++ others) → client_inv (h', pre ++ others').
Proof.
  intros Hs Hc. inversion Hs; subst.
  - apply (client_perm _ ((p, sz) :: pre ++ others)); [by rewrite Permutation_middle|].
    eapply heap_step_inv; [exact Hc|]. by apply h_alloc.
  - eapply heap_step_inv; [exact Hc|]. by eapply h_alloc_null.
  - rewrite app_assoc. eapply heap_step_inv; [rewrite app_assoc in Hc; exact Hc|]. by eapply h_free.
  - eapply heap_step_inv; [exact Hc|]. by apply h_free_null.
Qed.

Lemma dom_space s W others sp :
  vmm_rep s W others → is_Some (spaces s !! sp) → ∃ l, W !! sp = Some l.
Proof. intros Hrep Hsp. apply elem_of_dom in Hsp. rewrite -(vr_dom _ _ _ Hrep) in Hsp. by apply elem_of_dom in Hsp. Qed.

Lemma vmm_step_rep s others s' others' W :
  vmm_rep s W others → vmm_step (s, others) (s', others') → ∃ W', vmm_rep s' W' others'.
Proof.
  intros Hrep Hs.
  inversion Hs as [? ? sp sz fl arg r ? Hsp Hsz Hroom E|? ? sp addr ? Hsp E|? ? p ? Hroom E|? ? sp ? Hsp Hc E
    |? ? sp ? Hsp E|? ? cr2 ec ? E|? ? h' ? E]; subst.
  - destruct (dom_space _ _ _ _ Hrep Hsp) as [l Hl].
    destruct (vmm_alloc_rep _ _ _ _ _ _ _ _ _ _ Hrep Hl Hsz Hroom E) as [[_ Hr]|(l1 & l2 & p & _ & _ & _ & Hr)]; eauto.
  - destruct (dom_space _ _ _ _ Hrep Hsp) as [l Hl]. destruct (decide (addr = 0)) as [->|Ha].
    { rewrite /vmm_free orb_true_r in E. injection E as <-. eauto. }
    destruct (vmm_free_rep _ _ _ _ _ _ _ Hrep Hl Ha E) as [[Hr _]|(l1 & r & l2 & _ & _ & Hr)]; eauto.
  - destruct (vmm_new_rep _ _ _ _ _ Hrep Hroom E) as [[_ Hr]|(_ & _ & Hr)]; eauto.
  - destruct (dom_space _ _ _ _ Hrep Hsp) as [l Hl]. destruct (decide (sp = kernel_vas s)) as [->|Hk].
    { rewrite /vmm_destroy_address_space {1}/bind /gets Z.eqb_refl orb_true_r in E. injection E as <-. eauto. }
    eauto using vmm_destroy_rep.
  - eexists. eapply vmm_switch_rep; [done| |done]. destruct (dom_space _ _ _ _ Hrep Hsp) as [l Hl]. by eexists.
  - eauto using vmm_fault_rep.
  - exists W. destruct Hrep as [R1 R2 R3 R4 R5]. split; simpl; try done; [|by eapply heap_step_frame].
    intros sp l Hl. destruct (R2 sp l Hl) as [a [? ? ? ? ? ? ?]]. exists a. by split.
Qed.

Lemma vmm_reach_rep s others s' others' W :
  vmm_rep s W others → rtc vmm_step (s, others) (s', others') → ∃ W', vmm_rep s' W' others'.
Proof.
  intros Hrep Hs. remember (s, others) as c eqn:E. remember (s', others') as c' eqn:E'.
  revert s others W E Hrep. induction Hs as [c|c c1 c2 Hst _ IH]; intros s others W -> Hrep.
  - injection E' as -> ->. by exists W.
  - destruct c1 as [s1 o1]. destruct (vmm_step_rep s others s1 o1 W Hrep Hst) as [W1 Hrep1]. by eapply IH.
Qed.
End steps.

(** ** New address spaces *)
Section spaces.
Context {S : Type} `{FrameAllocSpec S}.
Implicit Types (P : paging_state S) (T : gmap (list Z) Z) (A : gset Z).

Lemma copy_upper_ok k i P f g :
  frame f → frame g → f ≠ g → 0 ≤ i → i + Z.of_nat k ≤ 512 →
  ∃ m', copy_upper k i (hhdm_physToVirt (hhdm_offset P) f) (hhdm_physToVirt (hhdm_offset P) g) P =
      Ok (tt, with_mem m' P) ∧
    (∀ j, index j → slot m' f j = if decide (i ≤ j < i + Z.of_nat k) then slot (mem P) g j else slot (mem P) f j) ∧
    (∀ x, ¬ f ≤ x < f + PAGING_PAGE_SIZE → m' x = mem P x).
Proof.
  intros Hf Hg Hne. revert i P. induction k as [|k IH]; intros i P Hi Hk.
  - exists (mem P). split; [by destruct P|]. split; [|done]. intros j Hj. rewrite decide_False //. lia.
  - assert (index i) as Hidx by (rewrite /index; lia).
    set P1 := with_mem (<[f + 8 * i := slot (mem P) g i]> (mem P)) P.
    destruct (IH (i + 1) P1) as (m' & E & Hs & Hm); [lia|lia|]. exists m'. split; [|split].
    + cbn [copy_upper]. rewrite {1}/bind /load /gets ptr_phys // {1}/bind /store /modify ptr_phys //.
    + intros j Hj. rewrite (Hs j Hj).
      assert (∀ j', index j' → slot (mem P1) g j' = slot (mem P) g j') as Hg1 by (intros; apply slot_write_ne; congruence).
      rewrite Hg1 //. destruct (decide (j = i)) as [->|Hji].
      * rewrite decide_False; [|lia]. rewrite decide_True; [|lia]. apply slot_write_eq.
      * rewrite /P1 /= slot_write_ne //; [|congruence]. repeat case_decide; try lia; done.
    + intros x Hx. rewrite Hm // /P1 /= fn_lookup_insert_ne //. intros <-. apply Hx.
      rewrite /index in Hidx. unfold PAGING_PAGE_SIZE. lia.
Qed.

(** The kernel's half of the address space: the upper 256 entries of the root table. *)
Definition upper_half (v : Z) : Prop := 256 ≤ PAGING_GET_PML4INDEX v.
#[global] Instance upper_half_dec v : Decision (upper_half v).
Proof. rewrite /upper_half. apply _. Defined.

Lemma upper_half_addr v : canonical_addr v → (upper_half v ↔ 2 ^ 63 ≤ v).
Proof.
  rewrite /canonical_addr /upper_half /PAGING_GET_PML4INDEX get_index_div; [|lia]. lia.
Qed.

(** The root table of a new address space. *)
Lemma new_root_walk P root T A n f m' :
  pt_ok P root T A n → frame f → f ∉ A →
  (∀ j, index j → slot m' f j = if decide (256 ≤ j < 512) then slot (mem P) root j else 0) →
  (∀ x, ¬ f ≤ x < f + PAGING_PAGE_SIZE → m' x = mem P x) →
  (∀ v, mmu_walk m' root v = mmu_walk (mem P) root v) ∧
  (∀ v, mmu_walk m' f v = if decide (upper_half v) then mmu_walk (mem P) root v else None).
Proof.
  intros Hok Hf HfA Hs Hm. assert (same_slots T (mem P) m') as Hsame.
  { intros p g j Hp Hj. rewrite /slot. apply Hm. assert (frame g) as [_ Hgm] by (eapply wf_frame; [apply Hok|done]).
    assert (f ≠ g) as Hne by (intros ->; by apply HfA, (ok_tables _ _ _ _ _ Hok p)).
    destruct Hf as [_ Hfm]. rewrite /index in Hj. unfold PAGING_PAGE_SIZE, PMM_PAGE_SIZE in *. lia. }
  assert (∀ v, mmu_walk m' root v = mmu_walk (mem P) root v) as Hroot.
  { intros v. eapply walk_same; [exact Hsame|apply Hok]. }
  split; [done|]. intros v. assert (index (PAGING_GET_PML4INDEX v)) as Hi by apply index_land.
  pose proof (Hs _ Hi) as Hsi. destruct (decide (upper_half v)) as [Hup|Hup].
  - rewrite -Hroot. rewrite decide_True in Hsi; [|rewrite /index in Hi; rewrite /upper_half in Hup; lia].
    rewrite -(Hsame [] root _ (wf_root _ _ _ (ok_wf _ _ _ _ _ Hok)) Hi) in Hsi.
    rewrite /mmu_walk. by rewrite Hsi.
  - rewrite decide_False in Hsi; [|rewrite /upper_half in Hup; lia]. rewrite /mmu_walk Hsi. done.
Qed.
End spaces.

(** ** Claims *)
Section claims.
Context {S : Type} `{FrameAllocSpec S}.
Implicit Types (s : vmm_state S) (W : gmap Z (list region)) (T : gmap (list Z) Z) (A : gset Z).


(** The gap [vmm_alloc] takes is free. *)
Lemma sorted_free lo hi l1 p c z f l2 :
  sorted_from lo hi (l1 ++ mkRegion p c z f :: l2) → free_at (l1 ++ l2) c z.
Proof.
  intros Hs. apply Forall_app. split; apply Forall_forall; intros r (i & Hi)%list_elem_of_lookup.
  - right. pose proof (lookup_lt_Some _ _ _ Hi) as Hlt.
    change c with (r_base (mkRegion p c z f)). eapply (sorted_disjoint _ _ _ i (length l1)); [exact Hs|done| |].
    + by rewrite lookup_app_l.
    + by rewrite list_lookup_middle.
  - left. change (c + z) with (r_end (mkRegion p c z f)).
    eapply (sorted_disjoint _ _ _ (length l1) (length l1 + 1 + i)); [exact Hs|lia|by rewrite list_lookup_middle|].
    rewrite lookup_app_r; [|lia]. by replace (length l1 + 1 + i - length l1)%nat with (Datatypes.S i) by lia.
Qed.

(** A struct that [kmalloc] returns is not one of those in use. *)
Lemma fresh_struct s W others sp l p h :
  vmm_rep s W others → W !! sp = Some l → room_for (heap s) sizeof_vm_area →
  kmalloc sizeof_vm_area (heap s) = Ok (p, h) → p ≠ 0 → p ∉ (r_ptr <$> l).
Proof.
  intros Hrep Hl Hroom Ek Hp0.
  pose proof (client_kmalloc _ _ 32 _ _ (vr_heap _ _ _ Hrep) ltac:(lia) Hroom Ek) as Hcl.
  rewrite decide_False // in Hcl.
  intros Hpl. apply client_nodup in Hcl as [Hnd _]. rewrite fmap_cons NoDup_cons fmap_app elem_of_app in Hnd.
  apply Hnd. left. rewrite -list_fmap_compose. apply list_elem_of_fmap. exists p. split; [done|].
  by apply (own_elem W sp l p Hl); right.
Qed.

(** The struct of a new area, when the heap has a free block for it. *)
Lemma new_struct s W others sp l L bs :
  vmm_rep s W others → W !! sp = Some l → heap_rep (heap s) false L → (bs, true) ∈ L → 32 ≤ bs →
  room_for (heap s) sizeof_vm_area →
  ∃ p h, kmalloc sizeof_vm_area (heap s) = Ok (p, h) ∧ p ≠ 0 ∧ p ∉ (r_ptr <$> l) ∧
    h = with_nodes (nodes h) (heap s).
Proof.
  intros Hrep Hl Hh Hin Hbs Hroom.
  destruct (kmalloc_fits (heap s) L 32 bs Hh ltac:(lia) Hin Hbs) as (L1 & b & L2 & h & EL & Hb & Ek & Eh & _).
  set p := kheap_start (heap s) + span L1 + 24 in Ek. exists p, h. split; [done|].
  assert (p ≠ 0) as Hp0.
  { rewrite EL in Hh. pose proof (rep_bounds _ _ _ _ _ _ Hh) as Hbd. cbv zeta in Hbd. lia. }
  split; [done|]. split; [|done]. by eapply fresh_struct.
Qed.

(** C30: Lazy allocation is first fit. With room for one more struct in the heap,
    [vmm_alloc] of an anonymous area of up to 2 GB returns without touching any page
    table: either the lowest address of the region at which the whole pages of the
    request are free, now in the list of the space, or NULL when no such address lies in
    the region. *)
Theorem vmm_alloc_first_fit s W others sp l L bs sz fl arg :
  vmm_rep s W others → W !! sp = Some l → heap_rep (heap s) false L → (bs, true) ∈ L → 32 ≤ bs →
  room_for (heap s) sizeof_vm_area → 0 < sz ≤ 2 ^ 31 →
  has (area_flags s sp fl) VMM_FLAGS_MMIO = false → has (area_flags s sp fl) VMM_FLAGS_ANON = true →
  let z := round_up sz in
  ∃ r s', vmm_alloc sp sz fl arg s = Ok (r, s') ∧ paging (heap s') = paging (heap s) ∧
    kernel_vas s' = kernel_vas s ∧ pml4_phys <$> spaces s' = pml4_phys <$> spaces s ∧
    ((r = 0 ∧ vmm_rep s' W others ∧
        ∀ b, region_start s sp ≤ b → free_at l b z → region_end s sp ≤ b) ∨
     (region_start s sp ≤ r < region_end s sp ∧ free_at l r z ∧
        (∀ b, region_start s sp ≤ b → free_at l b z → r ≤ b) ∧
        ∃ l1 l2 p, l = l1 ++ l2 ∧
          vmm_rep s' (<[sp := l1 ++ mkRegion p r z (area_flags s sp fl) :: l2]> W) others)).
Proof.
  intros Hrep Hl Hh Hin Hbs Hroom Hsz HM HA z.
  destruct (vr_space _ _ _ Hrep sp l Hl) as [a Hsr]. destruct (round_up_ok sz ltac:(lia)) as (Hz & Hz' & Hzm).
  pose proof (region_bounds s sp) as Hrb.
  destruct (new_struct s W others sp l L bs Hrep Hl Hh Hin Hbs Hroom) as (p & h & Ek & Hp0 & Hp & Eh).
  assert (∀ h hd lk m, pml4_phys <$> spaces (returned_vmm s sp a h hd lk m) = pml4_phys <$> spaces s) as Hroots.
  { intros. cbn [spaces returned_vmm]. rewrite fmap_insert insert_id // lookup_fmap (sr_space _ _ _ _ Hsr). done. }
  destruct (vmm_alloc_run s sp a l sz fl arg Hsr) as (lk & Hlk & [[Er Hno]|(l1 & l2 & c & El & Hc & Hso & Hmin & _ & Hrun)]);
    [lia|done| |].
  - eexists 0, _. split; [exact Er|]. split; [done|]. split; [done|]. split; [apply Hroots|]. left. split; [done|]. split; [|done]. by eapply rep_same; try apply Hrep.
  - pose proof (Hrun p h Hp Ek) as Er. rewrite (proj2 (Z.eqb_neq p 0) Hp0) /backing HM HA /ret in Er.
    eexists c, _. split; [exact Er|]. split; [simpl; by rewrite Eh|]. split; [done|]. split; [apply Hroots|]. right. split; [done|].
    split; [rewrite El; by apply (sorted_free (region_start s sp) (region_end s sp) l1 0 c z 0)|]. split; [done|].
    destruct (vmm_alloc_rep s W others sp l sz fl arg c _ Hrep Hl ltac:(lia) Hroom Er) as [[-> _]|(k1 & k2 & q & Ek2 & _ & _ & Hr)];
      [lia|]. exists k1, k2, q. done.
Qed.

Lemma page_number c w : c mod 4096 = 0 → w / 4096 - c / 4096 = (w - c) / 4096.
Proof. intros Hc. Z.div_mod_to_equations. lia. Qed.

(** C5: A page fault. In a reachable state with four free frames, a fault outside every
    area of the space, or on a present page, halts the machine. Any other fault returns,
    and the page then translates to a frame that nobody had, filled with zeros, with
    exactly the rights of the area that contains it (writable, user, executable); no
    other translation and no area has changed, and cached translations still agree with
    the tables. *)
Theorem vmm_page_fault_correct s W others l a T A n cr2 ec :
  let sp := fault_space s cr2 in let P := paging (heap s) in
  vmm_rep s W others → W !! sp = Some l → spaces s !! sp = Some a →
  pt_ok P (pml4_phys a) T A n → valid_target P (pml4_phys a) cr2 →
  (∀ e, mmu_walk (mem P) (pml4_phys a) cr2 ≠ Some (Page2M e)) → (4 ≤ n)%nat →
  (Forall (λ r, ¬ contains cr2 r) l ∨ has ec PAGE_FAULT_PRESENT = true → vmm_page_fault_handler cr2 ec s = Err Halt) ∧
  (∀ r, r ∈ l → contains cr2 r → has ec PAGE_FAULT_PRESENT = false →
   ∃ s' f e, vmm_page_fault_handler cr2 ec s = Ok (tt, s') ∧ vmm_rep s' W others ∧ areas s' = areas s ∧
     let P' := paging (heap s') in
     f ∉ A ∧ mmu_walk (mem P') (pml4_phys a) cr2 = Some (Page4K e) ∧ pte_addr e = f ∧
     Z.testbit e 1 = Z.testbit (r_flags r) 1 ∧ Z.testbit e 2 = Z.testbit (r_flags r) 3 ∧
     Z.testbit e 63 = negb (Z.testbit (r_flags r) 2) ∧
     (∀ x, f ≤ x < f + PAGING_PAGE_SIZE → mem P' x = 0) ∧
     (∀ w, ¬ same_leaf false w cr2 → mmu_walk (mem P') (pml4_phys a) w = mmu_walk (mem P) (pml4_phys a) w) ∧
     (tlb_ok (tlb_of P) (mmu_walk (mem P) (pml4_phys a)) → tlb_ok (tlb_of P') (mmu_walk (mem P') (pml4_phys a)))).
Proof.
  intros sp P Hrep Hl Ha Hok Htgt Hcan Hn. destruct (vr_space _ _ _ Hrep sp l Hl) as [a' Hsr].
  assert (a' = a) as -> by (pose proof (sr_space _ _ _ _ Hsr); congruence).
  destruct (fault_run s a l cr2 ec Hsr) as [[Hno Er]|(l1 & r & l2 & lk & El & Hr & Hlk & Er)].
  { split; [done|]. intros r Hin Hr. rewrite Forall_forall in Hno. by apply Hno in Hin. }
  split.
  - intros [Hno|Hpr]; [|by rewrite Er Hpr]. rewrite El Forall_app Forall_cons in Hno. by destruct Hno as (_ & ? & _).
  - intros r' Hin Hr' Hpr. assert (r' = r) as ->.
    { eapply (contains_unique _ _ l); [apply Hsr|done|rewrite El; apply elem_of_app; right; by left|done|done]. }
    destruct (demand_page_ok P (pml4_phys a) T A n cr2 (r_flags r) Hok Htgt Hcan Hn) as
      (P' & T' & A' & n' & f & Ed & Hf & HfA & Hok' & _ & HA & _ & Hw & Hzero & Htlb).
    fold P in Er. rewrite Hpr Ed in Er. destruct (area_entry_bits f (r_flags r) Hf) as (B1 & B2 & B3 & B4).
    eexists _, f, _. split; [exact Er|]. split; [eapply rep_same; try done; apply client_paging, Hrep|].
    split; [done|]. cbn [heap returned_vmm paging with_paging]. split; [done|]. rewrite Hw upd_eq. split; [done|].
    do 5 (split; [done|]). split; [|done]. intros w Hnw. rewrite Hw /upd decide_False //.
Qed.

(** A new address space. With a free frame and room for the struct, from a reachable
    state, [vmm_new_address_space] returns an empty space with a root table of its own,
    in which the kernel's half translates exactly as in the kernel's address space and the
    user half is empty; the kernel's own translations have not changed. *)
Lemma vmm_new_address_space_correct s W others L bs k T A n :
  vmm_rep s W others → heap_rep (heap s) false L → (bs, true) ∈ L → 32 ≤ bs →
  room_for (heap s) sizeof_vm_address_space → spaces s !! kernel_vas s = Some k →
  pt_ok (paging (heap s)) (pml4_phys k) T A n → (0 < n)%nat →
  ∃ p f s', vmm_new_address_space s = Ok (p, s') ∧ p ≠ 0 ∧ W !! p = None ∧
    vmm_rep s' (<[p := []]> W) others ∧ spaces s' !! p = Some (mkSpace f 0 SPINLOCK_IRQ_INIT) ∧ f ∉ A ∧
    (∀ v, mmu_walk (mem (paging (heap s'))) f v =
          if decide (upper_half v) then mmu_walk (mem (paging (heap s))) (pml4_phys k) v else None) ∧
    (∀ v, mmu_walk (mem (paging (heap s'))) (pml4_phys k) v = mmu_walk (mem (paging (heap s))) (pml4_phys k) v).
Proof.
  intros Hrep Hh Hin Hbs Hroom Hk Hok Hn. destruct n as [|n]; [lia|].
  destruct (kmalloc_fits (heap s) L 32 bs Hh ltac:(lia) Hin Hbs) as (L1 & b & L2 & h & EL & Hb & Ek & Eh & Hh').
  set p := kheap_start (heap s) + span L1 + 24 in Ek *.
  assert (p ≠ 0) as Hp0.
  { rewrite EL in Hh. pose proof (rep_bounds _ _ _ _ _ _ Hh) as Hbd. cbv zeta in Hbd. lia. }
  assert (p ≠ kernel_vas s) as Hpk.
  { pose proof (client_kmalloc _ _ 32 _ _ (vr_heap _ _ _ Hrep) ltac:(lia) Hroom Ek) as Hcl.
    rewrite decide_False // in Hcl. destruct (fresh_space _ _ _ _ Hcl) as [Hnone _].
    destruct (vr_kernel _ _ _ Hrep) as [l0 Hl0]. intros E0. rewrite -E0 Hnone in Hl0. discriminate Hl0. }
  pose proof (owned_alloc_room _ A n (ok_owned _ _ _ _ _ Hok)) as (f & fs & Ea & Htop & HfA & Hfr & Ho)%wp_run.
  set P := paging (heap s) in Hok Ea Htop *. assert (paging h = P) as EP by by rewrite Eh.
  set P2 := with_mem (zero_page f (mem P)) (with_frames fs P).
  assert (pml4_phys k ∈ A) as HkA by (eapply ok_tables, wf_root, Hok; done).
  assert (frame (pml4_phys k)) as Hkf by (eapply owned_frame; [apply Hok|done]).
  destruct (copy_upper_ok 256 256 P2 f (pml4_phys k) Hfr Hkf) as (m' & Ec & Hs & Hm); [congruence|lia|lia|]. revert Ec.
  assert (∀ j, index j → slot m' f j = if decide (256 ≤ j < 512) then slot (mem P) (pml4_phys k) j else 0) as Hs'.
  { intros j Hj. rewrite Hs //. change (256 + Z.of_nat 256) with 512. case_decide; simpl; [|by apply slot_zero].
    apply slot_zero_ne; [done|done|done|congruence]. }
  destruct (new_root_walk P (pml4_phys k) T A (Datatypes.S n) f m' Hok Hfr HfA Hs') as [H1 H2].
  { intros x Hx. rewrite Hm //. simpl. rewrite /zero_page.
    destruct (Z.leb_spec f x), (Z.ltb_spec x (f + PAGING_PAGE_SIZE)); cbn [andb]; [lia|done..]. }
  intros Ec. assert (vmm_new_address_space s = Ok (p, with_spaces (<[p := mkSpace f 0 SPINLOCK_IRQ_INIT]> (spaces s))
    (with_heap (with_paging (with_mem m' P2) h) s))) as E.
  { rewrite /vmm_new_address_space {1}/bind {1}/on_heap Ek (proj2 (Z.eqb_neq p 0) Hp0).
    rewrite {1}/bind /on_tables {1}/on_heap {1}/on_paging {1}/on_frames. cbn [heap with_heap]. rewrite EP.
    change PAGING_PAGE_SIZE with PMM_PAGE_SIZE. rewrite Ea. rewrite (proj2 (Z.eqb_neq f 0)); [|destruct Hfr; lia].
    rewrite {1}/bind {1}/write_space {1}/modify {1}/bind {1}/on_heap {1}/on_paging {1}/gets.
    cbn [heap with_heap with_spaces paging with_paging hhdm_offset with_frames].
    rewrite {1}/bind {1}/on_heap {1}/on_paging /clear_page {1}/modify.
    cbn [heap with_heap with_spaces paging with_paging hhdm_offset with_frames]. rewrite (frame_phys _ f Hfr).
    rewrite {1}/bind {1}/gets {1}/bind {1}/read_space {1}/reads. cbn [kernel_vas spaces with_heap with_spaces].
    rewrite (lookup_insert_ne _ p _ _ Hpk) Hk.
    rewrite {1}/bind /on_heap /on_paging. cbn [heap with_heap with_spaces paging with_paging]. cbn [mem with_frames].
    fold P2. change (hhdm_offset P) with (hhdm_offset P2). rewrite Ec. reflexivity. }
  destruct (vmm_new_rep s W others p _ Hrep Hroom E) as [[Hp _]|(_ & Hnone & Hrep')]; [destruct (Hp0 Hp)|].
  eexists p, f, _. split; [exact E|]. split; [exact Hp0|]. split; [exact Hnone|]. split; [exact Hrep'|].
  split; [apply lookup_insert_eq|]. split; [exact HfA|]. split; [exact H2|exact H1].
Qed.

(** [vmm_alloc] does not check the end of the region behind the last area: when no
    gap of the region holds the request but the last area ends inside the region, the
    call still succeeds, with an area that runs past the end (for the kernel's space into
    the image of the kernel, for a user space out of canonical addresses). *)
Lemma vmm_alloc_overruns s sp a l sz fl arg p h :
  space_rep s sp a l → 0 < sz ≤ 2 ^ 31 → kmalloc sizeof_vm_area (heap s) = Ok (p, h) → p ≠ 0 → p ∉ (r_ptr <$> l) →
  has (area_flags s sp fl) VMM_FLAGS_MMIO = false → has (area_flags s sp fl) VMM_FLAGS_ANON = true →
  Forall (λ r, r_end r < region_end s sp) l →
  (∀ b, region_start s sp ≤ b → free_at l b (round_up sz) → region_end s sp < b + round_up sz) →
  ∃ r s' x, vmm_alloc sp sz fl arg s = Ok (r, s') ∧ r ≠ 0 ∧ areas s' !! p = Some x ∧ base x = r ∧
    region_end s sp < base x + area_size x.
Proof.
  intros Hsr Hsz Ek Hp0 Hp HM HA Hlast Hfull. destruct (round_up_ok sz ltac:(lia)) as (Hz & Hz' & Hzm).
  pose proof (region_bounds s sp) as Hrb.
  destruct (vmm_alloc_run s sp a l sz fl arg Hsr ltac:(lia) Hzm) as
    (lk & Hlk & [[_ Hno]|(l1 & l2 & c & El & Hc & Hso & _ & _ & Hrun)]).
  - exfalso. set e := default (region_start s sp) (r_end <$> last l).
    assert (region_start s sp ≤ e < region_end s sp ∧ free_at l e (round_up sz)) as [He Hfr].
    { rewrite /e. destruct l as [|r l _] using rev_ind; [simpl; split; [lia|constructor]|].
      rewrite last_snoc /=. apply Forall_app in Hlast as [_ [Hr _]%Forall_cons].
      pose proof (sorted_from_elem _ _ _ r (sr_sorted _ _ _ _ Hsr)) as Hrr. rewrite /r_end in Hrr Hr |- *. split.
      - destruct Hrr as ((? & ?) & ? & _); [apply elem_of_app; right; by left|]. lia.
      - apply Forall_forall. intros x Hx. right. apply elem_of_app in Hx as [(i & Hi)%list_elem_of_lookup|[->|Hx]%elem_of_cons];
          [|done|by apply not_elem_of_nil in Hx].
        pose proof (lookup_lt_Some _ _ _ Hi) as Hlt.
        pose proof (sorted_disjoint _ _ _ i (length l) x r (sr_sorted _ _ _ _ Hsr) Hlt) as Hd.
        rewrite lookup_app_l // list_lookup_middle // in Hd. specialize (Hd Hi eq_refl).
        assert (0 < r_size r) as Hr0 by (apply Hrr, elem_of_app; right; by left). rewrite /r_end in Hd |- *. lia. }
    pose proof (Hno e ltac:(lia) Hfr). lia.
  - pose proof (Hrun p h Hp Ek) as Er. rewrite (proj2 (Z.eqb_neq p 0) Hp0) /backing HM HA /ret in Er.
    eexists c, _, _. split; [exact Er|]. split; [lia|]. split.
    { simpl. rewrite linked_ne; [by rewrite lookup_insert_eq|]. intros Hin. apply Hp. rewrite El fmap_app elem_of_app. by left. }
    split; [done|]. simpl. apply Hfull; [lia|]. rewrite El. by eapply (sorted_free _ _ l1 0 c _ 0).
Qed.

Lemma pages_of_region r w :
  r_base r mod PAGING_PAGE_SIZE = 0 → r_size r mod PAGING_PAGE_SIZE = 0 → 0 < r_size r →
  (r_base r / PAGING_PAGE_SIZE ≤ w / PAGING_PAGE_SIZE <
     r_base r / PAGING_PAGE_SIZE + Z.of_nat (Z.to_nat (r_size r / PAGING_PAGE_SIZE))) ↔ contains w r.
Proof. rewrite /contains /r_end /PAGING_PAGE_SIZE. lia. Qed.

(** The area an address is in, and its place in the list. *)
Lemma same_place s W others sp l1 r l2 k1 x k2 v :
  vmm_rep s W others → W !! sp = Some (l1 ++ r :: l2) → l1 ++ r :: l2 = k1 ++ x :: k2 →
  contains v r → contains v x → k1 = l1 ∧ x = r ∧ k2 = l2.
Proof.
  intros Hrep Hl El Hr Hx. destruct (vr_space _ _ _ Hrep sp _ Hl) as [a Hsr].
  pose proof (own_delete _ _ _ Hl (proj1 (holds_own _ _ _ (vr_heap _ _ _ Hrep)))) as (_ & Hnd & _).
  assert (x = r) as ->.
  { eapply (contains_unique _ _ (l1 ++ r :: l2)); [apply Hsr|rewrite El| |exact Hx|exact Hr];
      apply elem_of_app; right; by left. }
  apply NoDup_fmap_1 in Hnd. by destruct (app_inj_middle _ _ _ _ _ El Hnd).
Qed.

(** [vmm_free] in terms of the tables: the area is gone, the heap has its struct back. *)
Lemma vmm_free_ok s W others sp a l1 r l2 addr T A n :
  let P := paging (heap s) in let root := pml4_phys a in
  let N := Z.to_nat (r_size r / PAGING_PAGE_SIZE) in
  let free := negb (has (r_flags r) VMM_FLAGS_MMIO) in
  vmm_rep s W others → W !! sp = Some (l1 ++ r :: l2) → spaces s !! sp = Some a → contains addr r →
  pt_ok P root T A n → region_ok P root T false (r_base r) N →
  (free = true → region_frames T A (view (mem P) T) (r_base r) N) →
  ∃ P' A' ns hd lk m,
    let s' := returned_vmm s sp a (with_nodes ns (with_paging P' (heap s))) hd lk m in
    vmm_free sp addr s = Ok (tt, s') ∧ vmm_rep s' (<[sp := l1 ++ l2]> W) others ∧
    pt_ok P' root T A' n ∧ regs P' = regs P ∧
    (∀ w, canonical_addr w → view (mem P') T w = if decide (contains w r) then None else view (mem P) T w) ∧
    (∀ f, f ∈ A' ↔ f ∈ A ∧ ¬ (free = true ∧ in_region (view (mem P) T) (r_base r) N f)) ∧
    (tlb_ok (tlb_of P) (view (mem P) T) → tlb_ok (tlb_of P') (view (mem P') T)).
Proof.
  intros P root N free Hrep Hl Ha Hc Hok Hreg Hrf. destruct (vr_space _ _ _ Hrep sp _ Hl) as [a' Hsr].
  assert (a' = a) as -> by (pose proof (sr_space _ _ _ _ Hsr); congruence).
  pose proof (sorted_from_elem _ _ _ r (sr_sorted _ _ _ _ Hsr)) as (Hb & Hsz & Hbm & Hsm & Hend);
    [apply elem_of_app; right; by left|]. pose proof (region_bounds s sp) as (Hrb & _).
  destruct (vmm_free_run s sp a _ addr Hsr) as (lk & Hlk & [[_ Hno]|(k1 & x & k2 & El & Hx & Er)]);
    [rewrite /contains in Hc; lia| |].
  { rewrite Forall_app Forall_cons in Hno. by destruct Hno as (_ & ? & _). }
  destruct (same_place s W others sp l1 r l2 k1 x k2 addr Hrep Hl El Hc Hx) as (-> & -> & ->).
  pose proof (unmap_region_wp root T A n P (r_base r) (r_size r) free Hok Hbm Hsm ltac:(lia) ltac:(lia)
    ltac:(rewrite /r_end in Hend; lia) Hreg Hrf) as Hu.
  apply wp_run in Hu as ([] & P' & Eu & A' & Hok' & Hregs & Hview & Htlb & HA').
  assert (unbacking root r P = Ok (tt, P')) as Eb by exact Eu.
  fold root P in Er. rewrite Eb in Er.
  pose proof (client_paging _ _ P' (vr_heap _ _ _ Hrep)) as Hcl.
  destruct (client_kfree_total (with_paging P' (heap s)) _ (r_ptr r) 32
    (((λ p, (p, 32)) <$> (sp :: (r_ptr <$> l1) ++ (r_ptr <$> l2) ++ own (delete sp W))) ++ others) Hcl) as (h' & Ef & _ & Eh).
  { rewrite (own_lookup W sp _ Hl) fmap_app fmap_cons.
    rewrite ?fmap_app ?fmap_cons ?fmap_app ?fmap_cons -?Permutation_middle. rewrite ?fmap_app. cbn [app]. rewrite -?app_assoc. cbn [app]. rewrite -?app_assoc. apply perm_swap. }
  rewrite Ef Eh in Er. eexists P', A', _, _, _, _. cbv zeta. split; [exact Er|]. split.
  { destruct (vmm_free_rep s W others sp _ addr _ Hrep Hl ltac:(rewrite /contains in Hc; lia) Er)
      as [[_ Hno]|(k1 & x & k2 & El' & Hx' & Hrep')].
    - rewrite Forall_app Forall_cons in Hno. by destruct Hno as (_ & ? & _).
    - by destruct (same_place s W others sp l1 r l2 k1 x k2 addr Hrep Hl El' Hc Hx') as (-> & -> & ->). }
  split; [done|]. split; [done|]. split; [|split; [done|exact Htlb]].
  intros w Hw. rewrite (Hview w Hw) /without.
  pose proof (pages_of_region r w Hbm Hsm Hsz) as Hp. fold N in Hp. repeat case_decide; tauto.
Qed.

End claims.

(** Switching to a space that exists returns. *)
Lemma vmm_switch_run {S} `{FrameAlloc S} (s : vmm_state S) sp a :
  sp ≠ 0 → spaces s !! sp = Some a → ∃ s', vmm_switch_address_space sp s = Ok (tt, s').
Proof.
  intros Hsp Ha. eexists. rewrite /vmm_switch_address_space (proj2 (Z.eqb_neq sp 0) Hsp) {1}/bind /modify {1}/bind.
  rewrite /read_space /reads. cbn [spaces with_current_vas]. rewrite Ha. reflexivity.
Qed.

(** ** A concrete machine

    The heap of KheapThms.v, an address space for the kernel on it, and one area. *)

#[local] Existing Instance bump_alloc.
#[local] Existing Instance bump_spec.

Definition bare_vmm (h : kheap_state Z) : vmm_state Z := mkVmm h (mkCpu 0x202) 0 0 ∅ ∅.

(** After [vmm_init]. *)
Record booted (h : kheap_state Z) (s : vmm_state Z) (bs root : Z) T A n : Prop := {
  bo_client : client_inv (h, []);
  bo_room : room_for h sizeof_vm_address_space;
  bo_init : vmm_init (bare_vmm h) = Ok (tt, s);
  bo_rep : vmm_rep s {[ kernel_vas s := [] ]} [];
  bo_heap : ∃ L, heap_rep (heap s) false L ∧ (bs, true) ∈ L ∧ 64 ≤ bs;
  bo_room2 : room_for (heap s) 32;
  bo_space : spaces s !! kernel_vas s = Some (mkSpace root 0 SPINLOCK_IRQ_INIT);
  bo_kroot : root = kernel_pml4_phys (paging (heap s));
  bo_cr3 : cr3 (paging (heap s)) = root;
  bo_pat : msr_pat (paging (heap s)) = pat_val;
  bo_tables : pt_ok (paging (heap s)) root T A n;
  bo_frames : 100000 ≤ Z.of_nat n;
  bo_mem : ∃ fr, heap_mem (heap s) T A n fr bare_lim;
  bo_start : kheap_start (heap s) = 0xffffffff80105000 ∧ kheap_end (heap s) = 0xffffffff80205000;
  bo_root : hhdm_physToVirt (hhdm_offset (paging (heap s))) root ≠ 0;
  bo_view : ∀ w, canonical_addr w → w < 0xffffffff80105000 → mmu_walk (mem (paging (heap s))) root w = None;
}.

Lemma boot : ∃ h s bs root T A n, booted h s bs root T A n.
Proof.
  destruct first_heap as (h & T & A & n & fr & _ & Hst & Hen & Hr & Hm & Hn & Hcr3 & Hpat & Hv).
  assert (client_inv (h, [])) as Hc.
  { exists [(0xfffe8, true)], []. split; [exact Hr|]. split; [constructor|reflexivity]. }
  assert (room_for h 32) as Hroom by (rewrite /room_for Hen; vm_compute; exact eq_refl).
  destruct (kmalloc_fits h _ 32 0xfffe8 Hr) as (L1 & b & L2 & h1 & EL & Hb & Ek & Eh & Hr1);
    [clear; lia|apply list_elem_of_singleton; exact eq_refl|vm_compute; discriminate|].
  destruct L1 as [|x L1]; [|by destruct L1]. injection EL as <- <-. simpl in Hr1.
  set p := kheap_start h + span [] + 24 in Ek.
  assert (p = 0xffffffff80105018) as Ep by (rewrite /p Hst; exact eq_refl).
  set root := kernel_pml4_phys (paging h).
  set s := mkVmm (with_paging (paging h) h1) (mkCpu 0x202) p p
    (<[p := mkSpace root 0 SPINLOCK_IRQ_INIT]> ∅) ∅ : vmm_state Z.
  assert (paging h1 = paging h) as EP by by rewrite Eh.
  assert (vmm_init (bare_vmm h) = Ok (tt, s)) as E.
  { rewrite /vmm_init {1}/bind /on_heap. cbn [heap bare_vmm]. rewrite Ek {1}/bind /modify.
    rewrite (proj2 (Z.eqb_neq p 0)); [|rewrite Ep; discriminate]. rewrite {1}/bind /on_tables /on_heap /on_paging.
    cbn [heap with_heap with_kernel_vas]. rewrite /paging_getKernelRoot /gets EP. reflexivity. }
  exists h, s, 0xfffb0, root, T, A, n.
  destruct (vmm_init_rep (bare_vmm h) [] s eq_refl Hc Hroom E) as [Hrep _].
  split; [exact Hc|exact Hroom|exact E|exact Hrep| | | |reflexivity|exact Hcr3|exact Hpat| | | | | |].
  - eexists. split; [destruct Hr1; split; simpl; eauto|]. split; [right; left|]. lia.
  - rewrite /room_for. cbn [heap s kheap_end with_paging]. rewrite Eh. cbn [kheap_end with_nodes].
    rewrite Hen. vm_compute. exact eq_refl.
  - apply lookup_insert_eq.
  - cbn [heap s paging with_paging]. apply Hm.
  - exact Hn.
  - exists fr. cbn [heap s]. rewrite Eh. by destruct Hm.
  - cbn [heap s kheap_start kheap_end with_paging]. rewrite Eh. by split.
  - cbn [heap s paging with_paging]. apply Hm.
  - intros w Hw Hlt. cbn [heap s paging with_paging]. rewrite (walk_view _ _ T); [|apply Hm]. apply Hv; [exact Hw|].
    clear - Hlt. lia.
Qed.

(** The kernel's space with one anonymous, writable area of two pages. *)
Lemma boot_area :
  ∃ (s : vmm_state Z) p a T A n, let k := kernel_vas s in
    vmm_rep s {[ k := [mkRegion p VMM_KERNEL_START 8192 18] ]} [] ∧ spaces s !! k = Some a ∧
    pt_ok (paging (heap s)) (pml4_phys a) T A n ∧ (4 ≤ n)%nat ∧
    hhdm_physToVirt (hhdm_offset (paging (heap s))) (pml4_phys a) ≠ 0 ∧
    ∀ w, canonical_addr w → w < 0xffffffff80105000 → mmu_walk (mem (paging (heap s))) (pml4_phys a) w = None.
Proof.
  destruct boot as (h & s & bs & root & T & A & n & B). destruct (bo_heap _ _ _ _ _ _ _ B) as (L & HL & Hin & Hbs).
  pose proof (bo_rep _ _ _ _ _ _ _ B) as Hrep.
  assert ({[ kernel_vas s := [] ]} !! kernel_vas s = Some ([] : list region)) as Hl by apply lookup_singleton_eq.
  destruct (vmm_alloc_first_fit s _ _ (kernel_vas s) [] L bs 5000 18 0 Hrep Hl HL Hin) as (r & s' & E & EP & Ekv & Hroots & Hout);
    [clear - Hbs; lia|exact (bo_room2 _ _ _ _ _ _ _ B)|clear; lia
    |rewrite /area_flags Z.eqb_refl; reflexivity|rewrite /area_flags Z.eqb_refl; reflexivity|].
  assert (region_start s (kernel_vas s) = VMM_KERNEL_START ∧ region_end s (kernel_vas s) = VMM_KERNEL_END) as [Es Ee].
  { rewrite /region_start /region_end Z.eqb_refl. split; reflexivity. }
  rewrite Es Ee in Hout. destruct Hout as [(_ & _ & Hno)|(Hr & _ & Hmin & l1 & l2 & p & El & Hrep')].
  { pose proof (Hno VMM_KERNEL_START ltac:(clear; lia) ltac:(constructor)) as Hbad. exfalso. clear - Hbad.
    vm_compute in Hbad. by apply Hbad. }
  symmetry in El. apply app_eq_nil in El as [-> ->].
  assert (r = VMM_KERNEL_START) as ->.
  { pose proof (Hmin VMM_KERNEL_START ltac:(clear; lia) ltac:(constructor)). clear - Hr H. lia. }
  assert (area_flags s (kernel_vas s) 18 = 18) as Ef by (rewrite /area_flags Z.eqb_refl; reflexivity).
  rewrite Ef insert_singleton_eq in Hrep'. change (round_up 5000) with 8192 in Hrep'. simpl in Hrep'.
  assert (∃ a, spaces s' !! kernel_vas s = Some a ∧ pml4_phys a = root) as (a & Ha & Eroot).
  { assert ((pml4_phys <$> spaces s') !! kernel_vas s = Some root) as Hlk
      by (rewrite Hroots lookup_fmap (bo_space _ _ _ _ _ _ _ B); exact eq_refl).
    rewrite lookup_fmap in Hlk. destruct (spaces s' !! kernel_vas s) as [a|]; [|discriminate Hlk].
    injection Hlk as Hlk. by exists a. }
  exists s', p, a, T, A, n. cbv zeta. rewrite Ekv EP Eroot.
  split; [exact Hrep'|]. split; [exact Ha|]. split; [exact (bo_tables _ _ _ _ _ _ _ B)|].
  split; [pose proof (bo_frames _ _ _ _ _ _ _ B) as Hn; clear - Hn; lia|]. split; [exact (bo_root _ _ _ _ _ _ _ B)|].
  exact (bo_view _ _ _ _ _ _ _ B).
Qed.

Lemma vmm_page_fault_correct_witness :
  ∃ (s s' : vmm_state Z) root f e, vmm_page_fault_handler 0xFFFFC00000001234 2 s = Ok (tt, s') ∧
    mmu_walk (mem (paging (heap s))) root 0xFFFFC00000001234 = None ∧
    mmu_walk (mem (paging (heap s'))) root 0xFFFFC00000001234 = Some (Page4K e) ∧
    pte_addr e = f ∧ Z.testbit e 1 = true ∧ Z.testbit e 63 = true.
Proof.
  destruct boot_area as (s & p & a & T & A & n & Hrep & Ha & Hok & Hn & Hroot & Hview).
  assert (mmu_walk (mem (paging (heap s))) (pml4_phys a) 0xFFFFC00000001234 = None) as Hw
    by (apply Hview; [right; clear; lia|clear; lia]).
  assert (fault_space s 0xFFFFC00000001234 = kernel_vas s) as Es by reflexivity.
  destruct (vmm_page_fault_correct s {[ kernel_vas s := [mkRegion p VMM_KERNEL_START 8192 18] ]} [] [mkRegion p VMM_KERNEL_START 8192 18] a T A n 0xFFFFC00000001234 2)
    as [_ Hf].
  - exact Hrep.
  - rewrite Es. apply lookup_singleton_eq.
  - rewrite Es. exact Ha.
  - exact Hok.
  - split; [exact Hroot|]. split; [clear; lia|]. right. clear. lia.
  - intros e. rewrite Hw. discriminate.
  - exact Hn.
  - destruct (Hf (mkRegion p VMM_KERNEL_START 8192 18)) as (s' & f & e & E & _ & _ & Hout).
    + apply list_elem_of_singleton. exact eq_refl.
    + rewrite /contains /r_end /VMM_KERNEL_START. cbn [r_base r_size]. clear. lia.
    + reflexivity.
    + destruct Hout as (_ & H1 & H2 & H3 & _ & H4 & _). exists s, s', (pml4_phys a), f, e.
      split; [exact E|]. split; [exact Hw|]. split; [exact H1|]. split; [exact H2|]. split; [exact H3|exact H4].
Defined.

Lemma vmm_alloc_first_fit_witness :
  ∃ (s s' : vmm_state Z), vmm_alloc (kernel_vas s) 5000 18 0 s = Ok (VMM_KERNEL_START, s').
Proof.
  destruct boot as (h & s & bs & root & T & A & n & B). destruct (bo_heap _ _ _ _ _ _ _ B) as (L & HL & Hin & Hbs).
  destruct (vmm_alloc_first_fit s {[ kernel_vas s := [] ]} [] (kernel_vas s) [] L bs 5000 18 0
    (bo_rep _ _ _ _ _ _ _ B)) as (r & s' & E & _ & _ & _ & Hout);
    [apply lookup_singleton_eq|exact HL|exact Hin|clear - Hbs; lia|exact (bo_room2 _ _ _ _ _ _ _ B)|clear; lia
    |rewrite /area_flags Z.eqb_refl; reflexivity|rewrite /area_flags Z.eqb_refl; reflexivity|].
  rewrite /region_start /region_end Z.eqb_refl in Hout. exists s, s'.
  destruct Hout as [(_ & _ & Hno)|(Hr & _ & Hmin & _)].
  - pose proof (Hno VMM_KERNEL_START ltac:(clear; lia) ltac:(constructor)) as Hbad. exfalso. clear - Hbad.
    vm_compute in Hbad. by apply Hbad.
  - pose proof (Hmin VMM_KERNEL_START ltac:(clear; lia) ltac:(constructor)) as Hle.
    assert (r = VMM_KERNEL_START) as <- by (clear - Hr Hle; lia). exact E.
Defined.

Lemma vmm_new_address_space_correct_witness :
  ∃ (s s' : vmm_state Z) p f, vmm_new_address_space s = Ok (p, s') ∧ p ≠ 0 ∧
    spaces s' !! p = Some (mkSpace f 0 SPINLOCK_IRQ_INIT) ∧
    ∀ v, canonical_addr v → v < 2 ^ 63 → mmu_walk (mem (paging (heap s'))) f v = None.
Proof.
  destruct boot as (h & s & bs & root & T & A & n & B). destruct (bo_heap _ _ _ _ _ _ _ B) as (L & HL & Hin & Hbs).
  destruct (vmm_new_address_space_correct s {[ kernel_vas s := [] ]} [] L bs (mkSpace root 0 SPINLOCK_IRQ_INIT) T A n
    (bo_rep _ _ _ _ _ _ _ B) HL Hin) as (p & f & s' & E & Hp & _ & _ & Hsp & _ & Hw & _);
    [clear - Hbs; lia|exact (bo_room2 _ _ _ _ _ _ _ B)|exact (bo_space _ _ _ _ _ _ _ B)
    |exact (bo_tables _ _ _ _ _ _ _ B)|pose proof (bo_frames _ _ _ _ _ _ _ B) as Hn; clear - Hn; lia|].
  exists s, s', p, f. split; [exact E|]. split; [exact Hp|]. split; [exact Hsp|]. intros v Hv Hlt.
  rewrite Hw decide_False; [reflexivity|]. rewrite upper_half_addr; [clear - Hlt; lia|exact Hv].
Defined.


(** The kernel's region full up to its last page. *)
Definition full_region : region := mkRegion 0x10 VMM_KERNEL_START 0x3FFF7FFFF000 18.
Definition full_vmm (h : kheap_state Z) : vmm_state Z :=
  mkVmm h (mkCpu 0x202) 0x20 0x20 {[ 0x20 := mkSpace 0x1000 0x10 SPINLOCK_IRQ_INIT ]}
    {[ 0x10 := mkArea VMM_KERNEL_START 0x3FFF7FFFF000 18 0 ]}.

Lemma vmm_alloc_overruns_witness :
  ∃ (s s' : vmm_state Z) r p x, vmm_alloc 0x20 5000 18 0 s = Ok (r, s') ∧ areas s' !! p = Some x ∧
    0xFFFFFFFF80000000 ≤ base x + area_size x.
Proof.
  destruct first_heap as (h & T & A & n & fr & _ & Hst & _ & Hr & _).
  destruct (kmalloc_fits h _ 32 0xfffe8 Hr) as (L1 & b & L2 & h1 & EL & Hb & Ek & _ & _);
    [clear; lia|apply list_elem_of_singleton; exact eq_refl|vm_compute; discriminate|].
  destruct L1 as [|x L1]; [|by destruct L1]. rewrite Hst in Ek.
  destruct (vmm_alloc_overruns (full_vmm h) 0x20 (mkSpace 0x1000 0x10 SPINLOCK_IRQ_INIT) [full_region] 5000 18 0
    0xffffffff80105018 h1) as (r & s' & x & E & _ & Hx & _ & Hend).
  - split; [apply lookup_singleton_eq|discriminate|exact eq_refl|split; [exact eq_refl|vm_compute; split; [discriminate|exact eq_refl]]| | |].
    + split; [apply lookup_singleton_eq|exact I].
    + split; [apply NoDup_singleton|]. constructor; [discriminate|constructor].
    + vm_compute. repeat split; discriminate.
  - clear. lia.
  - exact Ek.
  - discriminate.
  - intros Hin. apply list_elem_of_singleton in Hin. discriminate Hin.
  - reflexivity.
  - reflexivity.
  - constructor; [vm_compute; exact eq_refl|constructor].
  - intros b0 Hb0 Hfr. apply Forall_cons in Hfr as [Hfr _]. clear - Hb0 Hfr.
    assert (region_start (full_vmm h) 0x20 = VMM_KERNEL_START) as E1 by reflexivity.
    assert (region_end (full_vmm h) 0x20 = VMM_KERNEL_END) as E2 by reflexivity.
    rewrite E1 in Hb0. rewrite E2. change (round_up 5000) with 8192 in Hfr |- *.
    rewrite /r_end /full_region in Hfr. cbn [r_base r_size] in Hfr.
    rewrite /VMM_KERNEL_START in Hb0, Hfr. rewrite /VMM_KERNEL_END. lia.
  - exists (full_vmm h), s', r, 0xffffffff80105018, x. split; [exact E|]. split; [exact Hx|].
    assert (region_end (full_vmm h) 0x20 = VMM_KERNEL_END) as E2 by reflexivity. rewrite E2 in Hend.
    rewrite /VMM_KERNEL_END in Hend. clear - Hend. lia.
Defined.

