(* ===== verification/Mmio.v ===== *)
(** * Device memory in the kernel's address space

    What the drivers of the kernel rely on: [vmm_alloc] with [VMM_FLAGS_MMIO] maps the
    physical pages of a device at kernel addresses nobody uses, and an access to them
    goes through the MMU to the device. *)

From stdpp Require Import base gmap list numbers.
From S2P Require Import Prelude Spinlock Hhdm FrameAlloc Paging PagingSpec PagingInit PagingThms.
From S2P Require Import Kheap KheapSpec KheapMem KheapThms Vmm VmmSpec VmmInv VmmThms.

Section mmio.
Context {S : Type} `{FrameAllocSpec S}.
Implicit Types (V : vmm_state S) (P : paging_state S).

(** Where the MMU sends an access to [v]; a write needs a writable page. *)
Definition translate P (write : bool) (v : Z) : option Z :=
  let through (e page_size : Z) :=
    if negb write || Z.testbit e 1 then Some (pte_addr e + v mod page_size) else None in
  match mmu_walk (mem P) (cr3 P) v with
  | Some (Page4K e) => through e PAGING_PAGE_SIZE
  | Some (Page2M e) => through e PAGING_HUGE_PAGE_SIZE
  | Some (Page1G e) => through e 0x40000000
  | None => None
  end.

(** The physical memory from [b] is visible at [r], [z] bytes of it, for reading and writing. *)
Definition device_at P (r z b : Z) : Prop :=
  ∀ write o, 0 ≤ o < z → translate P write (r + o) = Some (b + o).

(** ** The kernel while it runs in its own address space *)

(** The kernel's space is well formed, its tables are loaded, the heap lies above the
    areas, may grow to [lim], and [n] frames are free. *)
Record kernel_vm V W others l a T A n fr lim : Prop := {
  kv_rep : vmm_rep V W others;
  kv_list : W !! kernel_vas V = Some l;
  kv_space : spaces V !! kernel_vas V = Some a;
  kv_root : pml4_phys a = kernel_pml4_phys (paging (heap V));
  kv_cr3 : cr3 (paging (heap V)) = pml4_phys a;
  kv_pat : msr_pat (paging (heap V)) = pat_val;
  kv_mem : heap_mem (heap V) T A n fr lim;
  kv_above : VMM_KERNEL_END < kheap_start (heap V);
  kv_small : ∀ w e, VMM_KERNEL_START ≤ w ≤ VMM_KERNEL_END →
    view (mem (paging (heap V))) T w ≠ Some (Page2M e);
}.

(** Room for the struct of one more area, whatever the heap looks like. *)
Definition struct_room V lim : Prop := kheap_end (heap V) + 3 * KHEAP_EXTENDING_AMOUNT ≤ lim.
Definition struct_frames : nat := 2 * frames_for KHEAP_EXTENDING_AMOUNT.

(** Tables changed elsewhere: the heap is still backed and may still grow. *)
Lemma heap_mem_frame (s s' : kheap_state S) T A n fr lim T' A' n' :
  heap_mem s T A n fr lim → kheap_start s' = kheap_start s → kheap_end s' = kheap_end s →
  regs (paging s') = regs (paging s) → pt_ok (paging s') (kernel_pml4_phys (paging s)) T' A' n' →
  (∀ k f, fr !! k = Some f → f ∈ A → f ∈ A') → kheap_start s ≤ kheap_end s < 2 ^ 64 →
  (∀ w, kheap_start s ≤ w < 2 ^ 64 → view (mem (paging s')) T' w = view (mem (paging s)) T w) →
  heap_mem s' T' A' n' fr lim.
Proof.
  intros [Hok Hbk (Hg1 & Hg2 & Hg3) Hh] Es Ee Er Hok' HA Hse Hv. injection Er as Eo Ek _ _ _ _.
  pose proof Hh as [Hh1 Hh2].
  split; rewrite ?Es ?Ee ?Ek ?Eo; [done| |split; [by rewrite Eo|split; [done|]]|done].
  - destruct Hbk as [B1 B2 B3 B4]. split; [|by intros k f Hk; apply (HA k), (B2 k)|done|done].
    intros v Hvv. destruct (B1 v Hvv) as (f & Hf & E). exists f. split; [done|]. rewrite Hv //. lia.
  - intros w e Hw. rewrite Hv; [by apply Hg3|lia].
Qed.

Lemma kernel_flags V fl : has fl VMM_FLAGS_USER = false → area_flags V (kernel_vas V) fl = fl.
Proof. intros E. by rewrite /area_flags Z.eqb_refl E. Qed.
Lemma kernel_start V : region_start V (kernel_vas V) = VMM_KERNEL_START.
Proof. by rewrite /region_start Z.eqb_refl. Qed.
Lemma kernel_end V : region_end V (kernel_vas V) = VMM_KERNEL_END.
Proof. by rewrite /region_end Z.eqb_refl. Qed.

(** Without a free address in the region the call fails. *)
Lemma kernel_alloc_full V W others l a T A n fr lim sz fl b :
  kernel_vm V W others l a T A n fr lim → 0 < sz ≤ 2 ^ 31 →
  (∀ x, VMM_KERNEL_START ≤ x → free_at l x (round_up sz) → VMM_KERNEL_END ≤ x) →
  ∃ V', vmm_alloc (kernel_vas V) sz fl b V = Ok (0, V').
Proof.
  intros K Hsz Hfull. destruct (round_up_ok sz ltac:(lia)) as (Hz & Hz' & Hzm).
  destruct (vr_space _ _ _ (kv_rep _ _ _ _ _ _ _ _ _ _ K) _ l (kv_list _ _ _ _ _ _ _ _ _ _ K)) as [a' Hsr].
  destruct (vmm_alloc_run V (kernel_vas V) a' l sz fl b Hsr) as (lk & Hlk & [[Er _]|(l1 & l2 & c & El & Hc & Hso & Hmin & _)]);
    [lia|done|by eexists|].
  rewrite kernel_start kernel_end in Hc, Hso. exfalso.
  assert (free_at l c (round_up sz)) as Hf
    by (rewrite El; by apply (sorted_free VMM_KERNEL_START VMM_KERNEL_END l1 0 c (round_up sz) 0)).
  pose proof (Hfull c ltac:(lia) Hf). lia.
Qed.

(** The struct of a new area: the heap may have to grow for it. *)
Lemma kernel_struct V W others l a T A n fr lim :
  kernel_vm V W others l a T A n fr lim → (struct_frames ≤ n)%nat → struct_room V lim →
  ∃ p h L' T' A' n' fr', kmalloc sizeof_vm_area (heap V) = Ok (p, h) ∧ p ≠ 0 ∧ p ∉ (r_ptr <$> l) ∧
    room_for (heap V) sizeof_vm_area ∧ heap_rep h false L' ∧ kheap_start h = kheap_start (heap V) ∧
    heap_mem h T' A' n' fr' lim ∧ extended (heap V) T A n fr 2 h T' A' n' fr'.
Proof.
  intros [Hrep Hl Hsa Hroot Hcr3 Hpat Hm Hab Hsm] Hn Hroom. rewrite /struct_room /struct_frames in Hroom Hn.
  pose proof (hm_half _ _ _ _ _ _ Hm) as [_ Hlim].
  assert (room_for (heap V) sizeof_vm_area) as Hrf.
  { rewrite /room_for. change (Z.of_nat (kmalloc_fuel (round_size sizeof_vm_area))) with 3. lia. }
  assert (extensions sizeof_vm_area = 2%nat) as E2 by (vm_compute; reflexivity).
  destruct (client_kmalloc_total (heap V) _ T A n fr lim sizeof_vm_area (vr_heap _ _ _ Hrep) Hm) as
    (p & h & T' & A' & n' & fr' & E & Hp0 & (L' & B & Hr & _) & Hm' & Hex & Est); rewrite ?E2.
  - by rewrite /sizeof_vm_area.
  - exact Hn.
  - unfold KHEAP_EXTENDING_AMOUNT in *. lia.
  - rewrite E2 in Hex. exists p, h, L', T', A', n', fr'. split; [done|]. split; [done|].
    split; [by eapply fresh_struct|]. done.
Qed.

Lemma heap_not_empty V W others : vmm_rep V W others → kheap_start (heap V) ≤ kheap_end (heap V).
Proof.
  intros Hrep. destruct (vr_heap _ _ _ Hrep) as (L & B & Hr & _). cbn [fst] in Hr. rewrite (hr_end _ _ _ Hr).
  pose proof (span_nonneg L (hr_sizes _ _ _ Hr)). lia.
Qed.

Lemma kernel_canonical w : VMM_KERNEL_START ≤ w < 2 ^ 64 → canonical_addr w.
Proof. unfold VMM_KERNEL_START. intros Hw. right. lia. Qed.

(** The MMU uses the kernel's tables. *)
Lemma kernel_walk V W others l a T A n fr lim w :
  kernel_vm V W others l a T A n fr lim →
  mmu_walk (mem (paging (heap V))) (cr3 (paging (heap V))) w = view (mem (paging (heap V))) T w.
Proof.
  intros K. rewrite (kv_cr3 _ _ _ _ _ _ _ _ _ _ K) (kv_root _ _ _ _ _ _ _ _ _ _ K).
  apply (ok_walk _ _ T A n), hm_tables with fr lim, (kv_mem _ _ _ _ _ _ _ _ _ _ K).
Qed.

(** Other clients of the heap take and give back blocks: [live] is what they hold now. *)
Lemma kernel_vm_heap V W others l a T A n fr lim h live T' A' n' fr' k :
  kernel_vm V W others l a T A n fr lim → holds_structs h W live →
  heap_mem h T' A' n' fr' lim → extended (heap V) T A n fr k h T' A' n' fr' → kheap_start h = kheap_start (heap V) →
  kernel_vm (with_heap h V) W live l a T' A' n' fr' lim ∧
  ∀ w, canonical_addr w → ¬ kheap_end (heap V) ≤ w < kheap_end h →
    mmu_walk (mem (paging h)) (cr3 (paging h)) w = mmu_walk (mem (paging (heap V))) (cr3 (paging (heap V))) w.
Proof.
  intros K Hh Hm' Hex Est. pose proof K as [Hrep Hl Hsa Hroot Hcr3 Hpat Hm Hab Hsm].
  pose proof (ex_regs _ _ _ _ _ _ _ _ _ _ _ Hex) as [= Eo1 Ek1 Ec1 _ Ep1 _].
  assert (kernel_vm (with_heap h V) W live l a T' A' n' fr' lim) as K'.
  { split; cbn [heap with_heap kernel_vas spaces]; try done.
    - by apply (rep_heap V W others).
    - by rewrite Ek1.
    - by rewrite Ec1.
    - by rewrite Ep1.
    - by rewrite Est.
    - intros w e Hw. rewrite (ex_view _ _ _ _ _ _ _ _ _ _ _ Hex); [by apply Hsm| |].
      + apply kernel_canonical. unfold VMM_KERNEL_END in *. lia.
      + pose proof (heap_not_empty V _ _ Hrep). lia. }
  split; [done|]. intros w Hw Hnw. rewrite (kernel_walk _ _ _ _ _ _ _ _ _ _ w K).
  pose proof (kernel_walk _ _ _ _ _ _ _ _ _ _ w K') as E'. cbn [heap with_heap] in E'. rewrite E'. by apply Hex.
Qed.

(** ** Mapping a device *)

(** The pages of the device, in terms of the tables. *)
Lemma map_pages P root T A n c z b fl :
  pt_ok P root T A n → (3 * region_pages z false ≤ n)%nat → hhdm_physToVirt (hhdm_offset P) root ≠ 0 →
  VMM_KERNEL_START ≤ c → c + z ≤ VMM_KERNEL_END + 1 → c mod PAGING_PAGE_SIZE = 0 →
  0 < z → z mod PAGING_PAGE_SIZE = 0 → 0 ≤ b → b + z < 2 ^ 64 →
  (∀ w e, VMM_KERNEL_START ≤ w ≤ VMM_KERNEL_END → view (mem P) T w ≠ Some (Page2M e)) →
  has fl VMM_FLAGS_MMIO = true →
  ∃ P' T' A' n', backing root c b z fl P = Ok (tt, P') ∧ pt_ok P' root T' A' n' ∧
    (n ≤ n' + 3 * region_pages z false)%nat ∧ new_tables T A T' A' ∧ regs P' = regs P ∧
    ∀ w, canonical_addr w → view (mem P') T' w =
      if decide (c ≤ w < c + z)
      then Some (Page4K (map_entry (b + (w - c) / PAGING_PAGE_SIZE * PAGING_PAGE_SIZE)
                           (vmm_generic_to_x86_flags fl) false))
      else view (mem P) T w.
Proof.
  intros Hok Hn Hroot Hc1 Hc2 Hcm Hz Hzm Hb0 Hb Hsm HM. set N := region_pages z false in Hn.
  assert (Z.of_nat N * 4096 = z) as HN.
  { destruct (region_pages_bounds z false ltac:(lia)) as [HbN _]. fold N in HbN.
    cbn [step_size] in HbN. unfold PAGING_PAGE_SIZE in *. clear - HbN Hzm. Z.div_mod_to_equations. lia. }
  destruct (paging_map_region_correct root T A n P c b z (vmm_generic_to_x86_flags fl) false)
    as (P' & T' & A' & n' & Em & Hok' & Hn' & HA' & Er' & Hw).
  1,2: done.
  2,3,4,5,6: fold N; change (step_size false) with 4096; unfold VMM_KERNEL_START, VMM_KERNEL_END in *; lia.
  - intros j Hj. fold N in Hj. change (step_size false) with 4096.
    assert (canonical_addr (c + j * 4096)) as Hcj by (apply kernel_canonical; unfold VMM_KERNEL_END in *; lia).
    split; [split; [done|split; [unfold VMM_KERNEL_START in *; lia|done]]|]. intros e. apply Hsm. lia.
  - exists P', T', A', n'. rewrite /backing HM {1}/bind /gets Em. do 5 (split; [done|]).
    intros w Hcw. rewrite -(ok_walk P' root T' A' n' w Hok') -(ok_walk P root T A n w Hok) (Hw w Hcw).
    cbv zeta. fold N. change (step_size false) with 4096. cbn [page_of]. rewrite (page_number c w); [|done].
    unfold PAGING_PAGE_SIZE. clear - HN.
    repeat case_decide; try done; exfalso; Z.div_mod_to_equations; lia.
Qed.

(** What [vmm_alloc] has done when it returns [r]. *)
Record mapped_device V W others l T (A : gset Z) n fr lim (z b fl r : Z) V' l' a' T' (A' : gset Z) n' fr' : Prop := {
  md_vas : kernel_vas V' = kernel_vas V;
  md_range : VMM_KERNEL_START ≤ r ∧ r + z ≤ VMM_KERNEL_END + 1 ∧ r mod PAGING_PAGE_SIZE = 0;
  md_free : free_at l r z;
  md_min : ∀ x, VMM_KERNEL_START ≤ x → free_at l x z → r ≤ x;
  md_list : ∃ l1 l2 p, l = l1 ++ l2 ∧ l' = l1 ++ mkRegion p r z fl :: l2;
  md_vm : kernel_vm V' (<[kernel_vas V := l']> W) others l' a' T' A' n' fr' lim;
  md_room : (n ≤ n' + struct_frames + 3 * region_pages z false)%nat;
  md_grows : grows T A fr T' A' fr';
  md_start : kheap_start (heap V') = kheap_start (heap V);
  md_end : VMM_KERNEL_END < kheap_end (heap V) ≤ kheap_end (heap V') ∧
    kheap_end (heap V') ≤ kheap_end (heap V) + 2 * KHEAP_EXTENDING_AMOUNT;
  md_regs : regs (paging (heap V')) = regs (paging (heap V));
  md_walk : ∀ w, canonical_addr w → ¬ kheap_end (heap V) ≤ w < kheap_end (heap V') →
    mmu_walk (mem (paging (heap V'))) (cr3 (paging (heap V'))) w =
      if decide (r ≤ w < r + z)
      then Some (Page4K (map_entry (b + (w - r) / PAGING_PAGE_SIZE * PAGING_PAGE_SIZE)
                           (vmm_generic_to_x86_flags fl) false))
      else mmu_walk (mem (paging (heap V))) (cr3 (paging (heap V))) w;
}.

(** After the struct and the pages. *)
Lemma kernel_vm_mapped V W others l a T A n fr lim h T1 A1 n1 fr1 P' T' A' n' c z e m hd lk l' L' :
  kernel_vm V W others l a T A n fr lim →
  heap_rep h false L' → kheap_start h = kheap_start (heap V) →
  heap_mem h T1 A1 n1 fr1 lim → extended (heap V) T A n fr 2 h T1 A1 n1 fr1 →
  pt_ok P' (pml4_phys a) T' A' n' → A1 ⊆ A' → regs P' = regs (paging h) →
  VMM_KERNEL_START ≤ c → c + z ≤ VMM_KERNEL_END + 1 →
  (∀ w, canonical_addr w → view (mem P') T' w =
     if decide (c ≤ w < c + z) then Some (Page4K (e w)) else view (mem (paging h)) T1 w) →
  let V' := returned_vmm V (kernel_vas V) a (with_paging P' h) hd lk m in
  vmm_rep V' (<[kernel_vas V := l']> W) others →
  kernel_vm V' (<[kernel_vas V := l']> W) others l' (mkSpace (pml4_phys a) hd lk) T' A' n' fr1 lim.
Proof.
  intros [Hrep Hl Hsa Hroot Hcr3 Hpat Hm Hab Hsm] Hr1 Est Hm1 Hex Hok' HA' Er' Hc1 Hc2 Hv V' Hrep'.
  pose proof Er' as [= Eo' Ek' Ec' _ Ep' _]. pose proof (ex_regs _ _ _ _ _ _ _ _ _ _ _ Hex) as [= Eo1 Ek1 Ec1 _ Ep1 _].
  split; cbn [V' heap returned_vmm paging with_paging kheap_start kheap_end kernel_vas spaces pml4_phys].
  - exact Hrep'.
  - apply lookup_insert_eq.
  - apply lookup_insert_eq.
  - by rewrite Hroot -Ek1 -Ek'.
  - by rewrite Ec' Ec1.
  - by rewrite Ep' Ep1.
  - destruct (hr_top _ _ _ Hr1) as [Htop _].
    apply (heap_mem_frame h _ T1 A1 n1 fr1 lim T' A' n' Hm1); try done; cbn [paging with_paging].
    + by rewrite Ek1 -Hroot.
    + intros k f _. apply HA'.
    + rewrite (hr_end _ _ _ Hr1) in Htop |- *. pose proof (span_nonneg L' (hr_sizes _ _ _ Hr1)). lia.
    + intros w Hw. rewrite Hv; [rewrite decide_False //; lia|].
      apply kernel_canonical. unfold VMM_KERNEL_START, VMM_KERNEL_END in *. lia.
  - by rewrite Est.
  - intros w e' Hw. assert (canonical_addr w) as Hcw
      by (apply kernel_canonical; unfold VMM_KERNEL_END in *; lia).
    rewrite Hv //. case_decide; [done|]. rewrite (ex_view _ _ _ _ _ _ _ _ _ _ _ Hex) //; [by apply Hsm|].
    pose proof (heap_not_empty V _ _ Hrep). lia.
Qed.

(** [vmm_alloc] when there is a gap: the struct, the place of the new area and what is left
    to do, which is to back it. *)
Lemma kernel_alloc_at V W others l a T A n fr lim sz fl b :
  kernel_vm V W others l a T A n fr lim → 0 < sz ≤ 2 ^ 31 → has fl VMM_FLAGS_USER = false → let z := round_up sz in
  (struct_frames ≤ n)%nat → struct_room V lim →
  (∃ x, VMM_KERNEL_START ≤ x ∧ x + z ≤ VMM_KERNEL_END + 1 ∧ free_at l x z) →
  ∃ c h L' T1 A1 n1 fr1 hd lk m,
    heap_rep h false L' ∧ kheap_start h = kheap_start (heap V) ∧ heap_mem h T1 A1 n1 fr1 lim ∧
    extended (heap V) T A n fr 2 h T1 A1 n1 fr1 ∧
    VMM_KERNEL_START ≤ c ∧ c + z ≤ VMM_KERNEL_END + 1 ∧ c mod PAGING_PAGE_SIZE = 0 ∧ free_at l c z ∧
    (∀ x, VMM_KERNEL_START ≤ x → free_at l x z → c ≤ x) ∧
    ∀ P', backing (pml4_phys a) c b z fl (paging h) = Ok (tt, P') →
      let V' := returned_vmm V (kernel_vas V) a (with_paging P' h) hd lk m in
      vmm_alloc (kernel_vas V) sz fl b V = Ok (c, V') ∧
      ∃ l1 l2 q, l = l1 ++ l2 ∧ vmm_rep V' (<[kernel_vas V := l1 ++ mkRegion q c z fl :: l2]> W) others.
Proof.
  intros K Hsz HU z Hn Hroom (x & Hx1 & Hx2 & Hxf).
  destruct (kernel_struct V W others l a T A n fr lim K ltac:(lia) Hroom)
    as (p & h & L' & T1 & A1 & n1 & fr1 & Ek & Hp0 & Hp & Hrf & Hr1 & Est & Hm1 & Hex).
  pose proof K as [Hrep Hl Hsa Hroot Hcr3 Hpat Hm Hab Hsm].
  destruct (vr_space _ _ _ Hrep _ l Hl) as [a' Hsr]. assert (a' = a) as -> by (pose proof (sr_space _ _ _ _ Hsr); congruence).
  destruct (round_up_ok sz ltac:(lia)) as (Hz & Hz' & Hzm). fold z in Hz, Hz', Hzm.
  assert (4096 ≤ z) as Hz4 by (unfold PAGING_PAGE_SIZE in Hzm; clear - Hz Hsz Hzm; Z.div_mod_to_equations; lia).
  destruct (vmm_alloc_run V (kernel_vas V) a l sz fl b Hsr) as (lk & Hlk & [[_ Hno]|(l1 & l2 & c & El & Hc & Hso & Hmin & _ & Hrun)]);
    [fold z; lia|done|rewrite kernel_start kernel_end in Hno; pose proof (Hno x Hx1 Hxf); lia|].
  fold z in Hso, Hmin, Hrun. rewrite kernel_start kernel_end in Hc, Hso. rewrite kernel_start in Hmin.
  pose proof (Hrun p h Hp Ek) as Er. rewrite (proj2 (Z.eqb_neq p 0) Hp0) (kernel_flags V fl HU) in Er.
  pose proof (Hmin x Hx1 Hxf) as Hcx. eexists c, h, L', T1, A1, n1, fr1, _, lk, _.
  do 4 (split; [done|]). split; [lia|]. split; [lia|]. split.
  { eapply (sorted_from_elem _ _ _ (mkRegion 0 c z 0) (Hso 0 0)). apply elem_of_app. right. by left. }
  split; [rewrite El; by apply (sorted_free VMM_KERNEL_START VMM_KERNEL_END l1 0 c z 0)|]. split; [done|].
  intros P' Eb. rewrite Eb in Er. split; [exact Er|].
  destruct (vmm_alloc_rep V W others (kernel_vas V) l sz fl b c _ Hrep Hl ltac:(lia) Hrf Er)
    as [[E0 _]|(k1 & k2 & q & Ekl & _ & _ & Hrep')]; [unfold VMM_KERNEL_START in *; lia|].
  rewrite (kernel_flags V fl HU) in Hrep'. fold z in Hrep'. by exists k1, k2, q.
Qed.

(** With a gap in the region, and frames and room for the struct, the device is mapped. *)
Lemma kernel_alloc_mmio V W others l a T A n fr lim sz fl b :
  kernel_vm V W others l a T A n fr lim → 0 < sz ≤ 2 ^ 31 →
  has fl VMM_FLAGS_USER = false → has fl VMM_FLAGS_MMIO = true → let z := round_up sz in
  (struct_frames + 3 * region_pages z false ≤ n)%nat → struct_room V lim → 0 ≤ b → b + z < 2 ^ 64 →
  (∃ x, VMM_KERNEL_START ≤ x ∧ x + z ≤ VMM_KERNEL_END + 1 ∧ free_at l x z) →
  ∃ r V' l' a' T' A' n' fr', vmm_alloc (kernel_vas V) sz fl b V = Ok (r, V') ∧
    mapped_device V W others l T A n fr lim z b fl r V' l' a' T' A' n' fr'.
Proof.
  intros K Hsz HU HM z Hn Hroom Hb0 Hb Hgap.
  destruct (kernel_alloc_at V W others l a T A n fr lim sz fl b K Hsz HU ltac:(lia) Hroom Hgap)
    as (c & h & L' & T1 & A1 & n1 & fr1 & hd & lk & m & Hr1 & Est & Hm1 & Hex & Hc1 & Hc2 & Hcm & Hfree & Hmin & Hrun).
  fold z in Hc2, Hfree, Hmin, Hrun. pose proof K as [Hrep Hl Hsa Hroot Hcr3 Hpat Hm Hab Hsm].
  destruct (round_up_ok sz ltac:(lia)) as (Hz & Hz' & Hzm). fold z in Hz, Hz', Hzm.
  pose proof (ex_regs _ _ _ _ _ _ _ _ _ _ _ Hex) as [= Eo1 Ek1 Ec1 _ _ _].
  pose proof (ex_room _ _ _ _ _ _ _ _ _ _ _ Hex) as Hn1.
  destruct (map_pages (paging h) (pml4_phys a) T1 A1 n1 c z b fl) as (P' & T' & A' & n' & Em & Hok' & Hn' & HA' & Er' & Hv);
    [by rewrite Hroot -Ek1; apply Hm1|unfold struct_frames in Hn; lia|by rewrite Hroot -Ek1; apply Hm1|lia..| |done|].
  { intros w e Hw. rewrite (ex_view _ _ _ _ _ _ _ _ _ _ _ Hex); [by apply Hsm| |].
    - apply kernel_canonical. unfold VMM_KERNEL_END in *. lia.
    - pose proof (heap_not_empty V _ _ Hrep). lia. }
  destruct (Hrun P' Em) as (Er & k1 & k2 & q & Ekl & Hrep').
  pose proof (kernel_vm_mapped V W others l a T A n fr lim h T1 A1 n1 fr1 P' T' A' n' c z _ _ _ _ _ L'
    K Hr1 Est Hm1 Hex Hok' (nt_owned _ _ _ _ HA') Er' ltac:(lia) ltac:(lia) Hv Hrep') as K'.
  eexists c, _, _, _, T', A', n', fr1. split; [exact Er|].
  split; [done|done|done|done| |exact K'| | | | | |].
  - by exists k1, k2, q.
  - unfold struct_frames. lia.
  - eapply grows_trans; [apply Hex|]. apply grows_tables; [exact HA'|]. by eapply bk_owned, hm_backed.
  - exact Est.
  - pose proof (ex_end _ _ _ _ _ _ _ _ _ _ _ Hex). pose proof (heap_not_empty V _ _ Hrep). cbn. lia.
  - cbn. rewrite Er'. apply Hex.
  - intros w Hcw Hnw. rewrite (kernel_walk _ _ _ _ _ _ _ _ _ _ w K') (kernel_walk _ _ _ _ _ _ _ _ _ _ w K).
    cbn [heap returned_vmm paging with_paging]. rewrite Hv //. case_decide; [done|]. by apply Hex.
Qed.

(** Memory that is backed when it is first used: only the struct is made. *)
Lemma kernel_alloc_anon V W others l a T A n fr lim sz fl b :
  kernel_vm V W others l a T A n fr lim → 0 < sz ≤ 2 ^ 31 →
  has fl VMM_FLAGS_USER = false → has fl VMM_FLAGS_MMIO = false → has fl VMM_FLAGS_ANON = true → let z := round_up sz in
  (struct_frames ≤ n)%nat → struct_room V lim →
  (∃ x, VMM_KERNEL_START ≤ x ∧ x + z ≤ VMM_KERNEL_END + 1 ∧ free_at l x z) →
  ∃ r V' l1 l2 q a' T' A' n' fr', let l' := l1 ++ mkRegion q r z fl :: l2 in
    vmm_alloc (kernel_vas V) sz fl b V = Ok (r, V') ∧ l = l1 ++ l2 ∧ kernel_vas V' = kernel_vas V ∧
    VMM_KERNEL_START ≤ r ∧ r + z ≤ VMM_KERNEL_END + 1 ∧ r mod PAGING_PAGE_SIZE = 0 ∧ free_at l r z ∧
    (∀ x, VMM_KERNEL_START ≤ x → free_at l x z → r ≤ x) ∧
    kernel_vm V' (<[kernel_vas V := l']> W) others l' a' T' A' n' fr' lim ∧
    extended (heap V) T A n fr 2 (heap V') T' A' n' fr'.
Proof.
  intros K Hsz HU HM HA z Hn Hroom Hgap.
  destruct (kernel_alloc_at V W others l a T A n fr lim sz fl b K Hsz HU Hn Hroom Hgap)
    as (c & h & L' & T1 & A1 & n1 & fr1 & hd & lk & m & Hr1 & Est & Hm1 & Hex & Hc1 & Hc2 & Hcm & Hfree & Hmin & Hrun).
  fold z in Hc2, Hfree, Hmin, Hrun. destruct (round_up_ok sz ltac:(lia)) as (Hz & _). fold z in Hz.
  pose proof (ex_regs _ _ _ _ _ _ _ _ _ _ _ Hex) as [= Eo1 Ek1 Ec1 _ _ _].
  destruct (Hrun (paging h)) as (Er & k1 & k2 & q & Ekl & Hrep'); [by rewrite /backing HM HA|].
  eexists c, _, k1, k2, q, _, T1, A1, n1, fr1. cbv zeta. split; [exact Er|]. do 7 (split; [done|]). split.
  - apply (kernel_vm_mapped V W others l a T A n fr lim h T1 A1 n1 fr1 (paging h) T1 A1 n1 c 0 (λ _, 0) _ _ _ _ L');
      try done; [|lia|intros w Hw; rewrite decide_False //; lia].
    rewrite (kv_root _ _ _ _ _ _ _ _ _ _ K) -Ek1. apply Hm1.
  - cbn [heap returned_vmm]. destruct Hex. by split.
Qed.

(** ** Using the device *)

Lemma page_addr_offset b z o :
  page_addr b → b + z ≤ 2 ^ 52 → 0 ≤ o < z → page_addr (b + o / PAGING_PAGE_SIZE * PAGING_PAGE_SIZE).
Proof. rewrite /page_addr /PAGING_PAGE_SIZE. intros [Hb Hm] Hz Ho. Z.div_mod_to_equations. lia. Qed.

(** The entries of a device's pages: for the kernel only, never executable, and cached as
    the request said. *)
Lemma device_attributes q fl c t :
  page_addr q →
  vmm_generic_to_x86_flags fl = Z.lor (Z.lor (Z.lor PTE_FLAG_RW PTE_FLAG_NO_EXEC) PTE_FLAG_GLOBAL) c →
  (c, t) ∈ [(PTE_CACHE_WB, PAT_TYPE_WB); (PTE_CACHE_WC, PAT_TYPE_WC); (PTE_CACHE_UC, PAT_TYPE_UC)] →
  let e := map_entry q (vmm_generic_to_x86_flags fl) false in
  Z.testbit e 2 = false ∧ Z.testbit e 63 = true ∧ pat_type pat_val (pat_index e) = t.
Proof.
  intros Hq -> Hc e. pose proof Hc as Hc'. rewrite !elem_of_cons in Hc'.
  assert (∃ k, c = k ∧ (k = PTE_CACHE_WB ∨ k = PTE_CACHE_WC ∨ k = PTE_CACHE_UC)) as (k & -> & Hk).
  { exists c. split; [done|]. destruct Hc' as [E|[E|[E|Hn]]]; [..|by apply not_elem_of_nil in Hn]; injection E as -> _; auto. }
  destruct (map_entry_bits q (Z.lor (Z.lor (Z.lor PTE_FLAG_RW PTE_FLAG_NO_EXEC) PTE_FLAG_GLOBAL) k) false Hq)
    as (_ & _ & E63); [apply Hq|by destruct Hk as [->|[->| ->]]|].
  split; [|split; [|by apply pat_selects_cache_type]].
  - rewrite /e /map_entry page_align_mult; [|apply Hq]. rewrite !Z.lor_spec (page_addr_bit q) //; [|lia].
    by destruct Hk as [->|[->| ->]].
  - rewrite E63. by destruct Hk as [->|[->| ->]].
Qed.

Section device.
Context V W others l T A n fr lim z b fl r V' l' a' T' A' n' fr'
  (D : mapped_device V W others l T A n fr lim z b fl r V' l' a' T' A' n' fr') (Hb : page_addr b) (Hz : b + z ≤ 2 ^ 52).

(** Each page of the device is mapped with the flags of the request. *)
Lemma device_page o :
  0 ≤ o < z → ∃ q, page_addr q ∧ q = b + o / PAGING_PAGE_SIZE * PAGING_PAGE_SIZE ∧
    mmu_walk (mem (paging (heap V'))) (cr3 (paging (heap V'))) (r + o) =
      Some (Page4K (map_entry q (vmm_generic_to_x86_flags fl) false)).
Proof.
  intros Ho. eexists. split; [by apply (page_addr_offset b z o)|]. split; [done|].
  destruct (md_range _ _ _ _ _ _ _ _ _ _ _ _ _ _ _ _ _ _ _ _ D) as (Hr1 & Hr2 & _).
  pose proof (md_end _ _ _ _ _ _ _ _ _ _ _ _ _ _ _ _ _ _ _ _ D) as Hend.
  rewrite (md_walk _ _ _ _ _ _ _ _ _ _ _ _ _ _ _ _ _ _ _ _ D).
  - rewrite decide_True; [|lia]. by replace (r + o - r) with o by lia.
  - apply kernel_canonical. unfold VMM_KERNEL_END in *. lia.
  - lia.
Qed.

(** A writable area shows the device byte by byte. *)
Lemma device_visible :
  pte_addr (vmm_generic_to_x86_flags fl) = 0 → Z.testbit (vmm_generic_to_x86_flags fl) 1 = true →
  device_at (paging (heap V')) r z b.
Proof.
  intros Hfl Hw write o Ho. destruct (device_page o Ho) as (q & Hq & Eq & E). rewrite /translate E.
  destruct (map_entry_bits q (vmm_generic_to_x86_flags fl) false Hq) as (Ea & Ew & _); [apply Hq|done|].
  rewrite Ew Hw orb_true_r Ea Eq. f_equal.
  destruct (md_range _ _ _ _ _ _ _ _ _ _ _ _ _ _ _ _ _ _ _ _ D) as (_ & _ & Hm). unfold PAGING_PAGE_SIZE in *.
  rewrite -Zplus_mod_idemp_l Hm Z.add_0_l. Z.div_mod_to_equations. lia.
Qed.
End device.
End mmio.

(** ** The machine of VmmThms.v *)

#[local] Existing Instance bump_alloc.
#[local] Existing Instance bump_spec.

Lemma boot_vm h s bs root T A n :
  booted h s bs root T A n →
  ∃ fr, kernel_vm s {[ kernel_vas s := [] ]} [] [] (mkSpace root 0 SPINLOCK_IRQ_INIT) T A n fr bare_lim.
Proof.
  intros B. destruct (bo_mem _ _ _ _ _ _ _ B) as [fr Hm]. exists fr. split.
  - exact (bo_rep _ _ _ _ _ _ _ B).
  - apply lookup_singleton_eq.
  - exact (bo_space _ _ _ _ _ _ _ B).
  - exact (bo_kroot _ _ _ _ _ _ _ B).
  - exact (bo_cr3 _ _ _ _ _ _ _ B).
  - exact (bo_pat _ _ _ _ _ _ _ B).
  - exact Hm.
  - by rewrite (proj1 (bo_start _ _ _ _ _ _ _ B)).
  - intros w e Hw. rewrite -(ok_walk _ _ T A n w (bo_tables _ _ _ _ _ _ _ B)) (bo_view _ _ _ _ _ _ _ B); [discriminate|right|];
      unfold VMM_KERNEL_START, VMM_KERNEL_END in Hw; clear - Hw; lia.
Qed.
