(* ===== verification/Npf.v ===== *)
(** * Formatted output (libk/nanoprintf.h and libk/stdio.c)

    nanoprintf as libk/stdio.c configures it: field widths, precisions, the large length
    modifiers and binary conversions are on; floating point, the [h] modifiers, write-back
    and the alternative form are off. A [va_list] is the list of the 64-bit slots the
    caller filled, an [int] is a 32-bit signed integer whose overflow is undefined, the
    conversion buffer is an array of 23 bytes. *)

From Stdlib Require Import Ascii String.
From stdpp Require Import base gmap list numbers.
From S2P Require Import Prelude Strings.

(** Character and string literals. *)
Definition ch (a : ascii) : Z := Z.of_N (N_of_ascii a).
Arguments ch _%_char_scope.
Fixpoint str (s : string) : list Z :=
  match s with EmptyString => [] | String a s => ch a :: str s end.
Arguments str _%_string_scope.

(** ** C integers *)

(** The [int], the [long] and the [char] with the low bits of [z]. *)
Definition s32 (z : Z) : Z := (z + 2 ^ 31) mod 2 ^ 32 - 2 ^ 31.
Definition s64 (z : Z) : Z := (z + 2 ^ 63) mod 2 ^ 64 - 2 ^ 63.
Definition s8 (z : Z) : Z := (z + 2 ^ 7) mod 2 ^ 8 - 2 ^ 7.

(** The result of arithmetic on [int]s: undefined when it overflows. *)
Definition int_chk {S} (z : Z) : M S Z :=
  if (- 2 ^ 31 <=? z) && (z <? 2 ^ 31) then ret z else fail Undef.

(** Running code that works on the first component of the state. *)
Definition on_fst {A C X} (m : M A X) : M (A * C) X := λ s,
  match m s.1 with Ok (x, a) => Ok (x, (a, s.2)) | Err f => Err f end.

(** [va_arg(args, T)]: the next slot. *)
Definition va_list : Type := list Z.
Definition va_arg {S} (args : va_list) : M S (Z * va_list) :=
  match args with [] => fail Undef | a :: args => ret (a, args) end.

(** ** Format specifications *)

Inductive npf_opt := NPF_FMT_SPEC_OPT_NONE | NPF_FMT_SPEC_OPT_LITERAL | NPF_FMT_SPEC_OPT_STAR.

Inductive npf_len_mod :=
  | NPF_FMT_SPEC_LEN_MOD_NONE
  | NPF_FMT_SPEC_LEN_MOD_LONG
  | NPF_FMT_SPEC_LEN_MOD_LARGE_LONG_LONG
  | NPF_FMT_SPEC_LEN_MOD_LARGE_INTMAX
  | NPF_FMT_SPEC_LEN_MOD_LARGE_SIZET
  | NPF_FMT_SPEC_LEN_MOD_LARGE_PTRDIFFT.

Inductive npf_conv :=
  | NPF_FMT_SPEC_CONV_NONE
  | NPF_FMT_SPEC_CONV_PERCENT
  | NPF_FMT_SPEC_CONV_CHAR
  | NPF_FMT_SPEC_CONV_STRING
  | NPF_FMT_SPEC_CONV_SIGNED_INT
  | NPF_FMT_SPEC_CONV_BINARY
  | NPF_FMT_SPEC_CONV_OCTAL
  | NPF_FMT_SPEC_CONV_HEX_INT
  | NPF_FMT_SPEC_CONV_UNSIGNED_INT
  | NPF_FMT_SPEC_CONV_POINTER.

#[export] Instance npf_opt_eq_dec : EqDecision npf_opt.
Proof. solve_decision. Defined.
#[export] Instance npf_conv_eq_dec : EqDecision npf_conv.
Proof. solve_decision. Defined.

Record npf_format_spec_t := mkSpec {
  field_width : Z;
  prec : Z;
  prec_opt : npf_opt;
  field_width_opt : npf_opt;
  left_justified : Z;
  leading_zero_pad : Z;
  prepend : Z;
  case_adjust : Z;
  length_modifier : npf_len_mod;
  conv_spec : npf_conv;
}.

Definition set_flags (lj lz pp : Z) (fs : npf_format_spec_t) : npf_format_spec_t :=
  mkSpec (field_width fs) (prec fs) (prec_opt fs) (field_width_opt fs) lj lz pp
         (case_adjust fs) (length_modifier fs) (conv_spec fs).
Definition set_width (w : Z) (o : npf_opt) (fs : npf_format_spec_t) : npf_format_spec_t :=
  mkSpec w (prec fs) (prec_opt fs) o (left_justified fs) (leading_zero_pad fs) (prepend fs)
         (case_adjust fs) (length_modifier fs) (conv_spec fs).
Definition set_prec (p : Z) (o : npf_opt) (fs : npf_format_spec_t) : npf_format_spec_t :=
  mkSpec (field_width fs) p o (field_width_opt fs) (left_justified fs) (leading_zero_pad fs)
         (prepend fs) (case_adjust fs) (length_modifier fs) (conv_spec fs).
Definition set_length (l : npf_len_mod) (fs : npf_format_spec_t) : npf_format_spec_t :=
  mkSpec (field_width fs) (prec fs) (prec_opt fs) (field_width_opt fs) (left_justified fs)
         (leading_zero_pad fs) (prepend fs) (case_adjust fs) l (conv_spec fs).
Definition set_conv (adj : Z) (c : npf_conv) (fs : npf_format_spec_t) : npf_format_spec_t :=
  mkSpec (field_width fs) (prec fs) (prec_opt fs) (field_width_opt fs) (left_justified fs)
         (leading_zero_pad fs) (prepend fs) adj (length_modifier fs) c.

(** What [npf_parse_format_spec] starts from. *)
Definition spec_start : npf_format_spec_t :=
  mkSpec 0 0 NPF_FMT_SPEC_OPT_NONE NPF_FMT_SPEC_OPT_NONE 0 0 0 (ch "a" - ch "A")
         NPF_FMT_SPEC_LEN_MOD_NONE NPF_FMT_SPEC_CONV_NONE.

(** [while ( *++cur )]: the flags. *)
Fixpoint parse_flags (fuel : nat) (cur : Z) (fs : npf_format_spec_t)
    : M bytes (Z * npf_format_spec_t) :=
  match fuel with
  | O => fail OutOfFuel
  | S fuel =>
      let cur := cur + 1 in
      c <- load cur;;
      if c =? 0 then ret (cur, fs)
      else if c =? ch "-" then
        parse_flags fuel cur (set_flags (ch "-") (leading_zero_pad fs) (prepend fs) fs)
      else if c =? ch "0" then
        parse_flags fuel cur (set_flags (left_justified fs) 1 (prepend fs) fs)
      else if c =? ch "+" then
        parse_flags fuel cur (set_flags (left_justified fs) (leading_zero_pad fs) (ch "+") fs)
      else if c =? ch " " then
        parse_flags fuel cur
          (if prepend fs =? 0
           then set_flags (left_justified fs) (leading_zero_pad fs) (ch " ") fs else fs)
      else ret (cur, fs)
  end.

Definition is_digit (c : Z) : bool := (ch "0" <=? c) && (c <=? ch "9").

(** [while (( *cur >= '0') && ( *cur <= '9')) value = value * 10 + ( *cur++ - '0')]. *)
Fixpoint parse_digits (fuel : nat) (cur value : Z) : M bytes (Z * Z) :=
  match fuel with
  | O => fail OutOfFuel
  | S fuel =>
      c <- load cur;;
      if is_digit c then
        v <- int_chk (value * 10);;
        v <- int_chk (v + (c - ch "0"));;
        parse_digits fuel (cur + 1) v
      else ret (cur, value)
  end.

Definition parse_width (cur : Z) (fs : npf_format_spec_t) : M bytes (Z * npf_format_spec_t) :=
  c <- load cur;;
  if c =? ch "*" then ret (cur + 1, set_width 0 NPF_FMT_SPEC_OPT_STAR fs)
  else
    fuel <- gets string_fuel;;
    r <- parse_digits fuel cur 0;;
    ret (r.1, set_width r.2 (if is_digit c then NPF_FMT_SPEC_OPT_LITERAL
                             else NPF_FMT_SPEC_OPT_NONE) fs).

Definition parse_prec (cur : Z) (fs : npf_format_spec_t) : M bytes (Z * npf_format_spec_t) :=
  c <- load cur;;
  if c =? ch "." then
    let cur := cur + 1 in
    c <- load cur;;
    if c =? ch "*" then ret (cur + 1, set_prec 0 NPF_FMT_SPEC_OPT_STAR fs)
    else
      let '(cur, o) := if c =? ch "-" then (cur + 1, NPF_FMT_SPEC_OPT_NONE)
                       else (cur, NPF_FMT_SPEC_OPT_LITERAL) in
      fuel <- gets string_fuel;;
      r <- parse_digits fuel cur 0;;
      ret (r.1, set_prec r.2 o fs)
  else ret (cur, set_prec 0 NPF_FMT_SPEC_OPT_NONE fs).

Definition parse_length (cur : Z) (fs : npf_format_spec_t) : M bytes (Z * npf_format_spec_t) :=
  c <- load cur;;
  if c =? ch "l" then
    c <- load (cur + 1);;
    if c =? ch "l" then ret (cur + 2, set_length NPF_FMT_SPEC_LEN_MOD_LARGE_LONG_LONG fs)
    else ret (cur + 1, set_length NPF_FMT_SPEC_LEN_MOD_LONG fs)
  else if c =? ch "j" then ret (cur + 1, set_length NPF_FMT_SPEC_LEN_MOD_LARGE_INTMAX fs)
  else if c =? ch "z" then ret (cur + 1, set_length NPF_FMT_SPEC_LEN_MOD_LARGE_SIZET fs)
  else if c =? ch "t" then ret (cur + 1, set_length NPF_FMT_SPEC_LEN_MOD_LARGE_PTRDIFFT fs)
  else ret (cur, set_length NPF_FMT_SPEC_LEN_MOD_NONE fs).

(** The conversion a character asks for, and the new [case_adjust]. *)
Definition conv_of (c adj : Z) : option (Z * npf_conv) :=
  if c =? ch "%" then Some (adj, NPF_FMT_SPEC_CONV_PERCENT)
  else if c =? ch "c" then Some (adj, NPF_FMT_SPEC_CONV_CHAR)
  else if c =? ch "s" then Some (adj, NPF_FMT_SPEC_CONV_STRING)
  else if (c =? ch "i") || (c =? ch "d") then Some (adj, NPF_FMT_SPEC_CONV_SIGNED_INT)
  else if c =? ch "o" then Some (adj, NPF_FMT_SPEC_CONV_OCTAL)
  else if c =? ch "u" then Some (adj, NPF_FMT_SPEC_CONV_UNSIGNED_INT)
  else if c =? ch "X" then Some (0, NPF_FMT_SPEC_CONV_HEX_INT)
  else if c =? ch "x" then Some (adj, NPF_FMT_SPEC_CONV_HEX_INT)
  else if c =? ch "p" then Some (adj, NPF_FMT_SPEC_CONV_POINTER)
  else if c =? ch "B" then Some (0, NPF_FMT_SPEC_CONV_BINARY)
  else if c =? ch "b" then Some (adj, NPF_FMT_SPEC_CONV_BINARY)
  else None.

(** Returns the number of characters of the specification, 0 if it is not one. *)
Definition npf_parse_format_spec (format : Z) : M bytes (Z * npf_format_spec_t) :=
  fuel <- gets string_fuel;;
  r <- parse_flags fuel format spec_start;;
  r <- parse_width r.1 r.2;;
  r <- parse_prec r.1 r.2;;
  r <- parse_length r.1 r.2;;
  let '(cur, fs) := r in
  c <- load cur;;
  match conv_of c (case_adjust fs) with
  | Some (adj, cv) => ret (cur + 1 - format, set_conv adj cv fs)
  | None => ret (0, fs)
  end.

(** ** Numbers *)

Definition NANOPRINTF_CONVERSION_BUFFER_SIZE : Z := 23.

Fixpoint utoa_loop (fuel : nat) (val : Z) (buf : list Z) (base case_adj n : Z)
    : res (list Z * Z) :=
  match fuel with
  | O => Err OutOfFuel
  | S fuel =>
      let d := val mod base in
      let c := u8 ((if d <? 10 then ch "0" else ch "A" - 10 + case_adj) + d) in
      if n <? Z.of_nat (List.length buf) then
        let buf := <[Z.to_nat n := c]> buf in
        let n := u8 (n + 1) in
        let val := val / base in
        if val =? 0 then Ok (buf, n) else utoa_loop fuel val buf base case_adj n
      else Err Undef
  end.

(** A number of 64 bits has at most 64 digits. *)
Definition npf_utoa_rev (val : Z) (buf : list Z) (base case_adj : Z) : res (list Z * Z) :=
  utoa_loop 64 val buf base case_adj 0.

(** [64 - __builtin_clzll(u)]. *)
Definition npf_bin_len (u : Z) : Z := if u =? 0 then 1 else Z.log2 u + 1.

(** ** Conversion of one argument *)

(** What [cbuf] or [u.binval] holds. *)
Inductive payload :=
  | Cbuf (buf : list Z)     (** the digits in [u.cbuf_mem], last one first *)
  | Cstr (p : Z)            (** a string of the caller *)
  | Binval (v : Z).         (** [u.binval] *)

Record conversion := mkConv {
  cv_payload : payload;
  cbuf_len : Z;
  sign_c : Z;
  zero : bool;
  cv_args : va_list;
}.

Definition cbuf_mem : list Z := replicate (Z.to_nat NANOPRINTF_CONVERSION_BUFFER_SIZE) 0.

(** The loop of [%s]. *)
Fixpoint str_scan (fuel : nat) (fs : npf_format_spec_t) (cbuf s len : Z) : M bytes Z :=
  match fuel with
  | O => fail OutOfFuel
  | S fuel =>
      if (bool_decide (prec_opt fs = NPF_FMT_SPEC_OPT_NONE) || (len <? prec fs))
         && negb (cbuf =? 0) then
        c <- load s;;
        if c =? 0 then ret len
        else len <- int_chk (len + 1);; str_scan fuel fs cbuf (s + 1) len
      else ret len
  end.

(** [NPF_EXTRACT] of the signed and of the unsigned conversions. *)
Definition extract_signed (lm : npf_len_mod) (a : Z) : Z :=
  match lm with NPF_FMT_SPEC_LEN_MOD_NONE => s32 a | _ => s64 a end.
Definition extract_unsigned (lm : npf_len_mod) (a : Z) : Z :=
  match lm with NPF_FMT_SPEC_LEN_MOD_NONE => u32 a | _ => u64 a end.

(** A zero with an explicit precision of zero prints no digit. *)
Definition print_nothing (val : Z) (fs : npf_format_spec_t) : bool :=
  (val =? 0) && negb (bool_decide (prec_opt fs = NPF_FMT_SPEC_OPT_NONE)) && (prec fs =? 0).

Definition convert_signed (fs : npf_format_spec_t) (args : va_list) : M bytes conversion :=
  r <- va_arg args;;
  let val := extract_signed (length_modifier fs) r.1 in
  let sign_c := if val <? 0 then ch "-" else prepend fs in
  if print_nothing val fs then ret (mkConv (Cbuf cbuf_mem) 0 sign_c (val =? 0) r.2)
  else
    let uval := u64 val in
    let uval := if val <? 0 then u64 (0 - uval) else uval in
    d <- lift (npf_utoa_rev uval cbuf_mem 10 (case_adjust fs));;
    ret (mkConv (Cbuf d.1) d.2 sign_c (val =? 0) r.2).

Definition convert_unsigned (fs : npf_format_spec_t) (args : va_list) : M bytes conversion :=
  r <- va_arg args;;
  let val := if bool_decide (conv_spec fs = NPF_FMT_SPEC_CONV_POINTER) then u64 r.1
             else extract_unsigned (length_modifier fs) r.1 in
  if print_nothing val fs then ret (mkConv (Cbuf cbuf_mem) 0 0 (val =? 0) r.2)
  else if bool_decide (conv_spec fs = NPF_FMT_SPEC_CONV_BINARY) then
    ret (mkConv (Binval val) (npf_bin_len val) 0 (val =? 0) r.2)
  else
    let base := if bool_decide (conv_spec fs = NPF_FMT_SPEC_CONV_OCTAL) then 8
                else if bool_decide (conv_spec fs = NPF_FMT_SPEC_CONV_UNSIGNED_INT) then 10
                else 16 in
    d <- lift (npf_utoa_rev val cbuf_mem base (case_adjust fs));;
    ret (mkConv (Cbuf d.1) d.2 0 (val =? 0) r.2).

(** [switch (fs.conv_spec)]. *)
Definition npf_convert (fs : npf_format_spec_t) (args : va_list) : M bytes conversion :=
  match conv_spec fs with
  | NPF_FMT_SPEC_CONV_PERCENT => ret (mkConv (Cbuf (<[0%nat := ch "%"]> cbuf_mem)) 1 0 false args)
  | NPF_FMT_SPEC_CONV_CHAR =>
      r <- va_arg args;;
      let c := u8 (s32 r.1) in
      ret (mkConv (Cbuf (<[0%nat := c]> cbuf_mem)) (if c =? 0 then 0 else 1) 0 false r.2)
  | NPF_FMT_SPEC_CONV_STRING =>
      r <- va_arg args;;
      fuel <- gets string_fuel;;
      n <- str_scan fuel fs (u64 r.1) (u64 r.1) 0;;
      ret (mkConv (Cstr (u64 r.1)) n 0 false r.2)
  | NPF_FMT_SPEC_CONV_SIGNED_INT => convert_signed fs args
  | NPF_FMT_SPEC_CONV_BINARY | NPF_FMT_SPEC_CONV_OCTAL | NPF_FMT_SPEC_CONV_HEX_INT
  | NPF_FMT_SPEC_CONV_UNSIGNED_INT | NPF_FMT_SPEC_CONV_POINTER => convert_unsigned fs args
  | NPF_FMT_SPEC_CONV_NONE => ret (mkConv (Cbuf cbuf_mem) 0 0 false args)
  end.

(** The width and precision arguments, and what they do to the specification. *)
Definition star_width (fs : npf_format_spec_t) (args : va_list)
    : M bytes (npf_format_spec_t * va_list) :=
  if bool_decide (field_width_opt fs = NPF_FMT_SPEC_OPT_STAR) then
    r <- va_arg args;;
    let w := s32 r.1 in
    if w <? 0 then
      w <- int_chk (- w);;
      ret (set_flags 1 (leading_zero_pad fs) (prepend fs)
             (set_width w NPF_FMT_SPEC_OPT_STAR fs), r.2)
    else ret (set_width w NPF_FMT_SPEC_OPT_STAR fs, r.2)
  else ret (fs, args).

Definition star_prec (fs : npf_format_spec_t) (args : va_list)
    : M bytes (npf_format_spec_t * va_list) :=
  if bool_decide (prec_opt fs = NPF_FMT_SPEC_OPT_STAR) then
    r <- va_arg args;;
    let p := s32 r.1 in
    if p <? 0 then ret (set_prec 0 NPF_FMT_SPEC_OPT_NONE fs, r.2)
    else ret (set_prec p NPF_FMT_SPEC_OPT_STAR fs, r.2)
  else ret (fs, args).

Definition default_prec (fs : npf_format_spec_t) : npf_format_spec_t :=
  if bool_decide (prec_opt fs = NPF_FMT_SPEC_OPT_NONE)
     && bool_decide (conv_spec fs = NPF_FMT_SPEC_CONV_POINTER)
  then set_prec ((8 * 8 + 3) / 4) (prec_opt fs) fs else fs.

Definition drop_zero_flag (fs : npf_format_spec_t) : npf_format_spec_t :=
  if negb (bool_decide (prec_opt fs = NPF_FMT_SPEC_OPT_NONE)) then
    match conv_spec fs with
    | NPF_FMT_SPEC_CONV_SIGNED_INT | NPF_FMT_SPEC_CONV_OCTAL | NPF_FMT_SPEC_CONV_HEX_INT
    | NPF_FMT_SPEC_CONV_UNSIGNED_INT => set_flags (left_justified fs) 0 (prepend fs) fs
    | _ => fs
    end
  else fs.

Definition pad_char (fs : npf_format_spec_t) (zero : bool) : Z :=
  if bool_decide (field_width_opt fs = NPF_FMT_SPEC_OPT_NONE) then 0
  else if negb (leading_zero_pad fs =? 0) && (left_justified fs =? 0) then
    if negb (bool_decide (prec_opt fs = NPF_FMT_SPEC_OPT_NONE)) && (prec fs =? 0) && zero
    then ch " " else ch "0"
  else ch " ".

(** ** Output *)

(** [npf_putc]: a function that consumes characters, with its context of type [C]. The
    state of [npf_vpprintf] is the memory, the context and the count [pc_cnt.n]. *)
Section output.
Context {C : Type} (pc : Z → M (bytes * C) unit).

Definition npf_state : Type := (bytes * C) * Z.

Definition on_mem {X} (m : M bytes X) : M npf_state X := on_fst (on_fst m).

Definition npf_putc_cnt (c : Z) : M npf_state unit := λ s,
  (n <- int_chk (s.2 + 1);; modify (λ s : npf_state, (s.1, n));;; on_fst (pc c)) s.

Fixpoint put_n (k : nat) (c : Z) : M npf_state unit :=
  match k with O => ret tt | S k => npf_putc_cnt c;;; put_n k c end.

(** [while (cbuf_len-- > 0) NPF_PUTC(cbuf[cbuf_len])]. *)
Fixpoint put_rev (k : nat) (buf : list Z) : M npf_state unit :=
  match k with
  | O => ret tt
  | S k => c <- reads (λ _, buf !! k);; npf_putc_cnt (s8 c);;; put_rev k buf
  end.

Fixpoint put_bin (k : nat) (v : Z) : M npf_state unit :=
  match k with
  | O => ret tt
  | S k => npf_putc_cnt (ch "0" + Z.land (Z.shiftr v (Z.of_nat k)) 1);;; put_bin k v
  end.

Fixpoint put_str (k : nat) (p : Z) : M npf_state unit :=
  match k with
  | O => ret tt
  | S k => c <- on_mem (load p);; npf_putc_cnt (s8 c);;; put_str k (p + 1)
  end.

(** The converted payload, from the pads to the text. *)
Definition npf_emit (fs : npf_format_spec_t) (cv : conversion) : M npf_state unit :=
  let pad_c := pad_char fs (zero cv) in
  let is_str := bool_decide (conv_spec fs = NPF_FMT_SPEC_CONV_STRING) in
  d <- (if is_str then ret 0 else int_chk (prec fs - cbuf_len cv));;
  let prec_pad := Z.max 0 d in
  p <- int_chk (field_width fs - cbuf_len cv);;
  p <- int_chk (p - (if sign_c cv =? 0 then 0 else 1));;
  p <- int_chk (p - prec_pad);;
  let field_pad := Z.max 0 p in
  let right := (left_justified fs =? 0) && negb (pad_c =? 0) in
  let early_sign := right && (pad_c =? ch "0") && negb (sign_c cv =? 0) in
  (if early_sign then npf_putc_cnt (sign_c cv) else ret tt);;;
  let sign_c := if early_sign then 0 else sign_c cv in
  (if right then put_n (Z.to_nat field_pad) pad_c else ret tt);;;
  (match cv_payload cv with
   | Cstr p => if p =? 0 then ret tt else put_str (Z.to_nat (cbuf_len cv)) p
   | Cbuf buf =>
       (if sign_c =? 0 then ret tt else npf_putc_cnt sign_c);;;
       put_n (Z.to_nat prec_pad) (ch "0");;;
       put_rev (Z.to_nat (cbuf_len cv)) buf
   | Binval v =>
       (if sign_c =? 0 then ret tt else npf_putc_cnt sign_c);;;
       put_n (Z.to_nat prec_pad) (ch "0");;;
       put_bin (Z.to_nat (cbuf_len cv)) v
   end);;;
  if negb (left_justified fs =? 0) && negb (pad_c =? 0)
  then put_n (Z.to_nat field_pad) pad_c else ret tt.

(** One specification of the format. *)
Definition npf_directive (fs : npf_format_spec_t) (args : va_list) : M npf_state va_list :=
  r <- on_mem (star_width fs args);;
  r <- on_mem (star_prec r.1 r.2);;
  let fs := drop_zero_flag (default_prec r.1) in
  cv <- on_mem (npf_convert fs r.2);;
  npf_emit fs cv;;;
  ret (cv_args cv).

(** [while ( *cur )]. *)
Fixpoint vpprintf_loop (fuel : nat) (cur : Z) (args : va_list) : M npf_state unit :=
  match fuel with
  | O => fail OutOfFuel
  | S fuel =>
      c <- on_mem (load cur);;
      if c =? 0 then ret tt
      else
        r <- (if negb (c =? ch "%") then ret (0, spec_start)
              else on_mem (npf_parse_format_spec cur));;
        if r.1 =? 0 then npf_putc_cnt (s8 c);;; vpprintf_loop fuel (cur + 1) args
        else
          args <- npf_directive r.2 args;;
          vpprintf_loop fuel (cur + r.1) args
  end.

(** Returns the number of characters put. *)
Definition npf_vpprintf (format : Z) (args : va_list) : M (bytes * C) Z := λ s,
  match (vpprintf_loop (string_fuel s.1) format args) (s, 0) with
  | Ok (_, (s', n)) => Ok (n, s')
  | Err f => Err f
  end.

Definition npf_pprintf (format : Z) (args : va_list) : M (bytes * C) Z :=
  npf_vpprintf format args.
End output.

(** ** Output to a buffer *)

Record npf_bufputc_ctx := mkBufCtx { dst : Z; len : Z; cur : Z }.

Definition npf_bufputc (c : Z) : M (bytes * npf_bufputc_ctx) unit := λ s,
  let bpc := s.2 in
  if cur bpc <? len bpc then
    (on_fst (store (dst bpc + cur bpc) (u8 c));;;
     modify (λ s : bytes * npf_bufputc_ctx,
       (s.1, mkBufCtx (dst bpc) (len bpc) (cur bpc + 1)))) s
  else Ok (tt, s).

Definition npf_bufputc_nop (c : Z) : M (bytes * npf_bufputc_ctx) unit := ret tt.

Definition npf_vsnprintf (buffer bufsz format : Z) (vlist : va_list) : M bytes Z := λ m,
  let pc := if buffer =? 0 then npf_bufputc_nop else npf_bufputc in
  match npf_vpprintf pc format vlist (m, mkBufCtx buffer bufsz 0) with
  | Err f => Err f
  | Ok (n, (m, _)) =>
      ((if negb (buffer =? 0) && negb (bufsz =? 0)
        then store (buffer + (if n <? 0 then 0 else Z.min (u32 n) (bufsz - 1))) 0
        else ret tt);;;
       ret n) m
  end.

Definition npf_snprintf (buffer bufsz format : Z) (args : va_list) : M bytes Z :=
  npf_vsnprintf buffer bufsz format args.

(** stdio.c *)
Definition snprintf (buffer bufsz format : Z) (args : va_list) : M bytes Z :=
  npf_vsnprintf buffer bufsz format args.
Definition vsnprintf (buffer bufsz format : Z) (args : va_list) : M bytes Z :=
  npf_vsnprintf buffer bufsz format args.
