(* ===== verification/NpfSpec.v ===== *)
(** * What a format means

    The reference for nanoprintf: directives as a grammar over lists of characters, numbers
    as digits from the most significant one, and the text of a directive as sign, zeros,
    digits and padding. The lemmas of this file show that the parser and the number
    conversions of Npf.v compute it. *)

From Stdlib Require Import Ascii String.
From stdpp Require Import base gmap list numbers.
From S2P Require Import Prelude Strings Npf.

#[local] Ltac Zify.zify_post_hook ::= Z.to_euclidean_division_equations.

(** ** Directives *)

Fixpoint take_while (f : Z → bool) (l : list Z) : list Z :=
  match l with [] => [] | c :: l => if f c then c :: take_while f l else [] end.
Fixpoint drop_while (f : Z → bool) (l : list Z) : list Z :=
  match l with [] => [] | c :: l => if f c then drop_while f l else c :: l end.

Definition is_flag (c : Z) : bool :=
  (c =? ch "-") || (c =? ch "0") || (c =? ch "+") || (c =? ch " ").

(** The number a row of decimal digits stands for. *)
Definition decimal_from (v : Z) (ds : list Z) : Z := foldl (λ v c, v * 10 + (c - ch "0")) v ds.
Definition decimal (ds : list Z) : Z := decimal_from 0 ds.

(** The effect of a row of flags: [-] and [0] count when they occur, [+] wins over blank. *)
Definition with_flags (fl : list Z) (fs : npf_format_spec_t) : npf_format_spec_t :=
  set_flags (if bool_decide (ch "-" ∈ fl) then ch "-" else left_justified fs)
    (if bool_decide (ch "0" ∈ fl) then 1 else leading_zero_pad fs)
    (if bool_decide (ch "+" ∈ fl) then ch "+"
     else if bool_decide (ch " " ∈ fl) && (prepend fs =? 0) then ch " " else prepend fs) fs.

(** A row of digits whose value fits an [int]. *)
Definition number_ref (l : list Z) : option (Z * list Z) :=
  let v := decimal (take_while is_digit l) in
  if v <? 2 ^ 31 then Some (v, drop_while is_digit l) else None.

Definition width_ref (l : list Z) (fs : npf_format_spec_t) : option (npf_format_spec_t * list Z) :=
  match l with
  | c :: l' =>
      if c =? ch "*" then Some (set_width 0 NPF_FMT_SPEC_OPT_STAR fs, l')
      else '(v, r) ← number_ref l;
           Some (set_width v (if is_digit c then NPF_FMT_SPEC_OPT_LITERAL
                              else NPF_FMT_SPEC_OPT_NONE) fs, r)
  | [] => Some (set_width 0 NPF_FMT_SPEC_OPT_NONE fs, [])
  end.

Definition prec_ref (l : list Z) (fs : npf_format_spec_t) : option (npf_format_spec_t * list Z) :=
  match l with
  | c :: l' =>
      if c =? ch "." then
        match l' with
        | c :: l'' =>
            if c =? ch "*" then Some (set_prec 0 NPF_FMT_SPEC_OPT_STAR fs, l'')
            else if c =? ch "-" then
              '(v, r) ← number_ref l''; Some (set_prec v NPF_FMT_SPEC_OPT_NONE fs, r)
            else '(v, r) ← number_ref l'; Some (set_prec v NPF_FMT_SPEC_OPT_LITERAL fs, r)
        | [] => Some (set_prec 0 NPF_FMT_SPEC_OPT_LITERAL fs, [])
        end
      else Some (set_prec 0 NPF_FMT_SPEC_OPT_NONE fs, l)
  | [] => Some (set_prec 0 NPF_FMT_SPEC_OPT_NONE fs, l)
  end.

Definition length_ref (l : list Z) (fs : npf_format_spec_t) : npf_format_spec_t * list Z :=
  match l with
  | c :: l' =>
      if c =? ch "l" then
        match l' with
        | c :: l'' =>
            if c =? ch "l" then (set_length NPF_FMT_SPEC_LEN_MOD_LARGE_LONG_LONG fs, l'')
            else (set_length NPF_FMT_SPEC_LEN_MOD_LONG fs, l')
        | [] => (set_length NPF_FMT_SPEC_LEN_MOD_LONG fs, l')
        end
      else if c =? ch "j" then (set_length NPF_FMT_SPEC_LEN_MOD_LARGE_INTMAX fs, l')
      else if c =? ch "z" then (set_length NPF_FMT_SPEC_LEN_MOD_LARGE_SIZET fs, l')
      else if c =? ch "t" then (set_length NPF_FMT_SPEC_LEN_MOD_LARGE_PTRDIFFT fs, l')
      else (set_length NPF_FMT_SPEC_LEN_MOD_NONE fs, l)
  | [] => (set_length NPF_FMT_SPEC_LEN_MOD_NONE fs, l)
  end.

(** What follows a [%]: [None] when a number overflows (undefined), [Some None] when it is
    not a directive, otherwise the directive and what follows it. *)
Definition parse_ref (l : list Z) : option (option (npf_format_spec_t * list Z)) :=
  let fs := with_flags (take_while is_flag l) spec_start in
  '(fs, l) ← width_ref (drop_while is_flag l) fs;
  '(fs, l) ← prec_ref l fs;
  let '(fs, l) := length_ref l fs in
  match l with
  | c :: l => Some ((λ a, (set_conv a.1 a.2 fs, l)) <$> conv_of c (case_adjust fs))
  | [] => Some None
  end.

(** ** Numbers *)

(** The digits of a number, most significant first. *)
Fixpoint digits_fuel (k : nat) (base v : Z) : list Z :=
  match k with
  | O => []
  | S k => (if v <? base then [] else digits_fuel k base (v / base)) ++ [v mod base]
  end.
Definition digits (base v : Z) : list Z := digits_fuel 64 base v.

(** The number a row of digits stands for. *)
Definition number_of (base : Z) (ds : list Z) : Z := foldl (λ v d, v * base + d) 0 ds.

Definition digit_char (adj d : Z) : Z := if d <? 10 then ch "0" + d else ch "A" + adj + (d - 10).

(** ** Texts *)

(** The characters at [p] before a zero, but no more than [lim] of them. *)
Fixpoint read_str (k : nat) (rd : bytes) (p : Z) (lim : option nat) : option (list Z) :=
  match lim, k with
  | Some O, _ => Some []
  | _, O => None
  | _, S k =>
      c ← rd !! p;
      if c =? 0 then Some [] else (λ l, u8 c :: l) <$> read_str k rd (p + 1) (pred <$> lim)
  end.

Definition explicit_prec (fs : npf_format_spec_t) : bool :=
  negb (bool_decide (prec_opt fs = NPF_FMT_SPEC_OPT_NONE)).

(** Width and precision given as arguments. *)
Definition star_ref (fs : npf_format_spec_t) (args : va_list)
    : option (npf_format_spec_t * va_list) :=
  '(fs, args) ←
    (if bool_decide (field_width_opt fs = NPF_FMT_SPEC_OPT_STAR) then
       a ← head args;
       let w := s32 a in
       if w =? - 2 ^ 31 then None
       else Some (set_width (Z.abs w) NPF_FMT_SPEC_OPT_STAR
                    (if w <? 0 then set_flags 1 (leading_zero_pad fs) (prepend fs) fs else fs),
                  tail args)
     else Some (fs, args));
  if bool_decide (prec_opt fs = NPF_FMT_SPEC_OPT_STAR) then
    a ← head args;
    let p := s32 a in
    Some (if p <? 0 then set_prec 0 NPF_FMT_SPEC_OPT_NONE fs
          else set_prec p NPF_FMT_SPEC_OPT_STAR fs, tail args)
  else Some (fs, args).

Record text := mkText { t_sign : Z; t_body : list Z; t_zero : bool }.

(** The digits of a value; none for a zero with an explicit precision of zero. *)
Definition digits_text (fs : npf_format_spec_t) (base v : Z) : list Z :=
  if print_nothing v fs then [] else digit_char (case_adjust fs) <$> digits base v.

Definition base_of (c : npf_conv) : Z :=
  match c with
  | NPF_FMT_SPEC_CONV_BINARY => 2 | NPF_FMT_SPEC_CONV_OCTAL => 8
  | NPF_FMT_SPEC_CONV_UNSIGNED_INT => 10 | _ => 16
  end.

Definition text_ref (rd : bytes) (fs : npf_format_spec_t) (args : va_list)
    : option (text * va_list) :=
  match conv_spec fs with
  | NPF_FMT_SPEC_CONV_NONE => Some (mkText 0 [] false, args)
  | NPF_FMT_SPEC_CONV_PERCENT => Some (mkText 0 [ch "%"] false, args)
  | NPF_FMT_SPEC_CONV_CHAR =>
      a ← head args;
      Some (mkText 0 (if u8 a =? 0 then [] else [u8 a]) false, tail args)
  | NPF_FMT_SPEC_CONV_STRING =>
      a ← head args;
      let p := u64 a in
      l ← (if p =? 0 then Some []
           else read_str (string_fuel rd) rd p
                  (if explicit_prec fs then Some (Z.to_nat (prec fs)) else None));
      Some (mkText 0 l false, tail args)
  | NPF_FMT_SPEC_CONV_SIGNED_INT =>
      a ← head args;
      let v := extract_signed (length_modifier fs) a in
      Some (mkText (if v <? 0 then ch "-" else prepend fs) (digits_text fs 10 (Z.abs v)) (v =? 0),
            tail args)
  | cv =>
      a ← head args;
      let v := if bool_decide (cv = NPF_FMT_SPEC_CONV_POINTER) then u64 a
               else extract_unsigned (length_modifier fs) a in
      Some (mkText 0 (digits_text fs (base_of cv) v) (v =? 0), tail args)
  end.

Definition blanks (n : Z) : list Z := replicate (Z.to_nat n) (ch " ").
Definition zeros (n : Z) : list Z := replicate (Z.to_nat n) (ch "0").

(** Sign, zeros up to the precision, digits; padded to the width with blanks on the left,
    with blanks on the right, or with zeros after the sign. *)
Definition layout (fs : npf_format_spec_t) (t : text) : list Z :=
  let sign := if t_sign t =? 0 then [] else [t_sign t] in
  let body := if bool_decide (conv_spec fs = NPF_FMT_SPEC_CONV_STRING) then t_body t
              else zeros (prec fs - Z.of_nat (List.length (t_body t))) ++ t_body t in
  let pad := field_width fs - Z.of_nat (List.length (sign ++ body)) in
  if bool_decide (field_width_opt fs = NPF_FMT_SPEC_OPT_NONE) then sign ++ body
  else if negb (left_justified fs =? 0) then sign ++ body ++ blanks pad
  else if negb (leading_zero_pad fs =? 0) && negb (explicit_prec fs && (prec fs =? 0) && t_zero t)
  then sign ++ zeros pad ++ body
  else blanks pad ++ sign ++ body.

Definition directive_ref (rd : bytes) (fs : npf_format_spec_t) (args : va_list)
    : option (list Z * va_list) :=
  '(fs, args) ← star_ref fs args;
  let fs := drop_zero_flag (default_prec fs) in
  '(t, args) ← text_ref rd fs args;
  Some (layout fs t, args).

(** The text of a format: characters stand for themselves, directives for their texts. *)
Fixpoint render (k : nat) (rd : bytes) (fmt : list Z) (args : va_list) : option (list Z) :=
  match k, fmt with
  | _, [] => Some []
  | O, _ => None
  | S k, c :: fmt =>
      d ← (if c =? ch "%" then parse_ref fmt else Some None);
      match d with
      | Some (fs, fmt) =>
          '(o, args) ← directive_ref rd fs args; app o <$> render k rd fmt args
      | None => cons c <$> render k rd fmt args
      end
  end.
Definition format_ref (rd : bytes) (fmt : list Z) (args : va_list) : option (list Z) :=
  render (List.length fmt) rd fmt args.

Example render_hex : format_ref ∅ (str "[%08llx|%-5d|%+.3u|%c%%|%p]") [255; 2 ^ 64 - 7; 12; 65; 4096]
  = Some (str "[000000ff|-7   |012|A%|0000000000001000]").
Proof. reflexivity. Qed.

(** ** Reading the format *)

Definition hd0 (l : list Z) : Z := default 0 (head l).

Lemma cstring_load m p l : cstring m p l → load p m = Ok (hd0 l, m).
Proof.
  intros Hs. apply load_ok. destruct l as [|c l]; [by apply cstring_nil|].
  by apply cstring_cons in Hs as [? _].
Qed.

Lemma cstring_skip m p pre l : cstring m p (pre ++ l) → cstring m (p + Z.of_nat (List.length pre)) l.
Proof.
  revert p. induction pre as [|c pre IH]; intros p Hs.
  - by rewrite Z.add_0_r.
  - apply cstring_cons in Hs as (_ & _ & Hs). specialize (IH _ Hs). simpl.
    by replace (p + Z.of_nat (S (List.length pre))) with (p + 1 + Z.of_nat (List.length pre)) by lia.
Qed.

Lemma take_drop_while f l : take_while f l ++ drop_while f l = l.
Proof. induction l as [|c l IH]; simpl; [done|]. destruct (f c); simpl; [by rewrite IH|done]. Qed.

Lemma take_while_length f l : (List.length (take_while f l) ≤ List.length l)%nat.
Proof. rewrite -{2}(take_drop_while f l) length_app. lia. Qed.

Lemma is_flag_zero : is_flag 0 = false.
Proof. done. Qed.

Lemma bool_decide_in x c (l : list Z) : bool_decide (x ∈ c :: l) = (x =? c) || bool_decide (x ∈ l).
Proof.
  destruct (Z.eqb_spec x c) as [->|Hne].
  - apply bool_decide_true. by left.
  - apply bool_decide_ext. rewrite elem_of_cons. naive_solver.
Qed.

(** One more flag in front. *)
Lemma with_flags_cons c fl fs :
  is_flag c = true →
  with_flags (c :: fl) fs =
  with_flags fl
    (if c =? ch "-" then set_flags (ch "-") (leading_zero_pad fs) (prepend fs) fs
     else if c =? ch "0" then set_flags (left_justified fs) 1 (prepend fs) fs
     else if c =? ch "+" then set_flags (left_justified fs) (leading_zero_pad fs) (ch "+") fs
     else if prepend fs =? 0
          then set_flags (left_justified fs) (leading_zero_pad fs) (ch " ") fs else fs).
Proof.
  intros Hc. rewrite /with_flags !bool_decide_in.
  apply orb_true_iff in Hc as [Hc|Hc]; [apply orb_true_iff in Hc as [Hc|Hc];
    [apply orb_true_iff in Hc as [Hc|Hc]|]|]; apply Z.eqb_eq in Hc as ->; simpl;
    destruct fs as [? ? ? ? ? ? pp ? ? ?]; rewrite /set_flags; simpl.
  - by destruct (bool_decide (ch "-" ∈ fl)).
  - by destruct (bool_decide (ch "0" ∈ fl)).
  - by rewrite andb_false_r; destruct (bool_decide (ch "+" ∈ fl)).
  - destruct (Z.eqb_spec pp 0) as [->|Hne]; simpl; [by rewrite andb_false_r|].
    by rewrite (proj2 (Z.eqb_neq _ _) Hne) andb_false_r.
Qed.

Lemma parse_flags_ok m fuel p l fs :
  cstring m (p + 1) l → (List.length l < fuel)%nat →
  parse_flags fuel p fs m =
    Ok ((p + 1 + Z.of_nat (List.length (take_while is_flag l)), with_flags (take_while is_flag l) fs), m).
Proof.
  revert p l fs. induction fuel as [|fuel IH]; intros p l fs Hs Hf; [lia|]. cbn [parse_flags].
  rewrite /bind (cstring_load _ _ _ Hs). destruct l as [|c l].
  - simpl. rewrite /ret Z.add_0_r. by destruct fs.
  - apply cstring_cons in Hs as (_ & Hc & Hs). simpl in Hf. cbn [hd0 head default from_option id].
    rewrite (proj2 (Z.eqb_neq c 0)); [|lia]. cbn [take_while].
    pose proof (IH (p + 1) l) as IHl. destruct (is_flag c) eqn:Hfl.
    + rewrite with_flags_cons // /=.
      replace (p + 1 + Z.of_nat (S (List.length (take_while is_flag l)))) with
        (p + 1 + 1 + Z.of_nat (List.length (take_while is_flag l))) by lia.
      rewrite /is_flag in Hfl.
      destruct (c =? ch "-"); [by apply IHl; [|lia]|]. destruct (c =? ch "0"); [by apply IHl; [|lia]|].
      destruct (c =? ch "+"); [by apply IHl; [|lia]|]. destruct (c =? ch " "); [|discriminate].
      by apply IHl; [|lia].
    + rewrite /is_flag in Hfl. apply orb_false_iff in Hfl as [Hfl H4].
      apply orb_false_iff in Hfl as [Hfl H3]. apply orb_false_iff in Hfl as [H1 H2].
      rewrite H1 H2 H3 H4 /= /ret Z.add_0_r. by destruct fs.
Qed.

Lemma is_digit_range c : is_digit c = true → ch "0" ≤ c ≤ ch "9".
Proof. rewrite /is_digit. intros [H1 H2]%andb_true_iff. lia. Qed.

Lemma decimal_mono ds v : 0 ≤ v → Forall (λ c, is_digit c = true) ds → v ≤ decimal_from v ds.
Proof.
  intros Hv Hds. revert v Hv. induction Hds as [|c ds Hc Hds IH]; intros v Hv; simpl; [lia|].
  apply is_digit_range in Hc. change (ch "0") with 48 in *. change (ch "9") with 57 in *.
  etrans; [|apply IH]; lia.
Qed.

Lemma take_while_forall f l : Forall (λ c, f c = true) (take_while f l).
Proof. induction l as [|c l IH]; simpl; [done|]. destruct (f c) eqn:E; by constructor. Qed.

Lemma int_chk_ok {S} z (s : S) : - 2 ^ 31 ≤ z < 2 ^ 31 → int_chk z s = Ok (z, s).
Proof. intros Hz. rewrite /int_chk. destruct (Z.leb_spec (- 2 ^ 31) z), (Z.ltb_spec z (2 ^ 31)); (done || lia). Qed.

Lemma parse_digits_ok m fuel p l v :
  cstring m p l → (List.length l < fuel)%nat → 0 ≤ v →
  decimal_from v (take_while is_digit l) < 2 ^ 31 →
  parse_digits fuel p v m =
    Ok ((p + Z.of_nat (List.length (take_while is_digit l)), decimal_from v (take_while is_digit l)), m).
Proof.
  revert p l v. induction fuel as [|fuel IH]; intros p l v Hs Hf Hv Hd; [lia|]. cbn [parse_digits].
  rewrite /bind (cstring_load _ _ _ Hs). destruct l as [|c l]; [by rewrite /= /ret Z.add_0_r|].
  apply cstring_cons in Hs as (_ & Hc & Hs). simpl in Hf. cbn [hd0 head default from_option id].
  cbn [take_while] in Hd |- *. destruct (is_digit c) eqn:Ec; [|by rewrite /= /ret Z.add_0_r].
  pose proof (is_digit_range _ Ec) as Hr. cbn [decimal_from foldl] in Hd.
  change (ch "0") with 48 in *. change (ch "9") with 57 in *.
  pose proof (decimal_mono _ (v * 10 + (c - 48)) ltac:(lia) (take_while_forall is_digit l)) as Hm.
  rewrite /decimal_from in Hm. change (ch "0") with 48 in Hm.
  rewrite int_chk_ok; [|lia]. rewrite int_chk_ok; [|lia].
  rewrite (IH (p + 1) l _ Hs); [|lia|lia|exact Hd].
  do 3 f_equal. simpl. lia.
Qed.

(** After a part of the format has been read. *)
Definition read_upto (m : bytes) (p : Z) (l : list Z) (p' : Z) (l' : list Z) : Prop :=
  cstring m p' l' ∧ ∃ pre, l = pre ++ l' ∧ p' = p + Z.of_nat (List.length pre).

Lemma read_upto_intro m p pre l' :
  cstring m p (pre ++ l') → read_upto m p (pre ++ l') (p + Z.of_nat (List.length pre)) l'.
Proof. intros Hs. split; [by apply cstring_skip|]. by exists pre. Qed.

Lemma read_upto_trans m p l p1 l1 p2 l2 :
  read_upto m p l p1 l1 → read_upto m p1 l1 p2 l2 → read_upto m p l p2 l2.
Proof.
  intros [_ (a & -> & ->)] [H2 (b & -> & ->)]. split; [done|]. exists (a ++ b).
  rewrite app_assoc length_app. split; [done|lia].
Qed.

Lemma read_upto_one m p c l : cstring m p (c :: l) → read_upto m p (c :: l) (p + 1) l.
Proof. apply (read_upto_intro m p [c] l). Qed.

Lemma read_upto_refl m p l : cstring m p l → read_upto m p l p l.
Proof. intros Hs. split; [done|]. exists []. split; [done|]. by rewrite /= Z.add_0_r. Qed.
#[local] Hint Resolve read_upto_one read_upto_refl : core.

Lemma number_ok m fuel p l v r :
  cstring m p l → (List.length l < fuel)%nat → number_ref l = Some (v, r) →
  ∃ p', parse_digits fuel p 0 m = Ok ((p', v), m) ∧ read_upto m p l p' r.
Proof.
  intros Hs Hf. rewrite /number_ref. case_match eqn:E; [|done]. intros [= <- <-].
  eexists. split.
  - apply parse_digits_ok; [done|done|lia|]. by apply Z.ltb_lt in E.
  - rewrite -{1}(take_drop_while is_digit l). apply read_upto_intro. by rewrite take_drop_while.
Qed.

(** The steps of the parser. *)
Lemma parse_width_ok m p l fs fs' r :
  cstring m p l → width_ref l fs = Some (fs', r) →
  ∃ p', parse_width p fs m = Ok ((p', fs'), m) ∧ read_upto m p l p' r.
Proof.
  intros Hs E. pose proof (cstring_fuel _ _ _ Hs) as Hf.
  rewrite /parse_width /bind (cstring_load _ _ _ Hs). destruct l as [|c l]; cbn [hd0 head default from_option id].
  - simpl in E. injection E as <- <-. rewrite /gets. change (0 =? ch "*") with false.
    destruct (number_ok m (string_fuel m) p [] 0 [] Hs Hf eq_refl) as (p' & -> & Hr).
    exists p'. split; [done|exact Hr].
  - simpl in E. destruct (c =? ch "*").
    { injection E as <- <-. exists (p + 1). split; [done|auto]. }
    destruct (number_ref (c :: l)) as [[v r']|] eqn:En; [|done]. simpl in E. injection E as <- <-.
    rewrite /gets. destruct (number_ok _ _ _ _ _ _ Hs Hf En) as (p' & -> & Hr). by exists p'.
Qed.

Lemma parse_prec_ok m p l fs fs' r :
  cstring m p l → prec_ref l fs = Some (fs', r) →
  ∃ p', parse_prec p fs m = Ok ((p', fs'), m) ∧ read_upto m p l p' r.
Proof.
  intros Hs E. rewrite /parse_prec /bind (cstring_load _ _ _ Hs).
  destruct l as [|c l]; cbn [hd0 head default from_option id].
  { simpl in E. injection E as <- <-. exists p. split; [done|auto]. }
  cbn [prec_ref] in E. destruct (c =? ch ".") eqn:Ec; [|injection E as <- <-; exists p; split; [done|auto]].
  pose proof Hs as (_ & _ & Hs1)%cstring_cons. pose proof (cstring_fuel _ _ _ Hs1) as Hf.
  rewrite (cstring_load _ _ _ Hs1). destruct l as [|d l]; cbn [hd0 head default from_option id].
  { simpl in E. injection E as <- <-. rewrite /gets. change (0 =? ch "*") with false.
    change (0 =? ch "-") with false. cbv iota beta.
    destruct (number_ok m (string_fuel m) (p + 1) [] 0 [] Hs1 Hf eq_refl) as (p' & -> & Hr).
    exists p'. split; [done|]. eapply read_upto_trans; [by apply read_upto_one|done]. }
  destruct (d =? ch "*"); [injection E as <- <-; exists (p + 1 + 1); split; [done|]|].
  { eapply read_upto_trans; by apply read_upto_one. }
  pose proof Hs1 as (_ & _ & Hs2)%cstring_cons. destruct (d =? ch "-"); rewrite /gets.
  - destruct (number_ref l) as [[v r']|] eqn:En; [|done]. simpl in E. injection E as <- <-.
    destruct (number_ok _ (string_fuel m) _ _ _ _ Hs2 ltac:(simpl in Hf; lia) En) as (p' & -> & Hr).
    exists p'. split; [done|].
    do 2 (eapply read_upto_trans; [by apply read_upto_one|]). done.
  - destruct (number_ref (d :: l)) as [[v r']|] eqn:En; [|done]. simpl in E. injection E as <- <-.
    destruct (number_ok _ _ _ _ _ _ Hs1 Hf En) as (p' & -> & Hr). exists p'. split; [done|].
    eapply read_upto_trans; [by apply read_upto_one|done].
Qed.

Lemma parse_length_ok m p l fs fs' r :
  cstring m p l → length_ref l fs = (fs', r) →
  ∃ p', parse_length p fs m = Ok ((p', fs'), m) ∧ read_upto m p l p' r.
Proof.
  intros Hs E. rewrite /parse_length /bind (cstring_load _ _ _ Hs).
  destruct l as [|c l]; cbn [hd0 head default from_option id].
  { simpl in E. injection E as <- <-. exists p. split; [done|auto]. }
  cbn [length_ref] in E. pose proof Hs as (_ & _ & Hs1)%cstring_cons. destruct (c =? ch "l").
  - rewrite (cstring_load _ _ _ Hs1). destruct l as [|d l]; cbn [hd0 head default from_option id].
    { injection E as <- <-. exists (p + 1). split; [done|auto]. }
    destruct (d =? ch "l"); injection E as <- <-.
    + exists (p + 2). split; [done|]. replace (p + 2) with (p + 1 + 1) by lia.
      eapply read_upto_trans; by apply read_upto_one.
    + exists (p + 1). split; [done|auto].
  - repeat match goal with |- context [c =? ch ?x] => destruct (c =? ch x) end;
      injection E as <- <-; (exists (p + 1); split; [done|by auto]) || (exists p; split; [done|by auto]).
Qed.

(** [npf_parse_format_spec] recognises exactly the directives. *)
Lemma npf_parse_format_spec_ok m p l d :
  cstring m p (ch "%" :: l) → parse_ref l = Some d →
  ∃ fs n, npf_parse_format_spec p m = Ok ((n, fs), m) ∧
    match d with
    | Some (fs', r) => fs = fs' ∧ 0 < n ∧ read_upto m p (ch "%" :: l) (p + n) r
    | None => n = 0
    end.
Proof.
  intros Hs E. pose proof Hs as (_ & _ & Hs1)%cstring_cons. pose proof (cstring_fuel _ _ _ Hs1) as Hf.
  rewrite /npf_parse_format_spec /bind /gets (parse_flags_ok m _ p l) //. cbn [fst snd].
  rewrite /parse_ref in E.
  pose proof (take_drop_while is_flag l) as Hl. set (fl := take_while is_flag l) in *.
  set (l1 := drop_while is_flag l) in *. rewrite -Hl in Hs1.
  pose proof (read_upto_intro _ _ _ _ Hs1) as R1. pose proof (proj1 R1) as Hs2.
  destruct (width_ref l1 _) as [[fs1 l2]|] eqn:E1; [|done]. simpl in E.
  destruct (parse_width_ok _ _ _ _ _ _ Hs2 E1) as (p2 & -> & R2). pose proof (proj1 R2) as Hs3.
  cbn [fst snd]. destruct (prec_ref l2 _) as [[fs2 l3]|] eqn:E2; [|done]. simpl in E.
  destruct (parse_prec_ok _ _ _ _ _ _ Hs3 E2) as (p3 & -> & R3). pose proof (proj1 R3) as Hs4.
  cbn [fst snd]. destruct (length_ref l3 _) as [fs3 l4] eqn:E3.
  destruct (parse_length_ok _ _ _ _ _ _ Hs4 E3) as (p4 & -> & R4). pose proof (proj1 R4) as Hs5.
  assert (read_upto m p (ch "%" :: l) p4 l4) as R.
  { eapply read_upto_trans; [by apply read_upto_one|]. rewrite -Hl.
    eapply read_upto_trans; [done|]. eapply read_upto_trans; [done|]. by eapply read_upto_trans. }
  rewrite (cstring_load _ _ _ Hs5). destruct l4 as [|c l4]; cbn [hd0 head default from_option id].
  { injection E as <-. by eexists _, _. }
  injection E as <-. destruct (conv_of c (case_adjust fs3)) as [[adj cv]|]; simpl; [|by eexists _, _].
  eexists _, _. split; [done|]. split; [done|]. destruct R as [_ (pre & Epre & ->)]. split; [lia|].
  replace (p + (p + Z.of_nat (List.length pre) + 1 - p)) with (p + Z.of_nat (List.length pre) + 1) by lia.
  eapply read_upto_trans; [|by apply read_upto_one]. rewrite Epre. apply read_upto_intro. by rewrite -Epre.
Qed.

(** ** Digits *)

Lemma number_of_snoc base ds d : number_of base (ds ++ [d]) = number_of base ds * base + d.
Proof. by rewrite /number_of foldl_app. Qed.

Lemma div_pow_bound base k v :
  0 < base → 0 ≤ v < base ^ Z.of_nat (S k) → 0 ≤ v / base < base ^ Z.of_nat k.
Proof.
  intros Hb [H1 H2]. rewrite Nat2Z.inj_succ Z.pow_succ_r in H2; [|lia].
  split; [by apply Z.div_pos|]. by apply Z.div_lt_upper_bound.
Qed.

Lemma div_nonzero base v : 2 ≤ base → base ≤ v → v / base ≠ 0.
Proof. intros Hb Hv E. pose proof (Z.div_str_pos v base (conj (Z.lt_le_trans 0 2 base eq_refl Hb) Hv)). by rewrite E in H. Qed.

Lemma div_pow_0 base v : 2 ≤ base → base ≤ v → ¬ 0 ≤ v / base < base ^ Z.of_nat 0.
Proof.
  intros Hb Hv Hd. apply (div_nonzero base v Hb Hv). rewrite Z.pow_0_r in Hd.
  destruct Hd as [H1 H2]. generalize dependent (v / base). clear. lia.
Qed.

(** The digits of a number below [base ^ k], for any sufficient fuel. *)
Lemma digits_fuel_ok base k v :
  2 ≤ base → 0 ≤ v < base ^ Z.of_nat k → (0 < k)%nat →
  number_of base (digits_fuel k base v) = v ∧
  (0 < List.length (digits_fuel k base v) ≤ k)%nat ∧
  Forall (λ d, 0 ≤ d < base) (digits_fuel k base v).
Proof.
  intros Hb. revert v. induction k as [|k IH]; intros v Hv Hk; [lia|]. cbn [digits_fuel].
  pose proof (Z.mod_pos_bound v base ltac:(lia)) as Hm.
  rewrite number_of_snoc length_app Forall_app Forall_singleton. destruct (Z.ltb_spec v base) as [Hlt|Hge].
  - simpl. rewrite Z.mod_small; [|lia]. split; [done|]. split; [lia|].
    split; [constructor|lia].
  - pose proof (div_pow_bound base k v ltac:(lia) Hv) as Hd.
    destruct k as [|k]; [by destruct (div_pow_0 base v)|].
    destruct (IH _ Hd ltac:(clear; lia)) as (E & Hl & Hf). rewrite E. split; [|split; [cbn [List.length]; lia|done]].
    rewrite {3}(Z.div_mod v base); lia.
Qed.

(** More fuel than digits changes nothing. *)
Lemma digits_fuel_more base k k' v :
  2 ≤ base → 0 ≤ v < base ^ Z.of_nat k → (0 < k ≤ k')%nat →
  digits_fuel k' base v = digits_fuel k base v.
Proof.
  intros Hb. revert k' v. induction k as [|k IH]; intros [|k'] v Hv Hk; try lia. cbn [digits_fuel].
  destruct (Z.ltb_spec v base) as [Hlt|Hge]; [done|]. f_equal.
  pose proof (div_pow_bound base k v ltac:(lia) Hv) as Hd.
  destruct k as [|k]; [by destruct (div_pow_0 base v)|].
  apply IH; [done|lia].
Qed.

(** 64-bit numbers: at most 22 digits in the bases of the conversion buffer. *)
Lemma digits_bound base v :
  8 ≤ base → 0 ≤ v < 2 ^ 64 → digits base v = digits_fuel 22 base v.
Proof.
  intros Hb Hv. apply digits_fuel_more; [lia| |lia]. split; [lia|].
  eapply Z.lt_le_trans; [apply Hv|]. transitivity (8 ^ Z.of_nat 22); [by compute|].
  apply Z.pow_le_mono_l. lia.
Qed.

Lemma digits_value base v :
  2 ≤ base → 0 ≤ v < 2 ^ 64 → number_of base (digits base v) = v ∧ Forall (λ d, 0 ≤ d < base) (digits base v).
Proof.
  intros Hb Hv. destruct (digits_fuel_ok base 64 v) as (H1 & _ & H2); [lia| |lia|done].
  split; [lia|]. eapply Z.lt_le_trans; [apply Hv|]. apply (Z.pow_le_mono_l 2 base). lia.
Qed.

Lemma digit_char_byte adj d base :
  adj = 0 ∨ adj = 32 → 0 ≤ d < base → base ≤ 16 →
  u8 ((if d <? 10 then ch "0" else ch "A" - 10 + adj) + d) = digit_char adj d.
Proof.
  intros Ha Hd Hb. rewrite /digit_char /u8. change (ch "0") with 48. change (ch "A") with 65.
  destruct (Z.ltb_spec d 10); rewrite Z.mod_small; lia.
Qed.

(** [npf_utoa_rev] stores the digits, last one first, in front of the untouched rest. *)
Lemma utoa_loop_ok fuel k v base adj done rest :
  2 ≤ base ≤ 16 → adj = 0 ∨ adj = 32 → 0 ≤ v < base ^ Z.of_nat k → (0 < k ≤ fuel)%nat →
  (k ≤ List.length rest)%nat → (List.length (done ++ rest) ≤ 200)%nat →
  let ds := digit_char adj <$> digits_fuel k base v in
  utoa_loop fuel v (done ++ rest) base adj (Z.of_nat (List.length done)) =
    Ok (done ++ reverse ds ++ drop (List.length ds) rest,
        Z.of_nat (List.length done + List.length ds)).
Proof.
  intros Hb Ha. revert k v done rest. induction fuel as [|fuel IH]; intros k v acc rest Hv Hk Hr Hlen; [lia|].
  destruct k as [|k]; [lia|]. destruct rest as [|x rest]; [simpl in Hr; lia|].
  cbv zeta in IH |- *. cbn [utoa_loop digits_fuel]. rewrite length_app /= in Hlen.
  rewrite (proj2 (Z.ltb_lt _ _)); [|rewrite length_app /=; lia].
  rewrite Nat2Z.id insert_app_r_alt // Nat.sub_diag /=.
  pose proof (Z.mod_pos_bound v base ltac:(lia)) as Hm.
  rewrite (digit_char_byte adj (v mod base) base) //; [|lia].
  set (c := digit_char adj (v mod base)).
  replace (u8 (Z.of_nat (List.length acc) + 1)) with (Z.of_nat (List.length (acc ++ [c])))
    by (rewrite length_app /u8 /= Z.mod_small; lia).
  rewrite fmap_app reverse_app length_app /=. destruct (Z.ltb_spec v base) as [Hlt|Hge].
  - rewrite Z.div_small; [|lia]. done.
  - pose proof (div_pow_bound base k v ltac:(lia) Hv) as Hd.
    destruct k as [|k]; [destruct (div_pow_0 base v); [lia|done|done]|].
    rewrite (proj2 (Z.eqb_neq _ _) (div_nonzero base v ltac:(lia) Hge)).
    rewrite (_ : acc ++ c :: rest = (acc ++ [c]) ++ rest); [|by rewrite -app_assoc].
    rewrite (_ : Z.of_nat (List.length acc + 1) = Z.of_nat (List.length (acc ++ [c]))); [|by rewrite length_app].
    rewrite (IH (S k) _ (acc ++ [c]) rest Hd); [|lia|simpl in Hr; lia|rewrite !length_app /=; lia].
    set ds := _ <$> _. rewrite !length_app -!app_assoc (Nat.add_comm (List.length ds)) /=.
    do 2 f_equal. clear. lia.
Qed.

(** The digits are in the buffer, which is large enough. *)
Definition holds_rev (buf : list Z) (n : Z) (ds : list Z) : Prop :=
  n = Z.of_nat (List.length ds) ∧ ∃ rest, buf = reverse ds ++ rest.

Lemma npf_utoa_rev_ok v base adj :
  8 ≤ base ≤ 16 → adj = 0 ∨ adj = 32 → 0 ≤ v < 2 ^ 64 →
  ∃ buf n, npf_utoa_rev v cbuf_mem base adj = Ok (buf, n) ∧
    holds_rev buf n (digit_char adj <$> digits base v) ∧ n ≤ 22.
Proof.
  intros Hb Ha Hv. rewrite digits_bound; [|lia|done].
  assert (0 ≤ v < base ^ Z.of_nat 22) as Hv'.
  { split; [lia|]. eapply Z.lt_le_trans; [apply Hv|]. transitivity (8 ^ Z.of_nat 22); [by compute|].
    apply Z.pow_le_mono_l. lia. }
  pose proof (utoa_loop_ok 64 22 v base adj [] cbuf_mem) as E.
  rewrite /npf_utoa_rev. eexists _, _. split.
  { apply E; [lia|exact Ha|exact Hv'|clear; lia|clear; cbv; lia|clear; cbv; lia]. }
  split; [split; [reflexivity|by eexists]|]. rewrite Nat.add_0_l length_fmap.
  destruct (digits_fuel_ok base 22 v) as (_ & Hl & _); [lia|exact Hv'|clear; lia|].
  revert Hl. generalize (List.length (digits_fuel 22 base v)). clear. lia.
Qed.

(** The bits [put_bin] puts. *)
Fixpoint bits (k : nat) (v : Z) : list Z :=
  match k with O => [] | S k => Z.land (Z.shiftr v (Z.of_nat k)) 1 :: bits k v end.

Lemma land_1 v : Z.land v 1 = v mod 2.
Proof. change 1 with (Z.ones 1) at 1. by rewrite Z.land_ones. Qed.

Lemma bits_half k v : bits (S k) v = bits k (v / 2) ++ [v mod 2].
Proof.
  induction k as [|k IH].
  - cbn [bits]. by rewrite Z.shiftr_0_r land_1.
  - cbn [bits app] in IH |- *. rewrite IH. f_equal.
    rewrite -Z.div2_div Z.div2_spec Z.shiftr_shiftr; [|lia]. do 2 f_equal. lia.
Qed.

Lemma digits_bits k v :
  0 < v < 2 ^ Z.of_nat k → digits_fuel k 2 v = bits (Z.to_nat (Z.log2 v + 1)) v.
Proof.
  revert v. induction k as [|k IH]; intros v Hv; [rewrite Z.pow_0_r in Hv; lia|].
  pose proof (Z.log2_nonneg v) as Hlog. cbn [digits_fuel]. destruct (Z.ltb_spec v 2) as [Hlt|Hge].
  - assert (v = 1) as -> by lia. done.
  - rewrite Nat2Z.inj_succ Z.pow_succ_r in Hv; [|lia]. rewrite IH; [|lia].
    assert (Z.log2 v = Z.log2 (v / 2) + 1) as ->.
    { rewrite -Z.div2_div Z.div2_spec Z.log2_shiftr; [|lia]. pose proof (Z.log2_le_mono 2 v Hge).
      change (Z.log2 2) with 1 in *. lia. }
    pose proof (Z.log2_nonneg (v / 2)).
    replace (Z.to_nat (Z.log2 (v / 2) + 1 + 1)) with (S (Z.to_nat (Z.log2 (v / 2) + 1))) by lia.
    by rewrite bits_half.
Qed.

Lemma npf_bin_len_ok v :
  0 ≤ v < 2 ^ 64 → bits (Z.to_nat (npf_bin_len v)) v = digits 2 v ∧ 0 ≤ npf_bin_len v ≤ 64.
Proof.
  intros Hv. rewrite /npf_bin_len. destruct (Z.eqb_spec v 0) as [->|Hne]; [by split; [|lia]|].
  split; [by rewrite /digits digits_bits; [|lia]|].
  pose proof (Z.log2_nonneg v). pose proof (Z.log2_lt_pow2 v 64 ltac:(lia)). lia.
Qed.
