(* ===== verification/NpfThms.v ===== *)
(** * Formatted output: correctness

    [npf_vpprintf] puts exactly the text the format means, whatever consumes the
    characters, and its clients: a buffer that is never overrun ([npf_vsnprintf]). *)

From Stdlib Require Import Ascii String.
From stdpp Require Import base gmap list numbers.
From S2P Require Import Prelude Strings Npf NpfSpec.

#[local] Ltac Zify.zify_post_hook ::= Z.to_euclidean_division_equations.

(** ** What a consumer of characters promises

    [W out s]: the characters [out] have been put when the state is [s]. Putting does not
    touch the memory [rd] the formatter reads. *)
Class PutcSpec {C} (pc : Z → M (bytes * C) unit) (rd : bytes) (W : list Z → bytes * C → Prop) := {
  putc_reads : ∀ out s, W out s → rd ⊆ s.1;
  putc_puts : ∀ c out s, W out s → wp (pc c) (λ _ s', W (out ++ [u8 c]) s') s;
}.

Lemma wp_on_fst {A C X} (m : M A X) Q (s : A * C) :
  wp m (λ x a, Q x (a, s.2)) s.1 → wp (on_fst m) Q s.
Proof. rewrite /wp /on_fst. by destruct (m s.1) as [[x a]|]. Qed.

Section emits.
Context {C : Type} (pc : Z → M (bytes * C) unit) (rd : bytes) (W : list Z → bytes * C → Prop).
Context `{!PutcSpec pc rd W}.

Definition wrote (out : list Z) (s : npf_state (C := C)) : Prop :=
  W out s.1 ∧ s.2 = Z.of_nat (List.length out).

(** Code that puts the characters [l] and returns [x], if an [int] can count them. *)
Definition emits {X} (m : M (npf_state (C := C)) X) (l : list Z) (x : X) : Prop :=
  ∀ out s, wrote out s → Z.of_nat (List.length (out ++ l)) < 2 ^ 31 →
    wp m (λ y s', y = x ∧ wrote (out ++ l) s') s.

Lemma emits_ret {X} (x : X) : emits (ret x) [] x.
Proof. intros out s Hw _. rewrite app_nil_r. by apply wp_ret. Qed.

Lemma emits_bind {X Y} (m : M _ X) (k : X → M _ Y) l1 l2 x y :
  emits m l1 x → emits (k x) l2 y → emits (bind m k) (l1 ++ l2) y.
Proof.
  intros Hm Hk out s Hw Hlen. apply wp_bind. rewrite app_assoc in Hlen |- *.
  eapply wp_mono; [apply Hm; [done|rewrite length_app in Hlen; lia]|].
  intros x' s' [-> Hw']. by apply Hk.
Qed.

(** Reading memory. *)
Lemma emits_read {X} (m : M bytes X) x :
  (∀ mem, rd ⊆ mem → m mem = Ok (x, mem)) → emits (on_mem m) [] x.
Proof.
  intros Hm out [[mem c] n] Hw _. rewrite app_nil_r. apply wp_on_fst, wp_on_fst.
  rewrite /wp Hm; [done|]. apply (putc_reads out (mem, c)). apply Hw.
Qed.

Lemma emits_read_bind {X Y} (m : M bytes X) (k : X → M _ Y) x l y :
  (∀ mem, rd ⊆ mem → m mem = Ok (x, mem)) → emits (k x) l y → emits (bind (on_mem m) k) l y.
Proof. intros Hm Hk. apply (emits_bind _ _ [] l x); [by apply emits_read|done]. Qed.

(** The length of the text may be assumed to fit. *)
Lemma emits_small {X} (m : M _ X) l x :
  (Z.of_nat (List.length l) < 2 ^ 31 → emits m l x) → emits m l x.
Proof. intros H out s Hw Hl. apply H; [rewrite length_app in Hl; lia|done|done]. Qed.

Lemma emits_putc c b : u8 c = b → emits (npf_putc_cnt pc c) [b] tt.
Proof.
  intros <- out [s n] [Hw Hn] Hlen. simpl in Hw, Hn. rewrite /npf_putc_cnt /wp /bind /=.
  rewrite length_app /= in Hlen. rewrite int_chk_ok; [|simpl; lia]. rewrite /modify /on_fst /=.
  pose proof (putc_puts c out s Hw) as Hp. rewrite /wp in Hp.
  destruct (pc c s) as [[[] s']|]; [|done]. split; [done|]. split; [done|].
  rewrite length_app /=. lia.
Qed.

Lemma emits_int_chk {Y} z (k : Z → M _ Y) l y :
  - 2 ^ 31 ≤ z < 2 ^ 31 → emits (k z) l y → emits (bind (int_chk z) k) l y.
Proof.
  intros Hz Hk out s Hw Hl. apply wp_bind. rewrite /wp int_chk_ok //. by apply Hk.
Qed.

Lemma emits_put_n k c : u8 c = c → emits (put_n pc k c) (replicate k c) tt.
Proof.
  intros Hc. induction k as [|k IH]; [apply emits_ret|].
  apply (emits_bind _ _ [c] (replicate k c) tt); [by apply emits_putc|done].
Qed.

Lemma u8_s8 c : u8 (s8 c) = u8 c.
Proof. rewrite /u8 /s8. lia. Qed.

Definition is_byte (c : Z) : Prop := 0 ≤ c < 256.
Lemma u8_byte c : is_byte c → u8 c = c.
Proof. rewrite /is_byte /u8. intros. apply Z.mod_small. lia. Qed.

Lemma emits_put_rev ds rest :
  Forall is_byte ds → emits (put_rev pc (List.length ds) (reverse ds ++ rest)) ds tt.
Proof.
  intros Hb. rewrite -{1}(reverse_involutive ds) -{3}(reverse_involutive ds) length_reverse.
  apply Forall_reverse in Hb. generalize dependent (reverse ds). clear ds. intros ds Hb.
  revert rest. induction ds as [|c ds IH] using rev_ind; intros rest; [apply emits_ret|].
  apply Forall_app in Hb as [Hb Hc]. rewrite Forall_singleton in Hc.
  rewrite length_app reverse_app Nat.add_comm. cbn [List.length Nat.add put_rev].
  change (reverse [c] ++ reverse ds) with (c :: reverse ds).
  apply (emits_bind _ _ [] (c :: reverse ds) c).
  - intros out s Hw _. rewrite app_nil_r. eapply wp_reads; [|done].
    rewrite -app_assoc lookup_app_r // Nat.sub_diag //.
  - apply (emits_bind _ _ [c] (reverse ds) tt); [apply emits_putc; rewrite u8_s8; by apply u8_byte|].
    rewrite -app_assoc. by apply IH.
Qed.

Lemma emits_put_bin k v : emits (put_bin pc k v) (Z.add (ch "0") <$> bits k v) tt.
Proof.
  induction k as [|k IH]; [apply emits_ret|]. cbn [bits put_bin]. rewrite fmap_cons.
  apply (emits_bind _ _ [_] _ tt); [apply emits_putc|done].
  rewrite land_1. apply u8_byte. rewrite /is_byte. change (ch "0") with 48. lia.
Qed.

(** The bytes of a string argument. *)
Definition chars_at (p : Z) (l : list Z) : Prop :=
  ∀ i b, l !! i = Some b → ∃ c, rd !! (p + Z.of_nat i) = Some c ∧ u8 c = b.

Lemma chars_at_cons p b l : chars_at p (b :: l) → (∃ c, rd !! p = Some c ∧ u8 c = b) ∧ chars_at (p + 1) l.
Proof.
  intros H. split.
  - destruct (H 0%nat b eq_refl) as (c & Hc & E). exists c. split; [|done]. rewrite -Hc. f_equal. lia.
  - intros i c Hi. destruct (H (S i) c Hi) as (d & Hd & E). exists d. split; [|done]. rewrite -Hd. f_equal. lia.
Qed.

Lemma emits_put_str p l : chars_at p l → emits (put_str pc (List.length l) p) l tt.
Proof.
  revert p. induction l as [|b l IH]; intros p Hp; [apply emits_ret|].
  apply chars_at_cons in Hp as [(c & Hc & E) Hp]. cbn [List.length put_str].
  apply (emits_read_bind _ _ c).
  { intros mem Hm. by apply load_ok, (lookup_weaken rd). }
  apply (emits_bind _ _ [b] l tt); [apply emits_putc; by rewrite u8_s8|by apply IH].
Qed.
End emits.

(** ** Specifications the parser returns *)

Record spec_ok (fs : npf_format_spec_t) : Prop := {
  so_case : case_adjust fs = 0 ∨ case_adjust fs = 32;
  so_width : 0 ≤ field_width fs < 2 ^ 31;
  so_prec : 0 ≤ prec fs < 2 ^ 31;
  so_prepend : is_byte (prepend fs);
}.

Lemma number_ref_range l v r : number_ref l = Some (v, r) → 0 ≤ v < 2 ^ 31.
Proof.
  rewrite /number_ref. case_match eqn:E; [|done]. intros [= <- <-]. apply Z.ltb_lt in E.
  split; [|done]. rewrite /decimal. by apply decimal_mono; [|apply take_while_forall].
Qed.

Lemma spec_ok_flags lj lz pp fs : spec_ok fs → is_byte pp → spec_ok (set_flags lj lz pp fs).
Proof. intros [] ?. by constructor. Qed.
Lemma spec_ok_width w o fs : spec_ok fs → 0 ≤ w < 2 ^ 31 → spec_ok (set_width w o fs).
Proof. intros [] ?. by constructor. Qed.
Lemma spec_ok_prec p o fs : spec_ok fs → 0 ≤ p < 2 ^ 31 → spec_ok (set_prec p o fs).
Proof. intros [] ?. by constructor. Qed.
Create HintDb npf.
#[local] Hint Resolve spec_ok_flags spec_ok_width spec_ok_prec number_ref_range so_prepend : npf.

Lemma int_0 : 0 ≤ 0 < 2 ^ 31.
Proof. done. Qed.
#[local] Hint Resolve int_0 : npf.

Lemma with_flags_ok fl : spec_ok (with_flags fl spec_start).
Proof.
  apply spec_ok_flags; [by constructor; try (by left); try (by right)|].
  rewrite /is_byte. repeat case_match; by compute.
Qed.

Lemma width_ref_ok l fs fs' r : spec_ok fs → width_ref l fs = Some (fs', r) → spec_ok fs'.
Proof.
  intros Hfs. destruct l as [|c l]; simpl; [intros [= <- <-]; eauto with npf|].
  case_match; [intros [= <- <-]; eauto with npf|].
  destruct (number_ref (c :: l)) as [[v r']|] eqn:E; [|done]. intros [= <- <-]. eauto with npf.
Qed.

Lemma prec_ref_ok l fs fs' r : spec_ok fs → prec_ref l fs = Some (fs', r) → spec_ok fs'.
Proof.
  intros Hfs. destruct l as [|c l]; simpl; [intros [= <- <-]; eauto with npf|].
  case_match; [|intros [= <- <-]; eauto with npf].
  destruct l as [|d l]; [intros [= <- <-]; eauto with npf|].
  case_match; [intros [= <- <-]; eauto with npf|]. case_match.
  - destruct (number_ref l) as [[v r']|] eqn:E; [|done]. intros [= <- <-]. eauto with npf.
  - destruct (number_ref (d :: l)) as [[v r']|] eqn:E; [|done]. intros [= <- <-]. eauto with npf.
Qed.

Lemma length_ref_ok l fs fs' r : spec_ok fs → length_ref l fs = (fs', r) → spec_ok fs'.
Proof.
  assert (∀ lm, spec_ok fs → spec_ok (set_length lm fs)) as H by (intros lm []; by constructor).
  intros Hfs. destruct l as [|c l]; simpl; [intros [= <- <-]; auto|].
  repeat case_match; intros [= <- <-]; auto.
Qed.

Lemma conv_of_case c adj a cv : conv_of c adj = Some (a, cv) → a = adj ∨ a = 0.
Proof. rewrite /conv_of. repeat case_match; intros [= <- _]; auto. Qed.

Lemma parse_ref_ok l fs r : parse_ref l = Some (Some (fs, r)) → spec_ok fs.
Proof.
  rewrite /parse_ref. destruct (width_ref _ _) as [[fs1 l1]|] eqn:E1; [|done]. cbn.
  destruct (prec_ref _ _) as [[fs2 l2]|] eqn:E2; [|done]. cbn.
  destruct (length_ref l2 fs2) as [fs3 l3] eqn:E3. destruct l3 as [|c l3]; [done|].
  pose proof (width_ref_ok _ _ _ _ (with_flags_ok _) E1) as H1.
  pose proof (prec_ref_ok _ _ _ _ H1 E2) as H2. pose proof (length_ref_ok _ _ _ _ H2 E3) as [].
  destruct (conv_of c (case_adjust fs3)) as [[a cv]|] eqn:Ec; [|done]. intros [= <- <-].
  apply conv_of_case in Ec. constructor; simpl; [naive_solver|done|done|done].
Qed.

Lemma s32_range z : - 2 ^ 31 ≤ s32 z < 2 ^ 31.
Proof. rewrite /s32. pose proof (Z.mod_pos_bound (z + 2 ^ 31) (2 ^ 32) eq_refl). lia. Qed.
Lemma s64_range z : - 2 ^ 63 ≤ s64 z < 2 ^ 63.
Proof. rewrite /s64. pose proof (Z.mod_pos_bound (z + 2 ^ 63) (2 ^ 64) eq_refl). lia. Qed.

(** The code's treatment of [*] is the reference's. *)
Lemma star_ok fs args fs' args' :
  spec_ok fs → star_ref fs args = Some (fs', args') →
  spec_ok fs' ∧ ∃ fs1 args1, ∀ m,
    star_width fs args m = Ok ((fs1, args1), m) ∧ star_prec fs1 args1 m = Ok ((fs', args'), m).
Proof.
  intros Hfs E. rewrite /star_ref in E.
  assert (∃ fs1 args1, (∀ m, star_width fs args m = Ok ((fs1, args1), m)) ∧ spec_ok fs1 ∧
    (if bool_decide (prec_opt fs1 = NPF_FMT_SPEC_OPT_STAR) then
       a ← head args1;
       Some (if s32 a <? 0 then set_prec 0 NPF_FMT_SPEC_OPT_NONE fs1
             else set_prec (s32 a) NPF_FMT_SPEC_OPT_STAR fs1, tail args1)
     else Some (fs1, args1)) = Some (fs', args')) as (fs1 & args1 & E1 & H1 & E2).
  { rewrite /star_width. case_bool_decide; [|by exists fs, args].
    destruct args as [|a args]; [done|]. simpl in E.
    pose proof (s32_range a). destruct (Z.eqb_spec (s32 a) (- 2 ^ 31)); [done|].
    eexists _, _. split; [|split; [|exact E]].
    - intros m. rewrite /bind /va_arg /=. destruct (Z.ltb_spec (s32 a) 0).
      + rewrite int_chk_ok; [|lia]. rewrite -Z.abs_neq; [done|lia].
      + by rewrite Z.abs_eq.
    - destruct (s32 a <? 0); apply spec_ok_width; eauto with npf; lia. }
  clear E. rewrite /star_prec. case_bool_decide.
  - destruct args1 as [|a args1]; [done|]. simpl in E2. injection E2 as <- <-.
    pose proof (s32_range a). split.
    + destruct (Z.ltb_spec (s32 a) 0); apply spec_ok_prec; eauto with npf; lia.
    + exists fs1, (a :: args1). intros m. split; [by apply E1|].
      rewrite bool_decide_true // /bind /va_arg /=. by destruct (s32 a <? 0).
  - injection E2 as <- <-. split; [done|]. exists fs1, args1. intros m. split; [by apply E1|].
    by rewrite bool_decide_false.
Qed.

Lemma defaults_ok fs : spec_ok fs → spec_ok (drop_zero_flag (default_prec fs)).
Proof.
  intros Hfs. rewrite /default_prec. assert (spec_ok (if bool_decide (prec_opt fs = NPF_FMT_SPEC_OPT_NONE)
     && bool_decide (conv_spec fs = NPF_FMT_SPEC_CONV_POINTER)
     then set_prec ((8 * 8 + 3) / 4) (prec_opt fs) fs else fs)) as H.
  { case_match; [|done]. by apply spec_ok_prec. }
  revert H. generalize (if bool_decide (prec_opt fs = NPF_FMT_SPEC_OPT_NONE)
     && bool_decide (conv_spec fs = NPF_FMT_SPEC_CONV_POINTER)
     then set_prec ((8 * 8 + 3) / 4) (prec_opt fs) fs else fs). intros fs' H.
  rewrite /drop_zero_flag. repeat case_match; eauto with npf.
Qed.

(** ** The text of one argument *)

(** The payload holds the text. *)
Record conv_text (rd : bytes) (cv : conversion) (t : text) (args : va_list) : Prop := {
  ct_sign : sign_c cv = t_sign t;
  ct_zero : zero cv = t_zero t;
  ct_args : cv_args cv = args;
  ct_len : cbuf_len cv = Z.of_nat (List.length (t_body t));
  ct_body : match cv_payload cv with
            | Cbuf buf => Forall is_byte (t_body t) ∧ ∃ rest, buf = reverse (t_body t) ++ rest
            | Binval v => t_body t = Z.add (ch "0") <$> bits (List.length (t_body t)) v
            | Cstr p => t_sign t = 0 ∧ (p = 0 → t_body t = []) ∧ chars_at rd p (t_body t)
            end;
}.

Lemma digit_char_is_byte adj d : adj = 0 ∨ adj = 32 → 0 ≤ d < 16 → is_byte (digit_char adj d).
Proof.
  rewrite /is_byte /digit_char. change (ch "0") with 48. change (ch "A") with 65.
  intros ? ?. case_match; lia.
Qed.

Lemma digits_chars adj base v :
  adj = 0 ∨ adj = 32 → 2 ≤ base ≤ 16 → 0 ≤ v < 2 ^ 64 →
  Forall is_byte (digit_char adj <$> digits base v).
Proof.
  intros Ha Hb Hv. destruct (digits_value base v ltac:(lia) Hv) as [_ Hf].
  apply Forall_fmap. eapply Forall_impl; [exact Hf|]. intros d Hd.
  apply (digit_char_is_byte adj d Ha). cbn beta in Hd. clear -Hd Hb. lia.
Qed.

(** Digits of a number in the conversion buffer. *)
Lemma utoa_text rd fs base v sgn args :
  spec_ok fs → 8 ≤ base ≤ 16 → 0 ≤ v < 2 ^ 64 → print_nothing v fs = false →
  ∃ d, npf_utoa_rev v cbuf_mem base (case_adjust fs) = Ok d ∧
    ∀ z, conv_text rd (mkConv (Cbuf d.1) d.2 sgn z args) (mkText sgn (digits_text fs base v) z) args.
Proof.
  intros Hfs Hb Hv Hp. destruct (npf_utoa_rev_ok v base (case_adjust fs) Hb (so_case _ Hfs) Hv)
    as (buf & n & E & [Hn Hbuf] & _).
  exists (buf, n). split; [exact E|]. intros z. rewrite /digits_text Hp.
  constructor; [reflexivity|reflexivity|reflexivity|exact Hn|]. split; [|exact Hbuf].
  apply digits_chars; [exact (so_case _ Hfs)|clear -Hb; lia|exact Hv].
Qed.

Lemma print_nothing_text rd fs base v sgn args z :
  print_nothing v fs = true →
  conv_text rd (mkConv (Cbuf cbuf_mem) 0 sgn z args) (mkText sgn (digits_text fs base v) z) args.
Proof.
  intros Hp. rewrite /digits_text Hp. constructor; [done..|].
  split; [constructor|]. by exists cbuf_mem.
Qed.

Lemma extract_signed_range lm a : - 2 ^ 63 ≤ extract_signed lm a < 2 ^ 63.
Proof.
  pose proof (s32_range a). pose proof (s64_range a). rewrite /extract_signed.
  destruct lm; [cbv iota; clear -H; lia|assumption..].
Qed.

Lemma print_nothing_abs v fs : print_nothing (Z.abs v) fs = print_nothing v fs.
Proof. rewrite /print_nothing. by destruct v. Qed.

Lemma convert_signed_ok rd fs a args m :
  spec_ok fs →
  let v := extract_signed (length_modifier fs) a in
  ∃ cv, convert_signed fs (a :: args) m = Ok (cv, m) ∧
    conv_text rd cv (mkText (if v <? 0 then ch "-" else prepend fs) (digits_text fs 10 (Z.abs v)) (v =? 0)) args.
Proof.
  intros Hfs v. pose proof (extract_signed_range (length_modifier fs) a) as Hv. fold v in Hv.
  rewrite /convert_signed /bind /va_arg /=. fold v.
  assert ((if v <? 0 then u64 (0 - u64 v) else u64 v) = Z.abs v) as ->.
  { rewrite /u64. destruct (Z.ltb_spec v 0).
    - rewrite Zminus_mod_idemp_r Z.mod_small; lia.
    - rewrite Z.mod_small; lia. }
  rewrite -(print_nothing_abs v). destruct (print_nothing (Z.abs v) fs) eqn:Hp.
  { eexists. split; [reflexivity|]. by apply print_nothing_text. }
  edestruct (utoa_text rd fs 10 (Z.abs v)) as (d & E & Ht); [done|lia|lia|done|].
  rewrite /lift /ask E. eexists. split; [reflexivity|]. apply Ht.
Qed.

Lemma digits_text_bin fs v :
  print_nothing v fs = false → 0 ≤ v < 2 ^ 64 →
  digits_text fs 2 v = Z.add (ch "0") <$> bits (Z.to_nat (npf_bin_len v)) v ∧
  npf_bin_len v = Z.of_nat (List.length (digits_text fs 2 v)).
Proof.
  intros Hp Hv. destruct (npf_bin_len_ok v Hv) as [E Hl].
  destruct (digits_value 2 v ltac:(done) Hv) as [_ Hf]. rewrite /digits_text Hp E. split.
  - clear Hp E. induction Hf as [|d ds Hd Hds IH]; [done|]. rewrite !fmap_cons IH. f_equal.
    rewrite /digit_char. case_match eqn:Ed; [done|]. apply Z.ltb_ge in Ed. lia.
  - rewrite length_fmap -E. clear -Hl. assert (∀ k, List.length (bits k v) = k) as ->.
    { induction k as [|k IH]; [done|]. cbn [bits List.length]. by rewrite IH. }
    lia.
Qed.

Lemma convert_unsigned_ok rd fs a args m :
  spec_ok fs →
  let cv := conv_spec fs in
  let v := if bool_decide (cv = NPF_FMT_SPEC_CONV_POINTER) then u64 a
           else extract_unsigned (length_modifier fs) a in
  ∃ c, convert_unsigned fs (a :: args) m = Ok (c, m) ∧
    conv_text rd c (mkText 0 (digits_text fs (base_of cv) v) (v =? 0)) args.
Proof.
  intros Hfs cv v. assert (0 ≤ v < 2 ^ 64) as Hv.
  { rewrite /v. pose proof (u64_range a) as H1. pose proof (u32_range a) as H2. clear -H1 H2.
    case_bool_decide; [done|]. rewrite /extract_unsigned. destruct (length_modifier fs); lia. }
  rewrite /convert_unsigned /bind /va_arg /=. fold cv v.
  destruct (print_nothing v fs) eqn:Hp.
  { eexists. split; [reflexivity|]. by apply print_nothing_text. }
  case_bool_decide as Hb.
  - eexists. split; [reflexivity|]. rewrite Hb /=. destruct (digits_text_bin fs v Hp Hv) as [E Hl].
    constructor; [done..|exact Hl|]. simpl. rewrite {1}E. do 2 f_equal. clear -Hl. lia.
  - set (base := if bool_decide (cv = NPF_FMT_SPEC_CONV_OCTAL) then 8 else _).
    assert (base_of cv = base ∧ 8 ≤ base ≤ 16) as [-> Hbase].
    { rewrite /base. clear -Hb. destruct cv; (done || by case_bool_decide). }
    edestruct (utoa_text rd fs base v) as (d & E & Ht); [done|done|done|done|].
    rewrite /lift /ask E. eexists. split; [reflexivity|]. apply Ht.
Qed.

(** String arguments. *)
Lemma read_str_chars rd k q lim l : read_str k rd q lim = Some l → chars_at rd q l.
Proof.
  revert q lim l. induction k as [|k IH]; intros q lim l E; [by destruct lim as [[|]|]; simplify_eq/=|].
  assert (l = [] ∨ ∃ c l' lim', rd !! q = Some c ∧ l = u8 c :: l' ∧ read_str k rd (q + 1) lim' = Some l')
    as [->|(c & l' & lim' & Hq & -> & E')].
  { destruct lim as [[|n]|]; simpl in E; [by injection E as <-; left|..];
      (destruct (rd !! q) as [c|] eqn:Hq; [|done]); simpl in E;
      (destruct (c =? 0); [by injection E as <-; left|]);
      (destruct (read_str _ _ _ _) eqn:Er; [|done]); injection E as <-; right; by eexists _, _, _. }
  - intros i b Hi. done.
  - intros [|i] b Hi; [injection Hi as <-; exists c; by rewrite Z.add_0_r|].
    destruct (IH _ _ _ E' i b Hi) as (d & Hd & Hu). exists d. split; [|done]. rewrite -Hd. f_equal. lia.
Qed.

Lemma chars_at_length rd q l : chars_at rd q l → (List.length l ≤ size rd)%nat.
Proof.
  intros H. assert (∃ bs, bytes_at rd q bs ∧ List.length bs = List.length l) as (bs & Hb & <-).
  { revert q H. induction l as [|b l IH]; intros q H; [by exists []|].
    apply chars_at_cons in H as [(c & Hc & _) H]. destruct (IH _ H) as (bs & Hb & El).
    exists (c :: bs). split; [|simpl; lia]. intros [|i] d Hi.
    - injection Hi as <-. by rewrite Z.add_0_r.
    - rewrite -(Hb i d Hi). f_equal. lia. }
  by apply (bytes_at_length rd q).
Qed.

Lemma str_scan_ok m rd fs p k l q n fuel :
  rd ⊆ m → p ≠ 0 → 0 ≤ n → n + Z.of_nat (List.length l) < 2 ^ 31 →
  read_str k rd q (if explicit_prec fs then Some (Z.to_nat (prec fs - n)) else None) = Some l →
  (List.length l < fuel)%nat →
  str_scan fuel fs p q n m = Ok (n + Z.of_nat (List.length l), m).
Proof.
  intros Hm Hp. revert k l q n. induction fuel as [|fuel IH]; intros k l q n Hn Hl E Hf; [lia|].
  cbn [str_scan]. rewrite (proj2 (Z.eqb_neq p 0) Hp) andb_true_r.
  assert (bool_decide (prec_opt fs = NPF_FMT_SPEC_OPT_NONE) = negb (explicit_prec fs)) as ->
    by (by rewrite /explicit_prec negb_involutive).
  destruct (negb (explicit_prec fs) || (n <? prec fs)) eqn:Hc; cycle 1.
  { apply orb_false_iff in Hc as [Hc1 Hc2]. apply negb_false_iff in Hc1. rewrite Hc1 in E.
    apply Z.ltb_ge in Hc2. replace (Z.to_nat (prec fs - n)) with 0%nat in E by lia.
    assert (l = []) as -> by (destruct k; simpl in E; congruence). by rewrite /= Z.add_0_r. }
  assert (∃ k' c, rd !! q = Some c ∧ (if c =? 0 then Some [] else (λ l, u8 c :: l) <$>
    read_str k' rd (q + 1) (if explicit_prec fs then Some (Z.to_nat (prec fs - (n + 1))) else None)) = Some l)
    as (k' & c & Hq & E').
  { destruct (explicit_prec fs); simpl in Hc;
      [apply Z.ltb_lt in Hc;
       replace (Z.to_nat (prec fs - n)) with (S (Z.to_nat (prec fs - (n + 1)))) in E by lia|];
      (destruct k as [|k]; [done|]); simpl in E; (destruct (rd !! q) as [c|] eqn:Hq; [|done]);
      by exists k, c. }
  clear E. rewrite /bind (load_ok q c m); [|by apply (lookup_weaken rd)]. destruct (c =? 0).
  { injection E' as <-. by rewrite /= Z.add_0_r. }
  destruct (read_str k' rd (q + 1) _) as [l'|] eqn:E; [|done]. simpl in E'. injection E' as <-.
  cbn [List.length] in Hl, Hf |- *. rewrite int_chk_ok; [|lia].
  rewrite (IH k' l' (q + 1) (n + 1)); [|lia|lia|exact E|lia]. do 2 f_equal. lia.
Qed.

Lemma convert_string_ok rd fs a args l m :
  rd ⊆ m → Z.of_nat (List.length l) < 2 ^ 31 → conv_spec fs = NPF_FMT_SPEC_CONV_STRING →
  (if u64 a =? 0 then Some []
   else read_str (string_fuel rd) rd (u64 a)
          (if explicit_prec fs then Some (Z.to_nat (prec fs)) else None)) = Some l →
  ∃ cv, npf_convert fs (a :: args) m = Ok (cv, m) ∧ conv_text rd cv (mkText 0 l false) args.
Proof.
  intros Hm Hl Hc E. rewrite /npf_convert Hc /bind /va_arg /gets /ret. cbn [fst snd].
  destruct (Z.eqb_spec (u64 a) 0) as [H0|Hne].
  - injection E as <-. rewrite H0 /string_fuel. cbn [str_scan]. rewrite andb_false_r.
    eexists. split; [reflexivity|]. constructor; [done..|]. split; [done|]. split; [done|].
    intros i b Hi. done.
  - pose proof (read_str_chars _ _ _ _ _ E) as Hch.
    rewrite (str_scan_ok m rd fs (u64 a) (string_fuel rd) l) //.
    + eexists. split; [reflexivity|]. by constructor.
    + by rewrite Z.sub_0_r.
    + apply Nat.lt_succ_r. etrans; [exact (chars_at_length _ _ _ Hch)|]. by apply map_subseteq_size.
Qed.

(** [npf_convert] finds the text of the argument. *)
Lemma npf_convert_ok rd fs args t args' m :
  spec_ok fs → rd ⊆ m → text_ref rd fs args = Some (t, args') →
  Z.of_nat (List.length (t_body t)) < 2 ^ 31 →
  ∃ cv, npf_convert fs args m = Ok (cv, m) ∧ conv_text rd cv t args'.
Proof.
  intros Hfs Hm E Hl. rewrite /text_ref in E.
  destruct (conv_spec fs) eqn:Hc;
    [injection E as <- <-|injection E as <- <-|destruct args as [|a args]; [done|]; simpl in E..].
  - rewrite /npf_convert Hc. eexists. split; [reflexivity|]. constructor; [done..|].
    split; [constructor|]. by eexists.
  - rewrite /npf_convert Hc. eexists. split; [reflexivity|]. constructor; [done..|].
    split; [by repeat constructor|]. by eexists.
  - injection E as <- <-. rewrite /npf_convert Hc /bind /va_arg /=.
    assert (u8 (s32 a) = u8 a) as -> by (rewrite /u8 /s32; clear; lia).
    eexists. split; [reflexivity|]. constructor; [done..| |].
    + simpl. by destruct (u8 a =? 0).
    + pose proof (Z.mod_pos_bound a (2 ^ 8) eq_refl) as Hr. simpl. destruct (u8 a =? 0).
      * split; [constructor|]. by eexists.
      * split; [apply Forall_singleton; exact Hr|]. by eexists.
  - destruct (if u64 a =? 0 then _ else _) as [l|] eqn:El; [|done]. simpl in E. injection E as <- <-.
    by apply convert_string_ok.
  - injection E as <- <-. rewrite /npf_convert Hc. by apply convert_signed_ok.
  - injection E as <- <-. rewrite /npf_convert Hc.
    pose proof (convert_unsigned_ok rd fs a args m Hfs) as H. by rewrite Hc in H.
  - injection E as <- <-. rewrite /npf_convert Hc.
    pose proof (convert_unsigned_ok rd fs a args m Hfs) as H. by rewrite Hc in H.
  - injection E as <- <-. rewrite /npf_convert Hc.
    pose proof (convert_unsigned_ok rd fs a args m Hfs) as H. by rewrite Hc in H.
  - injection E as <- <-. rewrite /npf_convert Hc.
    pose proof (convert_unsigned_ok rd fs a args m Hfs) as H. by rewrite Hc in H.
  - injection E as <- <-. rewrite /npf_convert Hc.
    pose proof (convert_unsigned_ok rd fs a args m Hfs) as H. by rewrite Hc in H.
Qed.

(** ** Directives and formats *)

Section format.
Context {C : Type} (pc : Z → M (bytes * C) unit) (rd : bytes) (W : list Z → bytes * C → Prop).
Context `{!PutcSpec pc rd W}.
#[local] Notation emits := (emits W).

Lemma emits_if {X} (b : bool) (m1 m2 : M _ X) l1 l2 x :
  emits m1 l1 x → emits m2 l2 x → emits (if b then m1 else m2) (if b then l1 else l2) x.
Proof. by destruct b. Qed.

Definition sign_text (t : text) : list Z := if t_sign t =? 0 then [] else [t_sign t].

(** What the text is made of, in the order in which the code puts it. *)
Definition pieces (fs : npf_format_spec_t) (t : text) (pad_c pad prec_pad : Z) : list Z :=
  let right := (left_justified fs =? 0) && negb (pad_c =? 0) in
  let early := right && (pad_c =? ch "0") && negb (t_sign t =? 0) in
  (if early then [t_sign t] else []) ++
  (if right then replicate (Z.to_nat pad) pad_c else []) ++
  ((if early then [] else sign_text t) ++ zeros prec_pad ++ t_body t) ++
  (if negb (left_justified fs =? 0) && negb (pad_c =? 0) then replicate (Z.to_nat pad) pad_c else []).

Lemma emits_pieces fs cv t args :
  conv_text rd cv t args → is_byte (t_sign t) →
  let pad_c := pad_char fs (zero cv) in
  let is_str := bool_decide (conv_spec fs = NPF_FMT_SPEC_CONV_STRING) in
  let prec_pad := if is_str then 0 else Z.max 0 (prec fs - cbuf_len cv) in
  let pad := Z.max 0 (field_width fs - cbuf_len cv - (if sign_c cv =? 0 then 0 else 1) - prec_pad) in
  (match cv_payload cv with Cstr _ => is_str = true | _ => is_str = false end) →
  spec_ok fs → 0 ≤ cbuf_len cv < 2 ^ 31 →
  emits (npf_emit pc fs cv) (pieces fs t pad_c pad prec_pad) tt.
Proof.
  intros Hct Hsb pad_c is_str prec_pad pad Hstr Hfs Hlen.
  destruct (so_width _ Hfs) as [Hw1 Hw2]. destruct (so_prec _ Hfs) as [Hp1 Hp2].
  assert (0 ≤ prec_pad ∧ prec_pad + cbuf_len cv ≤ Z.max (prec fs) (cbuf_len cv)) as [Hpp1 Hpp2].
  { rewrite /prec_pad. destruct is_str; lia. }
  rewrite /npf_emit. fold pad_c is_str.
  apply (emits_bind _ _ _ [] _ (if is_str then 0 else prec fs - cbuf_len cv)).
  { destruct is_str; [apply emits_ret|]. intros out s Hs _. rewrite app_nil_r /wp int_chk_ok; [done|lia]. }
  assert (Z.max 0 (if is_str then 0 else prec fs - cbuf_len cv) = prec_pad) as ->.
  { rewrite /prec_pad. by destruct is_str. }
  apply emits_int_chk; [lia|]. apply emits_int_chk; [destruct (sign_c cv =? 0); lia|].
  apply emits_int_chk; [destruct (sign_c cv =? 0); lia|]. fold pad. rewrite (ct_sign _ _ _ _ Hct) (ct_len _ _ _ _ Hct).
  assert (u8 pad_c = pad_c) as Hpc.
  { rewrite /pad_c /pad_char. repeat case_match; done. }
  rewrite /pieces. set right := (left_justified fs =? 0) && _. set early := right && _ && _.
  apply (emits_bind _ _ _ _ _ tt).
  { apply emits_if; [apply (emits_putc pc rd W); by apply u8_byte|apply emits_ret]. }
  apply (emits_bind _ _ _ _ _ tt).
  { apply emits_if; [by apply (emits_put_n pc rd W)|apply emits_ret]. }
  apply (emits_bind _ _ _ _ _ tt); cycle 1.
  { destruct (negb _ && _); [by apply (emits_put_n pc rd W)|apply emits_ret]. }
  assert (emits (if (if early then 0 else t_sign t) =? 0 then ret tt
                 else npf_putc_cnt pc (if early then 0 else t_sign t))
            (if early then [] else sign_text t) tt) as Hsign.
  { rewrite /sign_text. destruct early; [apply emits_ret|].
    destruct (t_sign t =? 0); [apply emits_ret|]. apply (emits_putc pc rd W); by apply u8_byte. }
  pose proof (ct_body _ _ _ _ Hct) as Hbody. rewrite Nat2Z.id. destruct (cv_payload cv) as [buf|p|v].
  - destruct Hbody as [Hby (rest & ->)]. apply (emits_bind _ _ _ _ _ tt); [done|].
    apply (emits_bind _ _ _ _ _ tt); [by apply (emits_put_n pc rd W)|by apply (emits_put_rev pc rd W)].
  - destruct Hbody as (Hs0 & Hp0 & Hch). rewrite /prec_pad Hstr /sign_text Hs0 /=.
    assert (early = false) as -> by (by rewrite /early Hs0 andb_false_r). simpl.
    destruct (Z.eqb_spec p 0) as [->|Hne]; [rewrite Hp0 //; apply emits_ret|by apply (emits_put_str pc rd W)].
  - apply (emits_bind _ _ _ _ _ tt); [done|].
    apply (emits_bind _ _ _ _ _ tt); [by apply (emits_put_n pc rd W)|]. rewrite {2}Hbody. apply (emits_put_bin pc rd W).
Qed.

(** The pieces are the layout. *)
Lemma pieces_layout fs t :
  let is_str := bool_decide (conv_spec fs = NPF_FMT_SPEC_CONV_STRING) in
  let n := Z.of_nat (List.length (t_body t)) in
  let prec_pad := if is_str then 0 else Z.max 0 (prec fs - n) in
  pieces fs t (pad_char fs (t_zero t))
    (Z.max 0 (field_width fs - n - (if t_sign t =? 0 then 0 else 1) - prec_pad)) prec_pad = layout fs t.
Proof.
  intros is_str n prec_pad. rewrite /layout /pieces /sign_text. fold is_str.
  set S := if t_sign t =? 0 then [] else [t_sign t].
  set B := if is_str then t_body t else _.
  assert (zeros prec_pad ++ t_body t = B) as EB.
  { rewrite /B /prec_pad /zeros. destruct is_str; [done|]. do 2 f_equal. fold n. lia. }
  set pad := Z.max 0 _. assert (Z.to_nat pad = Z.to_nat (field_width fs - Z.of_nat (List.length (S ++ B)))) as Hpad.
  { rewrite /pad -EB !length_app /S /zeros length_replicate. fold n.
    assert (0 ≤ prec_pad) by (rewrite /prec_pad; destruct is_str; lia). destruct (t_sign t =? 0); simpl; lia. }
  rewrite -EB in Hpad. rewrite Hpad EB /blanks /zeros.
  rewrite /pad_char. case_bool_decide; [by destruct (left_justified fs =? 0); simpl; rewrite ?app_nil_r|].
  set k := Z.to_nat _. destruct (left_justified fs =? 0) eqn:Hl; simpl.
  - rewrite andb_true_r. fold (explicit_prec fs). destruct (leading_zero_pad fs =? 0); simpl.
    { by rewrite app_nil_r. }
    destruct (explicit_prec fs && (prec fs =? 0) && t_zero t); simpl; [by rewrite app_nil_r|].
    rewrite app_nil_r /S. by destruct (t_sign t =? 0).
  - rewrite andb_false_r /=. by rewrite -app_assoc.
Qed.

Lemma layout_length fs t : (List.length (t_body t) ≤ List.length (layout fs t))%nat.
Proof. rewrite /layout. repeat case_match; rewrite ?length_app; lia. Qed.

Lemma text_ref_sign fs args t args' :
  spec_ok fs → text_ref rd fs args = Some (t, args') → is_byte (t_sign t).
Proof.
  intros Hfs. rewrite /text_ref. assert (is_byte 0) as H0 by done.
  destruct (conv_spec fs); [intros [= <- <-]; done|intros [= <- <-]; done|
    (destruct args as [|a args]; [done|]); simpl..];
    try (intros [= <- <-]; exact H0).
  - destruct (if u64 a =? 0 then _ else _); [|done]. by intros [= <- <-].
  - intros [= <- <-]. simpl. destruct (_ <? 0); [done|apply (so_prepend _ Hfs)].
Qed.

(** The kind of payload tells strings from the rest. *)
Lemma npf_convert_str fs args cv m :
  npf_convert fs args m = Ok (cv, m) →
  match cv_payload cv with
  | Cstr _ => bool_decide (conv_spec fs = NPF_FMT_SPEC_CONV_STRING) = true
  | _ => bool_decide (conv_spec fs = NPF_FMT_SPEC_CONV_STRING) = false
  end.
Proof.
  assert (convert_signed fs args m = Ok (cv, m) → match cv_payload cv with Cstr _ => False | _ => True end) as H1.
  { rewrite /convert_signed. intros (r & m1 & _ & E)%bind_ok. case_match; [by injection E as <- _|].
    apply bind_ok in E as (d & m2 & _ & E). by injection E as <- _. }
  assert (convert_unsigned fs args m = Ok (cv, m) → match cv_payload cv with Cstr _ => False | _ => True end) as H2.
  { rewrite /convert_unsigned. intros (r & m1 & _ & E)%bind_ok. case_match; [by injection E as <- _|].
    case_match; [by injection E as <- _|].
    apply bind_ok in E as (d & m2 & _ & E). by injection E as <- _. }
  rewrite /npf_convert. destruct (conv_spec fs); intros E;
    try (specialize (H1 E)); try (specialize (H2 E)); try (by destruct (cv_payload cv)).
  - by injection E as <-.
  - by injection E as <-.
  - apply bind_ok in E as (r & m1 & _ & E). by injection E as <- _.
  - apply bind_ok in E as (r & m1 & _ & E). apply bind_ok in E as (f & m2 & _ & E).
    apply bind_ok in E as (n & m3 & _ & E). by injection E as <- _.
Qed.

Lemma emits_directive fs args l args' :
  spec_ok fs → directive_ref rd fs args = Some (l, args') → emits (npf_directive pc fs args) l args'.
Proof.
  intros Hfs E. rewrite /directive_ref in E.
  destruct (star_ref fs args) as [[fs1 args1]|] eqn:Es; [|done]. cbn in E.
  destruct (star_ok _ _ _ _ Hfs Es) as (Hfs1 & fs0 & args0 & Hstar).
  destruct (text_ref rd _ args1) as [[t args2]|] eqn:Et; [|done]. cbn in E. injection E as <- <-.
  apply emits_small. intros Hlen. pose proof (layout_length (drop_zero_flag (default_prec fs1)) t) as Hll.
  pose proof (defaults_ok _ Hfs1) as Hfs2. rewrite /npf_directive.
  apply (emits_read_bind pc rd W _ _ (fs0, args0)); [intros m _; by apply Hstar|].
  apply (emits_read_bind pc rd W _ _ (fs1, args1)); [intros m _; by apply Hstar|]. cbn [fst snd].
  set fs2 := drop_zero_flag (default_prec fs1) in Et Hlen Hll Hfs2 *.
  intros out s Hw Ho. apply wp_bind.
  destruct s as [[m c] n]. apply wp_on_fst, wp_on_fst. cbn [fst snd].
  assert (rd ⊆ m) as Hm by (apply (putc_reads (pc := pc) (W := W) out (m, c)); apply Hw).
  destruct (npf_convert_ok rd fs2 args1 t args2 m Hfs2 Hm Et ltac:(clear -Hlen Hll; lia)) as (cv & Ec & Hct).
  rewrite {1}/wp Ec. cbn [fst snd].
  pose proof (npf_convert_str _ _ _ _ Ec) as Hstr.
  pose proof (emits_pieces fs2 cv t args2 Hct (text_ref_sign _ _ _ _ Hfs2 Et)) as He. cbv zeta in He.
  specialize (He Hstr Hfs2).
  rewrite (ct_len _ _ _ _ Hct) (ct_sign _ _ _ _ Hct) (ct_zero _ _ _ _ Hct) pieces_layout in He.
  specialize (He ltac:(clear -Hlen Hll; lia)). apply wp_bind.
  eapply wp_mono; [by apply He|]. intros [] s' [_ Hw']. apply wp_ret. by rewrite (ct_args _ _ _ _ Hct).
Qed.

Lemma cstring_weaken m p l : rd ⊆ m → cstring rd p l → cstring m p l.
Proof. intros Hm [H1 H2]. split; [|done]. intros i b Hi. apply (lookup_weaken rd); [by apply H1|done]. Qed.

Lemma emits_loop k fuel cur fmt args out :
  cstring rd cur fmt → (List.length fmt < fuel)%nat → render k rd fmt args = Some out →
  emits (vpprintf_loop pc fuel cur args) out tt.
Proof.
  revert k cur fmt args out. induction fuel as [|fuel IH]; intros k cur fmt args out Hs Hf E; [lia|].
  cbn [vpprintf_loop]. apply (emits_read_bind pc rd W _ _ (hd0 fmt)).
  { intros m Hm. by apply cstring_load, cstring_weaken. }
  destruct fmt as [|c fmt].
  { destruct k; injection E as <-; apply emits_ret. }
  pose proof Hs as (_ & Hc & Hs1)%cstring_cons. cbn [hd0 head default from_option id].
  rewrite (proj2 (Z.eqb_neq c 0)); [|lia]. cbn [List.length] in Hf.
  destruct k as [|k]; [done|]. cbn [render] in E.
  assert (u8 (s8 c) = c) as Hu by (rewrite u8_s8; apply u8_byte; rewrite /is_byte; clear -Hc; lia).
  destruct (Z.eqb_spec c (ch "%")) as [->|Hne]; cbn [negb].
  - destruct (parse_ref fmt) as [d|] eqn:Ep; [|done]. cbn [mbind option_bind] in E.
    destruct (npf_parse_format_spec_ok rd cur fmt d Hs Ep) as (fs & n & _ & Hd).
    assert (∀ m, rd ⊆ m → ∃ fs', npf_parse_format_spec cur m = Ok ((n, fs'), m) ∧
              (n = 0 ∨ fs' = fs)) as Hparse.
    { intros m Hm. destruct (npf_parse_format_spec_ok m cur fmt d) as (fs' & n' & E' & Hd');
        [by apply cstring_weaken|done|]. exists fs'. destruct d as [[fs0 r]|].
      - destruct Hd as (-> & Hn & _ & pre & Epre & Hp). destruct Hd' as (-> & Hn' & _ & pre' & Epre' & Hp').
        rewrite Epre in Epre'. apply app_inv_tail in Epre' as ->. assert (n = n') as -> by (clear -Hp Hp'; lia).
        by auto.
      - subst n n'. by auto. }
    destruct d as [[fs0 r]|].
    + destruct Hd as (-> & Hn & Hsr & pre & Epre & Hp).
      apply (emits_read_bind pc rd W _ _ (n, fs0)).
      { intros m Hm. destruct (Hparse m Hm) as (fs' & E' & [->| ->]); [lia|done]. }
      cbn [fst snd]. rewrite (proj2 (Z.eqb_neq n 0)); [|lia].
      destruct (directive_ref rd fs0 args) as [[o args1]|] eqn:Ed; [|done]. cbn in E.
      destruct (render k rd r args1) as [out'|] eqn:Er; [|done]. cbn in E. injection E as <-.
      apply (emits_bind _ _ _ _ _ args1).
      { apply emits_directive; [|done]. by apply (parse_ref_ok fmt fs0 r). }
      apply (IH k (cur + n) r); [done| |done].
      assert (List.length (ch "%" :: fmt) = List.length (pre ++ r)) as Hl by (by rewrite Epre).
      rewrite length_app /= in Hl. clear -Hl Hf Hn Hp. lia.
    + subst n. cbn in E. destruct (render k rd fmt args) as [out'|] eqn:Er; [|done]. cbn in E.
      injection E as <-. intros out s Hw Ho. apply wp_bind.
      destruct s as [[m ctx] n]. apply wp_on_fst, wp_on_fst.
      assert (rd ⊆ m) as Hm by (apply (putc_reads (pc := pc) (W := W) out (m, ctx)); apply Hw).
      destruct (Hparse m Hm) as (fs' & E' & _). rewrite {1}/wp E'. cbn [fst snd Z.eqb].
      assert (emits (npf_putc_cnt pc (s8 (ch "%"));;; vpprintf_loop pc fuel (cur + 1) args)
                (ch "%" :: out') tt) as He.
      { apply (emits_bind _ _ _ [_] _ tt); [by apply (emits_putc pc rd W)|].
        apply (IH k _ fmt); [done|lia|done]. }
      by apply He.
  - cbn in E. destruct (render k rd fmt args) as [out'|] eqn:Er; [|done]. cbn in E. injection E as <-.
    apply (emits_bind _ _ _ [] _ (0, spec_start)); [apply emits_ret|]. cbn [fst snd Z.eqb].
    apply (emits_bind _ _ _ [_] _ tt); [by apply (emits_putc pc rd W)|].
    apply (IH k _ fmt); [done|lia|done].
Qed.

(** [npf_vpprintf] puts what the format means and returns its length. *)
Lemma npf_vpprintf_ok format fmt args out s :
  cstring rd format fmt → format_ref rd fmt args = Some out →
  Z.of_nat (List.length out) < 2 ^ 31 → W [] s →
  wp (npf_vpprintf pc format args) (λ n s', n = Z.of_nat (List.length out) ∧ W out s') s.
Proof.
  intros Hs Hr Hl HW. pose proof (putc_reads _ _ HW) as Hm.
  assert (emits (vpprintf_loop pc (string_fuel s.1) format args) out tt) as He.
  { apply (emits_loop (List.length fmt) _ _ fmt); [done| |done].
    apply (cstring_fuel s.1 format). by apply cstring_weaken. }
  specialize (He [] (s, 0) (conj HW eq_refl) Hl). rewrite /wp /npf_vpprintf in He |- *.
  destruct (vpprintf_loop _ _ _ _ _) as [[[] [s' n]]|]; [|done].
  destruct He as (_ & HW' & Hn). split; [exact Hn|exact HW'].
Qed.
End format.

(** ** Formatting into a buffer *)

(** The state of the buffer after [out] has been put: the first [bufsz] characters are in
    it, and nothing else has changed. *)
Definition buffered (m0 : bytes) (buffer bufsz : Z) (rd : bytes) (out : list Z)
    (s : bytes * npf_bufputc_ctx) : Prop :=
  s.2 = mkBufCtx buffer bufsz (Z.min bufsz (Z.of_nat (List.length out))) ∧
  s.1 = write_bytes buffer (take (Z.to_nat bufsz) out) m0 ∧ rd ⊆ s.1.

(** The buffer is mapped, and apart from what is read. *)
Definition apart (m0 : bytes) (buffer bufsz : Z) (rd : bytes) : Prop :=
  0 ≤ bufsz ∧ mapped m0 buffer bufsz ∧ rd ⊆ m0 ∧
  ∀ a, buffer ≤ a < buffer + bufsz → rd !! a = None.

Lemma apart_write m0 buffer bufsz rd bs :
  apart m0 buffer bufsz rd → Z.of_nat (List.length bs) ≤ bufsz → rd ⊆ write_bytes buffer bs m0.
Proof.
  intros (H0 & Hm & Hrd & Hap) Hl. apply map_subseteq_spec. intros a b Ha.
  rewrite write_bytes_lookup decide_False.
  - by apply (lookup_weaken rd).
  - intros Hin. rewrite Hap in Ha; [done|lia].
Qed.

Lemma bufputc_spec m0 buffer bufsz rd :
  apart m0 buffer bufsz rd → PutcSpec npf_bufputc rd (buffered m0 buffer bufsz rd).
Proof.
  intros Hap. pose proof Hap as (H0 & Hm & _ & _). constructor; [by intros out s (_ & _ & ?)|].
  intros c out [m ctx] (Hc & Hmem & Hrd). simpl in Hc, Hmem, Hrd. subst m ctx.
  rewrite /npf_bufputc /wp /=. destruct (Z.ltb_spec (Z.min bufsz (Z.of_nat (List.length out))) bufsz) as [Hlt|Hge].
  - rewrite Z.min_r; [|lia]. rewrite /bind /on_fst /= store_ok /=.
    2:{ apply (write_bytes_mapped _ _ _ _ _ Hm). lia. }
    rewrite /buffered /=. rewrite length_app /= Z.min_r; [|lia]. split; [f_equal; lia|].
    assert (<[buffer + Z.of_nat (List.length out) := u8 c]>
              (write_bytes buffer (take (Z.to_nat bufsz) out) m0) =
            write_bytes buffer (take (Z.to_nat bufsz) (out ++ [u8 c])) m0) as E.
    { rewrite !take_ge; [|rewrite length_app /=; lia|lia]. by rewrite write_bytes_app. }
    rewrite E. split; [done|]. apply (apart_write _ _ bufsz); [done|]. rewrite length_take. lia.
  - split; [|split]; simpl.
    + rewrite length_app /=. f_equal. lia.
    + rewrite take_app_le; [done|lia].
    + done.
Qed.

Lemma bufputc_nop_spec m0 buffer bufsz rd :
  rd ⊆ m0 → PutcSpec npf_bufputc_nop rd (λ _ s, s = (m0, mkBufCtx buffer bufsz 0)).
Proof. intros Hrd. constructor; [by intros out s ->|]. by intros c out s ->. Qed.

(** The memory [vsnprintf] leaves: as much of the text as fits, and a zero. *)
Definition sn_result (buffer bufsz : Z) (out : list Z) (m0 : bytes) : bytes :=
  if bufsz =? 0 then m0
  else write_bytes buffer (take (Z.to_nat (bufsz - 1)) out ++ [0])
         (write_bytes buffer (take (Z.to_nat bufsz) out) m0).

Lemma vsnprintf_ok m0 buffer bufsz rd format fmt args out :
  buffer ≠ 0 → apart m0 buffer bufsz rd → cstring rd format fmt →
  format_ref rd fmt args = Some out → Z.of_nat (List.length out) < 2 ^ 31 →
  vsnprintf buffer bufsz format args m0 =
    Ok (Z.of_nat (List.length out), sn_result buffer bufsz out m0).
Proof.
  intros Hb Hap Hs Hr Hl. pose proof Hap as (H0 & Hm & Hrd & _).
  assert (buffered m0 buffer bufsz rd [] (m0, mkBufCtx buffer bufsz 0)) as HW.
  { rewrite /buffered /= take_nil /=. split; [f_equal; lia|done]. }
  pose proof (bufputc_spec _ _ _ _ Hap) as Hpc.
  pose proof (npf_vpprintf_ok npf_bufputc rd _ format fmt args out _ Hs Hr Hl HW) as H.
  rewrite /vsnprintf /npf_vsnprintf (proj2 (Z.eqb_neq _ _) Hb). rewrite /wp in H.
  destruct (npf_vpprintf _ _ _ _) as [[n [m c]]|]; [|done]. destruct H as (-> & _ & Hmem & _).
  simpl in Hmem. subst m. cbn [negb andb]. rewrite /sn_result. destruct (Z.eqb_spec bufsz 0) as [->|Hne].
  { done. }
  rewrite (proj2 (Z.ltb_ge _ _)); [|lia]. rewrite u32_small; [|lia]. cbn [negb].
  rewrite /bind store_ok /ret; [|apply (write_bytes_mapped _ _ _ _ _ Hm); lia].
  do 2 f_equal. set k := Z.min _ _.
  assert (write_bytes buffer (take (Z.to_nat (bufsz - 1)) out ++ [0])
            (write_bytes buffer (take (Z.to_nat bufsz) out) m0) =
          <[buffer + k := 0]> (write_bytes buffer (take (Z.to_nat (bufsz - 1)) out)
            (write_bytes buffer (take (Z.to_nat bufsz) out) m0))) as ->.
  { rewrite write_bytes_app /=. f_equal. rewrite length_take. lia. }
  f_equal. apply map_eq. intros a. rewrite !write_bytes_lookup !length_take.
  case_decide as H1; case_decide as H2; try done; try lia.
  rewrite !lookup_take. repeat case_decide; try done; lia.
Qed.

Lemma vsnprintf_null m0 bufsz rd format fmt args out :
  rd ⊆ m0 → cstring rd format fmt → format_ref rd fmt args = Some out →
  Z.of_nat (List.length out) < 2 ^ 31 →
  vsnprintf 0 bufsz format args m0 = Ok (Z.of_nat (List.length out), m0).
Proof.
  intros Hrd Hs Hr Hl. pose proof (bufputc_nop_spec m0 0 bufsz rd Hrd) as Hpc.
  pose proof (npf_vpprintf_ok npf_bufputc_nop rd _ format fmt args out _ Hs Hr Hl eq_refl) as H.
  rewrite /vsnprintf /npf_vsnprintf /= . rewrite /wp in H.
  destruct (npf_vpprintf _ _ _ _) as [[n [m c]]|]; [|done]. destruct H as [-> [= -> ->]]. done.
Qed.

Lemma sn_result_outside buffer bufsz out m0 a :
  0 ≤ bufsz → ¬ buffer ≤ a < buffer + bufsz → sn_result buffer bufsz out m0 !! a = m0 !! a.
Proof.
  intros H0 Ha. rewrite /sn_result. destruct (Z.eqb_spec bufsz 0); [done|].
  rewrite !write_bytes_lookup length_app !length_take /=. by rewrite !decide_False; [..|lia|lia].
Qed.

Lemma sn_result_string buffer bufsz out m0 :
  0 < bufsz → bytes_at (sn_result buffer bufsz out m0) buffer (take (Z.to_nat (bufsz - 1)) out ++ [0]).
Proof.
  intros H0 i b Hi. pose proof (lookup_lt_Some _ _ _ Hi) as Hlt. rewrite /sn_result.
  rewrite (proj2 (Z.eqb_neq bufsz 0)); [|lia]. rewrite write_bytes_lookup decide_True; [|lia].
  by replace (Z.to_nat (buffer + Z.of_nat i - buffer)) with i by lia.
Qed.

(** ** Reading numbers back *)

Definition char_digit (c : Z) : Z :=
  if c <=? ch "9" then c - ch "0" else if c <=? ch "F" then c - ch "A" + 10 else c - ch "a" + 10.

Definition read_number (base : Z) (l : list Z) : Z := number_of base (char_digit <$> l).
Definition read_signed (l : list Z) : Z :=
  match l with
  | c :: l' => if c =? ch "-" then - read_number 10 l' else read_number 10 l
  | [] => 0
  end.

Lemma char_digit_char adj d : adj = 0 ∨ adj = 32 → 0 ≤ d < 16 → char_digit (digit_char adj d) = d.
Proof.
  rewrite /char_digit /digit_char. change (ch "0") with 48. change (ch "A") with 65.
  change (ch "9") with 57. change (ch "F") with 70. change (ch "a") with 97.
  intros Ha Hd. destruct (Z.ltb_spec d 10).
  - destruct (Z.leb_spec (48 + d) 57); lia.
  - destruct (Z.leb_spec (65 + adj + (d - 10)) 57), (Z.leb_spec (65 + adj + (d - 10)) 70); lia.
Qed.

Lemma read_digits adj base v :
  adj = 0 ∨ adj = 32 → 2 ≤ base ≤ 16 → 0 ≤ v < 2 ^ 64 →
  read_number base (digit_char adj <$> digits base v) = v.
Proof.
  intros Ha Hb Hv. destruct (digits_value base v ltac:(lia) Hv) as [E Hf].
  rewrite /read_number -list_fmap_compose -{2}E. f_equal. rewrite -{2}(list_fmap_id (digits base v)).
  apply Forall_fmap_ext_1. eapply Forall_impl; [exact Hf|]. intros d Hd. cbn beta in Hd.
  apply char_digit_char; [done|]. clear -Hb Hd. rewrite /id. lia.
Qed.

Lemma read_signed_digits v :
  - 2 ^ 63 ≤ v < 2 ^ 63 →
  read_signed ((if v <? 0 then [ch "-"] else []) ++ (digit_char 32 <$> digits 10 (Z.abs v))) = v.
Proof.
  intros Hv. pose proof (read_digits 32 10 (Z.abs v) (or_intror eq_refl) ltac:(lia) ltac:(lia)) as E.
  destruct (Z.ltb_spec v 0) as [Hlt|Hge]; cbn [app].
  - cbn [read_signed]. change (ch "-" =? ch "-") with true. cbv iota. rewrite E. lia.
  - destruct (digits_value 10 (Z.abs v)) as [_ Hf]; [lia|lia|].
    destruct (digits 10 (Z.abs v)) as [|d ds] eqn:Ed; [change (0 = Z.abs v) in E; change (0 = v); lia|].
    rewrite fmap_cons in E |- *. cbn [read_signed].
    rewrite (proj2 (Z.eqb_neq _ _)); [rewrite E; lia|]. apply Forall_cons in Hf as [Hd _].
    rewrite /digit_char. change (ch "-") with 45. change (ch "0") with 48. change (ch "A") with 65.
    case_match; lia.
Qed.

(** The formats for 64-bit numbers, with the text they give. *)
Definition number_format (c : Z) : option (Z * Z) :=
  if c =? ch "u" then Some (10, 32) else if c =? ch "x" then Some (16, 32)
  else if c =? ch "X" then Some (16, 0) else if c =? ch "o" then Some (8, 32)
  else if c =? ch "b" then Some (2, 32) else None.

Lemma format_single rd rest fs args o args' :
  parse_ref rest = Some (Some (fs, [])) → directive_ref rd fs args = Some (o, args') →
  format_ref rd (ch "%" :: rest) args = Some o.
Proof.
  intros Ep Ed. rewrite /format_ref. cbn [List.length render]. change (ch "%" =? ch "%") with true.
  cbv iota. rewrite Ep. cbn [mbind option_bind]. rewrite Ed. cbn [mbind option_bind].
  destruct rest; by rewrite /= app_nil_r.
Qed.

(** Without width and precision the text is sign and digits. *)
Lemma layout_plain fs t :
  field_width_opt fs = NPF_FMT_SPEC_OPT_NONE → prec fs = 0 → layout fs t = sign_text t ++ t_body t.
Proof.
  intros Hw Hp. rewrite /layout bool_decide_true // Hp. f_equal. case_match; [done|].
  by rewrite /zeros (_ : Z.to_nat _ = 0%nat); [|lia].
Qed.

Lemma directive_plain rd fs args t args' :
  star_ref fs args = Some (fs, args) → drop_zero_flag (default_prec fs) = fs →
  field_width_opt fs = NPF_FMT_SPEC_OPT_NONE → prec fs = 0 → text_ref rd fs args = Some (t, args') →
  directive_ref rd fs args = Some (sign_text t ++ t_body t, args').
Proof.
  intros Es Ed Hw Hp Et. rewrite /directive_ref Es. cbn [mbind option_bind]. rewrite Ed Et.
  cbn [mbind option_bind]. by rewrite layout_plain.
Qed.

Lemma format_number rd c base adj a :
  number_format c = Some (base, adj) →
  format_ref rd (str "%ll" ++ [c]) [a] = Some (digit_char adj <$> digits base (u64 a)).
Proof.
  rewrite /number_format. intros H.
  assert (∀ fs v, prec_opt fs = NPF_FMT_SPEC_OPT_NONE → digits_text fs base v =
    digit_char (case_adjust fs) <$> digits base v) as Ht.
  { intros fs v E. by rewrite /digits_text /print_nothing E andb_false_r. }
  repeat (case_match; [apply Z.eqb_eq in H0 as ->; injection H as <- <-|clear H0]); try done;
    (eapply format_single; [reflexivity|]);
    (erewrite directive_plain; [|reflexivity..]); by rewrite /= Ht.
Qed.

Lemma format_signed rd a :
  let v := s64 a in
  format_ref rd (str "%lld") [a] =
    Some ((if v <? 0 then [ch "-"] else []) ++ (digit_char 32 <$> digits 10 (Z.abs v))).
Proof.
  intros v. eapply format_single; [reflexivity|]. erewrite directive_plain; [|reflexivity..].
  rewrite /sign_text /digits_text /print_nothing. cbn -[digits s64 Z.abs Z.ltb]. fold v. rewrite andb_false_r.
  by destruct (v <? 0).
Qed.

(** ** The text consists of bytes *)

Lemma zeros_bytes n : Forall is_byte (zeros n).
Proof. by apply Forall_replicate. Qed.
Lemma blanks_bytes n : Forall is_byte (blanks n).
Proof. by apply Forall_replicate. Qed.

Lemma layout_bytes fs t : is_byte (t_sign t) → Forall is_byte (t_body t) → Forall is_byte (layout fs t).
Proof.
  intros Hs Hb. pose proof zeros_bytes. pose proof blanks_bytes. rewrite /layout.
  assert (Forall is_byte (if t_sign t =? 0 then [] else [t_sign t])) as Hsign.
  { destruct (t_sign t =? 0); [constructor|by apply Forall_singleton]. }
  assert (Forall is_byte (if bool_decide (conv_spec fs = NPF_FMT_SPEC_CONV_STRING) then t_body t
    else zeros (prec fs - Z.of_nat (List.length (t_body t))) ++ t_body t)) as Hbody.
  { case_bool_decide; [done|]. by apply Forall_app. }
  repeat case_match; rewrite ?Forall_app; auto.
Qed.

Lemma read_str_bytes rd k p lim l : read_str k rd p lim = Some l → Forall is_byte l.
Proof.
  intros E. apply read_str_chars in E. apply Forall_lookup. intros i b Hi.
  destruct (E i b Hi) as (c & _ & <-). by apply Z.mod_pos_bound.
Qed.

Lemma digits_text_bytes fs base v :
  spec_ok fs → 2 ≤ base ≤ 16 → 0 ≤ v < 2 ^ 64 → Forall is_byte (digits_text fs base v).
Proof.
  intros Hfs Hb Hv. rewrite /digits_text. case_match; [constructor|].
  apply digits_chars; [apply (so_case _ Hfs)|done|done].
Qed.

Lemma text_ref_bytes rd fs args t args' :
  spec_ok fs → text_ref rd fs args = Some (t, args') → Forall is_byte (t_body t).
Proof.
  intros Hfs. rewrite /text_ref.
  assert (∀ a cv, Forall is_byte (digits_text fs (base_of cv)
    (if bool_decide (cv = NPF_FMT_SPEC_CONV_POINTER) then u64 a
     else extract_unsigned (length_modifier fs) a))) as Hu.
  { intros a cv. apply digits_text_bytes; [done|by destruct cv|].
    pose proof (u64_range a) as H1. pose proof (u32_range a) as H2. clear -H1 H2.
    case_bool_decide; [done|]. rewrite /extract_unsigned. destruct (length_modifier fs); lia. }
  destruct (conv_spec fs); [intros [= <- <-]; constructor|intros [= <- <-]; by apply Forall_singleton|
    (destruct args as [|a args]; [done|]); cbn [head mbind option_bind tail]..].
  - intros [= <- <-]. cbn [t_body]. destruct (u8 a =? 0); [constructor|].
    apply Forall_singleton. by apply Z.mod_pos_bound.
  - destruct (u64 a =? 0); [intros [= <- <-]; constructor|].
    destruct (read_str _ _ _ _) eqn:E; [|done]. intros [= <- <-]. by apply read_str_bytes in E.
  - intros [= <- <-]. cbn [t_body]. pose proof (extract_signed_range (length_modifier fs) a) as H. clear Hu.
    apply digits_text_bytes; [done|lia|lia].
  - intros [= <- <-]. exact (Hu a NPF_FMT_SPEC_CONV_BINARY).
  - intros [= <- <-]. exact (Hu a NPF_FMT_SPEC_CONV_OCTAL).
  - intros [= <- <-]. exact (Hu a NPF_FMT_SPEC_CONV_HEX_INT).
  - intros [= <- <-]. exact (Hu a NPF_FMT_SPEC_CONV_UNSIGNED_INT).
  - intros [= <- <-]. exact (Hu a NPF_FMT_SPEC_CONV_POINTER).
Qed.

Lemma directive_ref_bytes rd fs args o args' :
  spec_ok fs → directive_ref rd fs args = Some (o, args') → Forall is_byte o.
Proof.
  intros Hfs E. rewrite /directive_ref in E.
  destruct (star_ref fs args) as [[fs1 args1]|] eqn:Es; [|done]. cbn in E.
  destruct (star_ok _ _ _ _ Hfs Es) as (Hfs1 & _). pose proof (defaults_ok _ Hfs1) as Hfs2.
  destruct (text_ref rd _ args1) as [[t args2]|] eqn:Et; [|done]. cbn in E. injection E as <- <-.
  apply layout_bytes; [by apply (text_ref_sign _ _ _ _ _ Hfs2 Et)|by apply (text_ref_bytes _ _ _ _ _ Hfs2 Et)].
Qed.

(** A string literal in memory. *)
Lemma cstring_write m p l : str_bytes l → cstring (write_bytes p (l ++ [0]) m) p l.
Proof.
  intros H. split; [|done]. intros i b Hi.
  pose proof (lookup_lt_Some _ _ _ Hi). rewrite write_bytes_lookup decide_True; [|lia].
  by replace (Z.to_nat (p + Z.of_nat i - p)) with i by lia.
Qed.

Lemma parse_ref_rest l fs r : parse_ref l = Some (Some (fs, r)) → str_bytes l → str_bytes r.
Proof.
  intros E Hl. assert (str_bytes (ch "%" :: l)) as Hl' by by constructor.
  destruct (npf_parse_format_spec_ok _ 0 l _ (cstring_write ∅ 0 _ Hl') E) as (fs' & n & _ & _ & _ & [_ Hr] & _).
  exact Hr.
Qed.

Lemma render_bytes k rd fmt args out :
  str_bytes fmt → render k rd fmt args = Some out → Forall is_byte out.
Proof.
  revert fmt args out. induction k as [|k IH]; intros fmt args out Hf E.
  { destruct fmt; [|done]. by injection E as <-. }
  destruct fmt as [|c fmt]; [by injection E as <-|]. cbn [render] in E.
  apply Forall_cons in Hf as [Hc Hf]. destruct (if c =? ch "%" then _ else _) as [d|] eqn:Ep; [|done].
  cbn in E. destruct d as [[fs r]|].
  - destruct (c =? ch "%"); [|done].
    destruct (directive_ref rd fs args) as [[o args1]|] eqn:Ed; [|done]. cbn in E.
    destruct (render k rd r args1) as [out'|] eqn:Er; [|done]. cbn in E. injection E as <-.
    apply Forall_app. split; [apply (directive_ref_bytes _ _ _ _ _ (parse_ref_ok _ _ _ Ep) Ed)|].
    refine (IH _ _ _ _ Er). by apply (parse_ref_rest fmt fs r).
  - destruct (render k rd fmt args) as [out'|] eqn:Er; [|done]. cbn in E. injection E as <-.
    constructor; [rewrite /is_byte; clear -Hc; lia|]. by apply (IH fmt args).
Qed.

(** ** Theorems *)

(** C11: For every format and arguments with a defined meaning, [vsnprintf] ends, returns the
    length of the whole text, leaves in the buffer as much of the text as fits followed by
    a zero (when there is a byte for it), and writes nowhere outside the buffer; without a
    buffer it only counts. *)
Theorem vsnprintf_correct m0 buffer bufsz rd format fmt args out :
  apart m0 buffer bufsz rd → cstring rd format fmt → format_ref rd fmt args = Some out →
  Z.of_nat (List.length out) < 2 ^ 31 →
  (buffer ≠ 0 →
   ∃ m', vsnprintf buffer bufsz format args m0 = Ok (Z.of_nat (List.length out), m') ∧
     (0 < bufsz → bytes_at m' buffer (take (Z.to_nat (bufsz - 1)) out ++ [0])) ∧
     (∀ a, ¬ buffer ≤ a < buffer + bufsz → m' !! a = m0 !! a)) ∧
  vsnprintf 0 bufsz format args m0 = Ok (Z.of_nat (List.length out), m0).
Proof.
  intros Hap Hs Hr Hl. split; [|apply (vsnprintf_null m0 bufsz rd format fmt); [apply Hap|done..]].
  intros Hb. eexists. split; [by apply (vsnprintf_ok m0 buffer bufsz rd format fmt)|].
  split; [apply sn_result_string|]. intros a. apply sn_result_outside. apply Hap.
Qed.

Definition demo_format : list Z := str "%-4s|%05d|%llx|%%".
Definition demo_rd : bytes := write_bytes 0x100 (demo_format ++ [0]) (write_bytes 0x180 (str "ok" ++ [0]) ∅).
Definition demo_memory (n : nat) : bytes := write_bytes 0x200 (replicate n 255) demo_rd.

Lemma demo_rd_none a : 0x200 ≤ a → demo_rd !! a = None.
Proof. intros Ha. rewrite /demo_rd !write_bytes_lookup !decide_False; [done|simpl; lia|simpl; lia]. Qed.

Lemma demo_apart n : apart (demo_memory n) 0x200 (Z.of_nat n) demo_rd.
Proof.
  split; [lia|]. split; [|split].
  - intros a Ha. rewrite /demo_memory write_bytes_lookup length_replicate decide_True; [|lia].
    apply lookup_lt_is_Some. rewrite length_replicate. lia.
  - apply map_subseteq_spec. intros a b Ha. rewrite /demo_memory write_bytes_lookup decide_False; [done|].
    intros [H _]. by rewrite demo_rd_none in Ha.
  - intros a [H _]. by apply demo_rd_none.
Qed.

Lemma cstring_literal m p l :
  bool_decide (Forall (λ b, 0 < b < 256) l) = true → cstring (write_bytes p (l ++ [0]) m) p l.
Proof. intros H. apply bool_decide_eq_true in H. by apply cstring_write. Qed.

Lemma vsnprintf_correct_witness :
  ∃ m', vsnprintf 0x200 12 0x100 [0x180; 2 ^ 64 - 42; 0xBEEF] (demo_memory 12) = Ok (17, m') ∧
    bytes_at m' 0x200 (str "ok  |-0042|" ++ [0]).
Proof.
  destruct (vsnprintf_correct (demo_memory 12) 0x200 12 demo_rd 0x100 demo_format
    [0x180; 2 ^ 64 - 42; 0xBEEF] (str "ok  |-0042|beef|%")) as [H _].
  - apply (demo_apart 12).
  - apply cstring_literal. vm_compute. reflexivity.
  - vm_compute. reflexivity.
  - vm_compute. reflexivity.
  - destruct H as (m' & E & Hb & _); [lia|]. exists m'. split; [exact E|]. apply Hb. lia.
Defined.

(** C32: Numbers survive printing: what [snprintf] writes for a 64-bit argument with
    [%llu], [%llx], [%llX], [%llo] or [%llb] is a terminated string that, read as a number
    of that base, is the argument, and with [%lld] the argument as a signed number. A
    buffer of 65 bytes is always enough. *)
Theorem snprintf_number_roundtrip m0 buffer bufsz rd format c base adj a :
  apart m0 buffer bufsz rd → buffer ≠ 0 → 65 ≤ bufsz →
  number_format c = Some (base, adj) ∧ cstring rd format (str "%ll" ++ [c]) ∨
    c = ch "d" ∧ cstring rd format (str "%lld") →
  ∃ out m', snprintf buffer bufsz format [a] m0 = Ok (Z.of_nat (List.length out), m') ∧
    bytes_at m' buffer (out ++ [0]) ∧
    (if c =? ch "d" then read_signed out = s64 a else read_number base out = u64 a).
Proof.
  intros Hap Hb Hsz Hc. pose proof (u64_range a) as Ha. pose proof (s64_range a) as Hs.
  assert (∀ b v, 2 ≤ b → 0 ≤ v < 2 ^ 64 → (List.length (digits b v) ≤ 64)%nat) as Hd.
  { intros b v H1 H2. apply (digits_fuel_ok b 64 v H1); [|lia]. split; [lia|].
    eapply Z.lt_le_trans; [apply H2|]. apply (Z.pow_le_mono_l 2 b). lia. }
  assert (∃ fmt out, cstring rd format fmt ∧ format_ref rd fmt [a] = Some out ∧
    (List.length out ≤ 64)%nat ∧
    (if c =? ch "d" then read_signed out = s64 a else read_number base out = u64 a))
    as (fmt & out & Hf & Hr & Hl & Hv).
  { destruct Hc as [[Hc Hf]|[-> Hf]].
    - exists (str "%ll" ++ [c]). eexists. split; [done|]. split; [by apply format_number|].
      assert ((adj = 0 ∨ adj = 32) ∧ 2 ≤ base ≤ 16 ∧ (c =? ch "d") = false) as (H1 & H2 & ->).
      { rewrite /number_format in Hc. repeat (case_match; [apply Z.eqb_eq in H as ->; injection Hc as <- <-;
          split; [by auto|]; split; [lia|done]|clear H]). done. }
      rewrite length_fmap. split; [apply Hd; lia|]. by apply read_digits.
    - exists (str "%lld"). eexists. split; [done|]. split; [apply format_signed|].
      split; [|by apply read_signed_digits]. rewrite length_app length_fmap.
      assert (digits 10 (Z.abs (s64 a)) = digits_fuel 22 10 (Z.abs (s64 a))) as -> by (apply digits_bound; lia).
      destruct (digits_fuel_ok 10 22 (Z.abs (s64 a))) as (_ & Hn & _); [lia|split; [lia|]|lia|].
      { apply (Z.le_lt_trans _ (2 ^ 63)); [lia|by compute]. }
      revert Hn. generalize (List.length (digits_fuel 22 10 (Z.abs (s64 a)))).
      clear. intros n Hn. destruct (s64 a <? 0); cbn [List.length]; lia. }
  exists out. eexists. split.
  { apply (vsnprintf_ok m0 buffer bufsz rd format fmt); [done..|lia]. }
  split; [|done]. pose proof (sn_result_string buffer bufsz out m0 ltac:(lia)) as H.
  by rewrite take_ge in H; [|lia].
Qed.

Definition number_rd : bytes := write_bytes 0x100 (str "%llX" ++ [0]) ∅.

Lemma snprintf_number_roundtrip_witness :
  ∃ out m', snprintf 0x200 65 0x100 [0xDEADBEEF] (write_bytes 0x200 (replicate 65 255) number_rd)
    = Ok (Z.of_nat (List.length out), m') ∧ bytes_at m' 0x200 (out ++ [0]) ∧ read_number 16 out = 0xDEADBEEF.
Proof.
  assert (∀ a, 0x200 ≤ a → number_rd !! a = None) as Hnone.
  { intros a Ha. rewrite /number_rd write_bytes_lookup decide_False; [done|simpl; lia]. }
  destruct (snprintf_number_roundtrip (write_bytes 0x200 (replicate 65 255) number_rd) 0x200 65 number_rd 0x100
    (ch "X") 16 0 0xDEADBEEF) as (out & m' & E & Hb & Hv).
  - split; [lia|]. split; [|split; [|intros a [H _]; by apply Hnone]].
    + intros a Ha. rewrite write_bytes_lookup length_replicate decide_True; [|lia].
      apply lookup_lt_is_Some. rewrite length_replicate. lia.
    + apply map_subseteq_spec. intros a b Ha. rewrite write_bytes_lookup decide_False; [done|].
      intros [H _]. by rewrite Hnone in Ha.
  - lia.
  - lia.
  - left. split; [reflexivity|]. apply cstring_literal. vm_compute. reflexivity.
  - exists out, m'. split; [exact E|]. split; [exact Hb|exact Hv].
Defined.
