(* ===== verification/Serial.v ===== *)
(** * Ports, the serial line, the console and [printf]
    (drivers/portsIO.c, drivers/serial.c, drivers/console.c, libk/stdio.c)

    The devices behind the ports and the terminal emulator are not code of the kernel:
    they are parameters, with what their documentation promises as classes. *)

From Stdlib Require Import Ascii String.
From stdpp Require Import base gmap list numbers.
From S2P Require Import Prelude Strings Npf NpfSpec NpfThms.

(** ** Ports *)

(** A device answers reads and takes writes. A driver that polls it does so at most
    [poll_limit] times before it gets the answer it waits for. *)
Class PortDevice (D : Type) := {
  port_in : Z → D → Z * D;
  port_out : Z → Z → D → D;
  poll_limit : nat;
}.

Section serial.
Context {D : Type} `{!PortDevice D}.

Definition inb (port : Z) : M D Z := λ d, let '(b, d) := port_in (u16 port) d in Ok (u8 b, d).
Definition outb (port val : Z) : M D unit := modify (port_out (u16 port) (u8 val)).

(** ** The serial line *)

Definition PORT : Z := 0x3f8.

Definition serial_init : M D Z :=
  outb (PORT + 1) 0x00;;; outb (PORT + 3) 0x80;;; outb (PORT + 0) 0x03;;; outb (PORT + 1) 0x00;;;
  outb (PORT + 3) 0x03;;; outb (PORT + 2) 0xC7;;; outb (PORT + 4) 0x0B;;; outb (PORT + 4) 0x1E;;;
  outb (PORT + 0) 0xAE;;;
  b <- inb (PORT + 0);;
  if negb (b =? 0xAE) then ret 1
  else outb (PORT + 4) 0x0F;;; ret 0.

Definition serial_received : M D Z := b <- inb (PORT + 5);; ret (Z.land b 1).
Definition is_transmit_empty : M D Z := b <- inb (PORT + 5);; ret (Z.land b 0x20).

(** [while (poll() == 0);] *)
Fixpoint wait_for (fuel : nat) (poll : M D Z) : M D unit :=
  match fuel with
  | O => fail OutOfFuel
  | S fuel => b <- poll;; if b =? 0 then wait_for fuel poll else ret tt
  end.

Definition serial_read : M D Z :=
  wait_for (S poll_limit) serial_received;;; b <- inb PORT;; ret (s8 b).

Definition serial_write (a : Z) : M D unit :=
  wait_for (S poll_limit) is_transmit_empty;;; outb PORT a.

(** A [char] pointer is what its object holds at each offset. *)
Fixpoint write_loop (k : nat) (str : Z → option Z) (i : Z) : M D unit :=
  match k with
  | O => ret tt
  | S k => c <- reads (λ _, str i);; serial_write c;;; write_loop k str (i + 1)
  end.
Definition serial_write_str (str : Z → option Z) (len : Z) : M D unit :=
  write_loop (Z.to_nat len) str 0.
End serial.

(** ** The console *)

(** The terminal emulator (flanterm). *)
Class Terminal (T : Type) := { flanterm_write : list Z → T → T }.

Section console.
Context {T : Type} `{!Terminal T}.

(** [ft_ctx], NULL before [console_init]. *)
Definition console_write_str (str : Z → option Z) (len : Z) : M (option T) unit := λ ft_ctx,
  match ft_ctx with
  | Some t =>
      match mapM (λ i, str (Z.of_nat i)) (seq 0 (Z.to_nat len)) with
      | Some l => Ok (tt, Some (flanterm_write l t))
      | None => Err Undef
      end
  | None => Ok (tt, None)
  end.
End console.

(** Running code that works on the second component of the state. *)
Definition on_snd {A C X} (m : M C X) : M (A * C) X := λ s,
  match m s.2 with Ok (x, c) => Ok (x, (s.1, c)) | Err f => Err f end.

(** ** [printf] *)
Section printf.
Context {D T : Type} `{!PortDevice D, !Terminal T}.

(** The serial line and the console. *)
Definition out_state : Type := D * option T.

Definition _putchar_callback (c : Z) : M (bytes * out_state) unit :=
  let str i := if i =? 0 then Some (u8 c) else None in
  on_snd (on_fst (serial_write_str str 1));;;
  on_snd (on_snd (console_write_str str 1)).

Definition printf (format : Z) (args : va_list) : M (bytes * out_state) Z :=
  npf_vpprintf _putchar_callback format args.
End printf.

(** ** What the devices promise *)

(** A UART: [sent] is what has gone over the line. While the transmitter is not empty the
    line status says so, and that ends; when it says empty, the next byte written to the
    data port is sent. *)
Class Uart (D : Type) `{!PortDevice D} := {
  sent : D → list Z;
  busy : D → nat;
  busy_limit : ∀ d, (busy d ≤ poll_limit)%nat;
  status_sent : ∀ d, sent (port_in (PORT + 5) d).2 = sent d;
  status_busy : ∀ d, Z.land (u8 (port_in (PORT + 5) d).1) 0x20 = 0 →
    (busy (port_in (PORT + 5) d).2 < busy d)%nat;
  data_sent : ∀ d b, Z.land (u8 (port_in (PORT + 5) d).1) 0x20 ≠ 0 → 0 ≤ b < 256 →
    sent (port_out PORT b (port_in (PORT + 5) d).2) = sent d ++ [b];
}.

(** A terminal: what has been written to it. *)
Class TerminalSpec (T : Type) `{!Terminal T} := {
  shown : T → list Z;
  write_shown : ∀ l t, shown (flanterm_write l t) = shown t ++ l;
}.

Section serial_spec.
Context {D : Type} `{!PortDevice D, !Uart D}.

Lemma wait_transmit fuel d :
  (busy d < fuel)%nat →
  ∃ d0, wait_for fuel is_transmit_empty d = Ok (tt, (port_in (PORT + 5) d0).2) ∧ sent d0 = sent d ∧
    Z.land (u8 (port_in (PORT + 5) d0).1) 0x20 ≠ 0.
Proof.
  revert d. induction fuel as [|fuel IH]; intros d Hf; [lia|]. cbn [wait_for].
  rewrite /is_transmit_empty /bind /inb. change (u16 (PORT + 5)) with (PORT + 5).
  pose proof (status_busy d) as Hb. pose proof (status_sent d) as Hs.
  destruct (port_in (PORT + 5) d) as [b d1] eqn:E. simpl in Hb, Hs. cbn [ret].
  destruct (Z.eqb_spec (Z.land (u8 b) 32) 0) as [E0|Hne].
  - destruct (IH d1) as (d0 & E1 & Hs0 & H0); [specialize (Hb E0); lia|].
    exists d0. split; [exact E1|]. split; [by rewrite Hs0|done].
  - exists d. by rewrite E.
Qed.

(** A byte written is a byte sent. *)
Lemma serial_write_ok a d :
  ∃ d', serial_write a d = Ok (tt, d') ∧ sent d' = sent d ++ [u8 a].
Proof.
  destruct (wait_transmit (S poll_limit) d) as (d0 & E & Hs & H0).
  { pose proof (busy_limit d). lia. }
  rewrite /serial_write /bind E /outb /modify. eexists. split; [reflexivity|].
  change (u16 PORT) with PORT. rewrite data_sent //; [by rewrite Hs|]. by apply Z.mod_pos_bound.
Qed.

(** The bytes of an object. *)
Definition object_holds (str : Z → option Z) (i : Z) (l : list Z) : Prop :=
  ∀ j b, l !! j = Some b → str (i + Z.of_nat j) = Some b.

Lemma object_holds_cons str i b l :
  object_holds str i (b :: l) → str i = Some b ∧ object_holds str (i + 1) l.
Proof.
  intros H. split; [rewrite -(H 0%nat b eq_refl); f_equal; lia|].
  intros j c Hj. rewrite -(H (S j) c Hj). f_equal. lia.
Qed.

Lemma write_loop_ok str l i d :
  object_holds str i l →
  ∃ d', write_loop (List.length l) str i d = Ok (tt, d') ∧ sent d' = sent d ++ (u8 <$> l).
Proof.
  revert i d. induction l as [|b l IH]; intros i d Hl.
  { exists d. by rewrite app_nil_r. }
  apply object_holds_cons in Hl as [Hi Hl]. cbn [List.length write_loop].
  destruct (serial_write_ok b d) as (d1 & E1 & Hs1). destruct (IH (i + 1) d1 Hl) as (d' & E & Hs).
  exists d'. rewrite /bind /reads Hi E1 E Hs Hs1 -app_assoc. done.
Qed.

Lemma serial_write_str_ok str l d :
  object_holds str 0 l →
  ∃ d', serial_write_str str (Z.of_nat (List.length l)) d = Ok (tt, d') ∧ sent d' = sent d ++ (u8 <$> l).
Proof. intros Hl. rewrite /serial_write_str Nat2Z.id. by apply write_loop_ok. Qed.

Lemma u8_bytes l : Forall is_byte l → u8 <$> l = l.
Proof. induction 1 as [|b l Hb _ IH]; [done|]. by rewrite fmap_cons IH u8_byte. Qed.
End serial_spec.

Section console_spec.
Context {T : Type} `{!Terminal T, !TerminalSpec T}.

(** What the console shows; nothing before it is there. *)
Definition console_shown (c : option T) : option (list Z) := shown <$> c.

Lemma object_read str l i :
  object_holds str (Z.of_nat i) l →
  mapM (λ j, str (Z.of_nat j)) (seq i (List.length l)) = Some l.
Proof.
  revert i. induction l as [|b l IH]; intros i Hl; [done|].
  apply object_holds_cons in Hl as [Hi Hl]. cbn [List.length seq mapM]. rewrite Hi /= IH //.
  by replace (Z.of_nat (S i)) with (Z.of_nat i + 1) by lia.
Qed.

Lemma console_write_str_ok str l c :
  object_holds str 0 l →
  ∃ c', console_write_str str (Z.of_nat (List.length l)) c = Ok (tt, c') ∧
    console_shown c' = (λ t, t ++ l) <$> console_shown c.
Proof.
  intros Hl. rewrite /console_write_str Nat2Z.id. destruct c as [t|]; [|by exists None].
  rewrite (object_read str l 0 Hl). eexists. split; [reflexivity|]. by rewrite /= write_shown.
Qed.
End console_spec.

Section printf_spec.
Context {D T : Type} `{!PortDevice D, !Uart D, !Terminal T, !TerminalSpec T}.

(** After [out] has been printed from the state [s0]. *)
Definition printed (m0 : bytes) (s0 : D * option T) (out : list Z) (s : bytes * (D * option T)) : Prop :=
  s.1 = m0 ∧ sent s.2.1 = sent s0.1 ++ out ∧
  console_shown s.2.2 = (λ t, t ++ out) <$> console_shown s0.2.

Lemma putchar_spec m0 s0 rd : rd ⊆ m0 → PutcSpec _putchar_callback rd (printed m0 s0).
Proof.
  intros Hrd. constructor; [intros out s [Hm _]; by rewrite Hm|].
  intros c out [m [d t]] (Hm & Hd & Ht). simpl in Hm, Hd, Ht. subst m.
  set str := λ i, if i =? 0 then Some (u8 c) else None.
  assert (object_holds str 0 [u8 c]) as Ho.
  { intros [|j] b Hj; [by injection Hj as <-|done]. }
  destruct (serial_write_str_ok str [u8 c] d Ho) as (d' & Ed & Hd').
  rewrite u8_bytes in Hd'; [|apply Forall_singleton; by apply Z.mod_pos_bound].
  destruct (console_write_str_ok str [u8 c] t Ho) as (t' & Et & Ht').
  rewrite /wp /_putchar_callback /bind /on_snd /on_fst /=. rewrite /str in Ed, Et. rewrite Ed Et /=.
  split; [done|]. split; simpl; [by rewrite Hd' Hd app_assoc|].
  rewrite Ht' Ht. destruct (console_shown s0.2); simpl; [by rewrite app_assoc|done].
Qed.

(** C33: [printf] sends exactly the text of its format over the serial line and shows it on
    the console (when there is one), leaves memory alone and returns the length of the text. *)
Theorem printf_correct (m0 : bytes) (d : D) (t : option T) rd format fmt args out :
  rd ⊆ m0 → cstring rd format fmt → format_ref rd fmt args = Some out →
  Z.of_nat (List.length out) < 2 ^ 31 →
  ∃ d' t', printf format args (m0, (d, t)) = Ok (Z.of_nat (List.length out), (m0, (d', t'))) ∧
    sent d' = sent d ++ out ∧ console_shown t' = (λ x, x ++ out) <$> console_shown t.
Proof.
  intros Hrd Hs Hr Hl. pose proof (putchar_spec m0 (d, t) rd Hrd) as Hpc.
  pose proof (npf_vpprintf_ok _putchar_callback rd _ format fmt args out (m0, (d, t)) Hs Hr Hl) as H.
  apply wp_run in H as (n & [m [d' t']] & E & -> & Hm & Hd & Ht).
  - simpl in Hm. subst m. by exists d', t'.
  - split; [done|]. split; simpl; [by rewrite app_nil_r|].
    destruct (console_shown t); simpl; [by rewrite app_nil_r|done].
Qed.
End printf_spec.

(** ** Devices of the examples: a UART that is busy for two polls after each byte, and a
    terminal that remembers what it was given. *)
Record demo_uart := mkUart { du_sent : list Z; du_wait : nat }.
Definition wait_bound (n : nat) : nat := Nat.min n 2.

#[export] Instance demo_uart_device : PortDevice demo_uart := {
  port_in p d := if p =? PORT + 5 then
                   match wait_bound (du_wait d) with
                   | O => (0x20, d)
                   | S n => (0, mkUart (du_sent d) n)
                   end
                 else (0, d);
  port_out p b d := if p =? PORT then mkUart (du_sent d ++ [b]) 2 else d;
  poll_limit := 2;
}.

#[export] Instance demo_uart_spec : Uart demo_uart.
Proof.
  refine {| sent := du_sent; busy d := wait_bound (du_wait d) |}.
  - intros d. simpl. rewrite /wait_bound. lia.
  - intros d. simpl. by destruct (wait_bound _).
  - intros d. simpl. destruct (wait_bound (du_wait d)) as [|n]; [done|]. simpl. rewrite /wait_bound. lia.
  - intros d b. simpl. by destruct (wait_bound _).
Defined.

#[export] Instance demo_terminal : Terminal (list Z) := { flanterm_write l t := t ++ l }.
#[export] Instance demo_terminal_spec : TerminalSpec (list Z).
Proof. by refine {| shown t := t |}. Defined.

Lemma printf_correct_witness :
  ∃ d' t', printf 0x100 [0x180; 2 ^ 64 - 42; 0xBEEF] (demo_rd, (mkUart (str "boot ") 1, Some ([] : list Z)))
    = Ok (17, (demo_rd, (d', t'))) ∧ sent d' = str "boot ok  |-0042|beef|%" ∧
    console_shown t' = Some (str "ok  |-0042|beef|%").
Proof.
  destruct (printf_correct demo_rd (mkUart (str "boot ") 1) (Some ([] : list Z)) demo_rd 0x100 demo_format
    [0x180; 2 ^ 64 - 42; 0xBEEF] (str "ok  |-0042|beef|%")) as (d' & t' & E & Hd & Ht).
  - reflexivity.
  - apply cstring_literal. vm_compute. reflexivity.
  - vm_compute. reflexivity.
  - vm_compute. reflexivity.
  - exists d', t'. split; [exact E|]. split; [exact Hd|exact Ht].
Defined.
