(* ===== verification/Logging.v ===== *)
(** * Log lines (common/logging.c)

    [log_line] formats a line into a static buffer of 1024 bytes under a lock and writes
    it to the serial line and, but for debug messages, to the console. *)

From Stdlib Require Import Ascii String.
From stdpp Require Import base gmap list numbers.
From S2P Require Import Prelude Spinlock Strings Npf NpfSpec NpfThms Serial.

(** ** Model *)

Definition LOG_BUFFER_DIM : Z := 1024.

Inductive logType := LOG_DEBUG | LOG_SUCCESS | LOG_WARN | LOG_ERROR.
#[export] Instance logType_eq_dec : EqDecision logType.
Proof. solve_decision. Defined.

Definition ESC : Z := 27.

(** What [log_labels] and [log_colors] point to. *)
Definition label_text (l : logType) : list Z :=
  match l with
  | LOG_DEBUG => str "DBG" | LOG_SUCCESS => str "OK" | LOG_WARN => str "WARN" | LOG_ERROR => str "ERR"
  end.
Definition color_text (l : logType) : list Z :=
  match l with
  | LOG_DEBUG => ESC :: str "[0m" | LOG_SUCCESS => ESC :: str "[32m"
  | LOG_WARN => ESC :: str "[33m" | LOG_ERROR => ESC :: str "[31m"
  end.

(** Where the linker put the static data. *)
Record log_statics := mkStatics {
  log_buffer : Z;
  log_labels : logType → Z;
  log_colors : logType → Z;
  lit_reset : Z;   (** the literal [\033[0m] *)
  lit_bracket : Z; (** the literal []\t] *)
}.

Section log.
Context (st : log_statics).

(** [[], the colour, the label, the colour reset and []\t]; returns [ptr]. *)
Definition log_prefix (logLevel : logType) : M bytes Z :=
  let ptr := log_buffer st in
  store ptr (ch "[");;;
  let ptr := ptr + 1 in
  strcpy ptr (log_colors st logLevel);;;
  n <- strlen (log_colors st logLevel);;
  let ptr := ptr + n in
  strcpy ptr (log_labels st logLevel);;;
  n <- strlen (log_labels st logLevel);;
  let ptr := ptr + n in
  strcpy ptr (lit_reset st);;;
  let ptr := ptr + 4 in
  strcpy ptr (lit_bracket st);;;
  ret (ptr + 2).

(** The line in the buffer; returns its length. *)
Definition log_format (logLevel : logType) (fmt : Z) (args : va_list) : M bytes Z :=
  ptr <- log_prefix logLevel;;
  let remaining := u64 (LOG_BUFFER_DIM - (ptr - log_buffer st) - 2) in
  written <- vsnprintf ptr remaining fmt args;;
  let ptr := ptr + written in
  store ptr 13;;;
  store (ptr + 1) 10;;;
  store (ptr + 2) 0;;;
  ret (ptr + 2 - log_buffer st).

Context {D T : Type} `{!PortDevice D, !Terminal T}.

Record log_state := mkLog {
  lg_mem : bytes;
  console_lock : spinlock_irq;
  lg_cpu : cpu;
  lg_serial : D;
  lg_console : option T;
}.

Definition log_line (logLevel : logType) (fmt : Z) (args : va_list) : M log_state unit := λ s,
  match spinlock_irq_acquire (console_lock s) (lg_cpu s) with
  | Err f => Err f
  | Ok (irq_flags, lk, c) =>
      let send_to_console := negb (bool_decide (logLevel = LOG_DEBUG)) in
      match log_format logLevel fmt args (lg_mem s) with
      | Err f => Err f
      | Ok (n, m) =>
          let line i := m !! (log_buffer st + i) in
          match serial_write_str line n (lg_serial s) with
          | Err f => Err f
          | Ok (_, d) =>
              match (if send_to_console then console_write_str line n (lg_console s)
                     else Ok (tt, lg_console s)) with
              | Err f => Err f
              | Ok (_, t) =>
                  let '(lk, c) := spinlock_irq_release lk irq_flags c in
                  Ok (tt, mkLog m lk c d t)
              end
          end
      end
  end.

(** ** Specification *)

Definition prefix_text (l : logType) : list Z :=
  [ch "["] ++ color_text l ++ label_text l ++ (ESC :: str "[0m") ++ (str "]" ++ [9]).
Definition line_text (l : logType) (out : list Z) : list Z := prefix_text l ++ out ++ [13; 10].

Lemma prefix_length l : (11 ≤ List.length (prefix_text l) ≤ 16)%nat.
Proof. destruct l; cbv; lia. Qed.

Lemma line_length l out :
  List.length (line_text l out) = (List.length (prefix_text l) + List.length out + 2)%nat.
Proof. rewrite /line_text. rewrite (length_app (prefix_text l)) (length_app out). cbn [List.length]. lia. Qed.

(** The static strings and the format are in [rd], apart from the buffer, which is mapped. *)
Record log_ready (m0 rd : bytes) : Prop := {
  lr_apart : apart m0 (log_buffer st) LOG_BUFFER_DIM rd;
  lr_addr : log_buffer st > 0;
  lr_colors : ∀ l, log_colors st l ≠ 0 ∧ cstring rd (log_colors st l) (color_text l);
  lr_labels : ∀ l, log_labels st l ≠ 0 ∧ cstring rd (log_labels st l) (label_text l);
  lr_reset : lit_reset st ≠ 0 ∧ cstring rd (lit_reset st) (ESC :: str "[0m");
  lr_bracket : lit_bracket st ≠ 0 ∧ cstring rd (lit_bracket st) (str "]" ++ [9]);
}.

(** The buffer starts with [P], and what is not in the buffer is as it was. *)
Definition logged (m0 : bytes) (P : list Z) (m : bytes) : Prop :=
  bytes_at m (log_buffer st) P ∧
  (∀ a, ¬ log_buffer st ≤ a < log_buffer st + LOG_BUFFER_DIM → m !! a = m0 !! a) ∧
  mapped m (log_buffer st) LOG_BUFFER_DIM.

Section format.
Context (m0 rd : bytes) (Hready : log_ready m0 rd).

Lemma logged_rd P m : logged m0 P m → rd ⊆ m.
Proof.
  intros (_ & Hout & _). destruct (lr_apart _ _ Hready) as (_ & _ & Hrd & Hap).
  apply map_subseteq_spec. intros a b Ha. rewrite Hout; [by apply (lookup_weaken rd)|].
  intros Hin. by rewrite Hap in Ha.
Qed.

(** Appending to what is in the buffer; what is written beyond [l1] is not counted. *)
Lemma logged_write P m l1 l2 :
  logged m0 P m → Z.of_nat (List.length P + List.length (l1 ++ l2)) ≤ LOG_BUFFER_DIM →
  logged m0 (P ++ l1) (write_bytes (log_buffer st + Z.of_nat (List.length P)) (l1 ++ l2) m).
Proof.
  intros (HP & Hout & Hm) Hl. split; [|split].
  - intros i b Hi. rewrite write_bytes_lookup. apply lookup_app_Some in Hi as [Hi|[Hge Hi]].
    + pose proof (lookup_lt_Some _ _ _ Hi). rewrite decide_False; [by apply HP|lia].
    + pose proof (lookup_lt_Some _ _ _ Hi). rewrite length_app in Hl |- *.
      rewrite decide_True; [|lia]. rewrite lookup_app_l; [|lia].
      rewrite -Hi. f_equal. lia.
  - intros a Ha. rewrite write_bytes_lookup decide_False; [by apply Hout|lia].
  - by apply write_bytes_mapped.
Qed.

Lemma cstring_apart p l dest :
  cstring rd p l → rd !! dest = None → dest ≤ p ∨ p + Z.of_nat (List.length l) + 1 ≤ dest.
Proof.
  intros [Hb _] Hd. destruct (decide (dest ≤ p)); [by left|]. right.
  destruct (decide (p + Z.of_nat (List.length l) + 1 ≤ dest)); [done|]. exfalso.
  destruct (lookup_lt_is_Some_2 (l ++ [0]) (Z.to_nat (dest - p))) as [b Hi].
  { rewrite length_app /=. lia. }
  apply Hb in Hi. replace (p + Z.of_nat (Z.to_nat (dest - p))) with dest in Hi by lia. congruence.
Qed.

(** [strcpy] of a static string to the end of the line. *)
Lemma logged_strcpy P m p l :
  logged m0 P m → p ≠ 0 → cstring rd p l →
  Z.of_nat (List.length P + List.length l) < LOG_BUFFER_DIM →
  ∃ m', strcpy (log_buffer st + Z.of_nat (List.length P)) p m =
      Ok (log_buffer st + Z.of_nat (List.length P), m') ∧ logged m0 (P ++ l) m'.
Proof.
  intros HP Hp Hc Hl. pose proof (logged_rd _ _ HP) as Hrd.
  pose proof (cstring_weaken rd m p l Hrd Hc) as Hcm. destruct HP as (HP & Hout & Hm).
  destruct (strcpy_ok m (log_buffer st + Z.of_nat (List.length P)) p l) as [E _]; [done|done| | | |].
  - rewrite /LOG_BUFFER_DIM in Hl. lia.
  - eapply mapped_sub; [exact Hm|lia|]. lia.
  - apply cstring_apart; [done|]. apply (lr_apart _ _ Hready). rewrite /LOG_BUFFER_DIM in Hl |- *. lia.
  - eexists. split; [exact E|]. apply logged_write; [by split|]. rewrite length_app /=. lia.
Qed.

Lemma strlen_static P m p l :
  logged m0 P m → p ≠ 0 → cstring rd p l → (List.length l < 100)%nat →
  strlen p m = Ok (Z.of_nat (List.length l), m).
Proof.
  intros HP Hp Hc Hl. apply strlen_ok; [done| |lia].
  apply (cstring_weaken rd); [by apply (logged_rd P)|done].
Qed.

Lemma logged_store P m b :
  logged m0 P m → Z.of_nat (List.length P) < LOG_BUFFER_DIM →
  ∃ m', store (log_buffer st + Z.of_nat (List.length P)) b m = Ok (tt, m') ∧ logged m0 (P ++ [b]) m'.
Proof.
  intros HP Hl. pose proof HP as (_ & _ & Hm). eexists. split.
  - apply store_ok, Hm. lia.
  - apply (logged_write P m [b] []); [done|]. simpl. lia.
Qed.

Lemma log_prefix_ok lvl :
  ∃ m, log_prefix lvl m0 = Ok (log_buffer st + Z.of_nat (List.length (prefix_text lvl)), m) ∧
    logged m0 (prefix_text lvl) m.
Proof.
  assert (logged m0 [] m0) as H0.
  { split; [by intros i b Hi|]. split; [done|]. apply (lr_apart _ _ Hready). }
  destruct (lr_colors _ _ Hready lvl) as [Hc0 Hc]. destruct (lr_labels _ _ Hready lvl) as [Hl0 Hl].
  destruct (lr_reset _ _ Hready) as [Hr0 Hr]. destruct (lr_bracket _ _ Hready) as [Hb0 Hb].
  assert (Z.of_nat (List.length (prefix_text lvl)) < LOG_BUFFER_DIM) as Hlen.
  { pose proof (prefix_length lvl). rewrite /LOG_BUFFER_DIM. lia. }
  assert (List.length (color_text lvl) < 100 ∧ List.length (label_text lvl) < 100)%nat as [Hlc Hll]
    by (destruct lvl; cbv; lia).
  rewrite /prefix_text in Hlen |- *. rewrite /log_prefix /bind.
  destruct (logged_store [] m0 (ch "[") H0) as (m1 & E1 & H1); [done|]. rewrite Z.add_0_r in E1. rewrite E1.
  rewrite !length_app in Hlen. cbn [app] in H1.
  destruct (logged_strcpy _ m1 _ _ H1 Hc0 Hc) as (m2 & E2 & H2).
  { clear -Hlen. cbn [List.length] in *. lia. }
  change (Z.of_nat (List.length [ch "["])) with 1 in E2. rewrite E2.
  rewrite (strlen_static _ _ _ _ H2 Hc0 Hc Hlc).
  destruct (logged_strcpy _ m2 _ _ H2 Hl0 Hl) as (m3 & E3 & H3).
  { rewrite length_app. clear -Hlen. cbn [List.length] in *. lia. }
  rewrite length_app Nat2Z.inj_add Z.add_assoc in E3.
  change (Z.of_nat (List.length [ch "["])) with 1 in E3. rewrite E3.
  rewrite (strlen_static _ _ _ _ H3 Hl0 Hl Hll).
  destruct (logged_strcpy _ m3 _ _ H3 Hr0 Hr) as (m4 & E4 & H4).
  { rewrite !length_app. clear -Hlen. cbn [List.length] in *. lia. }
  rewrite !length_app !Nat2Z.inj_add !Z.add_assoc in E4.
  change (Z.of_nat (List.length [ch "["])) with 1 in E4. rewrite E4.
  destruct (logged_strcpy _ m4 _ _ H4 Hb0 Hb) as (m5 & E5 & H5).
  { rewrite !length_app. clear -Hlen. cbn [List.length] in *. lia. }
  rewrite !length_app !Nat2Z.inj_add !Z.add_assoc in E5.
  change (Z.of_nat (List.length [ch "["])) with 1 in E5.
  change (Z.of_nat (List.length (ESC :: str "[0m"))) with 4 in E5. rewrite E5.
  exists m5. split; [|by rewrite -!app_assoc in H5].
  rewrite /ret !length_app !Nat2Z.inj_add. do 2 f_equal.
  change (Z.of_nat (List.length [ch "["])) with 1.
  change (Z.of_nat (List.length (ESC :: str "[0m"))) with 4.
  change (Z.of_nat (List.length (str "]")) + Z.of_nat (List.length [9])) with 2. lia.
Qed.

(** The message, as much of it as [vsnprintf] has room for. *)
Lemma log_message_ok P m fmt_p fmt args out :
  logged m0 P m → (List.length P ≤ 16)%nat → cstring rd fmt_p fmt → format_ref rd fmt args = Some out →
  Z.of_nat (List.length out) < 2 ^ 31 →
  let ptr := log_buffer st + Z.of_nat (List.length P) in
  let remaining := LOG_BUFFER_DIM - Z.of_nat (List.length P) - 2 in
  ∃ m', vsnprintf ptr remaining fmt_p args m = Ok (Z.of_nat (List.length out), m') ∧
    logged m0 (P ++ take (Z.to_nat (remaining - 1)) out) m' ∧
    (∀ a, ¬ ptr ≤ a < ptr + remaining → m' !! a = m !! a).
Proof.
  intros HP Hl Hs Hr Hlen ptr remaining. pose proof (logged_rd _ _ HP) as Hrd.
  pose proof (lr_apart _ _ Hready) as (_ & _ & _ & Hap). pose proof HP as (HPb & Hout & Hm).
  assert (1006 ≤ remaining ∧ remaining ≤ 1022) as Hrem by (rewrite /remaining /LOG_BUFFER_DIM; lia).
  pose proof (lr_addr _ _ Hready) as Hpos.
  assert (apart m ptr remaining rd) as Hapart.
  { split; [lia|]. split; [|split; [done|]].
    - eapply mapped_sub; [exact Hm|lia|]. rewrite /ptr /remaining. lia.
    - intros a Ha. apply Hap. rewrite /ptr /remaining in Ha. lia. }
  eexists. split; [|split].
  - by apply (vsnprintf_ok m ptr remaining rd fmt_p fmt); [rewrite /ptr; lia|..].
  - rewrite /sn_result (proj2 (Z.eqb_neq remaining 0)); [|lia].
    assert (Z.of_nat (List.length P + List.length (take (Z.to_nat remaining) out)) ≤ LOG_BUFFER_DIM) as Hl1.
    { rewrite length_take /remaining. lia. }
    apply logged_write.
    + pose proof (logged_write P m [] (take (Z.to_nat remaining) out) HP Hl1) as Hw. by rewrite app_nil_r in Hw.
    + rewrite length_app length_take /= /remaining. lia.
  - intros a Ha. apply sn_result_outside; [lia|done].
Qed.

(** A message that fits. *)
Lemma log_format_ok lvl fmt_p fmt args out :
  cstring rd fmt_p fmt → format_ref rd fmt args = Some out →
  Z.of_nat (List.length (line_text lvl out)) < LOG_BUFFER_DIM →
  ∃ m, log_format lvl fmt_p args m0 = Ok (Z.of_nat (List.length (line_text lvl out)), m) ∧
    logged m0 (line_text lvl out) m.
Proof.
  intros Hs Hr Hlen. rewrite line_length /LOG_BUFFER_DIM in Hlen.
  destruct (log_prefix_ok lvl) as (m1 & E1 & H1). pose proof (prefix_length lvl) as Hp.
  rewrite /log_format /bind E1. set ptr := log_buffer st + _.
  rewrite (_ : u64 _ = LOG_BUFFER_DIM - Z.of_nat (List.length (prefix_text lvl)) - 2); [|
    rewrite u64_small /ptr /LOG_BUFFER_DIM; lia].
  destruct (log_message_ok (prefix_text lvl) m1 fmt_p fmt args out H1) as (m2 & E2 & H2 & _);
    [lia|done|done|lia|]. fold ptr in E2. rewrite E2.
  rewrite take_ge in H2; [|rewrite /LOG_BUFFER_DIM; lia].
  remember (prefix_text lvl ++ out) as P eqn:EP.
  assert (ptr + Z.of_nat (List.length out) = log_buffer st + Z.of_nat (List.length P)) as ->.
  { rewrite /ptr EP length_app. lia. }
  assert (Z.of_nat (List.length P) + 2 < LOG_BUFFER_DIM) as HP.
  { rewrite EP length_app /LOG_BUFFER_DIM. lia. }
  destruct (logged_store P m2 13 H2) as (m3 & E3 & H3); [lia|]. rewrite E3.
  destruct (logged_store _ m3 10 H3) as (m4 & E4 & H4); [rewrite length_app /=; lia|].
  rewrite length_app /= Nat2Z.inj_add in E4.
  rewrite (_ : log_buffer st + Z.of_nat (List.length P) + 1 =
    log_buffer st + (Z.of_nat (List.length P) + Z.of_nat 1)); [|lia]. rewrite E4.
  destruct (logged_store _ m4 0 H4) as (m5 & E5 & H5); [rewrite !length_app /=; lia|].
  rewrite !length_app /= !Nat2Z.inj_add in E5.
  rewrite (_ : log_buffer st + Z.of_nat (List.length P) + 2 =
    log_buffer st + (Z.of_nat (List.length P) + Z.of_nat 1 + Z.of_nat 1)); [|lia]. rewrite E5 /ret.
  exists m5. split.
  - do 2 f_equal. rewrite line_length EP length_app. lia.
  - destruct H5 as (Hb & Ho & Hm). split; [|done]. intros i b Hi. apply Hb.
    rewrite /line_text app_assoc -EP in Hi. apply lookup_app_l_Some. by rewrite -app_assoc.
Qed.

(** A message that does not fit: the zero at the end of the line is written past the end of
    the buffer. *)
Lemma log_format_overrun lvl fmt_p fmt args out :
  cstring rd fmt_p fmt → format_ref rd fmt args = Some out →
  LOG_BUFFER_DIM ≤ Z.of_nat (List.length (line_text lvl out)) < 2 ^ 31 →
  mapped m0 (log_buffer st) (Z.of_nat (List.length (line_text lvl out)) + 1) →
  ∃ m, log_format lvl fmt_p args m0 = Ok (Z.of_nat (List.length (line_text lvl out)), m) ∧
    m !! (log_buffer st + Z.of_nat (List.length (line_text lvl out))) = Some 0 ∧
    mapped m (log_buffer st) (Z.of_nat (List.length (line_text lvl out))).
Proof.
  intros Hs Hr Hlen Hmap. rewrite line_length in Hlen, Hmap |- *.
  destruct (log_prefix_ok lvl) as (m1 & E1 & H1). pose proof (prefix_length lvl) as Hp.
  rewrite /log_format /bind E1. set ptr := log_buffer st + _.
  rewrite (_ : u64 _ = LOG_BUFFER_DIM - Z.of_nat (List.length (prefix_text lvl)) - 2); [|
    rewrite u64_small /ptr /LOG_BUFFER_DIM; lia].
  destruct (log_message_ok (prefix_text lvl) m1 fmt_p fmt args out H1) as (m2 & E2 & H2 & _);
    [lia|done|done|lia|]. fold ptr in E2. rewrite E2.
  set n := Z.of_nat (List.length out).
  assert (mapped m2 (log_buffer st) (Z.of_nat (List.length (prefix_text lvl) + List.length out + 2) + 1)) as Hm2.
  { intros a Ha. destruct H2 as (_ & Ho & Hm2).
    destruct (decide (log_buffer st ≤ a < log_buffer st + LOG_BUFFER_DIM)); [by apply Hm2|].
    rewrite Ho //. by apply Hmap. }
  assert (∀ a b, mapped (<[a := b]> m2) (log_buffer st)
    (Z.of_nat (List.length (prefix_text lvl) + List.length out + 2) + 1)) as Hm3 by (intros; by apply mapped_insert).
  rewrite store_ok; [|apply Hm2; rewrite /ptr /n; lia].
  rewrite store_ok; [|apply Hm3; rewrite /ptr /n; lia].
  rewrite store_ok; [|apply (mapped_insert _ _ _ _ _ (Hm3 _ _)); rewrite /ptr /n; lia].
  eexists. split; [rewrite /ret; do 2 f_equal; rewrite /ptr /n; lia|]. split.
  - rewrite (_ : log_buffer st + _ = ptr + n + 2); [|rewrite /ptr /n; lia]. by rewrite lookup_insert_eq.
  - do 2 apply mapped_insert. eapply mapped_sub; [apply Hm3|lia|lia].
Qed.
End format.

(** ** Theorems *)

Context `{!Uart D, !TerminalSpec T}.

(** What [log_line] does to everything but memory, given what it does to memory. *)
Lemma log_line_ok lvl fmt_p args s n m :
  lock_free (console_lock s) → log_format lvl fmt_p args (lg_mem s) = Ok (n, m) →
  0 ≤ n → mapped m (log_buffer st) n →
  ∃ s', log_line lvl fmt_p args s = Ok (tt, s') ∧ lg_mem s' = m ∧
    lock_free (console_lock s') ∧ lg_cpu s' = lg_cpu s ∧
    ∀ l, bytes_at m (log_buffer st) l → Z.of_nat (List.length l) = n →
      sent (lg_serial s') = sent (lg_serial s) ++ (u8 <$> l) ∧
      console_shown (lg_console s') =
        if bool_decide (lvl = LOG_DEBUG) then console_shown (lg_console s)
        else (λ t, t ++ l) <$> console_shown (lg_console s).
Proof.
  intros Hlk Ef Hn Hm. rewrite /log_line.
  destruct (spinlock_acquire_free (console_lock s) (lg_cpu s) Hlk) as (lk & c & -> & Hheld & _).
  rewrite Ef. destruct (spinlock_release_held lk (rflags (lg_cpu s)) c Hheld) as (lk' & Erel & Hfree).
  assert (∃ l, bytes_at m (log_buffer st) l ∧ Z.of_nat (List.length l) = n) as (l & Hl & Hln).
  { exists ((λ i, default 0 (m !! (log_buffer st + Z.of_nat i))) <$> seq 0 (Z.to_nat n)).
    split; [|rewrite length_fmap length_seq; lia]. intros i b Hi.
    apply list_lookup_fmap_Some in Hi as (j & -> & Hj). apply lookup_seq in Hj as [-> Hj].
    destruct (Hm (log_buffer st + Z.of_nat i)) as [x Hx]; [lia|]. simpl. by rewrite Hx. }
  assert (∀ l', bytes_at m (log_buffer st) l' → Z.of_nat (List.length l') = n → l' = l) as Huniq.
  { intros l' Hl' Hln'. apply (list_eq_same_length _ _ (Z.to_nat n)); [lia|lia|].
    intros i x y Hi Hx Hy. apply Hl' in Hx. apply Hl in Hy. congruence. }
  assert (object_holds (λ i, m !! (log_buffer st + i)) 0 l) as Hobj.
  { intros j b Hj. rewrite Z.add_0_l. by apply Hl. }
  destruct (serial_write_str_ok _ l (lg_serial s) Hobj) as (d & Ed & Hd). rewrite Hln in Ed. rewrite Ed.
  destruct (console_write_str_ok _ l (lg_console s) Hobj) as (t & Et & Ht). rewrite Hln in Et.
  assert (mkCpu (rflags (lg_cpu s)) = lg_cpu s) as Ecpu by by destruct (lg_cpu s).
  case_bool_decide as Hlvl; cbn [negb]; [|rewrite Et]; rewrite Erel;
    (eexists; split; [reflexivity|]; split; [done|]; split; [exact Hfree|]; split; [done|];
     intros l' Hl' Hln'; rewrite (Huniq l' Hl' Hln'); done).
Qed.

Lemma prefix_bytes lvl : Forall is_byte (prefix_text lvl).
Proof. destruct lvl; apply (bool_decide_unpack _); vm_compute; exact I. Qed.

Lemma logged_line m0 P m : logged m0 P m → bytes_at m (log_buffer st) P.
Proof. by intros [? _]. Qed.

(** C34: A log line whose text fits the buffer is sent over the serial line (label, message
    and line end), shown on the console unless it is a debug message, and nothing else
    happens: memory outside the buffer is as before, the lock is free again and the
    interrupt flag is restored. *)
Theorem log_line_correct lvl fmt_p fmt args out rd (s : log_state) :
  log_ready (lg_mem s) rd → lock_free (console_lock s) →
  cstring rd fmt_p fmt → format_ref rd fmt args = Some out →
  Z.of_nat (List.length (line_text lvl out)) < LOG_BUFFER_DIM →
  ∃ s', log_line lvl fmt_p args s = Ok (tt, s') ∧
    sent (lg_serial s') = sent (lg_serial s) ++ line_text lvl out ∧
    console_shown (lg_console s') =
      (if bool_decide (lvl = LOG_DEBUG) then console_shown (lg_console s)
       else (λ t, t ++ line_text lvl out) <$> console_shown (lg_console s)) ∧
    (∀ a, ¬ log_buffer st ≤ a < log_buffer st + LOG_BUFFER_DIM → lg_mem s' !! a = lg_mem s !! a) ∧
    lock_free (console_lock s') ∧ lg_cpu s' = lg_cpu s.
Proof.
  intros Hready Hlk Hs Hr Hlen.
  destruct (log_format_ok (lg_mem s) rd Hready lvl fmt_p fmt args out Hs Hr Hlen) as (m & Ef & Hlog).
  pose proof Hlog as (Hb & Hout & Hm).
  destruct (log_line_ok lvl fmt_p args s _ m Hlk Ef) as (s' & E & Hmem & Hfree & Hcpu & Hsent); [lia| |].
  { eapply mapped_sub; [exact Hm|lia|lia]. }
  destruct (Hsent _ Hb eq_refl) as [H1 H2]. rewrite u8_bytes in H1.
  2:{ apply Forall_app. split; [apply prefix_bytes|]. apply Forall_app.
      split; [|apply (bool_decide_unpack _); vm_compute; exact I].
      apply (render_bytes (List.length fmt) rd fmt args); [apply Hs|done]. }
  exists s'. rewrite Hmem. exact (conj E (conj H1 (conj H2 (conj Hout (conj Hfree Hcpu))))).
Qed.

(** A log line that does not fit is not cut off: [ptr += written] uses the length the
    message would have had, so that the line end is written outside the buffer; the byte
    at the offset of the length of the line, which is 1024 or more, becomes zero. *)
Lemma log_line_overruns lvl fmt_p fmt args out rd (s : log_state) :
  log_ready (lg_mem s) rd → lock_free (console_lock s) →
  cstring rd fmt_p fmt → format_ref rd fmt args = Some out →
  let n := Z.of_nat (List.length (line_text lvl out)) in
  LOG_BUFFER_DIM ≤ n < 2 ^ 31 → mapped (lg_mem s) (log_buffer st) (n + 1) →
  ∃ s', log_line lvl fmt_p args s = Ok (tt, s') ∧ lg_mem s' !! (log_buffer st + n) = Some 0.
Proof.
  intros Hready Hlk Hs Hr n Hlen Hmap.
  destruct (log_format_overrun (lg_mem s) rd Hready lvl fmt_p fmt args out Hs Hr Hlen Hmap)
    as (m & Ef & Hz & Hm).
  destruct (log_line_ok lvl fmt_p args s _ m Hlk Ef) as (s' & E & Hmem & _); [lia|done|].
  exists s'. rewrite Hmem. done.
Qed.
End log.

(** ** A machine *)

Definition demo_statics : log_statics :=
  mkStatics 0x1000 (λ l, match l with LOG_DEBUG => 0x400 | LOG_SUCCESS => 0x408 | LOG_WARN => 0x410 | LOG_ERROR => 0x418 end)
    (λ l, match l with LOG_DEBUG => 0x420 | LOG_SUCCESS => 0x428 | LOG_WARN => 0x430 | LOG_ERROR => 0x438 end)
    0x440 0x448.

(** The static strings, and [msg] at 0x500. *)
Definition statics_rd (msg : list Z) : bytes :=
  foldr (λ l m, write_bytes (log_labels demo_statics l) (label_text l ++ [0])
                  (write_bytes (log_colors demo_statics l) (color_text l ++ [0]) m))
    (write_bytes 0x440 ((ESC :: str "[0m") ++ [0]) (write_bytes 0x448 ((str "]" ++ [9]) ++ [0])
       (write_bytes 0x500 (msg ++ [0]) ∅)))
    [LOG_DEBUG; LOG_SUCCESS; LOG_WARN; LOG_ERROR].
Definition demo_log (msg : list Z) (n : nat) : log_state (D := demo_uart) (T := list Z) :=
  mkLog (write_bytes 0x1000 (replicate n 170) (statics_rd msg)) SPINLOCK_IRQ_INIT (mkCpu 0x202)
    (mkUart [] 0) (Some []).

Lemma statics_none msg a : (List.length msg < 2000)%nat → 0x1000 ≤ a → statics_rd msg !! a = None.
Proof.
  intros Hm Ha. cbn [statics_rd foldr]. rewrite !write_bytes_lookup.
  repeat (rewrite decide_False; [|cbn; lia]). rewrite decide_False; [done|]. rewrite length_app /=. lia.
Qed.

(** A string at an address, checked. *)
Definition cstring_check (m : bytes) (p : Z) (l : list Z) : bool :=
  forallb (λ i, bool_decide (m !! (p + Z.of_nat i) = (l ++ [0]) !! i)) (seq 0 (S (List.length l)))
  && forallb (λ b, (0 <? b) && (b <? 256)) l.

Lemma cstring_checked m p l : cstring_check m p l = true → cstring m p l.
Proof.
  intros [H1 H2]%andb_true_iff. split.
  - intros i b Hi. rewrite forallb_forall in H1. rewrite -Hi. eapply bool_decide_eq_true, H1, in_seq.
    apply lookup_lt_Some in Hi. rewrite length_app /= in Hi. lia.
  - apply Forall_forall. intros b Hb. rewrite forallb_forall in H2. specialize (H2 b).
    rewrite -list_elem_of_In in H2. specialize (H2 Hb). lia.
Qed.

Lemma demo_log_mapped msg n k : k ≤ Z.of_nat n → mapped (lg_mem (demo_log msg n)) 0x1000 k.
Proof.
  intros Hk a Ha. cbn [lg_mem demo_log]. rewrite write_bytes_lookup length_replicate decide_True; [|lia].
  apply lookup_lt_is_Some. rewrite length_replicate. lia.
Qed.

Lemma demo_ready msg n :
  (List.length msg < 2000)%nat → (1024 ≤ n)%nat →
  cstring_check (statics_rd msg) 0x440 (ESC :: str "[0m") = true →
  cstring_check (statics_rd msg) 0x448 (str "]" ++ [9]) = true →
  forallb (λ l, cstring_check (statics_rd msg) (log_labels demo_statics l) (label_text l) &&
    cstring_check (statics_rd msg) (log_colors demo_statics l) (color_text l))
    [LOG_DEBUG; LOG_SUCCESS; LOG_WARN; LOG_ERROR] = true →
  log_ready demo_statics (lg_mem (demo_log msg n)) (statics_rd msg).
Proof.
  intros Hmsg Hn H1 H2 H3.
  assert (∀ l, cstring (statics_rd msg) (log_labels demo_statics l) (label_text l) ∧
    cstring (statics_rd msg) (log_colors demo_statics l) (color_text l)) as H4.
  { intros l. rewrite forallb_forall in H3. specialize (H3 l ltac:(destruct l; simpl; auto 6)).
    apply andb_true_iff in H3 as [? ?]. by split; apply cstring_checked. }
  pose proof (λ a, statics_none msg a Hmsg) as Hnone. constructor.
  - split; [done|]. split; [|split; [|intros a [Ha _]; by apply Hnone]].
    + apply demo_log_mapped. rewrite /LOG_BUFFER_DIM. lia.
    + apply map_subseteq_spec. intros a b Ha. rewrite /= write_bytes_lookup decide_False; [done|].
      intros [H _]. by rewrite Hnone in Ha.
  - done.
  - intros l. split; [by destruct l|]. apply H4.
  - intros l. split; [by destruct l|]. apply H4.
  - split; [done|]. by apply cstring_checked.
  - split; [done|]. by apply cstring_checked.
Qed.

Definition short_message : list Z := str "pid %d".

Lemma log_line_correct_witness :
  ∃ s', log_line demo_statics LOG_WARN 0x500 [7] (demo_log short_message 1024) = Ok (tt, s') ∧
    sent (lg_serial s') = [91; 27] ++ str "[33mWARN" ++ [27] ++ str "[0m]" ++ [9] ++ str "pid 7" ++ [13; 10].
Proof.
  destruct (log_line_correct demo_statics LOG_WARN 0x500 short_message [7] (str "pid 7")
    (statics_rd short_message) (demo_log short_message 1024)) as (s' & E & H & _).
  - apply demo_ready; [cbv; lia|lia|vm_compute; reflexivity..].
  - split; [reflexivity|done].
  - apply cstring_checked. vm_compute. reflexivity.
  - vm_compute. reflexivity.
  - vm_compute. reflexivity.
  - exists s'. split; [exact E|exact H].
Defined.

(** 1012 characters. *)
Definition long_message : list Z := replicate 1012 (ch "x").

Lemma log_line_overruns_witness :
  ∃ s', log_line demo_statics LOG_DEBUG 0x500 [] (demo_log long_message 1100) = Ok (tt, s') ∧
    lg_mem (demo_log long_message 1100) !! (0x1000 + 1028) = Some 170 ∧
    lg_mem s' !! (0x1000 + 1028) = Some 0.
Proof.
  destruct (log_line_overruns demo_statics LOG_DEBUG 0x500 long_message [] long_message
    (statics_rd long_message) (demo_log long_message 1100)) as (s' & E & H).
  - apply demo_ready; [rewrite length_replicate; lia|lia|vm_compute; reflexivity..].
  - split; [reflexivity|done].
  - apply cstring_checked. vm_compute. reflexivity.
  - vm_compute. reflexivity.
  - vm_compute. split; [intros Hc; discriminate Hc|reflexivity].
  - apply demo_log_mapped. vm_compute. intros Hc. discriminate Hc.
  - exists s'. split; [exact E|]. split; [vm_compute; reflexivity|exact H].
Defined.
