(* ===== verification/Descriptors.v ===== *)
(** * Descriptor tables (memory/gdt/gdt.c, memory/gdt/gdtLoad.asm, interrupts/idt.c,
      interrupts/idtLoad.asm)

    The segment descriptors and the interrupt gates the kernel builds, the registers it
    loads, and the fields the processor reads back from them. *)

From stdpp Require Import base gmap list numbers.
From S2P Require Import Prelude.

(** ** The processor's side *)

(** The descriptor registers and the segment registers. *)
Record table_reg := mkTable { tr_size : Z; tr_offset : Z }.
Record seg_regs := mkSegs { cs : Z; ds : Z; es : Z; fs : Z; gs : Z; ss : Z }.

Record idt_descriptor := mkGate {
  offset_1 : Z;
  segment_selector : Z;
  ist : Z;
  flags : Z;
  offset_2 : Z;
  offset_3 : Z;
  reserved : Z;
}.

(** The static tables and the registers. *)
Record dt_state := mkDt {
  gdt_table : list Z;
  idt : list idt_descriptor;
  gdtr : table_reg;
  idtr : table_reg;
  segs : seg_regs;
  if_enabled : bool;  (** the interrupt flag *)
}.

(** ** Segment descriptors *)

Definition GDT_NUM_ENTRIES : nat := 5.
Definition GDT_KERNEL_CS : Z := 1.
Definition GDT_KERNEL_DS : Z := 2.
Definition GDT_USER_CS : Z := 3.
Definition GDT_USER_DS : Z := 4.

Definition SEG_DESCTYPE (x : Z) : Z := Z.shiftl x 0x04.
Definition SEG_PRES (x : Z) : Z := Z.shiftl x 0x07.
Definition SEG_SAVL (x : Z) : Z := Z.shiftl x 0x0C.
Definition SEG_LONG (x : Z) : Z := Z.shiftl x 0x0D.
Definition SEG_SIZE (x : Z) : Z := Z.shiftl x 0x0E.
Definition SEG_GRAN (x : Z) : Z := Z.shiftl x 0x0F.
Definition SEG_PRIV (x : Z) : Z := Z.shiftl (Z.land x 0x03) 0x05.
Definition SEG_DATA_RDWR : Z := 0x02.
Definition SEG_CODE_EXRD : Z := 0x0A.

Definition seg_flags_of (long priv type : Z) : Z :=
  Z.lor (Z.lor (Z.lor (Z.lor (Z.lor (Z.lor (Z.lor (SEG_DESCTYPE 1) (SEG_PRES 1)) (SEG_SAVL 0))
    (SEG_LONG long)) (SEG_SIZE 0)) (SEG_GRAN 1)) (SEG_PRIV priv)) type.
Definition GDT_CODE_PL0 : Z := seg_flags_of 1 0 SEG_CODE_EXRD.
Definition GDT_DATA_PL0 : Z := seg_flags_of 0 0 SEG_DATA_RDWR.
Definition GDT_CODE_PL3 : Z := seg_flags_of 1 3 SEG_CODE_EXRD.
Definition GDT_DATA_PL3 : Z := seg_flags_of 0 3 SEG_DATA_RDWR.

Definition gdt_create_descriptor (base limit flag : Z) : Z :=
  let descriptor := Z.land limit 0x000F0000 in
  let descriptor := Z.lor descriptor (Z.land (Z.shiftl flag 8) 0x00F0FF00) in
  let descriptor := Z.lor descriptor (Z.land (Z.shiftr base 16) 0x000000FF) in
  let descriptor := Z.lor descriptor (Z.land base 0xFF000000) in
  let descriptor := u64 (Z.shiftl descriptor 32) in
  let descriptor := Z.lor descriptor (u32 (Z.shiftl base 16)) in
  Z.lor descriptor (Z.land limit 0x0000FFFF).

(** [cli; lgdt; far return to 0x08; data segments 0x10]. *)
Definition gdt_load (r : table_reg) : M dt_state unit :=
  modify (λ s, mkDt (gdt_table s) (idt s) r (idtr s) (mkSegs 0x08 0x10 0x10 0x10 0x10 0x10) false).

(** A store to [gdt_table[i]]. *)
Definition gdt_set (i d : Z) : M dt_state unit := λ s,
  if (0 <=? i) && (i <? Z.of_nat (length (gdt_table s)))
  then Ok (tt, mkDt (<[Z.to_nat i := d]> (gdt_table s)) (idt s) (gdtr s) (idtr s) (segs s) (if_enabled s))
  else Err Undef.

(** [gdt_addr] is the address of [gdt_table]. *)
Definition gdt_init (gdt_addr : Z) : M dt_state unit :=
  gdt_set 0 0;;;
  gdt_set GDT_KERNEL_CS (gdt_create_descriptor 0 0 GDT_CODE_PL0);;;
  gdt_set GDT_KERNEL_DS (gdt_create_descriptor 0 0 GDT_DATA_PL0);;;
  gdt_set GDT_USER_CS (gdt_create_descriptor 0 0 GDT_CODE_PL3);;;
  gdt_set GDT_USER_DS (gdt_create_descriptor 0 0 GDT_DATA_PL3);;;
  size <- gets (λ s, 8 * Z.of_nat (length (gdt_table s)));;
  gdt_load (mkTable (u16 (size - 1)) gdt_addr).

(** ** Interrupt gates *)

Definition IDT_NUM_ENTRIES : nat := 256.
Definition IDT_GATE_INTERRUPT_TYPE : Z := 14.

Definition idt_set_descriptor (vector isr fl : Z) : M dt_state unit := λ s,
  let v := Z.to_nat (u8 vector) in
  match idt s !! v with
  | None => Err Undef
  | Some d =>
      let d := mkGate (Z.land isr 0xffff) (u16 (GDT_KERNEL_CS * 8)) 0 (u8 fl)
                      (Z.land (Z.shiftr isr 16) 0xffff) (u32 (Z.shiftr isr 32)) (reserved d) in
      Ok (tt, mkDt (gdt_table s) (<[v := d]> (idt s)) (gdtr s) (idtr s) (segs s) (if_enabled s))
  end.

(** [cli; lidt]. *)
Definition idt_load (r : table_reg) : M dt_state unit :=
  modify (λ s, mkDt (gdt_table s) (idt s) (gdtr s) r (segs s) false).

Fixpoint idt_fill (k : nat) (i : Z) (isr_stub_table : list Z) : M dt_state unit :=
  match k with
  | O => ret tt
  | S k =>
      stub <- reads (λ _, isr_stub_table !! Z.to_nat i);;
      idt_set_descriptor i stub (Z.lor IDT_GATE_INTERRUPT_TYPE (Z.shiftl 1 7));;;
      idt_fill k (i + 1) isr_stub_table
  end.

Definition idt_init (idt_addr : Z) (isr_stub_table : list Z) : M dt_state unit :=
  idt_fill IDT_NUM_ENTRIES 0 isr_stub_table;;;
  size <- gets (λ s, 16 * Z.of_nat (length (idt s)));;
  idt_load (mkTable (u16 (size - 1)) idt_addr).

(** ** What the processor reads back *)

(** The base, limit and attributes of a segment descriptor. *)
Definition seg_base (d : Z) : Z :=
  Z.lor (Z.land (Z.shiftr d 16) 0xFFFFFF) (Z.shiftl (Z.land (Z.shiftr d 56) 0xFF) 24).
Definition seg_limit (d : Z) : Z :=
  Z.lor (Z.land d 0xFFFF) (Z.shiftl (Z.land (Z.shiftr d 48) 0xF) 16).
Definition seg_attributes (d : Z) : Z := Z.land (Z.shiftr d 40) 0xF0FF.

Definition seg_present (d : Z) : bool := Z.testbit d 47.
Definition seg_dpl (d : Z) : Z := Z.land (Z.shiftr d 45) 3.
Definition seg_code_data (d : Z) : bool := Z.testbit d 44.
Definition seg_executable (d : Z) : bool := Z.testbit d 43.
Definition seg_rw (d : Z) : bool := Z.testbit d 41.
Definition seg_long (d : Z) : bool := Z.testbit d 53.
Definition seg_size32 (d : Z) : bool := Z.testbit d 54.

(** The handler, type, privilege level and presence of a gate. *)
Definition gate_offset (d : idt_descriptor) : Z :=
  Z.lor (Z.lor (offset_1 d) (Z.shiftl (offset_2 d) 16)) (Z.shiftl (offset_3 d) 32).
Definition gate_type (d : idt_descriptor) : Z := Z.land (flags d) 0xF.
Definition gate_dpl (d : idt_descriptor) : Z := Z.land (Z.shiftr (flags d) 5) 3.
Definition gate_present (d : idt_descriptor) : bool := Z.testbit (flags d) 7.

(** Every field of a gate fits the width the hardware gives it. *)
Definition gate_wf (d : idt_descriptor) : Prop :=
  0 ≤ offset_1 d < 2 ^ 16 ∧ 0 ≤ segment_selector d < 2 ^ 16 ∧ 0 ≤ ist d < 2 ^ 8 ∧
  0 ≤ flags d < 2 ^ 8 ∧ 0 ≤ offset_2 d < 2 ^ 16 ∧ 0 ≤ offset_3 d < 2 ^ 32 ∧ 0 ≤ reserved d < 2 ^ 32.

(** ** Bits *)

Lemma land_mask_bits a lo k n :
  0 ≤ lo → 0 ≤ k → 0 ≤ n →
  Z.testbit (Z.land a (Z.shiftl (Z.ones k) lo)) n = Z.testbit a n && (lo <=? n) && (n <? lo + k).
Proof.
  intros Hlo Hk Hn. rewrite Z.land_spec -andb_assoc. f_equal.
  rewrite Z.shiftl_spec //. destruct (Z.leb_spec lo n) as [H|H]; simpl.
  - rewrite Z.testbit_ones_nonneg; [|lia|lia]. destruct (Z.ltb_spec (n - lo) k), (Z.ltb_spec n (lo + k)); (done || lia).
  - by rewrite Z.testbit_neg_r; [|lia].
Qed.

(** Both sides bit by bit: masks become ranges of bits. *)
Ltac bits_unfold :=
  repeat first
    [ rewrite Z.lor_spec | rewrite land_mask_bits; [|lia..] | rewrite Z.shiftl_spec; [|lia]
    | rewrite Z.shiftr_spec; [|lia] | rewrite Z.testbit_mod_pow2; [|lia] ].

Ltac decide_ranges :=
  repeat match goal with
  | |- context [?a <=? ?b] => destruct (Z.leb_spec a b); try lia
  | |- context [?a <? ?b] => destruct (Z.ltb_spec a b); try lia
  end; cbn [andb orb]; rewrite ?andb_true_r ?andb_false_r ?orb_false_r ?orb_false_l.

Definition attr_mask : Z := Z.lor (Z.shiftl (Z.ones 8) 0) (Z.shiftl (Z.ones 4) 12).

(** Where the bits of a descriptor come from. *)
Definition descriptor_bit (base limit flag n : Z) : bool :=
  if n <? 16 then Z.testbit limit n
  else if n <? 40 then Z.testbit base (n - 16)
  else if n <? 48 then Z.testbit flag (n - 40)
  else if n <? 52 then Z.testbit limit (n - 32)
  else if n <? 56 then Z.testbit flag (n - 40)
  else if n <? 64 then Z.testbit base (n - 32)
  else false.

Lemma testbit_neg a n : n < 0 → Z.testbit a n = false.
Proof. intros H. by apply Z.testbit_neg_r. Qed.

Lemma descriptor_bits base limit flag n :
  0 ≤ n → Z.testbit (gdt_create_descriptor base limit flag) n = descriptor_bit base limit flag n.
Proof.
  intros Hn. rewrite /gdt_create_descriptor /u64 /u32.
  change 0x000F0000 with (Z.shiftl (Z.ones 4) 16). change 0xFF000000 with (Z.shiftl (Z.ones 8) 24).
  change 0x000000FF with (Z.shiftl (Z.ones 8) 0). change 0x0000FFFF with (Z.shiftl (Z.ones 16) 0).
  change 0x00F0FF00 with (Z.lor (Z.shiftl (Z.ones 8) 8) (Z.shiftl (Z.ones 4) 20)).
  rewrite Z.land_lor_distr_r. rewrite /descriptor_bit.
  rewrite !Z.lor_spec !Z.testbit_mod_pow2; [|lia..]. rewrite !Z.shiftl_spec //.
  destruct (Z.ltb_spec n 32) as [Hlo|Hhi].
  - rewrite (testbit_neg _ (n - 32)); [|lia]. rewrite land_mask_bits; [|lia..].
    destruct (Z.ltb_spec n 16) as [H16|H16].
    + rewrite (testbit_neg base (n - 16)); [|lia]. decide_ranges; done.
    + decide_ranges; done.
  - rewrite !Z.lor_spec !land_mask_bits; [|lia..]. rewrite Z.shiftl_spec; [|lia]. rewrite Z.shiftr_spec; [|lia].
    replace (n - 32 - 8) with (n - 40) by lia. replace (n - 32 + 16) with (n - 16) by lia.
    decide_ranges; done.
Qed.

(** A number of [k] bits has no bits above. *)
Lemma bits_above a k n : 0 ≤ k → 0 ≤ a < 2 ^ k → k ≤ n → Z.testbit a n = false.
Proof.
  intros Hk [H0 Ha] Hn. destruct (decide (a = 0)) as [->|Hne]; [by rewrite Z.bits_0|].
  apply Z.bits_above_log2; [done|]. apply Z.log2_lt_pow2; [lia|].
  eapply Z.lt_le_trans; [exact Ha|]. by apply Z.pow_le_mono_r.
Qed.

Lemma bits_bound a k : 0 ≤ k → 0 ≤ a → (∀ n, k ≤ n → Z.testbit a n = false) → a < 2 ^ k.
Proof.
  intros Hk H0 Hb. destruct (decide (a = 0)) as [->|Hne]; [by apply Z.pow_pos_nonneg|].
  destruct (Z.lt_ge_cases (Z.log2 a) k) as [Hl|Hl]; [apply Z.log2_lt_pow2; lia|].
  exfalso. specialize (Hb _ Hl). rewrite Z.bit_log2 in Hb; [done|lia].
Qed.

(** A segment descriptor built from a 32-bit base, a limit and attribute flags is a
    64-bit word from which the processor reads back the base, the low 20 bits of the
    limit and the attributes (all flags but the four bits the limit occupies). *)
Lemma descriptor_roundtrip base limit flag :
  0 ≤ base < 2 ^ 32 → 0 ≤ limit < 2 ^ 32 → 0 ≤ flag < 2 ^ 16 →
  let d := gdt_create_descriptor base limit flag in
  0 ≤ d < 2 ^ 64 ∧ seg_base d = base ∧ seg_limit d = limit mod 2 ^ 20 ∧
  seg_attributes d = Z.land flag 0xF0FF.
Proof.
  intros Hb Hl Hf d. pose proof (descriptor_bits base limit flag) as Hd. fold d in Hd.
  assert (0 ≤ d) as H0.
  { rewrite /d /gdt_create_descriptor !Z.lor_nonneg !Z.land_nonneg. pose proof (u64_range) as H1.
    pose proof u32_range as H2. split; [split; [apply H1|apply H2]|lia]. }
  assert (d < 2 ^ 64) as H1.
  { apply bits_bound; [lia|done|]. intros n Hn. rewrite Hd; [|lia]. rewrite /descriptor_bit.
    decide_ranges; done. }
  split; [lia|]. repeat split; apply Z.bits_inj'; intros n Hn.
  - rewrite /seg_base. change 0xFFFFFF with (Z.shiftl (Z.ones 24) 0). change 0xFF with (Z.shiftl (Z.ones 8) 0).
    rewrite Z.lor_spec land_mask_bits; [|lia..]. rewrite Z.shiftr_spec // Hd; [|lia]. rewrite Z.shiftl_spec //.
    destruct (Z.ltb_spec n 24).
    + rewrite (testbit_neg _ (n - 24)); [|lia]. rewrite /descriptor_bit. decide_ranges; f_equal; lia.
    + rewrite land_mask_bits; [|lia..]. rewrite Z.shiftr_spec; [|lia]. rewrite Hd; [|lia].
      destruct (Z.ltb_spec n 32).
      * rewrite /descriptor_bit. decide_ranges; f_equal; lia.
      * rewrite (bits_above base 32 n); [|lia..]. decide_ranges; done.
  - rewrite /seg_limit. change 0xFFFF with (Z.shiftl (Z.ones 16) 0). change 0xF with (Z.shiftl (Z.ones 4) 0).
    rewrite Z.testbit_mod_pow2; [|lia]. rewrite Z.lor_spec land_mask_bits; [|lia..]. rewrite Hd //.
    rewrite Z.shiftl_spec //. destruct (Z.ltb_spec n 16).
    + rewrite (testbit_neg _ (n - 16)); [|lia]. rewrite /descriptor_bit. decide_ranges; done.
    + rewrite land_mask_bits; [|lia..]. rewrite Z.shiftr_spec; [|lia]. rewrite Hd; [|lia].
      rewrite /descriptor_bit. decide_ranges; try done; f_equal; lia.
  - rewrite /seg_attributes. change 0xF0FF with attr_mask. rewrite /attr_mask !Z.land_lor_distr_r.
    rewrite !Z.lor_spec !land_mask_bits; [|lia..]. rewrite Z.shiftr_spec // Hd; [|lia].
    rewrite /descriptor_bit. decide_ranges; try done; f_equal; lia.
Qed.

(** ** Gates *)

(** The gate the kernel makes for a handler. *)
Definition kernel_gate (isr : Z) (d : idt_descriptor) : Prop :=
  gate_wf d ∧ gate_offset d = isr ∧ segment_selector d = 8 ∧ ist d = 0 ∧
  gate_type d = IDT_GATE_INTERRUPT_TYPE ∧ gate_dpl d = 0 ∧ gate_present d = true.

Lemma land_16 a : Z.land a 0xffff = a mod 2 ^ 16.
Proof. change 0xffff with (Z.ones 16). by rewrite Z.land_ones. Qed.

Lemma split_offset isr :
  0 ≤ isr < 2 ^ 64 →
  Z.lor (Z.lor (Z.land isr 0xffff) (Z.shiftl (Z.land (Z.shiftr isr 16) 0xffff) 16))
    (Z.shiftl (u32 (Z.shiftr isr 32)) 32) = isr.
Proof.
  intros Hi. apply Z.bits_inj'. intros n Hn. change 0xffff with (Z.shiftl (Z.ones 16) 0).
  rewrite !Z.lor_spec land_mask_bits; [|lia..]. rewrite !Z.shiftl_spec // /u32.
  rewrite Z.testbit_mod_pow2; [|lia]. destruct (Z.ltb_spec n 16).
  { rewrite !(testbit_neg _ (n - _)); [|lia..]. decide_ranges; done. }
  rewrite land_mask_bits; [|lia..]. rewrite Z.shiftr_spec; [|lia].
  replace (n - 16 + 16) with n by lia. destruct (Z.ltb_spec n 32).
  - rewrite (testbit_neg _ (n - 32)); [|lia]. decide_ranges; done.
  - rewrite Z.shiftr_spec; [|lia]. replace (n - 32 + 32) with n by lia.
    destruct (Z.ltb_spec n 64).
    + decide_ranges; done.
    + rewrite (bits_above isr 64 n); [|lia..]. by rewrite !andb_false_r.
Qed.

Lemma new_gate_ok isr r :
  0 ≤ isr < 2 ^ 64 → 0 ≤ r < 2 ^ 32 →
  kernel_gate isr (mkGate (Z.land isr 0xffff) (u16 (GDT_KERNEL_CS * 8)) 0
    (u8 (Z.lor IDT_GATE_INTERRUPT_TYPE (Z.shiftl 1 7)))
    (Z.land (Z.shiftr isr 16) 0xffff) (u32 (Z.shiftr isr 32)) r).
Proof.
  intros Hi Hr. split; [|split; [by apply split_offset|done]].
  rewrite /gate_wf /= !land_16. repeat split; try done; try lia; try (by apply Z.mod_pos_bound);
    apply u32_range.
Qed.

Lemma idt_set_descriptor_ok i isr s :
  (i < IDT_NUM_ENTRIES)%nat → length (idt s) = IDT_NUM_ENTRIES → Forall gate_wf (idt s) →
  0 ≤ isr < 2 ^ 64 →
  ∃ d, kernel_gate isr d ∧
    idt_set_descriptor (Z.of_nat i) isr (Z.lor IDT_GATE_INTERRUPT_TYPE (Z.shiftl 1 7)) s =
      Ok (tt, mkDt (gdt_table s) (<[i := d]> (idt s)) (gdtr s) (idtr s) (segs s) (if_enabled s)).
Proof.
  intros Hi Hlen Hwf Hisr. rewrite /idt_set_descriptor.
  assert (Z.to_nat (u8 (Z.of_nat i)) = i) as ->.
  { rewrite /u8 Z.mod_small; [|rewrite /IDT_NUM_ENTRIES in Hi; lia]. by rewrite Nat2Z.id. }
  destruct (lookup_lt_is_Some_2 (idt s) i) as [d Hd]; [by rewrite Hlen|]. rewrite Hd.
  eexists. split; [|reflexivity]. apply new_gate_ok; [done|].
  rewrite Forall_lookup in Hwf. apply (Hwf i d Hd).
Qed.

(** The gates of the vectors below [k] are made. *)
Definition idt_filled (k : nat) (stubs : list Z) (s0 s : dt_state) : Prop :=
  length (idt s) = IDT_NUM_ENTRIES ∧ Forall gate_wf (idt s) ∧
  (∀ i isr, (i < k)%nat → stubs !! i = Some isr → ∃ d, idt s !! i = Some d ∧ kernel_gate isr d) ∧
  gdt_table s = gdt_table s0 ∧ gdtr s = gdtr s0 ∧ segs s = segs s0.

Lemma idt_fill_ok stubs s0 k i s :
  length stubs = IDT_NUM_ENTRIES → Forall (λ a, 0 ≤ a < 2 ^ 64) stubs →
  (i + k = IDT_NUM_ENTRIES)%nat → idt_filled i stubs s0 s →
  ∃ s', idt_fill k (Z.of_nat i) stubs s = Ok (tt, s') ∧ idt_filled IDT_NUM_ENTRIES stubs s0 s'.
Proof.
  intros Hlen Hst. revert i s. induction k as [|k IH]; intros i s Hik Hf.
  { exists s. split; [done|]. by replace IDT_NUM_ENTRIES with i by lia. }
  destruct Hf as (Hl & Hwf & Hg & Hrest). cbn [idt_fill]. rewrite /bind /reads Nat2Z.id.
  destruct (lookup_lt_is_Some_2 stubs i) as [isr Hisr]; [lia|]. rewrite Hisr.
  destruct (idt_set_descriptor_ok i isr s) as (d & Hd & ->); [lia|done|done| |].
  { rewrite Forall_lookup in Hst. by apply (Hst i). }
  replace (Z.of_nat i + 1) with (Z.of_nat (S i)) by lia. apply IH; [lia|].
  split; [by rewrite /= length_insert|]. split; [apply Forall_insert; [done|apply Hd]|]. split; [|done].
  intros j isr' Hj Hs. simpl. destruct (decide (j = i)) as [->|Hne].
  - rewrite Hisr in Hs. injection Hs as <-. exists d. split; [|done]. apply list_lookup_insert_eq. lia.
  - rewrite list_lookup_insert_ne; [|done]. apply Hg; [lia|done].
Qed.

Definition kernel_gdt : list Z :=
  [0; gdt_create_descriptor 0 0 GDT_CODE_PL0; gdt_create_descriptor 0 0 GDT_DATA_PL0;
   gdt_create_descriptor 0 0 GDT_CODE_PL3; gdt_create_descriptor 0 0 GDT_DATA_PL3].

Lemma gdt_init_ok gdt_addr s :
  length (gdt_table s) = GDT_NUM_ENTRIES →
  gdt_init gdt_addr s =
    Ok (tt, mkDt kernel_gdt (idt s) (mkTable 39 gdt_addr) (idtr s) (mkSegs 8 16 16 16 16 16) false).
Proof.
  intros Hg. destruct s as [tbl ? ? ? ? ?]. simpl in Hg.
  destruct tbl as [|a [|b [|c [|d [|e [|]]]]]]; try discriminate Hg. reflexivity.
Qed.

(** Both tables are filled and loaded. *)
Lemma tables_init gdt_addr idt_addr stubs s :
  length (gdt_table s) = GDT_NUM_ENTRIES → length (idt s) = IDT_NUM_ENTRIES → Forall gate_wf (idt s) →
  length stubs = IDT_NUM_ENTRIES → Forall (λ a, 0 ≤ a < 2 ^ 64) stubs →
  ∃ s', (gdt_init gdt_addr;;; idt_init idt_addr stubs) s = Ok (tt, s') ∧ gdt_table s' = kernel_gdt ∧
    segs s' = mkSegs 8 16 16 16 16 16 ∧ gdtr s' = mkTable 39 gdt_addr ∧ idtr s' = mkTable 4095 idt_addr ∧
    if_enabled s' = false ∧
    ∀ v isr, stubs !! v = Some isr → ∃ d, idt s' !! v = Some d ∧ kernel_gate isr d.
Proof.
  intros Hg Hi Hwf Hs Hst. rewrite {1}/bind (gdt_init_ok gdt_addr s Hg). set s1 := mkDt _ _ _ _ _ _.
  assert (idt_filled 0 stubs s1 s1) as H1.
  { split; [done|]. split; [done|]. split; [|done]. intros i isr H. lia. }
  destruct (idt_fill_ok stubs s1 IDT_NUM_ENTRIES 0 s1 Hs Hst eq_refl H1)
    as (s2 & E2 & Hl2 & _ & Hgates & Egdt & Egdtr & Esegs).
  rewrite /idt_init /bind. change (Z.of_nat 0) with 0 in E2. rewrite E2 /gets /idt_load /modify Hl2.
  eexists. split; [reflexivity|]. cbn [gdt_table idt gdtr idtr segs if_enabled].
  rewrite Egdt Egdtr Esegs. do 5 (split; [done|]).
  intros v isr Hv. apply (Hgates v isr); [|done]. apply lookup_lt_Some in Hv. lia.
Qed.

(** ** Theorems *)

(** What the five descriptors say. *)
Definition segment_is (d dpl : Z) (code : bool) : Prop :=
  seg_present d = true ∧ seg_code_data d = true ∧ seg_dpl d = dpl ∧
  seg_executable d = code ∧ seg_rw d = true ∧ seg_long d = code ∧ seg_size32 d = false.

(** C35: The tables are well formed after [gdt_init] and [idt_init]: the selectors loaded
    into CS and the data segments name a present 64-bit kernel code segment and a
    writable kernel data segment, the user segments differ in their privilege level, and
    each of the 256 vectors has a present interrupt gate of ring 0 into that code segment,
    with fields of the right widths, whose offset is exactly the stub of the vector. *)
Theorem descriptor_tables_typed gdt_addr idt_addr stubs s :
  length (gdt_table s) = GDT_NUM_ENTRIES → length (idt s) = IDT_NUM_ENTRIES → Forall gate_wf (idt s) →
  length stubs = IDT_NUM_ENTRIES → Forall (λ a, 0 ≤ a < 2 ^ 64) stubs →
  ∃ s', (gdt_init gdt_addr;;; idt_init idt_addr stubs) s = Ok (tt, s') ∧
    (∃ kcs kds ucs uds, gdt_table s' = [0; kcs; kds; ucs; uds] ∧
       segment_is kcs 0 true ∧ segment_is kds 0 false ∧ segment_is ucs 3 true ∧ segment_is uds 3 false) ∧
    segs s' = mkSegs 8 16 16 16 16 16 ∧ gdtr s' = mkTable 39 gdt_addr ∧ idtr s' = mkTable 4095 idt_addr ∧
    if_enabled s' = false ∧
    ∀ v isr, stubs !! v = Some isr → ∃ d, idt s' !! v = Some d ∧ kernel_gate isr d.
Proof.
  intros Hg Hi Hwf Hs Hst.
  destruct (tables_init gdt_addr idt_addr stubs s Hg Hi Hwf Hs Hst) as (s' & E & Egdt & Hrest).
  exists s'. split; [done|]. split; [|done]. rewrite Egdt. eexists _, _, _, _. split; [reflexivity|].
  repeat split; vm_compute; reflexivity.
Qed.

Definition empty_gate : idt_descriptor := mkGate 0 0 0 0 0 0 0.
Definition demo_tables : dt_state :=
  mkDt (replicate 5 0) (replicate 256 empty_gate) (mkTable 0 0) (mkTable 0 0) (mkSegs 0 0 0 0 0 0) true.
Definition demo_stubs : list Z := (λ i, 0xFFFFFFFF80001000 + 16 * i) <$> seqZ 0 256.

Lemma descriptor_tables_typed_witness :
  ∃ s', (gdt_init 0xFFFFFFFF80010000;;; idt_init 0xFFFFFFFF80020000 demo_stubs) demo_tables = Ok (tt, s') ∧
    ∃ d, idt s' !! 14%nat = Some d ∧ kernel_gate 0xFFFFFFFF800010E0 d.
Proof.
  destruct (descriptor_tables_typed 0xFFFFFFFF80010000 0xFFFFFFFF80020000 demo_stubs demo_tables)
    as (s' & E & _ & _ & _ & _ & _ & H).
  - reflexivity.
  - reflexivity.
  - apply Forall_replicate. vm_compute. repeat split; (intros H; discriminate H) || reflexivity.
  - reflexivity.
  - apply (bool_decide_unpack _). vm_compute. exact I.
  - exists s'. split; [exact E|]. apply (H 14%nat). vm_compute. reflexivity.
Defined.
