(* ===== verification/Interrupts.v ===== *)
(** * Interrupts (interrupts/isr.asm, interrupts/isr.c)

    From the interrupted instruction to the handler in C and back: what the processor
    pushes, the stubs of the 256 vectors, the saving of the registers, the dispatch, and
    the way back through [iretq], which resumes the context the handler returned. *)

From stdpp Require Import base gmap list numbers.
From S2P Require Import Prelude Npf Serial FrameAlloc Sched Vmm KheapThms VmmThms SchedThms.

#[local] Ltac Zify.zify_post_hook ::= Z.to_euclidean_division_equations.

(** ** The processor *)

(** The registers, in the order of [struct cpu_status]: rax, rbx, rcx, rdx, rsi, rdi, rsp,
    rbp, r8 to r15; and the words of the stacks. *)
Record mach := mkMach {
  gpr : list Z;
  m_rip : Z;
  m_cs : Z;
  m_rflags : Z;
  m_ss : Z;
  stack : gmap Z Z;
}.

Definition RSP : nat := 6.
Definition reg (m : mach) (i : nat) : Z := default 0 (gpr m !! i).
Definition set_reg (i : nat) (v : Z) (m : mach) : mach :=
  mkMach (<[i := v]> (gpr m)) (m_rip m) (m_cs m) (m_rflags m) (m_ss m) (stack m).
Definition set_stack (w : gmap Z Z) (m : mach) : mach :=
  mkMach (gpr m) (m_rip m) (m_cs m) (m_rflags m) (m_ss m) w.

Definition push (v : Z) (m : mach) : mach :=
  let sp := u64 (reg m RSP - 8) in
  set_reg RSP sp (set_stack (<[sp := v]> (stack m)) m).

(** [pop]: the word at the top of the stack. *)
Definition pop : M mach Z := λ m,
  match stack m !! reg m RSP with
  | Some v => Ok (v, set_reg RSP (u64 (reg m RSP + 8)) m)
  | None => Err Undef
  end.
Definition pop_reg (i : nat) : M mach unit := v <- pop;; modify (set_reg i v).

(** Delivery through an interrupt gate: the stack is aligned, the return frame and, for some
    exceptions, an error code are pushed, interrupts are disabled. *)
Definition deliver (err : option Z) (m : mach) : mach :=
  let sp := reg m RSP in
  let m1 := set_reg RSP (sp - sp mod 16) m in
  let m1 := push (m_rip m) (push (m_cs m) (push (m_rflags m) (push sp (push (m_ss m) m1)))) in
  let m1 := match err with Some e => push e m1 | None => m1 end in
  mkMach (gpr m1) (m_rip m1) (m_cs m1) (Z.clearbit (m_rflags m1) 9) (m_ss m1) (stack m1).

(** [iretq]. *)
Definition iretq : M mach unit :=
  ip <- pop;; c <- pop;; f <- pop;; sp <- pop;; s <- pop;;
  modify (λ m, mkMach (<[RSP := sp]> (gpr m)) ip c f s (stack m)).

(** ** The stubs *)

(** The vectors declared with [error_code_interrupt_handler]. *)
Definition error_code_stub (v : Z) : bool := bool_decide (v ∈ [8; 10; 11; 12; 13; 14; 17; 30]).

Definition interrupt_stub (v : Z) (m : mach) : mach :=
  push v (if error_code_stub v then m else push 0 m).

(** [push r15 ... push rax]: the value of a register when its turn comes. *)
Definition save_registers (m : mach) : mach :=
  foldl (λ m i, push (reg m i) m) m [15; 14; 13; 12; 11; 10; 9; 8; 7; 6; 5; 4; 3; 2; 1; 0]%nat.

Fixpoint pop_regs (l : list nat) : M mach unit :=
  match l with [] => ret tt | i :: l => pop_reg i;;; pop_regs l end.

(** From [mov rsp, rax] on. *)
Definition resume (p : Z) : M mach unit :=
  modify (set_reg RSP p);;;
  pop_regs [0; 1; 2; 3; 4; 5]%nat;;;
  modify (λ m, set_reg RSP (u64 (reg m RSP + 8)) m);;;
  pop_regs [7; 8; 9; 10; 11; 12; 13; 14; 15]%nat;;;
  modify (λ m, set_reg RSP (u64 (reg m RSP + 0x10)) m);;;
  iretq.

(** [struct cpu_status] in memory. *)
Definition status_words (f : cpu_status) : list Z :=
  general_purpose_registers f ++
  [vector_number f; error_code f; st_rip f; st_cs f; st_rflags f; st_rsp f; st_ss f].

Definition read_status (p : Z) (w : gmap Z Z) : option cpu_status :=
  regs ← mapM (λ i, w !! (p + 8 * i)) (seqZ 0 16);
  v ← w !! (p + 128); e ← w !! (p + 136); ip ← w !! (p + 144); c ← w !! (p + 152);
  f ← w !! (p + 160); sp ← w !! (p + 168); s ← w !! (p + 176);
  Some (mkStatus regs v e ip c f sp s).

(** An interrupt with the given handler, which gets a pointer to the frame on the stack. *)
Section interrupt.
Context {K : Type} (handler : Z → cpu_status → M K Z).

Definition entered (v : Z) (err : option Z) (m : mach) : mach :=
  save_registers (interrupt_stub v (deliver err m)).

Definition interrupt (v : Z) (err : option Z) : M (mach * K) unit := λ s,
  let m := entered v err s.1 in
  match read_status (reg m RSP) (stack m) with
  | None => Err Undef
  | Some f =>
      match handler (reg m RSP) f s.2 with
      | Err e => Err e
      | Ok (p, k) => match resume p m with Ok (_, m) => Ok (tt, (m, k)) | Err e => Err e end
      end
  end.
End interrupt.

(** ** The dispatcher (isr.c) *)

Definition PAGE_FAULT_VECTOR : Z := 14.
Definition LAPIC_TIMER_VECTOR : Z := 32.
Definition YIELD_VECTOR : Z := 50.
Definition SPURIOUS_VECTOR : Z := 0xFF.

Section handler.
Context {S : Type} `{FrameAlloc S}.

(** The spurious interrupt needs nothing, other interrupts are only logged. [cr2] and [tsc]
    are the registers the handlers read. *)
Definition interrupt_handler (cr2 tsc : Z) (context : Z) (f : cpu_status)
    : M (vmm_state S * sched_state) Z :=
  if vector_number f =? PAGE_FAULT_VECTOR then
    on_fst (vmm_page_fault_handler cr2 (error_code f));;; ret context
  else if vector_number f =? LAPIC_TIMER_VECTOR then on_snd (timer_handler tsc context)
  else if vector_number f =? YIELD_VECTOR then on_snd (scheduler_schedule context)
  else if vector_number f =? SPURIOUS_VECTOR then ret context
  else ret context.
End handler.

(** ** Frames on the stack *)

Definition words_at (w : gmap Z Z) (p : Z) (l : list Z) : Prop :=
  ∀ i x, l !! i = Some x → w !! (p + 8 * Z.of_nat i) = Some x.

Definition mach_wf (m : mach) : Prop :=
  length (gpr m) = 16%nat ∧ 0x200 ≤ reg m RSP < 2 ^ 64.

Lemma reg_set_eq m i v : (i < length (gpr m))%nat → reg (set_reg i v m) i = v.
Proof. intros Hi. by rewrite /reg /set_reg /= list_lookup_insert_eq. Qed.
Lemma reg_set_ne m i v j : i ≠ j → reg (set_reg i v m) j = reg m j.
Proof. intros Hi. by rewrite /reg /set_reg /= list_lookup_insert_ne. Qed.

(** After some words have been pushed on [m0]: they are on the stack, which is otherwise
    unchanged, and so are the other registers. *)
Record pushed (m0 : mach) (top : Z) (l : list Z) (m : mach) : Prop := {
  pu_gpr : gpr m = <[RSP := top - 8 * Z.of_nat (length l)]> (gpr m0);
  pu_words : words_at (stack m) (top - 8 * Z.of_nat (length l)) l;
  pu_rest : ∀ a, ¬ top - 8 * Z.of_nat (length l) ≤ a < top → stack m !! a = stack m0 !! a;
  pu_regs : m_rip m = m_rip m0 ∧ m_cs m = m_cs m0 ∧ m_ss m = m_ss m0;
}.

Lemma pushed_rsp m0 top l m : length (gpr m0) = 16%nat → pushed m0 top l m → reg m RSP = top - 8 * Z.of_nat (length l).
Proof. intros Hl [Hg _ _ _]. rewrite /reg Hg list_lookup_insert_eq //. rewrite Hl /RSP. lia. Qed.

Lemma pushed_reg m0 top l m i : pushed m0 top l m → i ≠ RSP → reg m i = reg m0 i.
Proof. intros [Hg _ _ _] Hi. by rewrite /reg Hg list_lookup_insert_ne. Qed.

Lemma pushed_push m0 top l m v :
  length (gpr m0) = 16%nat → 8 * Z.of_nat (S (length l)) ≤ top < 2 ^ 64 →
  pushed m0 top l m → pushed m0 top (v :: l) (push v m).
Proof.
  intros Hl Ht Hp. pose proof (pushed_rsp _ _ _ _ Hl Hp) as Hsp. destruct Hp as [Hg Hw Hr Hc].
  assert (u64 (reg m RSP - 8) = top - 8 * Z.of_nat (length (v :: l))) as E.
  { rewrite Hsp u64_small; cbn [length]; lia. }
  rewrite /push E. constructor; simpl.
  - by rewrite Hg list_insert_insert_eq.
  - intros [|i] x Hi; simpl in Hi.
    + injection Hi as <-. rewrite Z.mul_0_r Z.add_0_r. by rewrite lookup_insert_eq.
    + rewrite lookup_insert_ne; [|cbn [length]; lia]. rewrite -(Hw i x Hi). f_equal. cbn [length]. lia.
  - intros a Ha. rewrite lookup_insert_ne; [|cbn [length] in *; lia]. apply Hr. cbn [length] in Ha. lia.
  - done.
Qed.

Lemma pushed_push_reg m0 top l m i :
  i ≠ RSP → length (gpr m0) = 16%nat → 8 * Z.of_nat (S (length l)) ≤ top < 2 ^ 64 →
  pushed m0 top l m → pushed m0 top (reg m0 i :: l) (push (reg m i) m).
Proof. intros Hi Hl Ht Hp. rewrite -(pushed_reg _ _ _ _ _ Hp Hi). by apply pushed_push. Qed.

Lemma pushed_push_rsp m0 top l m :
  length (gpr m0) = 16%nat → 8 * Z.of_nat (S (length l)) ≤ top < 2 ^ 64 →
  pushed m0 top l m → pushed m0 top ((top - 8 * Z.of_nat (length l)) :: l) (push (reg m RSP) m).
Proof. intros Hl Ht Hp. rewrite -(pushed_rsp _ _ _ _ Hl Hp). by apply pushed_push. Qed.

(** The sixteen registers on the stack; rsp is what it was when it was pushed. *)
Definition saved_gprs (m0 : mach) (sp : Z) : list Z := <[RSP := sp]> (gpr m0).

Lemma list16 (l : list Z) :
  length l = 16%nat → l = (λ i, default 0 (l !! i)) <$> seq 0 16.
Proof.
  intros Hl. do 16 (destruct l as [|? l]; [discriminate Hl|]). destruct l; [|discriminate Hl].
  reflexivity.
Qed.

Lemma save_registers_ok m0 top l m :
  length (gpr m0) = 16%nat → 8 * Z.of_nat (16 + length l) ≤ top < 2 ^ 64 → pushed m0 top l m →
  pushed m0 top (saved_gprs m0 (top - 8 * Z.of_nat (9 + length l)) ++ l) (save_registers m).
Proof.
  intros Hl Ht Hp. rewrite /saved_gprs (list16 (gpr m0) Hl).
  change (<[RSP := ?v]> ((λ i, default 0 (gpr m0 !! i)) <$> seq 0 16)) with
    [reg m0 0; reg m0 1; reg m0 2; reg m0 3; reg m0 4; reg m0 5; v; reg m0 7; reg m0 8; reg m0 9;
     reg m0 10; reg m0 11; reg m0 12; reg m0 13; reg m0 14; reg m0 15].
  rewrite /save_registers. cbn [foldl app].
  do 6 (apply pushed_push_reg; [done|done|cbn [length]; lia|]).
  apply (pushed_push_rsp m0 top (_ :: _ :: _ :: _ :: _ :: _ :: _ :: _ :: _ :: l)); [done|cbn [length]; lia|].
  do 9 (apply pushed_push_reg; [done|done|cbn [length]; lia|]). exact Hp.
Qed.

(** The frame of an interruption. *)
Definition stack_top (m : mach) : Z := reg m RSP - reg m RSP mod 16.
Definition frame_of (v : Z) (err : option Z) (m : mach) : cpu_status :=
  mkStatus (saved_gprs m (stack_top m - 128)) v (default 0 err) (m_rip m) (m_cs m) (m_rflags m)
    (reg m RSP) (m_ss m).
Definition frame_ptr (m : mach) : Z := stack_top m - 184.

(** The stub of the vector pushes an error code exactly when the processor did not. *)
Definition error_code_agrees (v : Z) (err : option Z) : Prop := error_code_stub v = true ↔ is_Some err.

Lemma entered_ok v err m :
  mach_wf m → error_code_agrees v err →
  pushed m (stack_top m) (status_words (frame_of v err m)) (entered v err m).
Proof.
  intros [Hl Hsp] Herr. set top := stack_top m. assert (0x1F0 ≤ top < 2 ^ 64) as Ht.
  { rewrite /top /stack_top. lia. }
  assert (pushed m top [] (set_reg RSP top m)) as H0.
  { constructor; simpl; [f_equal; lia|by intros i x Hi|done|done]. }
  assert (pushed m top [default 0 err; m_rip m; m_cs m; m_rflags m; reg m RSP; m_ss m]
    (if error_code_stub v then deliver err m else push 0 (deliver err m))) as H1.
  { assert (∀ l m1, pushed m top l m1 →
      pushed m top l (mkMach (gpr m1) (m_rip m1) (m_cs m1) (Z.clearbit (m_rflags m1) 9) (m_ss m1) (stack m1)))
      as Hfl by (intros l m1 []; by constructor).
    rewrite /deliver. fold (stack_top m) top. cbv zeta. destruct err as [e|]; cbn [default from_option id].
    - rewrite (proj2 Herr); [|by eexists]. apply Hfl.
      do 6 (apply pushed_push; [done|cbn [length]; lia|]). exact H0.
    - destruct (error_code_stub v) eqn:E; [by destruct (proj1 Herr E)|].
      apply pushed_push; [done|cbn [length]; lia|]. apply Hfl.
      do 5 (apply pushed_push; [done|cbn [length]; lia|]). exact H0. }
  rewrite /entered /interrupt_stub. apply (pushed_push _ _ _ _ v) in H1; [|done|cbn [length]; lia].
  apply (save_registers_ok _ _ _ _ Hl) in H1; [|cbn [length]; lia]. exact H1.
Qed.

Lemma status_length f : length (general_purpose_registers f) = 16%nat → length (status_words f) = 23%nat.
Proof. intros Hl. by rewrite /status_words length_app Hl. Qed.

Lemma words_at_lookup w p l i x : words_at w p l → l !! i = Some x → w !! (p + 8 * Z.of_nat i) = Some x.
Proof. auto. Qed.

(** A frame on the stack is read as a whole. *)
Lemma read_status_ok w p f :
  length (general_purpose_registers f) = 16%nat → words_at w p (status_words f) →
  read_status p w = Some f.
Proof.
  intros Hl Hw. destruct f as [g v e ip c fl sp s]. simpl in Hl.
  do 16 (destruct g as [|? g]; [discriminate Hl|]). destruct g; [|discriminate Hl].
  pose proof Hw as H. rewrite /words_at in H. rewrite /read_status.
  rewrite (H 16%nat v eq_refl : w !! (p + 128) = Some v) (H 17%nat e eq_refl : w !! (p + 136) = Some e)
    (H 18%nat ip eq_refl : w !! (p + 144) = Some ip) (H 19%nat c eq_refl : w !! (p + 152) = Some c)
    (H 20%nat fl eq_refl : w !! (p + 160) = Some fl) (H 21%nat sp eq_refl : w !! (p + 168) = Some sp)
    (H 22%nat s eq_refl : w !! (p + 176) = Some s).
  set g := [_; _; _; _; _; _; _; _; _; _; _; _; _; _; _; _] in H *.
  assert (mapM (λ i, w !! (p + 8 * i)) (seqZ 0 16) = Some g) as ->; [|done].
  apply mapM_Some. apply Forall2_same_length_lookup. split; [done|]. intros i x y Hx Hy.
  apply lookup_seqZ in Hx as [-> Hi]. rewrite Z.add_0_l. apply H. rewrite /status_words.
  by apply lookup_app_l_Some.
Qed.

(** [resume] loads a frame. *)
Definition loaded (f : cpu_status) (m : mach) : mach :=
  mkMach (<[RSP := st_rsp f]> (general_purpose_registers f)) (st_rip f) (st_cs f) (st_rflags f) (st_ss f)
    (stack m).

Lemma pop_ok m sp v :
  reg m RSP = sp → stack m !! sp = Some v → pop m = Ok (v, set_reg RSP (u64 (sp + 8)) m).
Proof. intros <- Hv. by rewrite /pop Hv. Qed.

Definition insert_all (ivs : list (nat * Z)) (g : list Z) : list Z :=
  foldl (λ g iv, <[iv.1 := iv.2]> g) g ivs.

Definition set_gpr (g : list Z) (m : mach) : mach :=
  mkMach g (m_rip m) (m_cs m) (m_rflags m) (m_ss m) (stack m).

Lemma insert_all_rsp ivs g v :
  Forall (λ iv, iv.1 ≠ RSP) ivs → insert_all ivs (<[RSP := v]> g) = <[RSP := v]> (insert_all ivs g).
Proof.
  intros Hi. revert g. induction Hi as [|[i x] ivs Hi _ IH]; intros g; [done|]. simpl.
  rewrite list_insert_insert_ne; [|done]. by apply IH.
Qed.

Lemma pop_regs_ok ivs m q :
  Forall (λ iv, iv.1 ≠ RSP) ivs → length (gpr m) = 16%nat → reg m RSP = q → 0 ≤ q →
  q + 8 * Z.of_nat (length ivs) < 2 ^ 64 → words_at (stack m) q ivs.*2 →
  pop_regs ivs.*1 m = Ok (tt, set_gpr (insert_all ivs (<[RSP := q + 8 * Z.of_nat (length ivs)]> (gpr m))) m).
Proof.
  intros Hi. revert m q. induction Hi as [|[i x] ivs Hi Hivs IH]; intros m q Hl Hq H0 Hb Hw.
  { simpl. rewrite Z.mul_0_r Z.add_0_r -Hq. destruct m as [g ? ? ? ? ?]. rewrite /reg /=. simpl in Hl.
    rewrite /ret. do 3 f_equal. destruct (g !! RSP) eqn:E; [by rewrite list_insert_id|].
    apply lookup_ge_None in E. rewrite Hl /RSP in E. lia. }
  cbn [fmap list_fmap pop_regs fst snd length] in *. rewrite /pop_reg /bind.
  rewrite (pop_ok m q x Hq); [|by rewrite -(Hw 0%nat x eq_refl) Z.mul_0_r Z.add_0_r]. rewrite /modify.
  rewrite u64_small; [|lia]. rewrite (IH _ (q + 8)).
  - rewrite /set_gpr /set_reg /=. do 3 f_equal. rewrite list_insert_insert_ne; [|done].
    rewrite list_insert_insert_eq. do 3 f_equal. lia.
  - by rewrite /= !length_insert.
  - rewrite reg_set_ne // reg_set_eq //. rewrite Hl /RSP. lia.
  - lia.
  - lia.
  - intros j y Hj. rewrite -(Hw (S j) y Hj). simpl. f_equal. lia.
Qed.

Lemma words_at_sub w p l (k n : nat) :
  words_at w p l → words_at w (p + 8 * Z.of_nat k) (take n (drop k l)).
Proof.
  intros H i x Hi. apply lookup_take_Some in Hi as [Hi _]. rewrite lookup_drop in Hi.
  apply H in Hi. rewrite -Hi. f_equal. lia.
Qed.

Lemma set_reg_rsp m v w : set_reg RSP v (set_reg RSP w m) = set_reg RSP v m.
Proof. rewrite /set_reg /=. by rewrite list_insert_insert_eq. Qed.

Lemma set_reg_self m : length (gpr m) = 16%nat → set_reg RSP (reg m RSP) m = m.
Proof.
  intros Hl. destruct m as [g ? ? ? ? ?]. rewrite /set_reg /reg /=. f_equal. simpl in Hl.
  destruct (g !! RSP) eqn:E; [by rewrite list_insert_id|]. apply lookup_ge_None in E. rewrite Hl /RSP in E. lia.
Qed.

Lemma pop_at m q v :
  length (gpr m) = 16%nat → 0 ≤ q → q + 8 < 2 ^ 64 → stack m !! q = Some v →
  pop (set_reg RSP q m) = Ok (v, set_reg RSP (q + 8) m).
Proof.
  intros Hl H0 Hq Hv. rewrite (pop_ok _ q v); [|rewrite reg_set_eq //; rewrite Hl /RSP; lia|done].
  rewrite set_reg_rsp u64_small //. lia.
Qed.

Lemma iretq_ok m q ip c f sp s :
  length (gpr m) = 16%nat → 0 ≤ q → q + 40 < 2 ^ 64 → words_at (stack m) q [ip; c; f; sp; s] →
  iretq (set_reg RSP q m) = Ok (tt, mkMach (<[RSP := sp]> (gpr m)) ip c f s (stack m)).
Proof.
  intros Hl H0 Hb Hw. rewrite /iretq /bind.
  assert (∀ (i : nat) x, [ip; c; f; sp; s] !! i = Some x →
    pop (set_reg RSP (q + 8 * Z.of_nat i) m) = Ok (x, set_reg RSP (q + 8 * Z.of_nat (S i)) m)) as Hpop.
  { intros i x Hi. assert (i < 5)%nat by (apply lookup_lt_Some in Hi; simpl in Hi; lia).
    rewrite (pop_at m _ x Hl); [|lia|lia|by apply Hw]. do 3 f_equal. lia. }
  rewrite -{1}(Z.add_0_r q) (Hpop 0%nat ip eq_refl : pop (set_reg RSP (q + 0) m) = _).
  rewrite (Hpop 1%nat c eq_refl) (Hpop 2%nat f eq_refl) (Hpop 3%nat sp eq_refl) (Hpop 4%nat s eq_refl).
  rewrite /modify /=. by rewrite list_insert_insert_eq.
Qed.

(** What [mov rsp, rax] and the instructions after it load. *)
Lemma resume_ok m p f :
  length (gpr m) = 16%nat → length (general_purpose_registers f) = 16%nat → 0 ≤ p → p + 184 < 2 ^ 64 →
  words_at (stack m) p (status_words f) → resume p m = Ok (tt, loaded f m).
Proof.
  intros Hl Hg H0 Hb Hw. destruct f as [g v e ip c fl sp s]. cbn [general_purpose_registers] in Hg.
  destruct m as [h mip mc mf ms w]. cbn [gpr stack] in Hl, Hw.
  do 16 (destruct g as [|? g]; [discriminate Hg|]). destruct g; [|discriminate Hg].
  do 16 (destruct h as [|? h]; [discriminate Hl|]). destruct h; [|discriminate Hl].
  pose proof (words_at_sub _ _ _ 0 6 Hw) as W1. pose proof (words_at_sub _ _ _ 7 9 Hw) as W2.
  pose proof (words_at_sub _ _ _ 18 5 Hw) as W3. clear Hw.
  rewrite Z.mul_0_r Z.add_0_r in W1. cbn [status_words general_purpose_registers vector_number error_code
    st_rip st_cs st_rflags st_rsp st_ss app take drop] in W1, W2, W3.
  pose (iv1 := [(0%nat, z); (1%nat, z0); (2%nat, z1); (3%nat, z2); (4%nat, z3); (5%nat, z4)]).
  pose (iv2 := [(7%nat, z6); (8%nat, z7); (9%nat, z8); (10%nat, z9); (11%nat, z10); (12%nat, z11);
                (13%nat, z12); (14%nat, z13); (15%nat, z14)]).
  pose (M1 := λ q, mkMach [z15; z16; z17; z18; z19; z20; q; z22; z23; z24; z25; z26; z27; z28; z29; z30]
                     mip mc mf ms w).
  pose (M2 := λ q, mkMach [z; z0; z1; z2; z3; z4; q; z22; z23; z24; z25; z26; z27; z28; z29; z30]
                     mip mc mf ms w).
  pose (M3 := λ q, mkMach [z; z0; z1; z2; z3; z4; q; z6; z7; z8; z9; z10; z11; z12; z13; z14]
                     mip mc mf ms w).
  assert (pop_regs iv1.*1 (M1 p) = Ok (tt, M2 (p + 48))) as E1.
  { apply (pop_regs_ok iv1 (M1 p) p); [by repeat constructor|done|done|done|cbn; lia|done]. }
  assert (pop_regs iv2.*1 (M2 (p + 56)) = Ok (tt, M3 (p + 56 + 72))) as E2.
  { apply (pop_regs_ok iv2 (M2 (p + 56)) (p + 56)); [by repeat constructor|done|done|lia|cbn; lia|done]. }
  rewrite /resume (bind_run (modify (set_reg RSP p)) _ _ tt (M1 p)); [|reflexivity].
  rewrite (bind_run _ _ _ tt _ E1).
  rewrite (bind_run (modify _) _ _ tt (M2 (p + 56))).
  2:{ change (modify (λ m, set_reg RSP (u64 (reg m RSP + 8)) m) (M2 (p + 48))) with
        (Ok (tt, M2 (u64 (p + 48 + 8))) : res (unit * mach)). rewrite u64_small; [|lia]. do 3 f_equal. lia. }
  rewrite (bind_run _ _ _ tt _ E2).
  rewrite (bind_run (modify _) _ _ tt (set_reg RSP (p + 144) (M3 0))).
  2:{ change (modify (λ m, set_reg RSP (u64 (reg m RSP + 0x10)) m) (M3 (p + 56 + 72))) with
        (Ok (tt, set_reg RSP (u64 (p + 56 + 72 + 16)) (M3 0)) : res (unit * mach)).
      rewrite u64_small; [|lia]. do 3 f_equal. lia. }
  by rewrite (iretq_ok (M3 0) (p + 144) ip c fl sp s); [|done|lia|lia|exact W3].
Qed.

(** ** Theorems *)

(** The registers of [m] are loaded. *)
Definition resumed (m m' : mach) : Prop :=
  gpr m' = gpr m ∧ m_rip m' = m_rip m ∧ m_cs m' = m_cs m ∧ m_rflags m' = m_rflags m ∧ m_ss m' = m_ss m.

Lemma loaded_resumed v err m m1 : mach_wf m → resumed m (loaded (frame_of v err m) m1).
Proof.
  intros [Hl _]. split; [|done]. rewrite /loaded /= /saved_gprs list_insert_insert_eq.
  pose proof (set_reg_self m Hl) as E. rewrite /set_reg in E. by destruct m; injection E.
Qed.

Lemma stack_loaded f m : stack (loaded f m) = stack m.
Proof. done. Qed.

Lemma frame_gprs v err m : mach_wf m → length (general_purpose_registers (frame_of v err m)) = 16%nat.
Proof. intros [Hl _]. by rewrite /= /saved_gprs length_insert. Qed.

Lemma frame_words_length v err m : mach_wf m → length (status_words (frame_of v err m)) = 23%nat.
Proof. intros Hwf. by apply status_length, frame_gprs. Qed.

Lemma frame_ptr_range m : mach_wf m → 0 ≤ frame_ptr m ∧ frame_ptr m + 184 < 2 ^ 64.
Proof. intros [_ Hsp]. rewrite /frame_ptr /stack_top. lia. Qed.

(** Where the frame of an interruption is. *)
Lemma entered_frame v err m :
  mach_wf m → error_code_agrees v err →
  let m1 := entered v err m in
  length (gpr m1) = 16%nat ∧ reg m1 RSP = frame_ptr m ∧
  words_at (stack m1) (frame_ptr m) (status_words (frame_of v err m)) ∧
  (∀ a, ¬ frame_ptr m ≤ a < stack_top m → stack m1 !! a = stack m !! a).
Proof.
  intros Hwf Herr m1. pose proof (entered_ok v err m Hwf Herr) as Hp. fold m1 in Hp.
  pose proof (frame_words_length v err m Hwf) as Hlen.
  assert (stack_top m - 8 * Z.of_nat (length (status_words (frame_of v err m))) = frame_ptr m) as E.
  { rewrite Hlen /frame_ptr. lia. }
  pose proof (pushed_rsp _ _ _ _ (proj1 Hwf) Hp) as Hsp. destruct Hp as [Hg Hw Hr _]. rewrite E in Hsp, Hw, Hr.
  split; [by rewrite Hg length_insert; apply Hwf|]. done.
Qed.

(** What an interrupt does, given the frame its handler returns. *)
Lemma interrupt_ok {K} (handler : Z → cpu_status → M K Z) v err m k p k' f :
  mach_wf m → error_code_agrees v err →
  handler (frame_ptr m) (frame_of v err m) k = Ok (p, k') →
  length (general_purpose_registers f) = 16%nat → 0 ≤ p → p + 184 < 2 ^ 64 →
  words_at (stack (entered v err m)) p (status_words f) →
  interrupt handler v err (m, k) = Ok (tt, (loaded f (entered v err m), k')).
Proof.
  intros Hwf Herr Hh Hf Hp0 Hp1 Hw. destruct (entered_frame v err m Hwf Herr) as (Hl & Hsp & Hfr & _).
  rewrite /interrupt. cbn [fst snd]. cbv zeta. rewrite Hsp (read_status_ok _ _ _ (frame_gprs v err m Hwf) Hfr) Hh.
  by rewrite (resume_ok _ p f Hl Hf Hp0 Hp1 Hw).
Qed.

(** Returning to the interrupted code. *)
Lemma interrupt_same {K} (handler : Z → cpu_status → M K Z) v err m k k' :
  mach_wf m → error_code_agrees v err →
  handler (frame_ptr m) (frame_of v err m) k = Ok (frame_ptr m, k') →
  ∃ m', interrupt handler v err (m, k) = Ok (tt, (m', k')) ∧ resumed m m' ∧
    ∀ a, stack_top m ≤ a → stack m' !! a = stack m !! a.
Proof.
  intros Hwf Herr Hh. destruct (entered_frame v err m Hwf Herr) as (_ & _ & Hfr & Hrest).
  pose proof (frame_ptr_range m Hwf) as [H0 H1].
  exists (loaded (frame_of v err m) (entered v err m)). split; [|split].
  - exact (interrupt_ok handler v err m k (frame_ptr m) k' (frame_of v err m) Hwf Herr Hh
      (frame_gprs v err m Hwf) H0 H1 Hfr).
  - exact (loaded_resumed v err m _ Hwf).
  - intros a Ha. rewrite stack_loaded. apply Hrest. rewrite /frame_ptr. clear -Ha. lia.
Qed.

(** C10: Interrupts save and restore contexts exactly. The handler sees the registers, vector,
    error code and return frame of the interrupted code. If it returns the same context,
    that code continues with every register as it was and the stack above untouched; if
    it returns the context of code interrupted earlier, whose frame is still on its stack,
    that code continues with every register as it was when it was interrupted. *)
Theorem interrupt_resumes {K} (handler : Z → cpu_status → M K Z) vA errA mA vB errB mB k p k' :
  mach_wf mA → mach_wf mB → error_code_agrees vB errB →
  handler (frame_ptr mB) (frame_of vB errB mB) k = Ok (p, k') →
  (p = frame_ptr mB →
   ∃ m', interrupt handler vB errB (mB, k) = Ok (tt, (m', k')) ∧ resumed mB m' ∧
     ∀ a, stack_top mB ≤ a → stack m' !! a = stack mB !! a) ∧
  (p = frame_ptr mA → words_at (stack mB) p (status_words (frame_of vA errA mA)) →
   stack_top mB ≤ p ∨ p + 184 ≤ frame_ptr mB →
   ∃ m', interrupt handler vB errB (mB, k) = Ok (tt, (m', k')) ∧ resumed mA m').
Proof.
  intros HA HB Herr Hh. split; [intros ->; by apply interrupt_same|]. intros -> Hw Hdis.
  destruct (entered_frame vB errB mB HB Herr) as (_ & _ & _ & Hrest).
  pose proof (frame_ptr_range mA HA) as [H0 H1]. pose proof (frame_words_length vA errA mA HA) as Hlen.
  exists (loaded (frame_of vA errA mA) (entered vB errB mB)). split; [|exact (loaded_resumed vA errA mA _ HA)].
  apply (interrupt_ok handler vB errB mB k (frame_ptr mA) k' (frame_of vA errA mA) HB Herr Hh
    (frame_gprs vA errA mA HA) H0 H1).
  intros i x Hi. rewrite Hrest; [by apply Hw|]. apply lookup_lt_Some in Hi. rewrite Hlen in Hi.
  rewrite /frame_ptr in Hdis |- *. lia.
Qed.

(** Two threads: one interrupted by the timer, the other by a yield that switches back. *)
Definition demo_thread (sp ip : Z) (w : gmap Z Z) : mach :=
  mkMach [1; 2; 3; 4; 5; 6; sp; 7; 8; 9; 10; 11; 12; 13; 14; 15] ip 8 0x202 16 w.
Definition demo_A : mach := demo_thread 0x8F38 0x401000 ∅.
Definition demo_B : mach := demo_thread 0xA000 0x402000 (stack (entered 32 None demo_A)).

Lemma demo_thread_stack sp ip w : stack (demo_thread sp ip w) = w.
Proof. reflexivity. Qed.

Lemma interrupt_resumes_witness :
  ∃ m', interrupt (λ _ f, ret (if vector_number f =? 50 then frame_ptr demo_A else 0)) 50 None (demo_B, tt)
    = Ok (tt, (m', tt)) ∧ resumed demo_A m'.
Proof.
  assert (mach_wf demo_A ∧ mach_wf demo_B) as [HA HB].
  { split; (split; [reflexivity|]); vm_compute; (split; [intros Hc; discriminate Hc|reflexivity]). }
  assert (∀ v, error_code_stub v = false → error_code_agrees v None) as Hag.
  { intros v Hv. split; [intros Hc; rewrite Hv in Hc; discriminate Hc|intros [x Hx]; discriminate Hx]. }
  destruct (entered_frame 32 None demo_A HA (Hag 32 eq_refl)) as (_ & _ & Hw & _).
  apply (interrupt_resumes (λ _ f, ret (if vector_number f =? 50 then frame_ptr demo_A else 0))
    32 None demo_A 50 None demo_B tt (frame_ptr demo_A) tt HA HB).
  - apply Hag. vm_compute. reflexivity.
  - reflexivity.
  - reflexivity.
  - rewrite /demo_B demo_thread_stack. exact Hw.
  - right. vm_compute. intros Hc. discriminate Hc.
Defined.

Section dispatch.
Context {S : Type} `{FrameAlloc S}.

End dispatch.

#[local] Existing Instance bump_alloc.


(** A stub that pushes an error code of its own although the processor pushed one (the
    stub of vector 21, on processors with control-flow protection): the handler takes the
    processor's error code for the return address. *)
Lemma double_error_code v e m :
  mach_wf m → error_code_stub v = false →
  let m1 := entered v (Some e) m in
  ∃ f, read_status (reg m1 RSP) (stack m1) = Some f ∧ vector_number f = v ∧ error_code f = 0 ∧ st_rip f = e.
Proof.
  intros [Hl Hsp] Hv m1. set top := stack_top m. assert (0x1F0 ≤ top < 2 ^ 64) as Ht.
  { rewrite /top /stack_top. lia. }
  assert (pushed m top [v; 0; e; m_rip m; m_cs m; m_rflags m; reg m RSP; m_ss m]
    (interrupt_stub v (deliver (Some e) m))) as H1.
  { rewrite /interrupt_stub Hv /deliver. fold (stack_top m) top. cbv zeta.
    do 2 (apply pushed_push; [done|cbn [length]; lia|]).
    assert (∀ l m1, pushed m top l m1 →
      pushed m top l (mkMach (gpr m1) (m_rip m1) (m_cs m1) (Z.clearbit (m_rflags m1) 9) (m_ss m1) (stack m1)))
      as Hfl by (intros l m2 []; by constructor).
    apply Hfl. do 6 (apply pushed_push; [done|cbn [length]; lia|]).
    constructor; simpl; [f_equal; lia|by intros i x Hi|done|done]. }
  apply (save_registers_ok _ _ _ _ Hl) in H1; [|cbn [length]; lia]. fold (entered v (Some e) m) m1 in H1.
  rewrite (pushed_rsp _ _ _ _ Hl H1). destruct H1 as [_ Hw _ _].
  exists (mkStatus (saved_gprs m (top - 8 * Z.of_nat 17)) v 0 e (m_rip m) (m_cs m) (m_rflags m) (reg m RSP)).
  split; [|done]. apply read_status_ok; [by rewrite /= /saved_gprs length_insert|].
  set g := saved_gprs m _ in Hw |- *. assert (length g = 16%nat) as Hg by (by rewrite /g /saved_gprs length_insert).
  intros i x Hi. apply Hw. rewrite /status_words in Hi. cbn [general_purpose_registers vector_number error_code
    st_rip st_cs st_rflags st_rsp st_ss] in Hi.
  change ([v; 0; e; m_rip m; m_cs m; m_rflags m; reg m RSP; m_ss m]) with
    ([v; 0; e; m_rip m; m_cs m; m_rflags m; reg m RSP] ++ [m_ss m]). rewrite app_assoc. by apply lookup_app_l_Some.
Qed.
