(* ===== verification/Acpi.v ===== *)
(** * ACPI tables (drivers/acpi.c)

    The root pointer is checked byte by byte and decides which root table is used; looking
    up a table walks the entries of the root table. Tables are bytes in memory. *)

From Stdlib Require Import Ascii String.
From stdpp Require Import base gmap list numbers.
From S2P Require Import Prelude Hhdm Strings Npf.

(** ** Model *)

(** A little-endian number of [k] bytes. *)
Fixpoint load_le (k : nat) (p : Z) : M bytes Z :=
  match k with
  | O => ret 0
  | S k => b <- load p;; r <- load_le k (p + 1);; ret (b + 256 * r)
  end.

(** Offsets in [struct RSDPDescriptorV2] and [struct ACPISDTHeader]. *)
Definition OFF_Revision : Z := 15.
Definition OFF_RSDTAddress : Z := 16.
Definition OFF_XSDTAddress : Z := 24.
Definition sizeof_RSDPDescriptorV1 : Z := 20.
Definition sizeof_RSDPDescriptorV2 : Z := 36.
Definition OFF_Length : Z := 4.
Definition sizeof_ACPISDTHeader : Z := 36.

(** The static variables, and the memory. *)
Record acpi_state := mkAcpi {
  ac_mem : bytes;
  useXSDT : bool;
  rsdt : Z;
  xsdt : Z;
}.
Definition acpi_start (m : bytes) : acpi_state := mkAcpi m false 0 0.

Definition on_bytes {A} (m : M bytes A) : M acpi_state A := λ s,
  match m (ac_mem s) with
  | Ok (a, m') => Ok (a, mkAcpi m' (useXSDT s) (rsdt s) (xsdt s))
  | Err f => Err f
  end.

Fixpoint sum_loop (k : nat) (p i sum : Z) : M bytes Z :=
  match k with
  | O => ret sum
  | S k => b <- load (p + i);; sum_loop k p (i + 1) (u32 (sum + b))
  end.
Definition validate_checksum (byte_array size : Z) : M bytes bool :=
  sum <- sum_loop (Z.to_nat size) byte_array 0 0;; ret (Z.land sum 0xFF =? 0).

(** [rsdp] is the address the bootloader gave, [lit_sig] that of the literal
    [RSDP_SIGNATURE], [offset] the offset of the direct map. *)
Definition acpi_init (offset lit_sig rsdp : Z) : M acpi_state unit :=
  c <- on_bytes (strncmp rsdp lit_sig 8);;
  if negb (c =? 0) then fail Halt
  else
    ok <- on_bytes (validate_checksum rsdp sizeof_RSDPDescriptorV1);;
    if negb ok then fail Halt
    else
      revision <- on_bytes (load (rsdp + OFF_Revision));;
      xaddr <- (if 2 <=? revision then on_bytes (load_le 8 (rsdp + OFF_XSDTAddress)) else ret 0);;
      if (2 <=? revision) && negb (xaddr =? 0) then
        ok <- on_bytes (validate_checksum rsdp sizeof_RSDPDescriptorV2);;
        if negb ok then fail Halt
        else modify (λ s, mkAcpi (ac_mem s) true (rsdt s) (hhdm_physToVirt offset xaddr))
      else
        raddr <- on_bytes (load_le 4 (rsdp + OFF_RSDTAddress));;
        modify (λ s, mkAcpi (ac_mem s) false (hhdm_physToVirt offset raddr) (xsdt s)).

(** The loop over the entries of the root table. *)
Fixpoint find_loop (k : nat) (offset i signature : Z) : M acpi_state Z :=
  match k with
  | O => ret 0
  | S k =>
      x <- gets useXSDT;;
      tx <- gets xsdt;;
      tr <- gets rsdt;;
      physAddr <- (if x then on_bytes (load_le 8 (tx + sizeof_ACPISDTHeader + 8 * i))
                   else on_bytes (load_le 4 (tr + sizeof_ACPISDTHeader + 4 * i)));;
      let currentTable := hhdm_physToVirt offset physAddr in
      c <- on_bytes (strncmp currentTable signature 4);;
      if c =? 0 then ret currentTable else find_loop k offset (i + 1) signature
  end.

Definition acpi_find_table (offset signature : Z) : M acpi_state Z :=
  tr <- gets rsdt;;
  tx <- gets xsdt;;
  if (tr =? 0) || (tx =? 0) then ret 0
  else
    x <- gets useXSDT;;
    numEntries <- (if x then n <- on_bytes (load_le 4 (tx + OFF_Length));;
                             ret (u64 (n - sizeof_ACPISDTHeader) / 8)
                   else n <- on_bytes (load_le 4 (tr + OFF_Length));;
                        ret (u64 (n - sizeof_ACPISDTHeader) / 4));;
    find_loop (Z.to_nat numEntries) offset 0 signature.

(** ** Specification *)

(** The number the bytes stand for. *)
Fixpoint le_number (bs : list Z) : Z :=
  match bs with [] => 0 | b :: bs => b + 256 * le_number bs end.

(** The sum of bytes is a multiple of 256. *)
Definition checksum_ok (bs : list Z) : bool := foldr Z.add 0 bs mod 256 =? 0.

(** The fields of a root pointer of 36 bytes. *)
Definition f_signature (bs : list Z) : list Z := take 8 bs.
Definition f_revision (bs : list Z) : Z := default 0 (bs !! 15%nat).
Definition f_rsdt (bs : list Z) : Z := le_number (take 4 (drop 16 bs)).
Definition f_xsdt (bs : list Z) : Z := le_number (take 8 (drop 24 bs)).

Definition uses_xsdt (bs : list Z) : bool := (2 <=? f_revision bs) && negb (f_xsdt bs =? 0).

(** The root pointers the kernel accepts. *)
Definition rsdp_valid (bs : list Z) : bool :=
  bool_decide (f_signature bs = str "RSD PTR ") && checksum_ok (take 20 bs) &&
  (negb (uses_xsdt bs) || checksum_ok bs).

Lemma bytes_at_sub m p bs k n :
  bytes_at m p bs → bytes_at m (p + Z.of_nat k) (take n (drop k bs)).
Proof.
  intros H i b Hi. apply lookup_take_Some in Hi as [Hi _]. rewrite lookup_drop in Hi.
  apply H in Hi. rewrite -Hi. f_equal. lia.
Qed.

Lemma bytes_at_cons m p b bs : bytes_at m p (b :: bs) → m !! p = Some b ∧ bytes_at m (p + 1) bs.
Proof.
  intros H. split; [rewrite -(H 0%nat b eq_refl); f_equal; lia|].
  intros i c Hi. rewrite -(H (S i) c Hi). f_equal. lia.
Qed.

Lemma load_le_ok m p bs : bytes_at m p bs → load_le (List.length bs) p m = Ok (le_number bs, m).
Proof.
  revert p. induction bs as [|b bs IH]; intros p H; [done|].
  apply bytes_at_cons in H as [Hb H]. cbn [List.length load_le le_number].
  by rewrite /bind (load_ok _ _ _ Hb) (IH _ H).
Qed.

Lemma sum_loop_ok m p bs i sum :
  bytes_at m (p + i) bs → sum_loop (List.length bs) p i sum m = Ok (if bool_decide (bs = []) then sum
    else u32 (sum + foldr Z.add 0 bs), m).
Proof.
  revert i sum. induction bs as [|b bs IH]; intros i sum H; [done|].
  apply bytes_at_cons in H as [Hb H]. cbn [List.length sum_loop]. rewrite /bind (load_ok _ _ _ Hb).
  rewrite IH; [|by replace (p + (i + 1)) with (p + i + 1) by lia]. do 2 f_equal. cbn [foldr].
  case_bool_decide as E; [subst bs; simpl; f_equal; lia|].
  rewrite /u32 Zplus_mod_idemp_l. f_equal. lia.
Qed.

Lemma validate_checksum_ok m p bs :
  bytes_at m p bs → validate_checksum p (Z.of_nat (List.length bs)) m = Ok (checksum_ok bs, m).
Proof.
  intros H. rewrite /validate_checksum /bind Nat2Z.id sum_loop_ok; [|by rewrite Z.add_0_r].
  rewrite /ret /checksum_ok. do 3 f_equal. change 0xFF with (Z.ones 8). rewrite Z.land_ones; [|lia].
  case_bool_decide as E; [by subst bs|]. rewrite Z.add_0_l /u32.
  by rewrite Z.mod_mod_divide; [|exists (2 ^ 24)].
Qed.

(** [strncmp] on arrays without a terminator. *)
Lemma strncmp_bytes m p1 p2 l1 l2 :
  bytes_at m p1 l1 → bytes_at m p2 l2 → List.length l1 = List.length l2 → Forall (λ b, b ≠ 0) l2 →
  ∃ r, strncmp p1 p2 (Z.of_nat (List.length l2)) m = Ok (r, m) ∧ (r = 0 ↔ l1 = l2).
Proof.
  rewrite /strncmp Nat2Z.id. revert p1 p2 l1. induction l2 as [|b l2 IH]; intros p1 p2 l1 H1 H2 Hl Hnz.
  { destruct l1; [|done]. by exists 0. }
  destruct l1 as [|a l1]; [done|]. apply bytes_at_cons in H1 as [Ha H1]. apply bytes_at_cons in H2 as [Hb H2].
  apply Forall_cons in Hnz as [Hb0 Hnz]. cbn [List.length strncmp_loop].
  rewrite /bind (load_ok _ _ _ Ha) (load_ok _ _ _ Hb). destruct (Z.eqb_spec a b) as [->|Hne]; cbn [negb].
  - rewrite (proj2 (Z.eqb_neq b 0) Hb0). destruct (IH (p1 + 1) (p2 + 1) l1) as (r & E & Hr);
      [done|done|by injection Hl|done|]. exists r. split; [exact E|]. rewrite Hr. split; congruence.
  - exists (a - b). split; [done|]. split; [lia|congruence].
Qed.

Section acpi.
Context (m : bytes) (offset lit_sig rsdp : Z) (bs : list Z).
Context (Hlit : bytes_at m lit_sig (str "RSD PTR ")) (Hbs : bytes_at m rsdp bs) (Hlen : List.length bs = 36%nat).

Lemma on_bytes_ok {A} (c : M bytes A) x s m' :
  c (ac_mem s) = Ok (x, m') → on_bytes c s = Ok (x, mkAcpi m' (useXSDT s) (rsdt s) (xsdt s)).
Proof. rewrite /on_bytes. by intros ->. Qed.

Lemma on_bytes_start {A} (c : M bytes A) x : c m = Ok (x, m) → on_bytes c (acpi_start m) = Ok (x, acpi_start m).
Proof. intros E. by rewrite (on_bytes_ok c x _ m). Qed.

(** Which of the two pointers [acpi_init] sets, and to what. *)
Definition acpi_after : acpi_state :=
  if uses_xsdt bs then mkAcpi m true 0 (hhdm_physToVirt offset (f_xsdt bs))
  else mkAcpi m false (hhdm_physToVirt offset (f_rsdt bs)) 0.

Lemma revision_byte : m !! (rsdp + 15) = Some (f_revision bs).
Proof.
  destruct (lookup_lt_is_Some_2 bs 15) as [b Hb]; [lia|]. rewrite /f_revision Hb /=. by apply Hbs in Hb.
Qed.

(** [acpi_init] halts unless the root pointer has the right signature and checksums;
    otherwise it takes the address of the 64-bit root table if the revision has one, and
    of the 32-bit one if not, read back from the bytes of the structure. *)
Lemma acpi_init_ok :
  acpi_init offset lit_sig rsdp (acpi_start m) = if rsdp_valid bs then Ok (tt, acpi_after) else Err Halt.
Proof.
  rewrite /acpi_init /rsdp_valid.
  pose proof (bytes_at_sub m rsdp bs 0 8 Hbs) as H8. rewrite Z.add_0_r drop_0 in H8.
  pose proof (bytes_at_sub m rsdp bs 0 20 Hbs) as H20. rewrite Z.add_0_r drop_0 in H20.
  pose proof (bytes_at_sub m rsdp bs 16 4 Hbs) as Hr. pose proof (bytes_at_sub m rsdp bs 24 8 Hbs) as Hx.
  destruct (strncmp_bytes m rsdp lit_sig (take 8 bs) (str "RSD PTR ") H8 Hlit) as (c & Ec & Hc).
  { by rewrite length_take Hlen. }
  { apply (bool_decide_unpack _). vm_compute. exact I. }
  rewrite {1}/bind (on_bytes_start _ _ Ec). rewrite /f_signature.
  destruct (Z.eqb_spec c 0) as [->|Hne]; cbn [negb].
  2:{ rewrite bool_decide_false; [done|]. intros E. by apply Hne, Hc. }
  rewrite (bool_decide_true (take 8 bs = _)); [|by apply Hc]. cbn [andb].
  pose proof (validate_checksum_ok m rsdp _ H20) as E20. rewrite length_take Hlen in E20.
  rewrite {1}/bind (on_bytes_start _ _ E20). destruct (checksum_ok (take 20 bs)); cbn [negb andb]; [|done].
  rewrite {1}/bind (on_bytes_start _ _ (load_ok _ _ _ revision_byte)).
  pose proof (load_le_ok m _ _ Hx) as Ex. rewrite length_take length_drop Hlen in Ex.
  pose proof (load_le_ok m _ _ Hr) as Er. rewrite length_take length_drop Hlen in Er.
  pose proof (validate_checksum_ok m rsdp bs Hbs) as E36. rewrite Hlen in E36.
  rewrite /uses_xsdt /acpi_after /uses_xsdt. destruct (2 <=? f_revision bs); cbn [andb].
  - rewrite {1}/bind (on_bytes_start _ _ Ex). fold (f_xsdt bs). destruct (f_xsdt bs =? 0); cbn [negb orb].
    + rewrite {1}/bind (on_bytes_start _ _ Er). done.
    + rewrite {1}/bind (on_bytes_start _ _ E36). by destruct (checksum_ok bs).
  - rewrite {1}/bind {1}/ret. rewrite {1}/bind (on_bytes_start _ _ Er). done.
Qed.
End acpi.

(** ** Theorems *)

(** A revision 2 root pointer, with root tables at 0x7FE1000 and 0x7FE2000. *)
Definition demo_rsdp : list Z :=
  str "RSD PTR " ++ [0x3B] ++ str "BOCHS " ++ [2; 0x00; 0x10; 0xFE; 0x07;
    36; 0; 0; 0; 0x00; 0x20; 0xFE; 0x07; 0; 0; 0; 0; 0xB7; 0; 0; 0].
Definition demo_acpi : bytes := write_bytes 0x100 (str "RSD PTR ") (write_bytes 0x200 demo_rsdp ∅).

Lemma demo_literal : bytes_at demo_acpi 0x100 (str "RSD PTR ").
Proof.
  intros i b Hi. pose proof (lookup_lt_Some _ _ _ Hi) as Hl. change (i < 8)%nat in Hl.
  rewrite /demo_acpi write_bytes_lookup decide_True; [|simpl; lia].
  by replace (Z.to_nat (0x100 + Z.of_nat i - 0x100)) with i by lia.
Qed.

Lemma demo_pointer : bytes_at demo_acpi 0x200 demo_rsdp.
Proof.
  intros i b Hi. pose proof (lookup_lt_Some _ _ _ Hi) as Hl. change (i < 36)%nat in Hl.
  rewrite /demo_acpi write_bytes_lookup decide_False; [|simpl; lia].
  rewrite write_bytes_lookup decide_True; [|simpl; lia].
  by replace (Z.to_nat (0x200 + Z.of_nat i - 0x200)) with i by lia.
Qed.

(** C37: No table is ever found. [acpi_init] sets one of the two root pointers, while
    [acpi_find_table] gives up unless both are set: after initialisation it returns NULL
    for every signature, whatever the tables contain. *)
Theorem acpi_find_table_null m offset lit_sig rsdp bs signature s :
  bytes_at m lit_sig (str "RSD PTR ") → bytes_at m rsdp bs → List.length bs = 36%nat →
  acpi_init offset lit_sig rsdp (acpi_start m) = Ok (tt, s) →
  acpi_find_table offset signature s = Ok (0, s).
Proof.
  intros Hlit Hbs Hlen E. rewrite (acpi_init_ok m offset lit_sig rsdp bs Hlit Hbs Hlen) in E.
  destruct (rsdp_valid bs); [|done]. injection E as <-. rewrite /acpi_after /acpi_find_table.
  destruct (uses_xsdt bs); rewrite /bind /gets /=; [done|]. by rewrite orb_true_r.
Qed.

Lemma acpi_find_table_null_witness :
  acpi_find_table 0xFFFF800000000000 0x100 (mkAcpi demo_acpi true 0 0xFFFF800007FE2000) =
    Ok (0, mkAcpi demo_acpi true 0 0xFFFF800007FE2000).
Proof.
  apply (acpi_find_table_null demo_acpi 0xFFFF800000000000 0x100 0x200 demo_rsdp 0x100).
  - exact demo_literal.
  - exact demo_pointer.
  - reflexivity.
  - vm_compute. reflexivity.
Defined.
