(* ===== verification/Lapic.v ===== *)
(** * The local APIC and machine registers (drivers/lapic.c, cpu.c)

    The registers of the local APIC are memory: [lapic_initialize] maps them into the
    kernel's address space, and an access goes through the MMU to the device. *)

From stdpp Require Import base gmap list numbers.
From S2P Require Import Prelude Spinlock Hhdm Pmm PmmSpec FrameAlloc Paging PagingSpec PagingInit PagingThms.
From S2P Require Import Kheap KheapSpec KheapMem KheapThms Vmm VmmSpec VmmInv VmmThms Mmio Interrupts.

(** ** Model *)

(** Devices that answer at physical addresses, 32 bits at a time. *)
Class MmioDevice (D : Type) := {
  mmio_read : Z → D → Z * D;
  mmio_write : Z → Z → D → D;
}.

(** What the instructions [cpuid], [rdmsr] and [wrmsr] work on. *)
Record machine_regs := mkRegs {
  cpuid_leaf : Z → Z → Z * Z * Z * Z;    (** eax, ebx, ecx, edx *)
  msr : gmap Z Z;                        (** 64 bits each *)
}.

Definition MSR_IA32_APIC_BASE : Z := 0x1B.
Definition CPUID_LAPIC_LEAF : Z := 0x1.
Definition APIC_BASE_MASK : Z := 0xFFFFFFFFFFFFF000.
Definition APIC_ENABLE_BIT : Z := 0x100.
Definition LAPIC_REG_SPURIOUS : Z := 0x0F0.
Definition LAPIC_REG_EOI : Z := 0x00B0.

(** [rdmsr] leaves the two halves of the register in EAX and EDX; reading a register that
    does not exist is an exception. *)
Definition cpu_rdmsr (msr_index : Z) : M machine_regs Z :=
  v <- reads (λ s, msr s !! u32 msr_index);;
  let low := u32 v in
  let high := u32 (Z.shiftr v 32) in
  ret (Z.lor (Z.shiftl high 32) low).

Definition cpu_wrmsr (msr_index value : Z) : M machine_regs unit :=
  let low := u32 (Z.land value 0xFFFFFFFF) in
  let high := u32 (Z.shiftr value 32) in
  modify (λ s, mkRegs (cpuid_leaf s) (<[u32 msr_index := Z.lor (Z.shiftl high 32) low]> (msr s))).

Definition cpu_cpuid (leaf subleaf : Z) : M machine_regs (Z * Z * Z * Z) :=
  gets (λ s, cpuid_leaf s (u32 leaf) (u32 subleaf)).

Section lapic.
Context {S D : Type} `{FrameAlloc S, !MmioDevice D}.

Record lapic_state := mkLapic {
  lp_vmm : vmm_state S;
  lp_regs : machine_regs;
  lp_dev : D;
  lapic_MMIO : Z;
}.

Definition on_vmm {A} (m : M (vmm_state S) A) : M lapic_state A := λ s,
  match m (lp_vmm s) with
  | Ok (a, v) => Ok (a, mkLapic v (lp_regs s) (lp_dev s) (lapic_MMIO s))
  | Err e => Err e
  end.
Definition on_regs {A} (m : M machine_regs A) : M lapic_state A := λ s,
  match m (lp_regs s) with
  | Ok (a, r) => Ok (a, mkLapic (lp_vmm s) r (lp_dev s) (lapic_MMIO s))
  | Err e => Err e
  end.
Definition with_mmio (p : Z) (s : lapic_state) : lapic_state := mkLapic (lp_vmm s) (lp_regs s) (lp_dev s) p.
Definition with_dev (d : D) (s : lapic_state) : lapic_state := mkLapic (lp_vmm s) (lp_regs s) d (lapic_MMIO s).

Definition tables (s : lapic_state) : paging_state S := paging (heap (lp_vmm s)).

Definition lapic_write (reg value : Z) : M lapic_state unit :=
  p <- reads (λ s, translate (tables s) true (u64 (lapic_MMIO s + u32 reg)));;
  modify (λ s, with_dev (mmio_write p (u32 value) (lp_dev s)) s).

Definition lapic_read (reg : Z) : M lapic_state Z := λ s,
  match translate (tables s) false (u64 (lapic_MMIO s + u32 reg)) with
  | Some p => let '(v, d) := mmio_read p (lp_dev s) in Ok (u32 v, with_dev d s)
  | None => Err Undef
  end.

Definition lapic_initialize : M lapic_state unit :=
  r <- on_regs (cpu_cpuid CPUID_LAPIC_LEAF 0);;
  let cpuidResult := u32 r.2 in
  if Z.land cpuidResult (Z.shiftl 1 9) =? 0 then fail Halt
  else
    lapicMSR <- on_regs (cpu_rdmsr MSR_IA32_APIC_BASE);;
    let phys_lapic_base := Z.land lapicMSR APIC_BASE_MASK in
    k <- on_vmm vmm_get_kernel_vas;;
    p <- on_vmm (vmm_alloc k PAGING_PAGE_SIZE
           (Z.lor (Z.lor (Z.lor VMM_FLAGS_MMIO VMM_FLAGS_READ) VMM_FLAGS_WRITE) VMM_FLAGS_UC)
           phys_lapic_base);;
    modify (with_mmio p);;;
    if p =? 0 then fail Halt
    else lapic_write LAPIC_REG_SPURIOUS (Z.lor SPURIOUS_VECTOR APIC_ENABLE_BIT).

Definition lapic_spurious_isr : M lapic_state unit := ret tt.

Definition lapic_send_EOI : M lapic_state unit := lapic_write LAPIC_REG_EOI 0.
End lapic.
Arguments lapic_state : clear implicits.

(** ** Machine registers *)

Lemma join_halves v : 0 ≤ v < 2 ^ 64 → Z.lor (Z.shiftl (u32 (Z.shiftr v 32)) 32) (u32 v) = v.
Proof.
  intros Hv. apply Z.bits_inj'. intros i Hi. rewrite Z.lor_spec Z.shiftl_spec // /u32.
  rewrite !Z.testbit_mod_pow2; [|lia..]. destruct (Z.ltb_spec i 32); cbn [andb].
  - by rewrite (Z.testbit_neg_r _ (i - 32)) ?andb_false_r; [|lia].
  - rewrite orb_false_r Z.shiftr_spec; [|lia]. replace (i - 32 + 32) with i by lia.
    destruct (Z.ltb_spec (i - 32) 32); [done|]. cbn [andb].
    symmetry. rewrite -(Z.mod_small v (2 ^ 64)) // Z.mod_pow2_bits_high //. lia.
Qed.

Lemma cpu_rdmsr_ok i v s :
  msr s !! i = Some v → 0 ≤ i < 2 ^ 32 → 0 ≤ v < 2 ^ 64 → cpu_rdmsr i s = Ok (v, s).
Proof.
  intros Hv Hi Hr. rewrite /cpu_rdmsr /bind /reads (u32_small i) // Hv /ret. by rewrite join_halves.
Qed.

(** What is written to a register is read back. *)
Lemma msr_roundtrip i v s :
  0 ≤ i < 2 ^ 32 → 0 ≤ v < 2 ^ 64 → ∃ s', (cpu_wrmsr i v;;; cpu_rdmsr i) s = Ok (v, s').
Proof.
  intros Hi Hv. eexists. rewrite {1}/bind /cpu_wrmsr /modify. apply cpu_rdmsr_ok; [|done|done]. cbn [msr].
  rewrite (u32_small i) // lookup_insert_eq. f_equal. change 0xFFFFFFFF with (Z.ones 32).
  rewrite Z.land_ones; [|lia]. rewrite (u32_small (v mod 2 ^ 32)); [by apply join_halves|].
  by apply Z.mod_pos_bound.
Qed.

(** ** The registers in memory *)

Section spec.
Context {S D : Type} `{FrameAllocSpec S, !MmioDevice D}.
Implicit Types s : lapic_state S D.

(** Every register is reachable at its address: the page at [lapic_MMIO] is the page at
    the physical address [b]. *)
Definition lapic_mapped s (b : Z) : Prop :=
  0 ≤ lapic_MMIO s ∧ lapic_MMIO s + PAGING_PAGE_SIZE < 2 ^ 64 ∧
  device_at (tables s) (lapic_MMIO s) PAGING_PAGE_SIZE b.

Lemma lapic_write_ok s b reg value :
  lapic_mapped s b → 0 ≤ reg < PAGING_PAGE_SIZE →
  lapic_write reg value s = Ok (tt, with_dev (mmio_write (b + reg) (u32 value) (lp_dev s)) s).
Proof.
  intros (Hp0 & Hp1 & Ht) Hreg. unfold PAGING_PAGE_SIZE in *.
  rewrite /lapic_write /bind /reads. rewrite (u32_small reg); [|lia].
  rewrite u64_small; [|lia]. by rewrite Ht.
Qed.

Lemma lapic_read_ok s b reg :
  lapic_mapped s b → 0 ≤ reg < PAGING_PAGE_SIZE →
  lapic_read reg s = Ok (u32 (mmio_read (b + reg) (lp_dev s)).1, with_dev (mmio_read (b + reg) (lp_dev s)).2 s).
Proof.
  intros (Hp0 & Hp1 & Ht) Hreg. unfold PAGING_PAGE_SIZE in *.
  rewrite /lapic_read. rewrite (u32_small reg); [|lia].
  rewrite u64_small; [|lia]. rewrite Ht; [|done]. by destruct (mmio_read _ _).
Qed.

Lemma mapped_with_dev s b d : lapic_mapped s b → lapic_mapped (with_dev d s) b.
Proof. done. Qed.

(** The kernel before [lapic_initialize]: a consistent virtual memory manager with room for
    one more area, its tables loaded, and a local APIC at the physical address [b]. *)
Record lapic_ready s W others l a T A n fr lim b : Prop := {
  ly_vm : kernel_vm (lp_vmm s) W others l a T A n fr lim;
  ly_frames : (struct_frames + 3 ≤ n)%nat;
  ly_room : struct_room (lp_vmm s) lim;
  ly_msr : ∃ v, msr (lp_regs s) !! MSR_IA32_APIC_BASE = Some v ∧ 0 ≤ v < 2 ^ 64 ∧
    Z.land v APIC_BASE_MASK = b;
  ly_base : page_addr b ∧ b + PAGING_PAGE_SIZE ≤ 2 ^ 52;
}.

Definition LAPIC_FLAGS : Z := Z.lor (Z.lor (Z.lor VMM_FLAGS_MMIO VMM_FLAGS_READ) VMM_FLAGS_WRITE) VMM_FLAGS_UC.

(** Up to the mapping of the page. *)
Lemma lapic_initialize_run s v b r V' :
  Z.land (u32 (cpuid_leaf (lp_regs s) 1 0).2) (2 ^ 9) ≠ 0 →
  msr (lp_regs s) !! MSR_IA32_APIC_BASE = Some v → 0 ≤ v < 2 ^ 64 → Z.land v APIC_BASE_MASK = b →
  vmm_alloc (kernel_vas (lp_vmm s)) PAGING_PAGE_SIZE LAPIC_FLAGS b (lp_vmm s) = Ok (r, V') →
  lapic_initialize s =
    if r =? 0 then Err Halt
    else lapic_write LAPIC_REG_SPURIOUS (Z.lor SPURIOUS_VECTOR APIC_ENABLE_BIT)
           (mkLapic V' (lp_regs s) (lp_dev s) r).
Proof.
  intros Hne Hv Hv64 Hb Ea. destruct s as [V R d p0]. cbn [lp_regs lp_vmm] in *.
  rewrite /lapic_initialize {1}/bind /on_regs. cbn [lp_regs lp_vmm lp_dev cpu_cpuid gets].
  change (u32 CPUID_LAPIC_LEAF) with 1. change (u32 0) with 0. change (Z.shiftl 1 9) with (2 ^ 9).
  rewrite (proj2 (Z.eqb_neq _ 0) Hne) {1}/bind. cbn [lp_regs lp_vmm].
  rewrite (cpu_rdmsr_ok _ v R Hv) // Hb {1}/bind /on_vmm. cbn [lp_vmm vmm_get_kernel_vas gets].
  rewrite {1}/bind. cbn [lp_vmm]. rewrite -/LAPIC_FLAGS Ea {1}/bind /modify. by destruct (r =? 0).
Qed.

Lemma lapic_initialize_ok s W others l a T A n fr lim b :
  lapic_ready s W others l a T A n fr lim b → Z.land (u32 (cpuid_leaf (lp_regs s) 1 0).2) (2 ^ 9) ≠ 0 →
  (∃ x, VMM_KERNEL_START ≤ x ∧ x + PAGING_PAGE_SIZE ≤ VMM_KERNEL_END + 1 ∧ free_at l x PAGING_PAGE_SIZE) →
  ∃ s' l' a' T' A' n' fr', lapic_initialize s = Ok (tt, s') ∧ let r := lapic_MMIO s' in
    mapped_device (lp_vmm s) W others l T A n fr lim PAGING_PAGE_SIZE b LAPIC_FLAGS r (lp_vmm s') l' a' T' A' n' fr' ∧
    lapic_mapped s' b ∧ lp_dev s' = mmio_write (b + 0xF0) 0x1FF (lp_dev s) ∧
    ∃ e, mmu_walk (mem (tables s')) (cr3 (tables s')) r = Some (Page4K e) ∧
      Z.testbit e 2 = false ∧ Z.testbit e 63 = true ∧
      pat_type (msr_pat (tables s')) (pat_index e) = PAT_TYPE_UC.
Proof.
  intros [K Hn Hroom (v & Hv & Hv64 & Hvb) [Hb Hb52]] Hne Hgap. revert Hgap.
  change PAGING_PAGE_SIZE with (round_up PAGING_PAGE_SIZE). intros Hgap.
  destruct (kernel_alloc_mmio (lp_vmm s) W others l a T A n fr lim PAGING_PAGE_SIZE LAPIC_FLAGS b K)
    as (r & V' & l' & a' & T' & A' & n' & fr' & Ea & HD); [done|done|done|exact Hn|done|apply Hb| |done|].
  { change (round_up PAGING_PAGE_SIZE) with PAGING_PAGE_SIZE. lia. }
  destruct (md_range _ _ _ _ _ _ _ _ _ _ _ _ _ _ _ _ _ _ _ _ HD) as (Hr1 & Hr2 & Hrm).
  rewrite (lapic_initialize_run s v b r V') // (proj2 (Z.eqb_neq r 0)); [|unfold VMM_KERNEL_START in Hr1; lia].
  set s1 := mkLapic V' _ _ r.
  assert (lapic_mapped s1 b) as Hmap.
  { split; [unfold VMM_KERNEL_START in Hr1; cbn; lia|]. split.
    - change (round_up PAGING_PAGE_SIZE) with PAGING_PAGE_SIZE in Hr2. unfold VMM_KERNEL_END in Hr2. cbn. lia.
    - by eapply device_visible. }
  rewrite (lapic_write_ok s1 b) //. eexists _, l', a', T', A', n', fr'. split; [reflexivity|].
  cbv zeta. cbn [lapic_MMIO with_dev s1 lp_vmm lp_dev]. split; [exact HD|]. split; [exact Hmap|]. split; [done|].
  destruct (device_page _ _ _ _ _ _ _ _ _ _ _ _ _ _ _ _ _ _ _ _ HD Hb Hb52 0) as (q & Hq & _ & E); [done|].
  rewrite Z.add_0_r in E. eexists. split; [exact E|]. 
  destruct (device_attributes q LAPIC_FLAGS PTE_CACHE_UC PAT_TYPE_UC Hq) as (H2 & H63 & Huc);
    [reflexivity|do 2 (apply elem_of_cons; right); by left|].
  split; [done|]. split; [done|]. rewrite /tables. cbn [lp_vmm with_dev s1].
  by rewrite (kv_pat _ _ _ _ _ _ _ _ _ _ (md_vm _ _ _ _ _ _ _ _ _ _ _ _ _ _ _ _ _ _ _ _ HD)).
Qed.

(** After [lapic_initialize] the local APIC is usable. Without one, or without a free
    page of kernel addresses, the kernel halts. Otherwise the page of device registers that
    the machine register names is mapped, uncached, writable and never executable, at an
    address that was free; every access of [lapic_write] and [lapic_read] reaches exactly
    the register it names; the only access so far has enabled the spurious vector; no
    other translation has changed (but where the heap grew) and the address spaces, the
    tables and the heap are still well formed. *)
Lemma lapic_initialize_correct s W others l a T A n fr lim b :
  lapic_ready s W others l a T A n fr lim b →
  let edx := u32 (cpuid_leaf (lp_regs s) 1 0).2 in
  (Z.land edx (2 ^ 9) = 0 ∨ (∀ x, VMM_KERNEL_START ≤ x → free_at l x PAGING_PAGE_SIZE → VMM_KERNEL_END ≤ x) →
   lapic_initialize s = Err Halt) ∧
  (Z.land edx (2 ^ 9) ≠ 0 →
   (∃ x, VMM_KERNEL_START ≤ x ∧ x + PAGING_PAGE_SIZE ≤ VMM_KERNEL_END + 1 ∧ free_at l x PAGING_PAGE_SIZE) →
   ∃ s' l' a' T' A' n' fr', lapic_initialize s = Ok (tt, s') ∧ let r := lapic_MMIO s' in
     mapped_device (lp_vmm s) W others l T A n fr lim PAGING_PAGE_SIZE b LAPIC_FLAGS r (lp_vmm s') l' a' T' A' n' fr' ∧
     lapic_mapped s' b ∧ lp_dev s' = mmio_write (b + 0xF0) 0x1FF (lp_dev s) ∧
     ∃ e, mmu_walk (mem (tables s')) (cr3 (tables s')) r = Some (Page4K e) ∧
       Z.testbit e 2 = false ∧ Z.testbit e 63 = true ∧
       pat_type (msr_pat (tables s')) (pat_index e) = PAT_TYPE_UC).
Proof.
  intros R edx. split; [|intros Hne Hgap; by apply (lapic_initialize_ok s W others l a T A n fr lim b)].
  destruct R as [K Hn Hroom (v & Hv & Hv64 & Hvb) [Hb Hb52]].
  change PAGING_PAGE_SIZE with (round_up PAGING_PAGE_SIZE).
  intros Hor. destruct (decide (Z.land edx (2 ^ 9) = 0)) as [H9|Hne].
  { rewrite /lapic_initialize {1}/bind. destruct s as [? [] ? ?]. by rewrite /= -/edx H9. }
  destruct Hor as [?|Hfull]; [done|].
  destruct (kernel_alloc_full _ _ _ _ _ _ _ _ _ _ PAGING_PAGE_SIZE LAPIC_FLAGS b K ltac:(done) Hfull) as [V' Ea].
  by rewrite (lapic_initialize_run s v b 0 V').
Qed.
End spec.

(** ** A concrete machine

    The kernel after [vmm_init] on the machine of VmmThms.v, and a device that records
    what is written to it. *)

#[local] Existing Instance bump_alloc.
#[local] Existing Instance bump_spec.

#[local] Instance recorder : MmioDevice (list (Z * Z)) := {|
  mmio_read _ d := (0, d);
  mmio_write a v d := d ++ [(a, v)];
|}.

Definition demo_regs : machine_regs := mkRegs (λ _ _, (0, 0, 0, 0x200)) {[ MSR_IA32_APIC_BASE := 0xFEE00900 ]}.

Lemma lapic_initialize_correct_witness :
  ∃ (s s' : lapic_state Z (list (Z * Z))), lapic_initialize s = Ok (tt, s') ∧
    lp_dev s' = [(0xFEE000F0, 0x1FF)] ∧ lapic_mapped s' 0xFEE00000.
Proof.
  destruct boot as (h & V & bs & root & T & A & n & B). destruct (boot_vm h V bs root T A n B) as [fr K].
  set s := mkLapic V demo_regs [] 0 : lapic_state Z (list (Z * Z)).
  destruct (lapic_initialize_correct s {[ kernel_vas V := [] ]} [] [] (mkSpace root 0 SPINLOCK_IRQ_INIT) T A n fr
    bare_lim 0xFEE00000) as [_ H].
  - split.
    + exact K.
    + pose proof (bo_frames _ _ _ _ _ _ _ B) as Hn. pose proof frames_for_megabyte as Hm.
      unfold struct_frames, KHEAP_EXTENDING_AMOUNT. clear - Hn Hm. lia.
    + rewrite /struct_room. cbn [lp_vmm s]. rewrite (proj2 (bo_start _ _ _ _ _ _ _ B)). vm_compute. discriminate.
    + exists 0xFEE00900. split; [exact (lookup_singleton_eq _ _)|]. split; [lia|reflexivity].
    + split; [split; [lia|reflexivity]|vm_compute; discriminate].
  - destruct H as (s' & l' & a' & T' & A' & n' & fr' & E & _ & Hm & Hd & _).
    + vm_compute. discriminate.
    + exists VMM_KERNEL_START. split; [exact (Z.le_refl _)|]. split; [vm_compute; discriminate|exact (Forall_nil_2 _)].
    + exists s, s'. split; [exact E|]. split; [exact Hd|exact Hm].
Defined.
