(* ===== verification/Console.v ===== *)
(** * The console (drivers/console.c)

    [console_init] maps the framebuffer write-combining into the kernel's address space
    and hands it to the terminal emulator flanterm, with [kmalloc] and a wrapper of
    [kfree] for its memory. Flanterm is not part of the kernel: it is a parameter, a
    program that may call the two functions it is given. *)

From stdpp Require Import base gmap list numbers.
From S2P Require Import Prelude Spinlock Hhdm FrameAlloc Paging PagingSpec PagingInit PagingThms.
From S2P Require Import Kheap KheapSpec KheapMem KheapThms Vmm VmmSpec VmmInv VmmThms Mmio Npf Serial.

(** ** Code that is handed an allocator *)

(** What such code does as seen from the kernel: a tree of calls. *)
Inductive alloc_prog (R : Type) : Type :=
  | Return (r : R)
  | Malloc (sz : Z) (k : Z → alloc_prog R)
  | Free (ptr sz : Z) (k : alloc_prog R).
Arguments Return {R}.
Arguments Malloc {R}.
Arguments Free {R}.

Fixpoint run_allocs {St R} (malloc : Z → M St Z) (free : Z → Z → M St unit) (p : alloc_prog R) : M St R :=
  match p with
  | Return r => ret r
  | Malloc sz k => ptr <- malloc sz;; run_allocs malloc free (k ptr)
  | Free ptr sz k => free ptr sz;;; run_allocs malloc free k
  end.

(** [r] is a result of [p], for some answers of the allocator. *)
Inductive returns {R} : alloc_prog R → R → Prop :=
  | returns_return r : returns (Return r) r
  | returns_malloc sz k ptr r : returns (k ptr) r → returns (Malloc sz k) r
  | returns_free ptr sz k r : returns k r → returns (Free ptr sz k) r.

(** ** Model *)

(** What the boot loader says about a framebuffer. *)
Record limine_framebuffer := mkFramebuffer {
  fb_address : Z; fb_width : Z; fb_height : Z; fb_pitch : Z;
  red_mask_size : Z; red_mask_shift : Z; green_mask_size : Z; green_mask_shift : Z;
  blue_mask_size : Z; blue_mask_shift : Z;
}.

(** The arguments of [flanterm_fb_init] after the two functions: the pixels, the colour
    masks, the optional pointers and the numbers at the end. *)
Record flanterm_args := mkArgs {
  fa_framebuffer : Z; fa_width : Z; fa_height : Z; fa_pitch : Z;
  fa_masks : list Z; fa_pointers : list Z; fa_numbers : list Z;
}.

Class FlantermInit (T : Type) := flanterm_fb_init : flanterm_args → alloc_prog (option T).

Section console.
Context {S T : Type} `{FrameAlloc S, !FlantermInit T}.

(** The virtual memory manager and [ft_ctx]. *)
Definition console_state : Type := vmm_state S * option T.

Definition flanterm_kfree_wrapper (ptr size : Z) : M (kheap_state S) unit := kfree ptr.

Definition fb_args (fb : limine_framebuffer) (virt_fb : Z) : flanterm_args :=
  mkArgs virt_fb (fb_width fb) (fb_height fb) (fb_pitch fb)
    [red_mask_size fb; red_mask_shift fb; green_mask_size fb; green_mask_shift fb; blue_mask_size fb; blue_mask_shift fb]
    [0; 0; 0; 0; 0; 0; 0; 0] [0; 0; 1; 0; 0; 0; 0].

Definition FB_FLAGS : Z := Z.lor (Z.lor (Z.lor VMM_FLAGS_MMIO VMM_FLAGS_READ) VMM_FLAGS_WRITE) VMM_FLAGS_WC.

(** [fb] is [framebuffer_request.response->framebuffers[0]]. *)
Definition console_init (fb : limine_framebuffer) : M console_state unit :=
  let fb_size := u64 (fb_height fb * fb_pitch fb) in
  let fb_size := if negb (fb_size mod PAGING_PAGE_SIZE =? 0)
                 then u64 (fb_size + (PAGING_PAGE_SIZE - fb_size mod PAGING_PAGE_SIZE)) else fb_size in
  k <- on_fst vmm_get_kernel_vas;;
  off <- on_fst (on_tables (gets hhdm_offset));;
  virt_fb <- on_fst (vmm_alloc k fb_size FB_FLAGS (hhdm_virtToPhys off (fb_address fb)));;
  if virt_fb =? 0 then fail Halt
  else
    ft <- on_fst (on_heap (run_allocs kmalloc flanterm_kfree_wrapper (flanterm_fb_init (fb_args fb virt_fb))));;
    modify (λ s, (s.1, ft)).
End console.

(** ** What flanterm promises *)

(** It frees only what it holds, asks for at most [K] megabytes more than the heap may
    have, and has a terminal when no allocation fails. *)
Fixpoint well_behaved {T} (K : nat) (live : list (Z * Z)) (p : alloc_prog (option T)) : Prop :=
  match p with
  | Return r => is_Some r
  | Malloc sz k => 0 ≤ sz ≤ 2 ^ 64 - 16 ∧ ∃ K', K = (extensions sz + K')%nat ∧
      ∀ ptr, ptr ≠ 0 → well_behaved K' ((ptr, sz) :: live) (k ptr)
  | Free ptr sz k => ∃ l, live ≡ₚ (ptr, sz) :: l ∧ well_behaved K l k
  end.

Class FlantermSpec (T : Type) `{!FlantermInit T} := {
  fl_extensions : flanterm_args → nat;
  fl_behaves : ∀ args, well_behaved (fl_extensions args) [] (flanterm_fb_init args);
}.

(** ** Running it on the kernel heap *)

Section run.
Context {S T : Type} `{FrameAllocSpec S}.

Lemma run_allocs_ok (p : alloc_prog (option T)) : ∀ K live base (h : kheap_state S) Tb A n fr lim,
  client_inv (h, live ++ base) → heap_mem h Tb A n fr lim → well_behaved K live p →
  (K * frames_for KHEAP_EXTENDING_AMOUNT ≤ n)%nat → kheap_end h + Z.of_nat K * KHEAP_EXTENDING_AMOUNT ≤ lim →
  ∃ t h' live' Tb' A' n' fr', run_allocs kmalloc flanterm_kfree_wrapper p h = Ok (Some t, h') ∧
    returns p (Some t) ∧ client_inv (h', live' ++ base) ∧ heap_mem h' Tb' A' n' fr' lim ∧
    extended h Tb A n fr K h' Tb' A' n' fr' ∧ kheap_start h' = kheap_start h.
Proof.
  induction p as [r|sz k IH|ptr sz p IH]; intros K live base h Tb A n fr lim Hc Hm Hwb Hn Hlim; cbn [run_allocs].
  - destruct Hwb as [t ->]. exists t, h, live, Tb, A, n, fr. split; [done|]. split; [constructor|].
    split; [done|]. split; [done|]. split; [apply extended_same; [by eapply ok_tables, hm_tables|done|done]|done].
  - destruct Hwb as (Hsz & K' & -> & Hwb).
    destruct (client_kmalloc_total h (live ++ base) Tb A n fr lim sz Hc Hm Hsz)
      as (ptr & h1 & Tb1 & A1 & n1 & fr1 & E1 & Hp & Hc1 & Hm1 & Hex1 & Est1);
      [lia|unfold KHEAP_EXTENDING_AMOUNT in *; lia|].
    pose proof (ex_room _ _ _ _ _ _ _ _ _ _ _ Hex1). pose proof (ex_end _ _ _ _ _ _ _ _ _ _ _ Hex1).
    destruct (IH ptr K' ((ptr, sz) :: live) base h1 Tb1 A1 n1 fr1 lim Hc1 Hm1 (Hwb ptr Hp) ltac:(lia) ltac:(lia))
      as (t & h2 & live' & Tb2 & A2 & n2 & fr2 & E2 & Hret & Hc2 & Hm2 & Hex2 & Est2).
    exists t, h2, live', Tb2, A2, n2, fr2. split; [by rewrite /bind E1|]. split; [by econstructor|].
    split; [done|]. split; [done|]. split; [by eapply extended_trans|congruence].
  - destruct Hwb as (l & Hl & Hwb).
    destruct (client_kfree_total h (live ++ base) ptr sz (l ++ base) Hc) as (h1 & E1 & Hc1 & Eh1); [by rewrite Hl|].
    destruct (IH K l base h1 Tb A n fr lim Hc1) as (t & h2 & live' & Tb2 & A2 & n2 & fr2 & E2 & Hret & Hc2 & Hm2 & Hex2 & Est2);
      [rewrite Eh1; by destruct Hm|done|done|by rewrite Eh1|].
    exists t, h2, live', Tb2, A2, n2, fr2. split; [by rewrite /bind /flanterm_kfree_wrapper E1|].
    split; [by constructor|]. split; [done|]. split; [done|]. split; [|by rewrite Est2 Eh1].
    apply (extended_trans h Tb A n fr 0 h1 Tb A n fr); [|done]. apply extended_same; [by eapply ok_tables, hm_tables|by rewrite Eh1|by rewrite Eh1].
Qed.
End run.

(** ** The specification *)

Section spec.
Context {S T : Type} `{FrameAllocSpec S, !FlantermInit T, !FlantermSpec T}.
Implicit Types V : vmm_state S.

(** The bytes of the framebuffer, in whole pages. *)
Definition fb_bytes (fb : limine_framebuffer) : Z := round_up (fb_height fb * fb_pitch fb).

(** Where the framebuffer is, and the frames and addresses it and the terminal need. *)
Record console_ready V fb p n lim : Prop := {
  cr_size : 0 < fb_height fb * fb_pitch fb ≤ 2 ^ 31;
  cr_phys : hhdm_virtToPhys (hhdm_offset (paging (heap V))) (fb_address fb) = p;
  cr_page : page_addr p ∧ p + fb_bytes fb ≤ 2 ^ 52;
  cr_frames : ∀ r, (struct_frames + 3 * region_pages (fb_bytes fb) false +
    fl_extensions (fb_args fb r) * frames_for KHEAP_EXTENDING_AMOUNT ≤ n)%nat;
  cr_room : ∀ r, kheap_end (heap V) + (3 + Z.of_nat (fl_extensions (fb_args fb r))) * KHEAP_EXTENDING_AMOUNT ≤ lim;
}.

Lemma round_up_twice sz : 0 ≤ sz ≤ 2 ^ 31 → round_up (round_up sz) = round_up sz.
Proof.
  intros Hsz. destruct (round_up_ok sz Hsz) as (_ & _ & E). by rewrite {1}/round_up E.
Qed.

(** Up to flanterm. *)
Lemma console_init_run V ft fb p n lim r V' :
  console_ready V fb p n lim →
  vmm_alloc (kernel_vas V) (fb_bytes fb) FB_FLAGS p V = Ok (r, V') →
  console_init (T:=T) fb (V, ft) =
    if r =? 0 then Err Halt
    else match run_allocs kmalloc flanterm_kfree_wrapper (flanterm_fb_init (fb_args fb r)) (heap V') with
         | Ok (ft', h) => Ok (tt, (with_heap h V', ft'))
         | Err e => Err e
         end.
Proof.
  intros [Hsz Hp _ _ _] Ea. rewrite /console_init u64_small; [|lia]. cbv zeta.
  rewrite -/(round_up (fb_height fb * fb_pitch fb)) -/(fb_bytes fb).
  rewrite {1}/bind /on_fst /vmm_get_kernel_vas /gets. cbn [fst snd].
  rewrite {1}/bind /on_tables /on_heap /on_paging. cbn [fst snd heap with_heap paging with_paging].
  assert (with_heap (with_paging (paging (heap V)) (heap V)) V = V) as -> by (by destruct V as [[]]).
  rewrite {1}/bind. cbn [fst snd]. rewrite Hp Ea. destruct (r =? 0); [done|].
  rewrite /bind. cbn [fst snd]. by destruct (run_allocs _ _ _ _) as [[ft' h]|].
Qed.

(** The console after [console_init]: the framebuffer at [r], the terminal [t], which
    holds the blocks [live], and everything else as it was. *)
Record console_up V W others l Tb (A : gset Z) n fr lim fb p r t V' l' live a' T' A' n' fr' : Prop := {
  cu_term : returns (flanterm_fb_init (fb_args fb r)) (Some t : option T);
  cu_vas : kernel_vas V' = kernel_vas V;
  cu_range : VMM_KERNEL_START ≤ r ∧ r + fb_bytes fb ≤ VMM_KERNEL_END + 1;
  cu_free : free_at l r (fb_bytes fb);
  cu_min : ∀ x, VMM_KERNEL_START ≤ x → free_at l x (fb_bytes fb) → r ≤ x;
  cu_list : ∃ l1 l2 q, l = l1 ++ l2 ∧ l' = l1 ++ mkRegion q r (fb_bytes fb) FB_FLAGS :: l2;
  cu_vm : kernel_vm V' (<[kernel_vas V := l']> W) (live ++ others) l' a' T' A' n' fr' lim;
  cu_room : (n ≤ n' + struct_frames + 3 * region_pages (fb_bytes fb) false +
    fl_extensions (fb_args fb r) * frames_for KHEAP_EXTENDING_AMOUNT)%nat;
  cu_grows : grows Tb A fr T' A' fr';
  cu_start : kheap_start (heap V') = kheap_start (heap V);
  cu_end : kheap_end (heap V) ≤ kheap_end (heap V') ∧
    kheap_end (heap V') ≤ kheap_end (heap V) + (2 + Z.of_nat (fl_extensions (fb_args fb r))) * KHEAP_EXTENDING_AMOUNT;
  cu_regs : regs (paging (heap V')) = regs (paging (heap V));
  cu_visible : device_at (paging (heap V')) r (fb_bytes fb) p;
  cu_pages : ∀ o, 0 ≤ o < fb_bytes fb → ∃ e,
    mmu_walk (mem (paging (heap V'))) (cr3 (paging (heap V'))) (r + o) = Some (Page4K e) ∧
    Z.testbit e 2 = false ∧ Z.testbit e 63 = true ∧ pat_type (msr_pat (paging (heap V'))) (pat_index e) = PAT_TYPE_WC;
  cu_walk : ∀ w, canonical_addr w → ¬ r ≤ w < r + fb_bytes fb → ¬ kheap_end (heap V) ≤ w < kheap_end (heap V') →
    mmu_walk (mem (paging (heap V'))) (cr3 (paging (heap V'))) w =
    mmu_walk (mem (paging (heap V))) (cr3 (paging (heap V))) w;
}.

(** The mapped framebuffer, after flanterm's allocations. *)
Lemma console_up_intro V W others l Tb A n fr lim fb p r t V1 l' live a' T1 A1 n1 fr1 h T2 A2 n2 fr2 :
  page_addr p → p + fb_bytes fb ≤ 2 ^ 52 → returns (flanterm_fb_init (fb_args fb r)) (Some t) →
  mapped_device V W others l Tb A n fr lim (fb_bytes fb) p FB_FLAGS r V1 l' a' T1 A1 n1 fr1 →
  kernel_vm (with_heap h V1) (<[kernel_vas V := l']> W) (live ++ others) l' a' T2 A2 n2 fr2 lim →
  extended (heap V1) T1 A1 n1 fr1 (fl_extensions (fb_args fb r)) h T2 A2 n2 fr2 → kheap_start h = kheap_start (heap V1) →
  (∀ w, canonical_addr w → ¬ kheap_end (heap V1) ≤ w < kheap_end h →
    mmu_walk (mem (paging h)) (cr3 (paging h)) w = mmu_walk (mem (paging (heap V1))) (cr3 (paging (heap V1))) w) →
  console_up V W others l Tb A n fr lim fb p r t (with_heap h V1) l' live a' T2 A2 n2 fr2.
Proof.
  intros Hp Hp52 Hret HD Kf [X1 X2 X4 X5 X6] Est Hwf.
  pose proof HD as [Dvas (Hr1 & Hr2 & Hrm) Dfree Dmin Dlist Dvm Droom Down Dst Dend Dregs Dwalk].
  assert (∀ o, 0 ≤ o < fb_bytes fb → mmu_walk (mem (paging h)) (cr3 (paging h)) (r + o) =
    mmu_walk (mem (paging (heap V1))) (cr3 (paging (heap V1))) (r + o)) as Hsame.
  { intros o Ho. apply Hwf; [apply kernel_canonical; unfold VMM_KERNEL_END in *; lia|lia]. }
  split; cbn [heap with_heap kernel_vas]; try done.
  - lia.
  - by eapply grows_trans.
  - by rewrite Est.
  - lia.
  - by rewrite X4.
  - intros write o Ho. rewrite /translate Hsame //.
    exact (device_visible _ _ _ _ _ _ _ _ _ _ _ _ _ _ _ _ _ _ _ _ HD Hp Hp52 eq_refl eq_refl write o Ho).
  - intros o Ho. rewrite Hsame //. destruct (device_page _ _ _ _ _ _ _ _ _ _ _ _ _ _ _ _ _ _ _ _ HD Hp Hp52 o Ho) as (q & Hq & _ & E).
    destruct (device_attributes q FB_FLAGS PTE_CACHE_WC PAT_TYPE_WC Hq) as (B2 & B63 & Bc);
      [reflexivity|apply elem_of_cons; right; by left|].
    eexists. split; [exact E|]. split; [done|]. split; [done|].
    pose proof (kv_pat _ _ _ _ _ _ _ _ _ _ Kf) as Epat. cbn [heap with_heap] in Epat. by rewrite Epat.
  - intros w Hw Hnr Hne. rewrite Hwf; [|done|lia]. rewrite Dwalk; [by rewrite decide_False|done|lia].
Qed.

Lemma console_init_ok V ft fb p W others l a Tb A n fr lim :
  kernel_vm V W others l a Tb A n fr lim → console_ready V fb p n lim →
  (∃ x, VMM_KERNEL_START ≤ x ∧ x + fb_bytes fb ≤ VMM_KERNEL_END + 1 ∧ free_at l x (fb_bytes fb)) →
  ∃ r t V' l' live a' T' A' n' fr', console_init fb (V, ft) = Ok (tt, (V', Some t)) ∧
    console_up V W others l Tb A n fr lim fb p r t V' l' live a' T' A' n' fr'.
Proof.
  intros K R Hgap. pose proof R as [Hsz Hp [Hpp Hp52] Hn Hroom].
  destruct (round_up_ok (fb_height fb * fb_pitch fb) ltac:(lia)) as (Hz & Hz' & Hzm). fold (fb_bytes fb) in Hz, Hz', Hzm.
  assert (round_up (fb_bytes fb) = fb_bytes fb) as Ez by (apply round_up_twice; lia).
  pose proof (Hn 0) as Hn0. pose proof (Hroom 0) as Hr0. unfold KHEAP_EXTENDING_AMOUNT in Hr0.
  destruct (kernel_alloc_mmio V W others l a Tb A n fr lim (fb_bytes fb) FB_FLAGS p K)
    as (r & V1 & l' & a' & T1 & A1 & n1 & fr1 & Ea & HD);
    [lia|done|done|rewrite Ez; lia|unfold struct_room, KHEAP_EXTENDING_AMOUNT; lia|apply Hpp|rewrite Ez; lia|by rewrite Ez|].
  rewrite Ez in HD. pose proof HD as [Dvas Drng Dfree Dmin Dlist Dvm Droom Down Dst Dend Dregs Dwalk].
  destruct Drng as (Hr1 & Hr2 & Hrm).
  set K' := fl_extensions (fb_args fb r).
  destruct (run_allocs_ok (flanterm_fb_init (fb_args fb r)) K' []
    (((λ p, (p, 32)) <$> own (<[kernel_vas V:=l']> W)) ++ others) (heap V1) T1 A1 n1 fr1 lim)
    as (t & h & live & T2 & A2 & n2 & fr2 & Er & Hret & Hc2 & Hm2 & Hex2 & Est2).
  - apply (kv_rep _ _ _ _ _ _ _ _ _ _ Dvm).
  - apply Dvm.
  - apply fl_behaves.
  - specialize (Hn r). fold K' in Hn. lia.
  - specialize (Hroom r). fold K' in Hroom. unfold KHEAP_EXTENDING_AMOUNT in *. lia.
  - assert (holds_structs h (<[kernel_vas V:=l']> W) (live ++ others)) as Hh.
    { eapply holds_perm; [exact Hc2|]. by rewrite !app_assoc (Permutation_app_comm live). }
    destruct (kernel_vm_heap _ _ _ _ _ _ _ _ _ _ h _ _ _ _ _ _ Dvm Hh Hm2 Hex2 Est2) as [Kf Hwf].
    exists r, t, (with_heap h V1), l', live, a', T2, A2, n2, fr2. split.
    { rewrite (console_init_run V ft fb p n lim r V1) //.
      rewrite (proj2 (Z.eqb_neq r 0)); [by rewrite Er|unfold VMM_KERNEL_START in Hr1; lia]. }
    by eapply console_up_intro.
Qed.

(** C40: [console_init] brings the console up. Without free kernel addresses for the
    framebuffer the kernel halts. Otherwise, with frames and addresses for the mapping and
    for what the terminal allocates, it returns with a terminal made for the mapped
    framebuffer: every byte of the framebuffer is visible at its address, writable,
    write-combining, for the kernel only and never executable; the terminal's memory is in
    blocks of the heap that nobody else holds; no other translation has changed (but where
    the heap grew), and the address spaces, the tables and the heap are well formed. *)
Theorem console_init_correct V ft fb p W others l a Tb A n fr lim :
  kernel_vm V W others l a Tb A n fr lim → console_ready V fb p n lim →
  ((∀ x, VMM_KERNEL_START ≤ x → free_at l x (fb_bytes fb) → VMM_KERNEL_END ≤ x) →
   console_init (T:=T) fb (V, ft) = Err Halt) ∧
  ((∃ x, VMM_KERNEL_START ≤ x ∧ x + fb_bytes fb ≤ VMM_KERNEL_END + 1 ∧ free_at l x (fb_bytes fb)) →
   ∃ r t V' l' live a' T' A' n' fr', console_init fb (V, ft) = Ok (tt, (V', Some t)) ∧
     console_up V W others l Tb A n fr lim fb p r t V' l' live a' T' A' n' fr').
Proof.
  intros K R. split; [|by apply (console_init_ok V ft fb p W others l a Tb A n fr lim)].
  pose proof (cr_size _ _ _ _ _ R) as Hsz.
  destruct (round_up_ok (fb_height fb * fb_pitch fb) ltac:(lia)) as (Hz & Hz' & Hzm). fold (fb_bytes fb) in Hz, Hz', Hzm.
  assert (round_up (fb_bytes fb) = fb_bytes fb) as Ez by (apply round_up_twice; lia).
  rewrite -{1}Ez. intros Hfull.
  destruct (kernel_alloc_full V W others l a Tb A n fr lim (fb_bytes fb) FB_FLAGS p K ltac:(lia) Hfull) as [V' Ea].
  by rewrite (console_init_run V ft fb p n lim 0 V').
Qed.
End spec.

(** ** A concrete machine

    The machine of VmmThms.v with a framebuffer of 480 lines of 2560 bytes, and a
    terminal that allocates two blocks. *)

#[local] Existing Instance bump_alloc.
#[local] Existing Instance bump_spec.

#[local] Instance demo_flanterm : FlantermInit (list Z) := λ _,
  Malloc 400 (λ ctx, if ctx =? 0 then Return None
    else Malloc 32000 (λ grid, if grid =? 0 then Free ctx 400 (Return None) else Return (Some []))).

#[local] Program Instance demo_flanterm_spec : FlantermSpec (list Z) := {| fl_extensions _ := 4%nat |}.
Next Obligation.
  intros args. split; [lia|]. exists 2%nat. split; [vm_compute; reflexivity|]. intros ctx Hc.
  rewrite (proj2 (Z.eqb_neq ctx 0) Hc). split; [lia|]. exists 0%nat. split; [vm_compute; reflexivity|]. intros grid Hg.
  rewrite (proj2 (Z.eqb_neq grid 0) Hg). by eexists.
Qed.

Definition demo_fb (off : Z) : limine_framebuffer :=
  mkFramebuffer (hhdm_physToVirt off 0xE0000000) 640 480 2560 8 16 8 8 8 0.

Lemma console_init_correct_witness :
  ∃ (V V' : vmm_state Z) off r t, console_init (demo_fb off) (V, None) = Ok (tt, (V', Some t)) ∧
    device_at (paging (heap V')) r 1228800 0xE0000000.
Proof.
  destruct boot as (h & V & bs & root & T & A & n & B). destruct (boot_vm h V bs root T A n B) as [fr K].
  set off := hhdm_offset (paging (heap V)).
  destruct (console_init_correct V None (demo_fb off) 0xE0000000 _ _ _ _ T A n fr bare_lim K) as [_ H].
  - split.
    + vm_compute. split; [reflexivity|discriminate].
    + apply hhdm_phys_virt_phys. lia.
    + split; [split; [lia|reflexivity]|vm_compute; discriminate].
    + intros r. pose proof (bo_frames _ _ _ _ _ _ _ B) as Hn. pose proof frames_for_megabyte as Hm.
      assert (Z.of_nat (region_pages (fb_bytes (demo_fb off)) false) = 300) as Hp by (vm_compute; reflexivity).
      unfold struct_frames, KHEAP_EXTENDING_AMOUNT. cbn [fl_extensions demo_flanterm_spec]. lia.
    + intros r. rewrite (proj2 (bo_start _ _ _ _ _ _ _ B)). vm_compute. discriminate.
  - destruct H as (r & t & V' & l' & live & a' & T' & A' & n' & fr' & E & U).
    + exists VMM_KERNEL_START. split; [exact (Z.le_refl _)|]. split; [vm_compute; discriminate|exact (Forall_nil_2 _)].
    + exists V, V', off, r, t. split; [exact E|]. exact (cu_visible _ _ _ _ _ _ _ _ _ _ _ _ _ _ _ _ _ _ _ _ _ U).
Defined.
