(* ===== verification/Kernel.v ===== *)
(** * The running kernel's memory

    The kernel in its own address space, as its later initialisation and its threads use
    it: structs from the heap, lazily backed stacks, and accesses to them that fault. Each
    operation succeeds as long as there are frames and addresses left, which are counted
    in credits. *)

From stdpp Require Import base gmap list numbers.
From S2P Require Import Prelude Spinlock Hhdm FrameAlloc Paging PagingSpec PagingInit PagingThms.
From S2P Require Import Kheap KheapSpec KheapMem KheapThms Vmm VmmSpec VmmInv VmmThms Mmio PagingUnmap.

(** ** Accesses *)

Section access.
Context {S : Type} `{FrameAlloc S}.

(** What the MMU pushes as error code: was the page there, and was it a write? *)
Definition fault_code (P : paging_state S) (v : Z) : Z :=
  Z.lor (match mmu_walk (mem P) (cr3 P) v with Some _ => PAGE_FAULT_PRESENT | None => 0 end) PAGE_FAULT_WRITE.

(** An instruction that writes to [v] and is restarted after a page fault. *)
Definition write_access (v : Z) : M (vmm_state S) unit := λ V,
  match translate (paging (heap V)) true v with
  | Some _ => Ok (tt, V)
  | None =>
      match vmm_page_fault_handler v (fault_code (paging (heap V)) v) V with
      | Err e => Err e
      | Ok (_, V') =>
          match translate (paging (heap V')) true v with Some _ => Ok (tt, V') | None => Err Undef end
      end
  end.
End access.

(** ** Who owns which frame *)

Section accounts.
Context {S : Type} `{FrameAllocSpec S}.
Implicit Types (V : vmm_state S) (l : list region) (T : gmap (list Z) Z) (A : gset Z) (fr ar : gmap Z Z).

Notation walk V := (mmu_walk (mem (paging (heap V))) (cr3 (paging (heap V)))).

(** The entry a page of an area is mapped with. *)
Definition area_page (x : region) (f : Z) : translation := Page4K (map_entry f (vmm_generic_to_x86_flags (r_flags x)) false).

(** Every frame taken from the allocator ([A]) has one use: as a page table ([T]), as a page
    of the heap ([fr]) or behind one page of one area that is not a device ([ar], by page
    number); the MMU maps the pages of these areas to those frames and to no others. *)
Record accounts V l T A fr ar : Prop := {
  ac_all : ∀ f, f ∈ A → (∃ p, T !! p = Some f) ∨ (∃ k, fr !! k = Some f) ∨ (∃ k, ar !! k = Some f);
  ac_heap : ∀ k p f, fr !! k = Some f → T !! p ≠ Some f;
  ac_own : ∀ k f, ar !! k = Some f → f ∈ A ∧ (∀ p, T !! p ≠ Some f) ∧ ∀ k', fr !! k' ≠ Some f;
  ac_inj : ∀ k1 k2 f, ar !! k1 = Some f → ar !! k2 = Some f → k1 = k2;
  ac_area : ∀ k f, ar !! k = Some f → ∃ x, x ∈ l ∧ has (r_flags x) VMM_FLAGS_MMIO = false ∧ contains (k * PAGING_PAGE_SIZE) x;
  ac_page : ∀ x w, x ∈ l → has (r_flags x) VMM_FLAGS_MMIO = false → contains w x →
    walk V w = area_page x <$> ar !! (w / PAGING_PAGE_SIZE);
}.

(** After the first tables and the first heap. *)
Lemma accounts_start V T A T' A' fr :
  (∀ f, f ∈ A → ∃ p, T !! p = Some f) → grows T A ∅ T' A' fr → accounts V [] T' A' fr ∅.
Proof.
  intros HA [H1 H2 H3 H4 H5 H6 H7]. split.
  - intros f [Hf|[Hf|Hf]]%H4; [|by left|by right; left]. destruct (HA f Hf) as [p Hp].
    left. exists p. by eapply lookup_weaken.
  - intros k p f Hk Hp. pose proof (H7 k p f Hk Hp) as Hf. by apply H6 in Hk.
  - intros k f. by rewrite lookup_empty.
  - intros k1 k2 f. by rewrite lookup_empty.
  - intros k f. by rewrite lookup_empty.
  - intros x w Hx. by apply not_elem_of_nil in Hx.
Qed.

(** More tables and heap, and the same areas. *)
Lemma accounts_grow V V' l T A fr ar T' A' fr' :
  accounts V l T A fr ar → grows T A fr T' A' fr' →
  (∀ x w, x ∈ l → contains w x → walk V' w = walk V w) → accounts V' l T' A' fr' ar.
Proof.
  intros [Ca Ch Co Ci Cr Cp] [H1 H2 H3 H4 H5 H6 H7] Hw. split.
  - intros f [Hf|[Hf|Hf]]%H4; [|by left|by right; left].
    destruct (Ca f Hf) as [[p Hp]|[[k Hk]|Hk]]; [left|right; left|by right; right].
    + exists p. by eapply lookup_weaken.
    + exists k. by eapply lookup_weaken.
  - intros k p f Hk Hp. pose proof (H7 k p f Hk Hp) as Hf. by apply (Ch k p f); [apply H6|apply H5].
  - intros k f Hk. destruct (Co k f Hk) as (Hf & HT & Hr). split; [by apply H2|]. split.
    + intros p Hp. by apply (HT p), H5.
    + intros k' Hk'. by apply (Hr k'), H6.
  - done.
  - done.
  - intros x w Hx Hm Hc. rewrite (Hw x w Hx Hc). by apply Cp.
Qed.

(** A device among the areas. *)
Lemma accounts_device V l1 l2 x T A fr ar :
  has (r_flags x) VMM_FLAGS_MMIO = true → accounts V (l1 ++ l2) T A fr ar → accounts V (l1 ++ x :: l2) T A fr ar.
Proof.
  intros HM [Ca Ch Co Ci Cr Cp]. split; try done.
  - intros k f Hk. destruct (Cr k f Hk) as (y & Hy & Hr). exists y. split; [|done].
    rewrite elem_of_app elem_of_cons. rewrite elem_of_app in Hy. tauto.
  - intros y w [Hy|[->|Hy]%elem_of_cons]%elem_of_app Hm; [|congruence|]; apply Cp; try done; apply elem_of_app; tauto.
Qed.

(** A new area nothing of which is mapped. *)
Lemma accounts_area V l1 l2 x T A fr ar :
  accounts V (l1 ++ l2) T A fr ar → (∀ w, contains w x → walk V w = None) →
  (∀ w, contains w x → ar !! (w / PAGING_PAGE_SIZE) = None) → accounts V (l1 ++ x :: l2) T A fr ar.
Proof.
  intros [Ca Ch Co Ci Cr Cp] Hw Har. split; try done.
  - intros k f Hk. destruct (Cr k f Hk) as (y & Hy & Hr). exists y. split; [|done].
    rewrite elem_of_app elem_of_cons. rewrite elem_of_app in Hy. tauto.
  - intros y w [Hy|[->|Hy]%elem_of_cons]%elem_of_app Hm Hc; [|by rewrite Hw // Har|]; apply Cp; try done; apply elem_of_app; tauto.
Qed.
End accounts.

(** ** Credits *)

Section kernel.
Context {S : Type} `{FrameAllocSpec S}.
Implicit Types V : vmm_state S.

Notation walk V := (mmu_walk (mem (paging (heap V))) (cr3 (paging (heap V)))).

(** Frames and heap addresses for one operation. *)
Definition credit_frames : nat := struct_frames + 4.

(** The kernel's space holds the areas [l], which end below [hi]; nothing else of its
    region is mapped; the clients of the heap hold [others], and [k] operations are paid. *)
Record kernel_at V l others hi k lim : Prop := {
  ka_vm : ∃ W a T A n fr ar, kernel_vm V W others l a T A n fr lim ∧ (k * credit_frames ≤ n)%nat ∧
    accounts V l T A fr ar;
  ka_heap : kheap_end (heap V) + Z.of_nat k * (3 * KHEAP_EXTENDING_AMOUNT) ≤ lim;
  ka_hi : VMM_KERNEL_START ≤ hi ≤ VMM_KERNEL_END + 1 ∧ Forall (λ r, r_end r ≤ hi) l;
  ka_unmapped : ∀ w, VMM_KERNEL_START ≤ w ≤ VMM_KERNEL_END → Forall (λ r, ¬ contains w r) l → walk V w = None;
}.

(** What was mapped in the kernel's region stays mapped. *)
Record keeps V V' : Prop := {
  kp_vas : kernel_vas V' = kernel_vas V;
  kp_regs : regs (paging (heap V')) = regs (paging (heap V));
  kp_walk : ∀ w t, VMM_KERNEL_START ≤ w ≤ VMM_KERNEL_END → walk V w = Some t → walk V' w = Some t;
}.

#[global] Instance keeps_preorder : PreOrder keeps.
Proof.
  split; [by intros V|]. intros V1 V2 V3 [E1 R1 W1] [E2 R2 W2]. split; [congruence|congruence|auto].
Qed.

Lemma keeps_translate V V' write v p :
  keeps V V' → VMM_KERNEL_START ≤ v ≤ VMM_KERNEL_END →
  translate (paging (heap V)) write v = Some p → translate (paging (heap V')) write v = Some p.
Proof.
  intros K Hv. rewrite /translate. destruct (walk V v) as [t|] eqn:E; [|done].
  by rewrite (kp_walk _ _ K v t Hv E).
Qed.

Lemma keeps_device V V' r z b :
  keeps V V' → VMM_KERNEL_START ≤ r → r + z ≤ VMM_KERNEL_END + 1 →
  device_at (paging (heap V)) r z b → device_at (paging (heap V')) r z b.
Proof. intros K Hr Hz HD write o Ho. apply (keeps_translate V); [done|lia|by apply HD]. Qed.

(** Where the areas are. *)
Lemma areas_sorted V W others l a T A n fr lim :
  kernel_vm V W others l a T A n fr lim → sorted_from VMM_KERNEL_START VMM_KERNEL_END l.
Proof.
  intros K. destruct (vr_space _ _ _ (kv_rep _ _ _ _ _ _ _ _ _ _ K) _ l (kv_list _ _ _ _ _ _ _ _ _ _ K)) as [a0 Hsr].
  pose proof (sr_sorted _ _ _ _ Hsr) as Hs. by rewrite kernel_start kernel_end in Hs.
Qed.

Lemma area_in_region V W others l a T A n fr lim hi x w :
  kernel_vm V W others l a T A n fr lim → VMM_KERNEL_START ≤ hi ≤ VMM_KERNEL_END + 1 ∧ Forall (λ r, r_end r ≤ hi) l →
  x ∈ l → contains w x → VMM_KERNEL_START ≤ w ≤ VMM_KERNEL_END.
Proof.
  intros K [Hhi Hl] Hx. destruct (sorted_from_elem _ _ _ x (areas_sorted _ _ _ _ _ _ _ _ _ _ K) Hx) as (H1 & _).
  rewrite Forall_forall in Hl. specialize (Hl x Hx). rewrite /contains. lia.
Qed.

Lemma page_in_area lo hi l x w v :
  sorted_from lo hi l → x ∈ l → w / PAGING_PAGE_SIZE = v / PAGING_PAGE_SIZE → contains v x → contains w x.
Proof.
  intros Hs Hx Hp. destruct (sorted_from_elem _ _ _ x Hs Hx) as (_ & _ & M1 & M2 & _). revert Hp M1 M2. clear.
  rewrite /contains /r_end. unfold PAGING_PAGE_SIZE. intros. Z.div_mod_to_equations. lia.
Qed.

(** No frame is counted for a page outside the areas. *)
Lemma no_frame V W others l a T A n fr lim ar w :
  kernel_vm V W others l a T A n fr lim → accounts V l T A fr ar → Forall (λ x, ¬ contains w x) l →
  ar !! (w / PAGING_PAGE_SIZE) = None.
Proof.
  intros K Hac Hf. destruct (ar !! _) as [f|] eqn:E; [|done]. exfalso.
  destruct (ac_area _ _ _ _ _ _ Hac _ _ E) as (x & Hx & _ & Hc). rewrite Forall_forall in Hf. apply (Hf x Hx).
  eapply page_in_area; [by eapply areas_sorted|done| |exact Hc]. rewrite Z_div_mult //.
Qed.

(** The heap may have grown. *)
Lemma at_heap V l others hi k lim W a T A n fr ar h live T' A' n' fr' :
  kernel_at V l others hi (Datatypes.S k) lim → kernel_vm V W others l a T A n fr lim → (Datatypes.S k * credit_frames ≤ n)%nat →
  accounts V l T A fr ar →
  holds_structs h W live → heap_mem h T' A' n' fr' lim → extended (heap V) T A n fr 2 h T' A' n' fr' →
  kheap_start h = kheap_start (heap V) →
  kernel_at (with_heap h V) l live hi k lim ∧ keeps V (with_heap h V) ∧
  ∀ w, VMM_KERNEL_START ≤ w ≤ VMM_KERNEL_END → walk (with_heap h V) w = walk V w.
Proof.
  intros [_ Hroom Hhi Hun] K Hn Hac Hh Hm Hex Est.
  destruct (kernel_vm_heap V W others l a T A n fr lim h live T' A' n' fr' 2 K Hh Hm Hex Est) as [K' Hw].
  pose proof (ex_room _ _ _ _ _ _ _ _ _ _ _ Hex). pose proof (ex_end _ _ _ _ _ _ _ _ _ _ _ Hex).
  pose proof (heap_not_empty V _ _ (kv_rep _ _ _ _ _ _ _ _ _ _ K)). pose proof (kv_above _ _ _ _ _ _ _ _ _ _ K).
  assert (∀ w, VMM_KERNEL_START ≤ w ≤ VMM_KERNEL_END → walk (with_heap h V) w = walk V w) as Hsame.
  { intros w Hw'. apply Hw; [apply kernel_canonical; unfold VMM_KERNEL_END in *; lia|lia]. }
  split; [split|split; [split; [done|apply Hex|]|exact Hsame]].
  - exists W, a, T', A', n', fr', ar. split; [done|]. split; [unfold credit_frames, struct_frames in *; lia|].
    eapply accounts_grow; [exact Hac|apply Hex|]. intros x w Hx Hc. apply Hsame. by eapply (area_in_region V).
  - cbn [heap with_heap]. unfold KHEAP_EXTENDING_AMOUNT in *. lia.
  - done.
  - intros w Hw' Hf. rewrite Hsame //. by apply Hun.
  - intros w t Hw' E. by rewrite Hsame.
Qed.

(** A struct of at most a page. *)
Lemma at_kmalloc V l others hi k lim sz :
  kernel_at V l others hi (Datatypes.S k) lim → 0 ≤ sz ≤ 4096 →
  ∃ p V', on_heap (kmalloc sz) V = Ok (p, V') ∧ p ≠ 0 ∧ p ∉ others.*1 ∧
    kernel_at V' l ((p, sz) :: others) hi k lim ∧ keeps V V' ∧
    ∀ w, VMM_KERNEL_START ≤ w ≤ VMM_KERNEL_END → walk V' w = walk V w.
Proof.
  intros HV Hsz. pose proof HV as [(W & a & T & A & n & fr & ar & K & Hn & Hac) Hroom _ _].
  assert (extensions sz = 2%nat) as E2.
  { rewrite /extensions. destruct (round_size_ok sz ltac:(lia)) as [Hr _].
    rewrite Z.div_small; [done|]. unfold KHEAP_EXTENDING_AMOUNT. lia. }
  destruct (client_kmalloc_total (heap V) _ T A n fr lim sz (vr_heap _ _ _ (kv_rep _ _ _ _ _ _ _ _ _ _ K))
    (kv_mem _ _ _ _ _ _ _ _ _ _ K)) as (p & h & T' & A' & n' & fr' & E & Hp & Hc & Hm & Hex & Est); rewrite ?E2.
  - lia.
  - unfold credit_frames, struct_frames in Hn. lia.
  - unfold KHEAP_EXTENDING_AMOUNT in *. lia.
  - exists p, (with_heap h V). split; [by rewrite /on_heap E|]. split; [done|]. rewrite E2 in Hex.
    split.
    { apply client_nodup in Hc as [Hnd _]. rewrite fmap_cons NoDup_cons fmap_app elem_of_app in Hnd. tauto. }
    eapply at_heap; try done. eapply holds_perm; [exact Hc|]. by rewrite Permutation_middle.
Qed.

Lemma free_above l hi z : Forall (λ r, r_end r ≤ hi) l → free_at l hi z.
Proof. intros Hl. eapply Forall_impl; [exact Hl|]. intros r Hr. by right. Qed.

Lemma free_not_contains l r z w : free_at l r z → r ≤ w < r + z → Forall (λ x, ¬ contains w x) l.
Proof.
  intros Hf Hw. eapply Forall_impl; [exact Hf|]. intros x. rewrite /contains /r_end. lia.
Qed.

(** An area that is backed page by page as it is used. *)
Lemma at_anon V l others hi k lim sz fl b :
  kernel_at V l others hi (Datatypes.S k) lim → 0 < sz ≤ 2 ^ 31 → hi + round_up sz ≤ VMM_KERNEL_END + 1 →
  has fl VMM_FLAGS_USER = false → has fl VMM_FLAGS_MMIO = false → has fl VMM_FLAGS_ANON = true →
  ∃ r V' q l1 l2, let x := mkRegion q r (round_up sz) fl in
    vmm_alloc (kernel_vas V) sz fl b V = Ok (r, V') ∧ l = l1 ++ l2 ∧ free_at l r (round_up sz) ∧
    VMM_KERNEL_START ≤ r ≤ hi ∧ r mod PAGING_PAGE_SIZE = 0 ∧
    kernel_at V' (l1 ++ x :: l2) others (hi + round_up sz) k lim ∧ keeps V V' ∧
    (∀ w, r ≤ w < r + round_up sz → walk V' w = None) ∧
    ∀ w, VMM_KERNEL_START ≤ w ≤ VMM_KERNEL_END → walk V' w = walk V w.
Proof.
  intros HV Hsz Htop HU HM HA. pose proof HV as [(W & a & T & A & n & fr & ar & K & Hn & Hac) Hroom [Hhi0 Hhi] Hun].
  destruct (round_up_ok sz ltac:(lia)) as (Hz & _). set z := round_up sz in Hz Htop *.
  destruct (kernel_alloc_anon V W others l a T A n fr lim sz fl b K Hsz HU HM HA)
    as (r & V' & l1 & l2 & q & a' & T' & A' & n' & fr' & E & El & Ev & Hr1 & Hr2 & Hrm & Hf & Hmin & K' & Hex).
  - unfold credit_frames in Hn. lia.
  - unfold struct_room, KHEAP_EXTENDING_AMOUNT in *. lia.
  - exists hi. fold z. split; [lia|]. split; [lia|by apply free_above].
  - fold z in Hr2, Hf, Hmin, K'. pose proof (Hmin hi (proj1 Hhi0) (free_above _ _ _ Hhi)) as Hrhi.
    pose proof (ex_room _ _ _ _ _ _ _ _ _ _ _ Hex). pose proof (ex_end _ _ _ _ _ _ _ _ _ _ _ Hex).
    pose proof (heap_not_empty V _ _ (kv_rep _ _ _ _ _ _ _ _ _ _ K)). pose proof (kv_above _ _ _ _ _ _ _ _ _ _ K).
    assert (∀ w, VMM_KERNEL_START ≤ w ≤ VMM_KERNEL_END → walk V' w = walk V w) as Hsame.
    { intros w Hw'. rewrite (kernel_walk _ _ _ _ _ _ _ _ _ _ w K') (kernel_walk _ _ _ _ _ _ _ _ _ _ w K).
      apply Hex; [apply kernel_canonical; unfold VMM_KERNEL_END in *; lia|lia]. }
    assert (∀ w, r ≤ w < r + z → walk V' w = None) as Hnew.
    { intros w Hw. rewrite Hsame; [|lia]. apply Hun; [lia|by eapply free_not_contains]. }
    exists r, V', q, l1, l2. split; [done|]. split; [done|]. split; [done|]. split; [done|]. split; [done|].
    split; [split|split; [split|]].
    + eexists _, a', T', A', n', fr', ar. split; [exact K'|]. split; [unfold credit_frames, struct_frames in *; lia|].
      rewrite El in K Hac Hf Hhi. apply accounts_area.
      * eapply accounts_grow; [exact Hac|apply Hex|]. intros x w Hx Hc. apply Hsame. by eapply (area_in_region V).
      * intros w. rewrite /contains /r_end /=. apply Hnew.
      * intros w Hw. eapply (no_frame V); [done|done|]. eapply free_not_contains; [exact Hf|exact Hw].
    + unfold KHEAP_EXTENDING_AMOUNT in *. lia.
    + split; [lia|]. rewrite El in Hhi. apply Forall_app in Hhi as [Hh1 Hh2]. apply Forall_app.
      split; [|constructor]; [|rewrite /r_end /=; lia|]; (eapply Forall_impl; [eassumption|]); intros y; cbv beta; lia.
    + intros w Hw Hfw. rewrite Hsame //. apply Hun; [done|]. rewrite El. apply Forall_app in Hfw as [Hf1 Hf2].
      apply Forall_cons in Hf2 as [_ Hf2]. by apply Forall_app.
    + done.
    + apply Hex.
    + intros w t Hw Et. by rewrite Hsame.
    + done.
Qed.

(** The fault handler keeps everything but the page it maps. *)
Lemma kernel_vm_fault V W others l a T A n fr lim P' T' A' n' lk v e :
  kernel_vm V W others l a T A n fr lim → VMM_KERNEL_START ≤ v ≤ VMM_KERNEL_END → lock_free lk →
  pt_ok P' (pml4_phys a) T' A' n' → A ⊆ A' → regs P' = regs (paging (heap V)) →
  (∀ w, mmu_walk (mem P') (pml4_phys a) w = upd (walk V) false v (Some (Page4K e)) w) →
  let V' := returned_vmm V (kernel_vas V) a (with_paging P' (heap V)) (region_list a) lk (areas V) in
  kernel_vm V' W others l (mkSpace (pml4_phys a) (region_list a) lk) T' A' n' fr lim.
Proof.
  intros K Hv Hlk Hok' HA' Er' Hw V'. pose proof K as [Hrep Hl Hsa Hroot Hcr3 Hpat Hm Hab Hsm].
  pose proof Er' as [= Eo' Ek' Ec' _ Ep' _].
  destruct (vr_space _ _ _ Hrep _ l Hl) as [a' Hsr]. assert (a' = a) as -> by (pose proof (sr_space _ _ _ _ Hsr); congruence).
  assert (∀ w, view (mem P') T' w = upd (view (mem (paging (heap V))) T) false v (Some (Page4K e)) w) as Hview.
  { intros w. rewrite -(ok_walk P' (pml4_phys a) T' A' n' w Hok') Hw /upd. case_decide; [done|].
    by apply (kernel_walk _ _ _ _ _ _ _ _ _ _ w K). }
  split; cbn [V' heap returned_vmm paging with_paging kheap_start kheap_end kernel_vas spaces pml4_phys].
  - eapply rep_same; try done. apply client_paging, Hrep.
  - done.
  - apply lookup_insert_eq.
  - by rewrite Hroot -Ek'.
  - by rewrite Ec'.
  - by rewrite Ep'.
  - destruct (vr_heap _ _ _ Hrep) as (L & B & Hr & _). cbn [fst] in Hr. destruct (hr_top _ _ _ Hr) as [Htop _].
    apply (heap_mem_frame (heap V) _ T A n fr lim T' A' n' Hm); try done; cbn [paging with_paging].
    + by rewrite -Hroot.
    + intros k f _. apply HA'.
    + pose proof (heap_not_empty V _ _ Hrep). lia.
    + intros w Hww. rewrite Hview /upd decide_False //.
      rewrite (same_leaf_page false w v); [|apply kernel_canonical; unfold VMM_KERNEL_START, VMM_KERNEL_END in *; lia..].
      cbn [step_size]. unfold PAGING_PAGE_SIZE, VMM_KERNEL_END in *. clear - Hww Hv Hab. Z.div_mod_to_equations. lia.
  - done.
  - intros w e' Hww. rewrite Hview /upd. case_decide; [done|by apply Hsm].
Qed.

(** Addresses of one page. *)
Lemma same_page_region w v :
  w / PAGING_PAGE_SIZE = v / PAGING_PAGE_SIZE → VMM_KERNEL_START ≤ v ≤ VMM_KERNEL_END → VMM_KERNEL_START ≤ w ≤ VMM_KERNEL_END.
Proof. unfold PAGING_PAGE_SIZE, VMM_KERNEL_START, VMM_KERNEL_END. intros. Z.div_mod_to_equations. lia. Qed.

Lemma same_leaf_region w v :
  VMM_KERNEL_START ≤ w ≤ VMM_KERNEL_END → VMM_KERNEL_START ≤ v ≤ VMM_KERNEL_END →
  same_leaf false w v ↔ w / PAGING_PAGE_SIZE = v / PAGING_PAGE_SIZE.
Proof. intros Hw Hv. apply (same_leaf_page false); apply kernel_canonical; unfold VMM_KERNEL_END in *; lia. Qed.

(** The page of [v] in the area [x] gets the frame [f]. *)
Lemma accounts_touch V V' W others l a T A n fr lim ar v x f T' A' :
  kernel_vm V W others l a T A n fr lim → accounts V l T A fr ar →
  (∀ y w, y ∈ l → contains w y → VMM_KERNEL_START ≤ w ≤ VMM_KERNEL_END) →
  x ∈ l → has (r_flags x) VMM_FLAGS_MMIO = false → contains v x → walk V v = None → f ∉ A → new_tables T ({[f]} ∪ A) T' A' →
  (∀ w, walk V' w = upd (walk V) false v (Some (area_page x f)) w) →
  accounts V' l T' A' fr (<[v / PAGING_PAGE_SIZE := f]> ar).
Proof.
  intros K [Ca Ch Co Ci Cr Cp] Hreg Hx HM Hc Hnone HfA [H1 H2 H3 H4] HwV.
  pose proof (areas_sorted _ _ _ _ _ _ _ _ _ _ K) as Hso.
  assert (∀ p g, T !! p = Some g → g ∈ A) as HTA by (eapply ok_tables, hm_tables, K).
  assert (∀ k g, fr !! k = Some g → g ∈ A) as HfrA by (eapply bk_owned, hm_backed, K).
  assert (∀ p g, g ∈ A → T' !! p = Some g → T !! p = Some g) as Hold by (intros p g Hg Hp; apply H4; [done|set_solver]).
  assert (ar !! (v / PAGING_PAGE_SIZE) = None) as Hno.
  { rewrite (Cp x v Hx HM Hc) in Hnone. by apply fmap_None in Hnone. }
  split.
  - intros g [[->%elem_of_singleton|Hg]%elem_of_union|Hg]%H3; [|destruct (Ca g Hg) as [[p Hp]|[Hk|[k Hk]]]|by left].
    + right; right. exists (v / PAGING_PAGE_SIZE). apply lookup_insert_eq.
    + left. exists p. by eapply lookup_weaken.
    + by right; left.
    + right; right. exists k. rewrite lookup_insert_ne //. congruence.
  - intros k p g Hk Hp. by apply (Ch k p g), Hold; [|apply (HfrA k)|].
  - intros k g [[<- <-]|[_ Hk]]%lookup_insert_Some.
    + split; [set_solver|]. split; [|intros k' Hk'; by apply HfA, (HfrA k')].
      intros p Hp. apply H4 in Hp; [|set_solver]. by apply HfA, (HTA p).
    + destruct (Co k g Hk) as (Hg & HT & Hr). split; [set_solver|]. split; [|done].
      intros p Hp. by apply (HT p), Hold.
  - intros k1 k2 g [[<- <-]|[Hn1 Hk1]]%lookup_insert_Some [[E2 Hk2]|[Hn2 Hk2]]%lookup_insert_Some; try done.
    + by destruct (Co _ _ Hk2).
    + subst g. by destruct (Co _ _ Hk1).
    + by apply (Ci k1 k2 g).
  - intros k g [[<- <-]|[_ Hk]]%lookup_insert_Some; [|by apply (Cr k g)].
    exists x. split; [done|]. split; [done|]. eapply page_in_area; [done|done| |exact Hc]. by rewrite Z_div_mult.
  - intros y w Hy Hm Hcy. pose proof (same_leaf_region w v (Hreg y w Hy Hcy) (Hreg x v Hx Hc)) as Hs.
    rewrite HwV /upd. case_decide as Hd.
    + assert (contains w x) as Hcx by (eapply page_in_area; [done|done|by apply Hs|done]).
      assert (y = x) as -> by (by eapply contains_unique). rewrite (proj1 Hs Hd) lookup_insert_eq //.
    + rewrite lookup_insert_ne; [by apply Cp|]. intros E. by apply Hd, Hs.
Qed.

(** The state after a page of the area [x] has been mapped where there was none. *)
Lemma at_mapped V V' l others hi k lim v x f W a T A n fr ar W' a' T' A' n' :
  kernel_at V l others hi (Datatypes.S k) lim → kernel_vm V W others l a T A n fr lim → accounts V l T A fr ar →
  x ∈ l → has (r_flags x) VMM_FLAGS_MMIO = false → contains v x → VMM_KERNEL_START ≤ v ≤ VMM_KERNEL_END → walk V v = None →
  f ∉ A → new_tables T ({[f]} ∪ A) T' A' →
  kernel_vm V' W' others l a' T' A' n' fr lim → kernel_vas V' = kernel_vas V →
  regs (paging (heap V')) = regs (paging (heap V)) → kheap_end (heap V') = kheap_end (heap V) →
  (Datatypes.S k * credit_frames ≤ n)%nat → (n ≤ n' + 4)%nat →
  (∀ w, walk V' w = upd (walk V) false v (Some (area_page x f)) w) →
  kernel_at V' l others hi k lim ∧ keeps V V'.
Proof.
  intros [_ Hroom Hhi Hun] K Hac Hx HM Hc Hv Hnone HfA HN K' Ev Er Ee Hn Hn' HwV.
  pose proof (areas_sorted _ _ _ _ _ _ _ _ _ _ K) as Hso.
  split; [split|split; [done|done|]].
  - exists W', a', T', A', n', fr, (<[v / PAGING_PAGE_SIZE := f]> ar). split; [exact K'|].
    split; [unfold credit_frames in *; lia|]. eapply (accounts_touch V); try done. intros y w. by eapply area_in_region.
  - rewrite Ee. unfold KHEAP_EXTENDING_AMOUNT in *. lia.
  - done.
  - intros w Hww Hfw. rewrite HwV /upd decide_False; [by apply Hun|]. rewrite same_leaf_region // => Hs.
    rewrite Forall_forall in Hfw. apply (Hfw x Hx). by eapply page_in_area.
  - intros w t Hww Et. rewrite HwV /upd. case_decide as Hs; [|done]. exfalso.
    rewrite (kernel_walk _ _ _ _ _ _ _ _ _ _ w K) (same_leaf_view _ _ false v w) // in Et.
    + rewrite -(kernel_walk _ _ _ _ _ _ _ _ _ _ v K) Hnone in Et. done.
    + intros e'. by apply (kv_small _ _ _ _ _ _ _ _ _ _ K).
Qed.

(** The first write to a page of a writable area: it faults, gets a frame and succeeds. *)
Lemma at_touch V l others hi k lim v x :
  kernel_at V l others hi (Datatypes.S k) lim → x ∈ l → has (r_flags x) VMM_FLAGS_MMIO = false → contains v x →
  Z.testbit (r_flags x) 1 = true → VMM_KERNEL_START ≤ v ≤ VMM_KERNEL_END → walk V v = None →
  ∃ V' f, write_access v V = Ok (tt, V') ∧ kernel_at V' l others hi k lim ∧ keeps V V' ∧
    (∀ w, w / PAGING_PAGE_SIZE = v / PAGING_PAGE_SIZE →
      translate (paging (heap V')) true w = Some (f + w mod PAGING_PAGE_SIZE)) ∧
    ∀ w, VMM_KERNEL_START ≤ w ≤ VMM_KERNEL_END → w / PAGING_PAGE_SIZE ≠ v / PAGING_PAGE_SIZE → walk V' w = walk V w.
Proof.
  intros HV Hx HM Hc Hw Hv Hnone. pose proof HV as [(W & a & T & A & n & fr & ar & K & Hn & Hac) Hroom Hhi Hun].
  pose proof K as [Hrep Hl Hsa Hroot Hcr3 Hpat Hm Hab Hsm].
  destruct (vr_space _ _ _ Hrep _ l Hl) as [a' Hsr]. assert (a' = a) as -> by (pose proof (sr_space _ _ _ _ Hsr); congruence).
  assert (fault_space V v = kernel_vas V) as Efs by (rewrite /fault_space (proj2 (Z.leb_le _ _)) //; lia).
  assert (canonical_addr v) as Hcv by (apply kernel_canonical; unfold VMM_KERNEL_END in *; lia).
  assert (pt_ok (paging (heap V)) (pml4_phys a) T A n) as Hok by (rewrite Hroot; apply Hm).
  destruct (demand_page_ok (paging (heap V)) (pml4_phys a) T A n v (r_flags x) Hok) as
    (P' & T' & A' & n' & f & Ed & Hf & HfA & Hok' & Hn' & HA & Er & Hwalk & _).
  - split; [|split; [unfold VMM_KERNEL_START in *; lia|done]]. rewrite Hroot. apply Hm.
  - intros e. rewrite -Hcr3 Hnone. done.
  - unfold credit_frames in Hn. lia.
  - pose proof (fault_run V a l v (fault_code (paging (heap V)) v)) as Hfr. cbv zeta in Hfr. rewrite Efs in Hfr.
    destruct (Hfr Hsr) as [[Hno _]|(l1 & y & l2 & lk & El & Hy & Hlk & Erun)].
    { exfalso. rewrite Forall_forall in Hno. by apply (Hno x). }
    assert (y = x) as ->.
    { eapply (contains_unique _ _ l); [apply Hsr|rewrite El; apply elem_of_app; right; by left|done|done|done]. }
    assert (has (fault_code (paging (heap V)) v) PAGE_FAULT_PRESENT = false) as Hnp by (by rewrite /fault_code Hnone).
    rewrite Hnp Ed in Erun.
    set e := map_entry f (vmm_generic_to_x86_flags (r_flags x)) false in Hwalk.
    assert (∀ w, mmu_walk (mem P') (pml4_phys a) w = upd (walk V) false v (Some (Page4K e)) w) as Hwalk'
      by (by rewrite Hcr3).
    assert (A ⊆ A') as Hsub by (etrans; [apply union_subseteq_r|apply (nt_owned _ _ _ _ HA)]).
    pose proof (kernel_vm_fault V W others l a T A n fr lim P' T' A' n' lk v e K Hv Hlk Hok' Hsub Er Hwalk') as K'.
    set V' := returned_vmm V _ a _ _ lk _ in Erun K'.
    pose proof Er as [= _ _ Ec _ _ _].
    assert (∀ w, walk V' w = upd (walk V) false v (Some (Page4K e)) w) as HwV.
    { intros w. rewrite -Hwalk'. cbn [V' heap returned_vmm paging with_paging]. by rewrite Ec Hcr3. }
    assert (∀ w, w / PAGING_PAGE_SIZE = v / PAGING_PAGE_SIZE →
      translate (paging (heap V')) true w = Some (f + w mod PAGING_PAGE_SIZE)) as Htr.
    { intros w Hpg. pose proof (same_page_region w v Hpg Hv) as Hwr.
      rewrite /translate HwV /upd decide_True; [|by apply same_leaf_region].
      destruct (area_entry_bits f (r_flags x) Hf) as (B1 & B2 & _). by rewrite B1 B2 Hw. }
    exists V', f. split; [rewrite /write_access {1}/translate Hnone Erun; by rewrite (Htr v eq_refl)|].
    destruct (at_mapped V V' l others hi k lim v x f W a T A n fr ar _ _ _ _ _ HV K Hac Hx HM Hc Hv Hnone HfA HA K' eq_refl Er eq_refl Hn Hn' HwV)
      as [HV' Hkeep]. do 3 (split; [done|]). intros w Hww Hne. rewrite HwV /upd decide_False //. by rewrite same_leaf_region.
Qed.

(** A device has been mapped, at most one page. *)
Lemma at_device V l others hi k lim W a T A n fr ar z b fl r V' l' a' T' A' n' fr' :
  kernel_at V l others hi (Datatypes.S k) lim → kernel_vm V W others l a T A n fr lim →
  (Datatypes.S k * credit_frames ≤ n)%nat → accounts V l T A fr ar → has fl VMM_FLAGS_MMIO = true → hi + z ≤ VMM_KERNEL_END + 1 →
  mapped_device V W others l T A n fr lim z b fl r V' l' a' T' A' n' fr' → 0 ≤ z → (3 * region_pages z false ≤ 4)%nat →
  kernel_at V' l' others (hi + z) k lim ∧ keeps V V'.
Proof.
  intros [_ Hroom [Hhi0 Hhi] Hun] K Hn Hac HM Htop HD Hz Hp.
  pose proof HD as [Dvas (Hr1 & Hr2 & Hrm) Dfree Dmin (l1 & l2 & q & El & El') Dvm Droom Dgw Dst Dend Dregs Dwalk].
  pose proof (Dmin hi (proj1 Hhi0) (free_above _ _ _ Hhi)) as Hrhi.
  assert (∀ w, VMM_KERNEL_START ≤ w ≤ VMM_KERNEL_END → ¬ r ≤ w < r + z → walk V' w = walk V w) as Hsame.
  { intros w Hw Hnr. rewrite Dwalk; [by rewrite decide_False| |lia]. apply kernel_canonical. unfold VMM_KERNEL_END in *. lia. }
  split; [split|split; [done|done|]].
  - eexists _, a', T', A', n', fr', ar. split; [exact Dvm|]. split; [unfold credit_frames in *; lia|].
    rewrite El' . apply accounts_device; [done|]. rewrite -El. eapply accounts_grow; [exact Hac|exact Dgw|].
    intros x w Hx Hc. apply Hsame; [by eapply (area_in_region V)|]. intros Hin.
    pose proof (free_not_contains l r z w Dfree Hin) as Hno. rewrite Forall_forall in Hno. by apply (Hno x).
  - unfold KHEAP_EXTENDING_AMOUNT in *. lia.
  - split; [lia|]. subst l'. rewrite El in Hhi. apply Forall_app in Hhi as [Hh1 Hh2]. apply Forall_app.
    split; [|constructor]; [|rewrite /r_end /=; lia|]; (eapply Forall_impl; [eassumption|]); intros y; cbv beta; lia.
  - intros w Hw Hfw. subst l'. apply Forall_app in Hfw as [Hf1 [Hf0 Hf2]%Forall_cons].
    rewrite Hsame; [|done|rewrite /contains /r_end /= in Hf0; lia]. apply Hun; [done|]. rewrite El. by apply Forall_app.
  - intros w t Hw Et. rewrite Hsame //. intros Hin. rewrite Hun in Et; [done|done|].
    by apply (free_not_contains l r z w).
Qed.

(** *** Giving back *)

(** What the MMU says about page [j] of an area, in terms of its frames. *)
Lemma area_frame_at V W others l a T A n fr lim ar hi x j :
  kernel_vm V W others l a T A n fr lim → accounts V l T A fr ar →
  VMM_KERNEL_START ≤ hi ≤ VMM_KERNEL_END + 1 ∧ Forall (λ r, r_end r ≤ hi) l →
  x ∈ l → has (r_flags x) VMM_FLAGS_MMIO = false → 0 ≤ j < r_size x / PAGING_PAGE_SIZE →
  let w := r_base x + j * PAGING_PAGE_SIZE in
  contains w x ∧ w / PAGING_PAGE_SIZE = r_base x / PAGING_PAGE_SIZE + j ∧
  view (mem (paging (heap V))) T w = area_page x <$> ar !! (r_base x / PAGING_PAGE_SIZE + j) ∧
  frame_at (view (mem (paging (heap V))) T) (r_base x) j = ar !! (r_base x / PAGING_PAGE_SIZE + j).
Proof.
  intros K Hac Hhi Hx HM Hj w.
  destruct (sorted_from_elem _ _ _ x (areas_sorted _ _ _ _ _ _ _ _ _ _ K) Hx) as (_ & _ & M1 & M2 & _).
  assert (contains w x ∧ w / PAGING_PAGE_SIZE = r_base x / PAGING_PAGE_SIZE + j) as [Hc Ew].
  { rewrite /w /contains /r_end. unfold PAGING_PAGE_SIZE in *. clear - Hj M1 M2. Z.div_mod_to_equations. lia. }
  assert (view (mem (paging (heap V))) T w = area_page x <$> ar !! (r_base x / PAGING_PAGE_SIZE + j)) as Ev.
  { rewrite -(kernel_walk _ _ _ _ _ _ _ _ _ _ w K) (ac_page _ _ _ _ _ _ Hac x w Hx HM Hc) Ew //. }
  do 3 (split; [done|]). rewrite /frame_at -/w Ev. destruct (ar !! _) as [f|] eqn:E; [|done]. simpl. f_equal.
  apply area_entry_bits. eapply owned_frame; [eapply ok_owned, hm_tables, K|]. by eapply ac_own.
Qed.

(** The pages of an area are its own. *)
Lemma area_frames V W others l a T A n fr lim ar hi x :
  kernel_vm V W others l a T A n fr lim → accounts V l T A fr ar →
  VMM_KERNEL_START ≤ hi ≤ VMM_KERNEL_END + 1 ∧ Forall (λ r, r_end r ≤ hi) l →
  x ∈ l → has (r_flags x) VMM_FLAGS_MMIO = false →
  let N := Z.to_nat (r_size x / PAGING_PAGE_SIZE) in
  region_ok (paging (heap V)) (pml4_phys a) T false (r_base x) N ∧
  region_frames T A (view (mem (paging (heap V))) T) (r_base x) N.
Proof.
  intros K Hac Hhi Hx HM N.
  assert (∀ j, 0 ≤ j < Z.of_nat N → 0 ≤ j < r_size x / PAGING_PAGE_SIZE) as HN by (unfold N; lia).
  split; [|split].
  - intros j Hj. destruct (area_frame_at _ _ _ _ _ _ _ _ _ _ _ _ x j K Hac Hhi Hx HM (HN j Hj)) as (Hc & _ & Ev & _).
    pose proof (area_in_region _ _ _ _ _ _ _ _ _ _ _ _ _ K Hhi Hx Hc) as Hr. cbn [step_size].
    split; [split; [|split; [unfold VMM_KERNEL_START in *; lia|apply kernel_canonical; unfold VMM_KERNEL_END in *; lia]]|].
    + rewrite (kv_root _ _ _ _ _ _ _ _ _ _ K). apply (kv_mem _ _ _ _ _ _ _ _ _ _ K).
    + intros e. by apply (kv_small _ _ _ _ _ _ _ _ _ _ K).
  - intros j Hj. destruct (area_frame_at _ _ _ _ _ _ _ _ _ _ _ _ x j K Hac Hhi Hx HM (HN j Hj)) as (_ & _ & Ev & Ef).
    intros e. rewrite Ev. rewrite /frame_at Ev in Ef. destruct (ar !! _) as [f|] eqn:E; [|done]. simpl in Ef |- *.
    intros [= <-]. injection Ef as Ef. rewrite Ef. by destruct (ac_own _ _ _ _ _ _ Hac _ _ E) as (? & ? & _).
  - intros i j f Hi Hj. destruct (area_frame_at _ _ _ _ _ _ _ _ _ _ _ _ x i K Hac Hhi Hx HM (HN i Hi)) as (_ & _ & _ & ->).
    destruct (area_frame_at _ _ _ _ _ _ _ _ _ _ _ _ x j K Hac Hhi Hx HM (HN j Hj)) as (_ & _ & _ & ->).
    intros E1 E2. pose proof (ac_inj _ _ _ _ _ _ Hac _ _ _ E1 E2). lia.
Qed.

(** The frames that are left when the area [x] has gone. *)
Definition frames_without (x : region) (ar : gmap Z Z) : gmap Z Z :=
  filter (λ kf, ¬ contains (kf.1 * PAGING_PAGE_SIZE) x) ar.

Lemma frames_without_lookup x ar k f :
  frames_without x ar !! k = Some f ↔ ar !! k = Some f ∧ ¬ contains (k * PAGING_PAGE_SIZE) x.
Proof. apply map_lookup_filter_Some. Qed.

Lemma area_in_region_frames V W others l a T A n fr lim ar hi x k f :
  kernel_vm V W others l a T A n fr lim → accounts V l T A fr ar →
  VMM_KERNEL_START ≤ hi ≤ VMM_KERNEL_END + 1 ∧ Forall (λ r, r_end r ≤ hi) l →
  x ∈ l → has (r_flags x) VMM_FLAGS_MMIO = false → ar !! k = Some f →
  in_region (view (mem (paging (heap V))) T) (r_base x) (Z.to_nat (r_size x / PAGING_PAGE_SIZE)) f ↔
  contains (k * PAGING_PAGE_SIZE) x.
Proof.
  intros K Hac Hhi Hx HM Hk.
  destruct (sorted_from_elem _ _ _ x (areas_sorted _ _ _ _ _ _ _ _ _ _ K) Hx) as (_ & _ & M1 & M2 & _).
  rewrite /in_region. split.
  - intros (j & Hj & E). assert (0 ≤ j < r_size x / PAGING_PAGE_SIZE) as Hj' by lia.
    destruct (area_frame_at _ _ _ _ _ _ _ _ _ _ _ _ x j K Hac Hhi Hx HM Hj') as (Hc & Ew & _ & Ef). rewrite Ef in E.
    rewrite (ac_inj _ _ _ _ _ _ Hac _ _ _ Hk E). revert Hc. rewrite /contains /r_end.
    unfold PAGING_PAGE_SIZE in *. clear - M1. Z.div_mod_to_equations. lia.
  - intros Hc. set j := k - r_base x / PAGING_PAGE_SIZE.
    assert (0 ≤ j < r_size x / PAGING_PAGE_SIZE) as Hj.
    { revert Hc. rewrite /j /contains /r_end. unfold PAGING_PAGE_SIZE in *. clear - M1 M2. Z.div_mod_to_equations. lia. }
    exists j. split; [lia|]. destruct (area_frame_at _ _ _ _ _ _ _ _ _ _ _ _ x j K Hac Hhi Hx HM Hj) as (_ & _ & _ & ->).
    by replace (r_base x / PAGING_PAGE_SIZE + j) with k by lia.
Qed.

Lemma frames_without_outside x ar k : ¬ contains (k * PAGING_PAGE_SIZE) x → frames_without x ar !! k = ar !! k.
Proof.
  intros Hc. destruct (ar !! k) as [f|] eqn:E; [by apply frames_without_lookup|].
  apply map_lookup_filter_None. by left.
Qed.

Lemma areas_nodup V W others l a T A n fr lim : kernel_vm V W others l a T A n fr lim → NoDup l.
Proof.
  intros K. pose proof (own_delete _ _ _ (kv_list _ _ _ _ _ _ _ _ _ _ K)
    (proj1 (holds_own _ _ _ (vr_heap _ _ _ (kv_rep _ _ _ _ _ _ _ _ _ _ K))))) as (_ & Hnd & _).
  by apply NoDup_fmap_1 in Hnd.
Qed.

Lemma other_area V W others l1 x l2 a T A n fr lim y w :
  kernel_vm V W others (l1 ++ x :: l2) a T A n fr lim → y ∈ l1 ++ l2 → contains w y → ¬ contains w x.
Proof.
  intros K Hy Hcy Hcx. assert (y ∈ l1 ++ x :: l2 ∧ x ∈ l1 ++ x :: l2) as [Hyl Hxl].
  { rewrite !elem_of_app elem_of_cons. rewrite elem_of_app in Hy. split; [tauto|]. right. by left. }
  assert (y = x) as -> by (eapply contains_unique; [by eapply areas_sorted|done..]).
  pose proof (areas_nodup _ _ _ _ _ _ _ _ _ _ K) as Hnd. rewrite -Permutation_middle NoDup_cons in Hnd. by apply Hnd.
Qed.

Lemma accounts_free V V' W others l1 x l2 a T A n fr lim ar hi A' :
  let l := l1 ++ x :: l2 in
  kernel_vm V W others l a T A n fr lim → accounts V l T A fr ar →
  VMM_KERNEL_START ≤ hi ≤ VMM_KERNEL_END + 1 ∧ Forall (λ r, r_end r ≤ hi) l → has (r_flags x) VMM_FLAGS_MMIO = false →
  (∀ f, f ∈ A' ↔ f ∈ A ∧ ¬ in_region (view (mem (paging (heap V))) T) (r_base x) (Z.to_nat (r_size x / PAGING_PAGE_SIZE)) f) →
  (∀ w, VMM_KERNEL_START ≤ w ≤ VMM_KERNEL_END → walk V' w = if decide (contains w x) then None else walk V w) →
  accounts V' (l1 ++ l2) T A' fr (frames_without x ar).
Proof.
  intros l K Hac Hhi HM HA' HwV. pose proof Hac as [Ca Ch Co Ci Cr Cp].
  assert (x ∈ l) as Hx by (apply elem_of_app; right; by left).
  pose proof (λ k f, area_in_region_frames _ _ _ _ _ _ _ _ _ _ _ _ x k f K Hac Hhi Hx HM) as Hin.
  pose proof (areas_sorted _ _ _ _ _ _ _ _ _ _ K) as Hso.
  assert (∀ y, y ∈ l1 ++ l2 → y ∈ l) as Hsub.
  { intros y. rewrite /l !elem_of_app elem_of_cons. tauto. }
  split.
  - intros f [Hf Hno]%HA'. destruct (Ca f Hf) as [?|[?|[k Hk]]]; [by left|by right; left|right; right].
    exists k. apply frames_without_lookup. split; [done|]. intros Hc. by apply Hno, (Hin k f Hk).
  - done.
  - intros k f [Hk Hc]%frames_without_lookup. destruct (Co k f Hk) as (Hf & HT & Hr). split; [|done].
    apply HA'. split; [done|]. intros Hi. by apply Hc, (Hin k f Hk).
  - intros k1 k2 f [H1 _]%frames_without_lookup [H2 _]%frames_without_lookup. by apply (Ci k1 k2 f).
  - intros k f [Hk Hc]%frames_without_lookup. destruct (Cr k f Hk) as (y & Hy & Hm & Hcy). exists y. split; [|done].
    rewrite /l elem_of_app elem_of_cons in Hy. rewrite elem_of_app. destruct Hy as [?|[->|?]]; [by left|done|by right].
  - intros y w Hy Hm Hc. pose proof (other_area _ _ _ _ _ _ _ _ _ _ _ _ _ _ K Hy Hc) as Hnx.
    rewrite HwV; [|by eapply (area_in_region V); [| |by apply Hsub|]]. rewrite decide_False //.
    rewrite frames_without_outside; [by apply Cp; [apply Hsub| |]|]. intros Hc'. apply Hnx.
    eapply page_in_area; [exact Hso|done| |exact Hc']. by rewrite Z_div_mult.
Qed.

(** The kernel's memory without the area [x] and its frames. *)
Lemma kernel_vm_freed V W others l1 x l2 a T A n fr lim ar hi P' A' ns hd lk m :
  let l := l1 ++ x :: l2 in
  kernel_vm V W others l a T A n fr lim → accounts V l T A fr ar →
  VMM_KERNEL_START ≤ hi ≤ VMM_KERNEL_END + 1 ∧ Forall (λ r, r_end r ≤ hi) l → has (r_flags x) VMM_FLAGS_MMIO = false →
  pt_ok P' (pml4_phys a) T A' n → regs P' = regs (paging (heap V)) →
  (∀ w, canonical_addr w → view (mem P') T w = if decide (contains w x) then None else view (mem (paging (heap V))) T w) →
  (∀ f, f ∈ A' ↔ f ∈ A ∧ ¬ in_region (view (mem (paging (heap V))) T) (r_base x) (Z.to_nat (r_size x / PAGING_PAGE_SIZE)) f) →
  let V' := returned_vmm V (kernel_vas V) a (with_nodes ns (with_paging P' (heap V))) hd lk m in
  vmm_rep V' (<[kernel_vas V := l1 ++ l2]> W) others →
  kernel_vm V' (<[kernel_vas V := l1 ++ l2]> W) others (l1 ++ l2) (mkSpace (pml4_phys a) hd lk) T A' n fr lim.
Proof.
  intros l K Hac Hhi HM Hok' Er Hview HA2 V' Hrep'. pose proof K as [Hrep Hl Hsa Hroot Hcr3 Hpat Hm Hab Hsm].
  assert (x ∈ l) as Hx by (apply elem_of_app; right; by left). pose proof Er as [= Eo Ek Ec _ Ep _].
  split; cbn [V' heap returned_vmm paging with_nodes with_paging kheap_start kheap_end kernel_vas spaces pml4_phys].
  - exact Hrep'.
  - apply lookup_insert_eq.
  - apply lookup_insert_eq.
  - by rewrite Hroot Ek.
  - by rewrite Ec.
  - by rewrite Ep.
  - destruct (vr_heap _ _ _ Hrep) as (L & B & Hr & _). cbn [fst] in Hr. destruct (hr_top _ _ _ Hr) as [Htop _].
    apply (heap_mem_frame (heap V) _ T A n fr lim T A' n Hm); try done; cbn [paging with_nodes with_paging].
    + by rewrite -Hroot.
    + intros k' f Hk Hf. apply HA2. split; [done|]. intros (j & Hj & Ef).
      destruct (area_frame_at _ _ _ _ _ _ _ _ _ _ _ _ x j K Hac Hhi Hx HM ltac:(lia)) as (_ & _ & _ & E2). rewrite E2 in Ef.
      by apply (ac_own _ _ _ _ _ _ Hac _ _ Ef) in Hk.
    + pose proof (heap_not_empty V _ _ Hrep). lia.
    + intros w Hw. rewrite Hview; [|apply kernel_canonical; unfold VMM_KERNEL_START, VMM_KERNEL_END in *; lia].
      rewrite decide_False //. intros Hcw. pose proof (area_in_region _ _ _ _ _ _ _ _ _ _ _ _ _ K Hhi Hx Hcw). lia.
  - done.
  - intros w e Hw. rewrite Hview; [case_decide; [done|by apply Hsm]|]. apply kernel_canonical. unfold VMM_KERNEL_END in *. lia.
Qed.

(** An area that is not a device is given back by any of its addresses. *)
Lemma at_free V l1 x l2 others hi k lim addr :
  kernel_at V (l1 ++ x :: l2) others hi k lim → has (r_flags x) VMM_FLAGS_MMIO = false → contains addr x →
  ∃ V', vmm_free (kernel_vas V) addr V = Ok (tt, V') ∧ kernel_at V' (l1 ++ l2) others hi k lim ∧
    kernel_vas V' = kernel_vas V ∧ regs (paging (heap V')) = regs (paging (heap V)) ∧
    ∀ w, VMM_KERNEL_START ≤ w ≤ VMM_KERNEL_END → walk V' w = if decide (contains w x) then None else walk V w.
Proof.
  intros [(W & a & T & A & n & fr & ar & K & Hn & Hac) Hroom Hhi Hun] HM Hc.
  assert (x ∈ l1 ++ x :: l2) as Hx by (apply elem_of_app; right; by left).
  destruct (area_frames _ _ _ _ _ _ _ _ _ _ _ _ x K Hac Hhi Hx HM) as [Hreg Hfrs].
  pose proof K as [Hrep Hl Hsa Hroot Hcr3 Hpat Hm Hab Hsm].
  destruct (vmm_free_ok V W others (kernel_vas V) a l1 x l2 addr T A n Hrep Hl Hsa Hc)
    as (P' & A' & ns & hd & lk & m & E & Hrep' & Hok' & Er & Hview & HA' & _); [rewrite Hroot; apply Hm|done|done|].
  rewrite HM in HA'. cbn [negb] in HA'. set V' := returned_vmm _ _ _ _ _ _ _ in E, Hrep'.
  pose proof Er as [= Eo Ek Ec _ Ep _].
  assert (∀ f, f ∈ A' ↔ f ∈ A ∧ ¬ in_region (view (mem (paging (heap V))) T) (r_base x)
    (Z.to_nat (r_size x / PAGING_PAGE_SIZE)) f) as HA2 by (intros f; rewrite HA'; tauto).
  assert (∀ w, canonical_addr w → walk V' w = if decide (contains w x) then None else walk V w) as HwV.
  { intros w Hw. rewrite (kernel_walk _ _ _ _ _ _ _ _ _ _ w K) -(Hview w Hw) -(ok_walk P' (pml4_phys a) T A' n w Hok').
    cbn [V' heap returned_vmm paging with_nodes with_paging]. by rewrite Ec Hcr3. }
  assert (∀ w, VMM_KERNEL_START ≤ w ≤ VMM_KERNEL_END → canonical_addr w) as Hcan
    by (intros w Hw; apply kernel_canonical; unfold VMM_KERNEL_END in *; lia).
  pose proof (kernel_vm_freed V W others l1 x l2 a T A n fr lim ar hi P' A' ns hd lk m K Hac Hhi HM Hok' Er Hview HA2 Hrep') as K'.
  exists V'. split; [exact E|]. split; [split|split; [done|split; [exact Er|auto]]].
  - eexists _, _, T, A', n, fr, (frames_without x ar). split; [exact K'|]. split; [done|].
    eapply (accounts_free V); try done. auto.
  - done.
  - split; [apply Hhi|]. destruct Hhi as [_ Hf]. apply Forall_app in Hf as [Hf1 Hf2]. apply Forall_app.
    split; [done|by apply Forall_cons in Hf2 as [_ Hf2]].
  - intros w Hw Hf. rewrite HwV; [|by apply Hcan]. case_decide as Hd; [done|]. apply Hun; [done|].
    apply Forall_app in Hf as [Hf1 Hf2]. apply Forall_app. split; [done|by constructor].
Qed.

(** A block goes back to the heap. *)
Lemma at_kfree V l others hi k lim p sz rest :
  kernel_at V l others hi k lim → others ≡ₚ (p, sz) :: rest →
  ∃ h, on_heap (kfree p) V = Ok (tt, with_heap h V) ∧ paging h = paging (heap V) ∧ kernel_at (with_heap h V) l rest hi k lim.
Proof.
  intros [(W & a & T & A & n & fr & ar & K & Hn & Hac) Hroom Hhi Hun] Hp.
  destruct (client_kfree_total (heap V) _ p sz (((λ p, (p, 32)) <$> own W) ++ rest) (vr_heap _ _ _ (kv_rep _ _ _ _ _ _ _ _ _ _ K)))
    as (h & E & Hc & Eh); [by rewrite Hp -Permutation_middle|].
  exists h. assert (paging h = paging (heap V)) as Epg by (by rewrite Eh).
  assert (kheap_end h = kheap_end (heap V)) as Ehe by (by rewrite Eh).
  split; [by rewrite /on_heap E|]. split; [done|].
  destruct (kernel_vm_heap V W others l a T A n fr lim h rest T A n fr 0 K) as [K' Hw].
  - exact Hc.
  - rewrite Eh. destruct (kv_mem _ _ _ _ _ _ _ _ _ _ K). by split.
  - apply extended_same; [eapply ok_tables, hm_tables, K|done|done].
  - by rewrite Eh.
  - split; cbn [heap with_heap]; rewrite ?Ehe ?Epg; try done. exists W, a, T, A, n, fr, ar. split; [done|]. split; [done|].
    destruct Hac as [Ca Ch Co Ci Cr Cp]. split; cbn [heap with_heap]; rewrite ?Epg; done.
Qed.

(** A client writes to its block: the page is there. *)
Lemma at_block V l others hi k lim p sz v :
  kernel_at V l others hi k lim → (p, sz) ∈ others → p ≤ v < p + sz → write_access v V = Ok (tt, V).
Proof.
  intros [(W & a & T & A & n & fr & ar & K & Hn & Hac) Hroom Hhi Hun] Hin Hv.
  assert (kheap_start (heap V) ≤ v < kheap_end (heap V)) as Hr.
  { destruct (vr_heap _ _ _ (kv_rep _ _ _ _ _ _ _ _ _ _ K)) as (L & B & Hr & HB & HL). cbn [fst snd] in Hr, HB, HL.
    assert ((p, sz) ∈ ((λ p, (p, 32)) <$> own W) ++ others) as Hin' by (apply elem_of_app; by right).
    apply list_elem_of_lookup in Hin' as [i Hi]. destruct (Forall2_lookup_l _ _ _ _ _ HB Hi) as ([b bs] & Hb & [Ep Hz]).
    simpl in Ep, Hz. apply list_elem_of_lookup_2 in Hb. rewrite HL in Hb.
    pose proof (used_positive _ _ _ _ Hr Hb). lia. }
  destruct (bk_view _ _ _ _ _ _ (hm_backed _ _ _ _ _ _ (kv_mem _ _ _ _ _ _ _ _ _ _ K)) v Hr) as (f & Hf & Ev).
  assert (frame f) as Hfr.
  { eapply owned_frame; [eapply ok_owned, hm_tables, K|]. eapply bk_owned; [apply K|exact Hf]. }
  rewrite /write_access /translate (kernel_walk _ _ _ _ _ _ _ _ _ _ v K) Ev.
  destruct (map_entry_bits f HEAP_FLAGS false) as (_ & -> & _); [split; [|apply Hfr]; destruct Hfr; lia|apply Hfr|done|done].
Qed.
End kernel.
