(* ===== verification/Tasks.v ===== *)
(** * Tasks and threads with their memory
    (scheduling/scheduler.c, scheduling/task.c)

    Sched.v takes what the allocators return as arguments; here the calls are composed
    with the kernel heap and the virtual memory manager: structs come from [kmalloc],
    stacks from [vmm_alloc], and the first write to a stack takes a page fault. *)

From stdpp Require Import base gmap list numbers.
From S2P Require Import Prelude Spinlock Hhdm FrameAlloc Paging PagingSpec Kheap KheapSpec KheapThms Vmm VmmSpec VmmInv Npf Serial.
From S2P Require Import Sched SchedSpec SchedOps Mutex SchedInv Mmio Kernel.

(** ** Model *)

Definition sizeof_task : Z := 64.
Definition sizeof_thread : Z := 56.
Definition STACK_FLAGS : Z := Z.lor (Z.lor VMM_FLAGS_READ VMM_FLAGS_WRITE) VMM_FLAGS_ANON.

Section tasks.
Context {S : Type} `{FrameAlloc S}.

(** The memory and the scheduler. *)
Definition threads_state : Type := vmm_state S * sched_state.

Definition start_scheduler : M threads_state unit :=
  idle <- on_fst (on_heap (kmalloc sizeof_task));;
  if idle =? 0 then fail Halt
  else
    kernel <- on_fst vmm_get_kernel_vas;;
    idle_thread <- on_fst (on_heap (kmalloc sizeof_thread));;
    (if idle_thread =? 0 then on_fst (on_heap (kfree idle)) else ret tt);;;
    on_snd (scheduler_init idle idle_thread kernel).

Definition new_task (name : option (list Z)) : M threads_state Z :=
  new_task <- on_fst (on_heap (kmalloc sizeof_task));;
  kernel <- on_fst vmm_get_kernel_vas;;
  on_snd (task_create new_task kernel name).

(** [exit_fn] is the address of [task_current_thread_exit]. *)
Definition new_thread (exit_fn task entry_point : Z) : M threads_state Z :=
  if (task =? 0) || (entry_point =? 0) then ret 0
  else
    new_thread <- on_fst (on_heap (kmalloc sizeof_thread));;
    if new_thread =? 0 then ret 0
    else
      kernel <- on_fst vmm_get_kernel_vas;;
      new_stack_bottom <- on_fst (vmm_alloc kernel THREAD_INITIAL_STACK_SIZE STACK_FLAGS 0);;
      if new_stack_bottom =? 0 then on_fst (on_heap (kfree new_thread));;; ret 0
      else
        let ret_addr := u64 (u64 (new_stack_bottom + THREAD_INITIAL_STACK_SIZE) - 8) in
        on_fst (write_access ret_addr);;;
        on_fst (write_access (u64 (ret_addr - sizeof_cpu_status)));;;
        on_snd (task_create_thread exit_fn task entry_point new_thread new_stack_bottom).

(** A round of [kernel_idle_thread]: the reaper gives the memory of a thread back. *)
Definition idle_round : M threads_state unit :=
  r <- on_snd reap_round;;
  match r with
  | Some (thread_to_delete, stack_to_clean, rsp) =>
      on_fst (vmm_free stack_to_clean rsp);;;
      on_fst (on_heap (kfree thread_to_delete))
  | None => ret tt
  end.
End tasks.

(** ** Specification *)

Section spec.
Context {S : Type} `{FrameAllocSpec S}.
Implicit Types (V : vmm_state S) (q : sched_state).

(** Thread [x] is ready to run [entry]: its stack is an area of its own, whose last page is
    backed and holds the frame the first switch restores, under the return address. *)
Definition started V q (l : list region) (entry exit_fn x : Z) : Prop :=
  ∃ y r, thrs q !! x = Some y ∧ tstate y = THREAD_READY ∧ r ∈ l ∧ r_flags r = STACK_FLAGS ∧
    r_size r = THREAD_INITIAL_STACK_SIZE ∧ VMM_KERNEL_START ≤ r_base r ∧ r_end r ≤ VMM_KERNEL_END + 1 ∧
    context y = r_end r - 8 - sizeof_cpu_status ∧
    frames q !! context y = Some (initial_frame entry (r_end r - 8)) ∧
    stack_words q !! (r_end r - 8) = Some exit_fn ∧
    ∀ o, context y ≤ o < r_end r → is_Some (translate (paging (heap V)) true o).

(** The memory and the lists fit together: every struct of the scheduler is a block of the
    heap, and the threads [ths] are ready to run [entry]. *)
Record system V q (l : list region) others hi k lim TL (entry exit_fn : Z) ths : Prop := {
  sy_mem : kernel_at V l others hi k lim;
  sy_inv : kernel_inv q TL;
  sy_vas : ∀ t k, tasks q !! t = Some k → vas k = kernel_vas V;
  sy_tasks : ∀ t, is_Some (tasks q !! t) → (t, sizeof_task) ∈ others;
  sy_thrs : ∀ x, is_Some (thrs q !! x) → (x, sizeof_thread) ∈ others;
  sy_started : Forall (started V q l entry exit_fn) ths;
}.

(** Starting a thread does not disturb those that are ready. *)
Lemma started_mono V q l entry exit_fn x V' q' l' :
  keeps V V' → (∀ r, r ∈ l → r ∈ l') →
  set_tnext 0 <$> thrs q' !! x = set_tnext 0 <$> thrs q !! x →
  (∀ r a f, r ∈ l → contains a r → frames q !! a = Some f → frames q' !! a = Some f) →
  (∀ r a w, r ∈ l → contains a r → stack_words q !! a = Some w → stack_words q' !! a = Some w) →
  started V q l entry exit_fn x → started V' q' l' entry exit_fn x.
Proof.
  intros Hk Hl Hx Hf Hw (y & r & Hy & Hst & Hr & Hfl & Hsz & Hb & He & Hc & Hfr & Hsw & Htr).
  rewrite Hy in Hx. destruct (thrs q' !! x) as [y'|] eqn:Hy'; [|done]. simpl in Hx.
  injection Hx as _ Ec Es _ _ _.
  assert (∀ o, context y ≤ o < r_end r → contains o r) as Hin.
  { intros o Ho. rewrite Hc in Ho. rewrite /contains. rewrite /r_end in Ho |- *.
    rewrite /sizeof_cpu_status /THREAD_INITIAL_STACK_SIZE in Hsz Ho. lia. }
  assert (context y < r_end r - 8) as Hlt by (rewrite Hc /sizeof_cpu_status; lia).
  exists y', r. rewrite Ec Es. split; [done|]. split; [done|]. split; [by apply Hl|]. do 4 (split; [done|]).
  split; [done|]. split; [apply (Hf r); [done|apply Hin; lia|done]|].
  split; [apply (Hw r); [done|apply Hin; lia|done]|].
  intros o Ho. destruct (Htr o Ho) as [p Hp]. exists p. apply (keeps_translate V V'); [done| |done].
  pose proof (Hin o Ho) as Hco. rewrite /contains in Hco. lia.
Qed.

(** ** The operations *)

Lemma start_scheduler_ok V q l others hi k lim entry exit_fn :
  kernel_at V l others hi (Datatypes.S (Datatypes.S k)) lim →
  tasks q = ∅ → thrs q = ∅ → lock_free (scheduler_lock q) → clock_ok q →
  ∃ idle idle_thread V' q', start_scheduler (V, q) = Ok (tt, (V', q')) ∧
    system V' q' l ((idle_thread, sizeof_thread) :: (idle, sizeof_task) :: others) hi k lim
      [(idle, [idle_thread])] entry exit_fn [] ∧ keeps V V' ∧
    tasks q' !! idle = Some (mkTask 0 [73; 100; 108; 101] (kernel_vas V) idle_thread idle) ∧
    q' = mkSched (sc_cpu q) (scheduler_lock q) (tasks q') (thrs q') (mutexes q) idle idle_thread
           idle (next_pid q) (next_tid q) (system_ticks q) (tsc_freq_hz q) (tsc_boot_time q)
           (frames q) (stack_words q).
Proof.
  intros HV Et Ex Hl Hclk.
  destruct (at_kmalloc V l others hi _ lim sizeof_task HV) as (idle & V1 & E1 & Hi & _ & HV1 & K1 & _); [done|].
  destruct (at_kmalloc V1 l _ hi _ lim sizeof_thread HV1) as (it & V2 & E2 & Hit & _ & HV2 & K2 & _); [done|].
  destruct (scheduler_init_ok q idle it (kernel_vas V1) Hi Hit) as (q' & E3 & Hr & Etk & Eth & Eq).
  exists idle, it, V2, q'. split.
  { rewrite /start_scheduler /bind /on_fst. cbn [fst snd]. rewrite E1 (proj2 (Z.eqb_neq idle 0) Hi).
    rewrite /vmm_get_kernel_vas /gets. cbn [fst snd]. rewrite E2 (proj2 (Z.eqb_neq it 0) Hit).
    rewrite /ret /on_snd. cbn [fst snd]. by rewrite E3. }
  split; [split|split; [by etrans|]].
  - exact HV2.
  - by apply (kernel_inv_init q idle it (kernel_vas V1)).
  - intros t k0. rewrite Etk Et insert_empty. intros [<- <-]%lookup_singleton_Some. by rewrite (kp_vas _ _ K2).
  - intros t. rewrite Etk Et insert_empty lookup_singleton_is_Some. intros <-. right. by left.
  - intros x. rewrite Eth Ex insert_empty lookup_singleton_is_Some. intros <-. by left.
  - constructor.
  - split; [|exact Eq]. rewrite Etk lookup_insert_eq. by rewrite (kp_vas _ _ K1).
Qed.

Lemma fresh_block (others : list (Z * Z)) p sz : p ∉ others.*1 → (p, sz) ∉ others.
Proof. intros Hp Hin. apply Hp, list_elem_of_fmap. by exists (p, sz). Qed.

(** A name of up to 31 characters. *)
Lemma new_task_ok V q l others hi k lim TL entry exit_fn ths name :
  system V q l others hi (Datatypes.S k) lim TL entry exit_fn ths → Z.of_nat (length name) < TASK_NAME_MAX_LENGTH →
  ∃ t V' q', new_task (Some name) (V, q) = Ok (t, (V', q')) ∧
    system V' q' l ((t, sizeof_task) :: others) hi k lim (TL ++ [(t, [])]) entry exit_fn ths ∧ keeps V V' ∧
    (∃ next, tasks q' !! t = Some (mkTask (next_pid q) name (kernel_vas V) 0 next)) ∧ sc_cpu q' = sc_cpu q.
Proof.
  intros [HV Hi Hvs Htk Hth Hst] Hn.
  destruct (at_kmalloc V l others hi k lim sizeof_task HV) as (t & V' & E1 & Ht & Hf & HV' & K & _); [done|].
  assert (tasks q !! t = None) as Hnone.
  { destruct (tasks q !! t) eqn:E; [|done]. exfalso. eapply (fresh_block others t); [done|]. apply Htk. by eexists. }
  destruct (inv_new_task q TL t (kernel_vas V') name Hi Hnone Ht Hn) as (q' & E2 & Hi' & Ht' & Hk' & Ex & Ef & Ew & Ec).
  exists t, V', q'. split.
  { rewrite /new_task /bind /on_fst. cbn [fst snd]. rewrite E1 /vmm_get_kernel_vas /gets /on_snd. cbn [fst snd]. by rewrite E2. }
  split; [split|split; [done|split; [|done]]].
  - exact HV'.
  - exact Hi'.
  - intros u ku Hu. destruct (Ht' u ku Hu) as [->|(k0 & Hu' & ->)]; [rewrite Hk' in Hu; by injection Hu as <-|].
    rewrite (kp_vas _ _ K). by apply (Hvs u).
  - intros u [ku Hu]. destruct (Ht' u ku Hu) as [->|(k0 & Hu' & _)]; [by left|right; apply Htk; by eexists].
  - rewrite Ex. intros x Hx. right. by apply Hth.
  - eapply Forall_impl; [exact Hst|]. intros x. apply started_mono; [done|done|by rewrite Ex|by rewrite Ef|by rewrite Ew].
  - rewrite -(kp_vas _ _ K). by eexists.
Qed.

(** The stack of a new thread: an area of its own, with its last page backed. *)
Lemma new_stack_ok V l others hi k lim :
  kernel_at V l others hi (Datatypes.S (Datatypes.S k)) lim → hi + THREAD_INITIAL_STACK_SIZE ≤ VMM_KERNEL_END + 1 →
  ∃ r V' qa l1 l2, let x := mkRegion qa r THREAD_INITIAL_STACK_SIZE STACK_FLAGS in
    let top := r + THREAD_INITIAL_STACK_SIZE in
    (b <- vmm_alloc (kernel_vas V) THREAD_INITIAL_STACK_SIZE STACK_FLAGS 0;;
     write_access (top - 8);;; write_access (top - 8 - sizeof_cpu_status);;; ret b) V = Ok (r, V') ∧
    l = l1 ++ l2 ∧ free_at l r THREAD_INITIAL_STACK_SIZE ∧ VMM_KERNEL_START ≤ r ∧ top ≤ VMM_KERNEL_END + 1 ∧
    kernel_at V' (l1 ++ x :: l2) others (hi + THREAD_INITIAL_STACK_SIZE) k lim ∧ keeps V V' ∧
    ∀ o, top - 8 - sizeof_cpu_status ≤ o < top → is_Some (translate (paging (heap V')) true o).
Proof.
  intros HV Htop. change THREAD_INITIAL_STACK_SIZE with (round_up THREAD_INITIAL_STACK_SIZE) in Htop.
  destruct (at_anon V l others hi _ lim THREAD_INITIAL_STACK_SIZE STACK_FLAGS 0 HV ltac:(done) Htop eq_refl eq_refl eq_refl)
    as (r & V1 & qa & l1 & l2 & E1 & El & Hf & Hr & Hrm & HV1 & K1 & Hnone & _).
  change (round_up THREAD_INITIAL_STACK_SIZE) with THREAD_INITIAL_STACK_SIZE in *. cbv zeta in HV1.
  set x := mkRegion qa r THREAD_INITIAL_STACK_SIZE STACK_FLAGS in HV1. set top := r + THREAD_INITIAL_STACK_SIZE.
  assert (r_end x = top) as Ee by done. unfold THREAD_INITIAL_STACK_SIZE, sizeof_cpu_status in *.
  destruct (at_touch V1 _ others _ k lim (top - 8) x HV1) as (V2 & f & E2 & HV2 & K2 & Htr & _).
  - apply elem_of_app. right. by left.
  - done.
  - rewrite /contains /r_end /=. lia.
  - done.
  - lia.
  - apply Hnone. lia.
  - assert (∀ o, top - 8 - 23 * 8 ≤ o < top → translate (paging (heap V2)) true o = Some (f + o mod PAGING_PAGE_SIZE)) as Htr'.
    { intros o Ho. apply Htr. unfold PAGING_PAGE_SIZE, top in *. clear - Ho Hrm. Z.div_mod_to_equations. lia. }
    exists r, V2, qa, l1, l2. cbv zeta. split.
    { rewrite {1}/bind E1 {1}/bind E2 {1}/bind {1}/write_access Htr'; [done|unfold top; lia]. }
    split; [done|]. split; [done|]. split; [lia|]. split; [unfold top; lia|]. split; [done|]. split; [by etrans|].
    intros o Ho. by rewrite Htr'.
Qed.

(** The new thread has its struct and its stack, in the ring of its task. *)
Lemma new_thread_ok V q l others hi k lim A t lt B entry exit_fn ths :
  system V q l others hi (3 + k) lim (A ++ (t, lt) :: B) entry exit_fn ths →
  entry ≠ 0 → hi + THREAD_INITIAL_STACK_SIZE ≤ VMM_KERNEL_END + 1 →
  ∃ x V' q' l', new_thread exit_fn t entry (V, q) = Ok (x, (V', q')) ∧
    system V' q' l' ((x, sizeof_thread) :: others) (hi + THREAD_INITIAL_STACK_SIZE) k lim
      (A ++ (t, lt ++ [x]) :: B) entry exit_fn (x :: ths) ∧ keeps V V' ∧
    (task_current q' = task_current q ∧ thread_current q' = thread_current q) ∧ sc_cpu q' = sc_cpu q.
Proof.
  intros [HV Hi Hvs Htk Hth Hst] He Htop.
  destruct (at_kmalloc V l others hi _ lim sizeof_thread HV) as (x & V1 & E1 & Hx & Hf & HV1 & K1 & _); [done|].
  assert (thrs q !! x = None) as Hnone.
  { destruct (thrs q !! x) eqn:E; [|done]. exfalso. eapply (fresh_block others x); [done|]. apply Hth. by eexists. }
  destruct (new_stack_ok V1 l _ hi k lim HV1 Htop)
    as (r & V2 & qa & l1 & l2 & E2 & El & Hfree & Hr1 & Hr2 & HV2 & K2 & Htr). cbv zeta in HV2, E2, Htr.
  set top := r + THREAD_INITIAL_STACK_SIZE in Hr2, E2, Htr.
  assert (VMM_KERNEL_START ≤ r ∧ top < 2 ^ 64) as [Hr0 Htop64] by (unfold VMM_KERNEL_END in Hr2; lia).
  assert (u64 (r + THREAD_INITIAL_STACK_SIZE) = top) as U1 by (apply u64_small; unfold top, VMM_KERNEL_START, THREAD_INITIAL_STACK_SIZE in *; lia).
  assert (u64 (top - 8) = top - 8) as U2 by (apply u64_small; unfold top, VMM_KERNEL_START, THREAD_INITIAL_STACK_SIZE in *; lia).
  assert (u64 (top - 8 - sizeof_cpu_status) = top - 8 - sizeof_cpu_status) as U3
    by (apply u64_small; unfold top, VMM_KERNEL_START, THREAD_INITIAL_STACK_SIZE, sizeof_cpu_status in *; lia).
  pose proof (inv_new_thread q A t lt B exit_fn entry x r Hi Hnone Hx He) as Hth'. cbv zeta in Hth'.
  rewrite U1 U2 U3 in Hth'. destruct Hth' as (q' & E3 & Hi' & Hy & Hsame & Htasks & Efr & Esw & Ekc & Exc & Ecpu); [unfold VMM_KERNEL_START in *; lia|].
  set xr := mkRegion qa r THREAD_INITIAL_STACK_SIZE STACK_FLAGS in HV2.
  assert (∀ y a, y ∈ l → contains a y → a ≠ top - 8 ∧ a ≠ top - 8 - sizeof_cpu_status) as Hapart.
  { intros y b Hyl Hcy. rewrite /free_at Forall_forall in Hfree. specialize (Hfree y Hyl).
    unfold top, THREAD_INITIAL_STACK_SIZE, sizeof_cpu_status, contains in *. lia. }
  exists x, V2, q', (l1 ++ xr :: l2). split.
  { apply bind_ok in E2 as (b & V3 & E2 & ([] & V4 & E4 & ([] & V5 & E5 & Er)%bind_ok)%bind_ok). injection Er as -> ->.
    assert (t ≠ 0) as Ht.
    { intros ->. apply (sr_tasks_nonnull _ _ (cm_rep _ _ (proj1 Hi))). rewrite fmap_app elem_of_app. right. by left. }
    rewrite /new_thread (proj2 (Z.eqb_neq entry 0) He) (proj2 (Z.eqb_neq t 0) Ht). cbn [orb].
    rewrite {1}/bind {1}/on_fst. cbn [fst snd]. rewrite E1 (proj2 (Z.eqb_neq x 0) Hx).
    rewrite {1}/bind {1}/on_fst /vmm_get_kernel_vas /gets. cbn [fst snd].
    rewrite {1}/bind {1}/on_fst. cbn [fst snd]. rewrite E2 (proj2 (Z.eqb_neq r 0)); [|unfold VMM_KERNEL_START in *; lia].
    rewrite U1 U2 {1}/bind {1}/on_fst. cbn [fst snd]. rewrite E4. rewrite {1}/bind {1}/on_fst. cbn [fst snd].
    rewrite U3 E5 /on_snd. cbn [fst snd]. by rewrite E3. }
  split; [split|split; [by etrans|done]].
  - exact HV2.
  - exact Hi'.
  - intros u ku Hu. destruct (Htasks u ku Hu) as (k0 & Hu' & ->). rewrite (kp_vas _ _ K2) (kp_vas _ _ K1). by apply (Hvs u).
  - intros u [ku Hu]. destruct (Htasks u ku Hu) as (k0 & Hu' & _). right. apply Htk. by eexists.
  - intros y Hyy. destruct (decide (y = x)) as [->|Hne]; [by left|right]. apply Hth.
    specialize (Hsame y Hne). destruct Hyy as [y' Hy']. rewrite Hy' in Hsame. destruct (thrs q !! y); [by eexists|done].
  - constructor.
    + eexists _, xr. split; [exact Hy|]. split; [done|]. split; [apply elem_of_app; right; by left|]. do 4 (split; [done|]).
      split; [done|]. split; [by rewrite Efr lookup_insert_eq|]. split; [by rewrite Esw lookup_insert_eq|]. exact Htr.
    + eapply Forall_impl; [exact Hst|]. intros y Hyst. apply (started_mono V q l entry exit_fn y V2 q'); [by etrans| | | | |exact Hyst].
      * intros y0. rewrite El !elem_of_app elem_of_cons. tauto.
      * apply Hsame. intros ->. destruct Hyst as (y0 & _ & Hy0 & _). congruence.
      * intros y0 b f0 Hy0 Hc0 Hf0. rewrite Efr lookup_insert_ne //. by destruct (Hapart y0 b Hy0 Hc0).
      * intros y0 b w0 Hy0 Hc0 Hf0. rewrite Esw lookup_insert_ne //. by destruct (Hapart y0 b Hy0 Hc0).
Qed.
End spec.
