(* ===== verification/Timer.v ===== *)
(** * Timers (devices/timer.c)

    [timer_init] measures the local APIC timer and the time-stamp counter against the
    programmable interval timer (PIT) for ten milliseconds and starts the periodic
    interrupt. The three clocks are hardware; the class [TimerHw] says how they run. *)

From stdpp Require Import base gmap list numbers.
From S2P Require Import Prelude Spinlock Hhdm PmmSpec FrameAlloc Paging Kheap KheapThms Vmm Npf Serial Sched Mmio Lapic.

(** ** Model *)

Definition TIMER_FREQUENCY_HZ : Z := 100.
Definition PIT_CMD_PORT : Z := 0x43.
Definition PIT_DATA_PORT : Z := 0x40.
Definition PIT_BASE_FREQ : Z := 1193182.
Definition LAPIC_LVT_TIMER_REG : Z := 0x320.
Definition LAPIC_DIVIDE_REG : Z := 0x3E0.
Definition LAPIC_INITIAL_COUNT_REG : Z := 0x380.
Definition LAPIC_CURRENT_COUNT_REG : Z := 0x390.
Definition LAPIC_LVT_PERIODIC : Z := Z.shiftl 1 17.
Definition LAPIC_LVT_VECTOR : Z := 32.

(** The instruction [rdtsc]: the counter. *)
Class TscDevice (D : Type) := { tsc_read : D → Z * D }.

Section pit.
Context {D : Type} `{!PortDevice D, !TscDevice D}.

Definition pit_prepare_sleep (ms : Z) : M D unit :=
  let count_num := u16 (u64 (PIT_BASE_FREQ / 1000 * ms)) in
  outb PIT_CMD_PORT 0x30;;;
  outb PIT_DATA_PORT (Z.land count_num 0xFF);;;
  outb PIT_DATA_PORT (Z.land (Z.shiftr count_num 8) 0xFF).

Definition pit_read_count : M D Z :=
  outb PIT_CMD_PORT 0x00;;;
  low <- inb PIT_DATA_PORT;;
  high <- inb PIT_DATA_PORT;;
  ret (u16 (Z.lor low (Z.shiftl high 8))).

(** The halves of the counter are in EAX and EDX. *)
Definition rdtsc : M D Z := λ d,
  let '(t, d) := tsc_read d in
  let lo := u32 t in
  let hi := u32 (Z.shiftr t 32) in
  Ok (Z.lor (Z.shiftl hi 32) lo, d).

(** [while(1)]: until the PIT has counted [ticks_to_wait] down. *)
Fixpoint pit_wait (fuel : nat) (start_pit ticks_to_wait : Z) : M D unit :=
  match fuel with
  | O => fail OutOfFuel
  | S fuel =>
      current <- pit_read_count;;
      let delta := u16 (start_pit - current) in
      if ticks_to_wait <=? delta then ret tt else pit_wait fuel start_pit ticks_to_wait
  end.
End pit.

Section timer.
Context {S D : Type} `{FrameAlloc S, !MmioDevice D, !PortDevice D, !TscDevice D}.

Record timer_state := mkTimer {
  tm_lapic : lapic_state S D;
  lapic_ticks_per_ms : Z;
  tm_sched : sched_state;            (** [system_ticks], [tsc_freq_hz], [tsc_boot_time] *)
}.

Definition on_lapic {A} (m : M (lapic_state S D) A) : M timer_state A := λ s,
  match m (tm_lapic s) with
  | Ok (a, l) => Ok (a, mkTimer l (lapic_ticks_per_ms s) (tm_sched s))
  | Err e => Err e
  end.
Definition on_dev {A} (m : M D A) : M timer_state A := on_lapic (λ l,
  match m (lp_dev l) with Ok (a, d) => Ok (a, with_dev d l) | Err e => Err e end).
Definition on_sched {A} (m : M sched_state A) : M timer_state A := λ s,
  match m (tm_sched s) with
  | Ok (a, q) => Ok (a, mkTimer (tm_lapic s) (lapic_ticks_per_ms s) q)
  | Err e => Err e
  end.

Definition with_tsc (freq boot : Z) (q : sched_state) : sched_state :=
  mkSched (sc_cpu q) (scheduler_lock q) (tasks q) (thrs q) (mutexes q) (task_current q) (thread_current q)
    (task_list q) (next_pid q) (next_tid q) (system_ticks q) freq boot (Sched.frames q) (stack_words q).

Definition timer_init : M timer_state unit :=
  on_lapic (lapic_write LAPIC_DIVIDE_REG 0x3);;;
  on_lapic (lapic_write LAPIC_INITIAL_COUNT_REG 0xFFFFFFFF);;;
  on_dev (pit_prepare_sleep 0xFFFF);;;
  start_lapic_timer <- on_lapic (lapic_read LAPIC_CURRENT_COUNT_REG);;
  start_tsc_timer <- on_dev rdtsc;;
  start_pit <- on_dev pit_read_count;;
  let ticks_to_wait := 11931 in
  on_dev (pit_wait (Datatypes.S poll_limit) start_pit ticks_to_wait);;;
  on_lapic (lapic_write LAPIC_LVT_TIMER_REG 0x10000);;;
  end_lapic_timer <- on_lapic (lapic_read LAPIC_CURRENT_COUNT_REG);;
  end_tsc_timer <- on_dev rdtsc;;
  modify (λ s, mkTimer (tm_lapic s) (u32 (start_lapic_timer - end_lapic_timer) / 10)
                 (with_tsc (u64 (u64 (end_tsc_timer - start_tsc_timer) * 100)) end_tsc_timer (tm_sched s)));;;
  on_lapic (lapic_write LAPIC_LVT_TIMER_REG (Z.lor LAPIC_LVT_VECTOR LAPIC_LVT_PERIODIC));;;
  on_lapic (lapic_write LAPIC_DIVIDE_REG 0x3);;;
  n <- gets lapic_ticks_per_ms;;
  on_lapic (lapic_write LAPIC_INITIAL_COUNT_REG (u64 (n * (1000 / TIMER_FREQUENCY_HZ)))).

(** [timer_get_uptime_ms], with the counter read. *)
Definition uptime_ms : M timer_state Z :=
  tsc <- on_dev rdtsc;;
  on_sched (timer_get_uptime_ms tsc).

Fixpoint sleep_loop (fuel : nat) (till : Z) : M timer_state unit :=
  match fuel with
  | O => fail OutOfFuel
  | Datatypes.S fuel => now <- uptime_ms;; if now <? till then sleep_loop fuel till else ret tt
  end.

(** Each turn reads the counter, which advances: as many turns as the counter has ticks. *)
Definition timer_sleep (ms : Z) : M timer_state unit :=
  start <- uptime_ms;;
  freq <- on_sched (gets tsc_freq_hz);;
  sleep_loop (Datatypes.S (Z.to_nat ((ms + 1) * (freq / 1000)))) (u64 (start + ms)).
End timer.
Arguments timer_state : clear implicits.

(** ** The hardware *)

(** Counter 0 of the PIT: being loaded, or counting down, with the bytes of a latched count
    still to be read. The count is [b] minus the ticks of the PIT's clock. *)
Inductive pit_mode :=
  | PitOther
  | PitLoad0
  | PitLoad1 (low : Z)
  | PitRun (b : Z) (latch : list Z).

(** Time is counted in cycles of the time-stamp counter, which runs at [tsc_hz]. The PIT
    runs at 1193182 Hz, the timer of the local APIC, behind its divider, at [apic_hz];
    its count is [apic_count] minus the ticks of its clock. An access to a device takes
    at least one cycle and at most [access_max]. *)
Class TimerHw (D : Type) `{!PortDevice D, !MmioDevice D, !TscDevice D} := {
  cycle : D → Z;
  pit_of : D → pit_mode;
  apic_count : D → Z;
  tsc_hz : Z;
  apic_hz : Z;
  access_max : Z;
  apic_at : Z;                              (** the physical address of the registers *)
  pit_ticks (t : Z) : Z := t * PIT_BASE_FREQ / tsc_hz;
  apic_ticks (t : Z) : Z := t * apic_hz / tsc_hz;
  took (d d' : D) : Prop := cycle d < cycle d' ≤ cycle d + access_max;
  (** An access takes at most a millisecond; the APIC does not count to zero in 30. *)
  hw_rates : 0 < tsc_hz < 2 ^ 60 ∧ 0 < apic_hz < 2 ^ 37 ∧ 0 < access_max ∧ 1000 * access_max ≤ tsc_hz;
  hw_polls : 11932 * tsc_hz ≤ Z.of_nat poll_limit * PIT_BASE_FREQ;
  hw_in p d : took d (port_in p d).2 ∧ apic_count (port_in p d).2 = apic_count d;
  hw_out p v d : took d (port_out p v d) ∧ apic_count (port_out p v d) = apic_count d;
  hw_read a d : took d (mmio_read a d).2 ∧ apic_count (mmio_read a d).2 = apic_count d ∧
    pit_of (mmio_read a d).2 = pit_of d;
  hw_write a v d : took d (mmio_write a v d) ∧ pit_of (mmio_write a v d) = pit_of d;
  hw_tsc d : took d (tsc_read d).2 ∧ apic_count (tsc_read d).2 = apic_count d ∧
    pit_of (tsc_read d).2 = pit_of d ∧ (tsc_read d).1 = cycle d;
  (** Writing the initial count starts the APIC timer; masking its interrupt does not stop it. *)
  hw_apic_start v d : let d' := mmio_write (apic_at + LAPIC_INITIAL_COUNT_REG) v d in
    apic_count d' = v + apic_ticks (cycle d');
  hw_apic_mask v d : apic_count (mmio_write (apic_at + LAPIC_LVT_TIMER_REG) v d) = apic_count d;
  hw_apic_count d : let n := apic_count d - apic_ticks (cycle d) in
    0 ≤ n < 2 ^ 32 → (mmio_read (apic_at + LAPIC_CURRENT_COUNT_REG) d).1 = n;
  (** The 8254: command 0x30 takes two bytes of a count, command 0 latches the count. *)
  hw_pit_load d : pit_of (port_out PIT_CMD_PORT 0x30 d) = PitLoad0;
  hw_pit_low v d : pit_of d = PitLoad0 → pit_of (port_out PIT_DATA_PORT v d) = PitLoad1 v;
  hw_pit_high v low d : pit_of d = PitLoad1 low → let d' := port_out PIT_DATA_PORT v d in
    pit_of d' = PitRun (low + 256 * v + pit_ticks (cycle d')) [];
  hw_pit_latch b l d : pit_of d = PitRun b l → let d' := port_out PIT_CMD_PORT 0 d in
    let n := (b - pit_ticks (cycle d')) mod 2 ^ 16 in pit_of d' = PitRun b [n mod 256; n / 256];
  hw_pit_in b x l d : pit_of d = PitRun b (x :: l) → let r := port_in PIT_DATA_PORT d in
    r.1 = x ∧ pit_of r.2 = PitRun b l;
}.

(** ** Clocks *)

(** A clock of rate [r] over cycles of rate [f]. *)
Lemma clock_mono r f t t' : 0 < f → 0 ≤ r → t ≤ t' → t * r / f ≤ t' * r / f.
Proof. intros Hf Hr Ht. apply Z.div_le_mono; [done|]. by apply Z.mul_le_mono_nonneg_r. Qed.

(** The ticks between two instants are within one of the time between them. *)
Lemma clock_elapsed r f t t' :
  0 < f → let n := t' * r / f - t * r / f in
  (n - 1) * f < (t' - t) * r < (n + 1) * f.
Proof.
  intros Hf n. pose proof (Z.div_mod (t' * r) f ltac:(lia)) as H1. pose proof (Z.div_mod (t * r) f ltac:(lia)) as H2.
  pose proof (Z.mod_pos_bound (t' * r) f Hf). pose proof (Z.mod_pos_bound (t * r) f Hf). unfold n. nia.
Qed.

Section hw.
Context {D : Type} `{TimerHw D}.
Implicit Types d : D.

Notation δ := access_max.

Lemma pit_ticks_step t t' :
  t ≤ t' ≤ t + 3 * δ → pit_ticks t ≤ pit_ticks t' ≤ pit_ticks t + 3580.
Proof.
  intros Ht. destruct hw_rates as (Hf & _ & Hd & Hslow).
  split; [apply clock_mono; rewrite /PIT_BASE_FREQ; lia|].
  pose proof (clock_elapsed PIT_BASE_FREQ tsc_hz t t' (proj1 Hf)) as He. cbv zeta in He.
  rewrite /pit_ticks /PIT_BASE_FREQ in He |- *. nia.
Qed.

Lemma outb_ok p v d : 0 ≤ p < 2 ^ 16 → 0 ≤ v < 2 ^ 8 → outb p v d = Ok (tt, port_out p v d).
Proof. intros Hp Hv. by rewrite /outb /modify /u16 /u8 !Z.mod_small. Qed.

Lemma rdtsc_ok d : 0 ≤ cycle d < 2 ^ 64 → rdtsc d = Ok (cycle d, (tsc_read d).2).
Proof.
  intros Hc. rewrite /rdtsc. pose proof (hw_tsc d) as (_ & _ & _ & E). destruct (tsc_read d) as [t d'].
  simpl in E |- *. subst t. by rewrite join_halves.
Qed.

(** Two bytes of a count. *)
Lemma bytes_of_count n : 0 ≤ n < 2 ^ 16 → Z.lor (u8 (n mod 256)) (Z.shiftl (u8 (n / 256)) 8) = n.
Proof.
  intros Hn. rewrite /u8 (Z.mod_small (n mod 256)); [|by apply Z.mod_pos_bound].
  rewrite (Z.mod_small (n / 256)); [|Z.div_mod_to_equations; lia].
  apply Z.bits_inj'. intros i Hi. rewrite Z.lor_spec Z.shiftl_spec //. change 256 with (2 ^ 8).
  rewrite Z.testbit_mod_pow2; [|lia]. destruct (Z.ltb_spec i 8); cbn [andb].
  - by rewrite (Z.testbit_neg_r _ (i - 8)) ?orb_false_r; [|lia].
  - rewrite Z.div_pow2_bits; [|lia|lia]. by replace (i - 8 + 8) with i by lia.
Qed.

Lemma inb_ok p d : 0 ≤ p < 2 ^ 16 → inb p d = Ok (u8 (port_in p d).1, (port_in p d).2).
Proof. intros Hp. rewrite /inb /u16 Z.mod_small //. by destruct (port_in p d). Qed.

(** Reading the PIT: the count at some instant [t] in the call. *)
Lemma pit_read_ok b l d :
  pit_of d = PitRun b l →
  ∃ d' t, pit_read_count d = Ok ((b - pit_ticks t) mod 2 ^ 16, d') ∧ pit_of d' = PitRun b [] ∧
    cycle d < t ≤ cycle d + δ ∧ t < cycle d' ≤ t + 2 * δ ∧ apic_count d' = apic_count d.
Proof.
  intros Hp. set d1 := port_out PIT_CMD_PORT 0 d. set t := cycle d1. set n := (b - pit_ticks t) mod 2 ^ 16.
  assert (pit_of d1 = PitRun b [n mod 256; n / 256]) as H1 by exact (hw_pit_latch b l d Hp).
  destruct (hw_out PIT_CMD_PORT 0 d) as [T1 C1]. fold d1 in T1, C1.
  destruct (hw_pit_in b _ _ d1 H1) as [E2 H2]. destruct (hw_in PIT_DATA_PORT d1) as [T2 C2].
  set d2 := (port_in PIT_DATA_PORT d1).2 in H2 T2 C2.
  destruct (hw_pit_in b _ _ d2 H2) as [E3 H3]. destruct (hw_in PIT_DATA_PORT d2) as [T3 C3].
  set d3 := (port_in PIT_DATA_PORT d2).2 in H3 T3 C3.
  exists d3, t. unfold took in *. split; [|split; [done|split; [done|split; [lia|congruence]]]].
  rewrite /pit_read_count /bind (outb_ok PIT_CMD_PORT 0); [|done|done].
  rewrite (inb_ok PIT_DATA_PORT); [|done]. rewrite -/d1 E2 -/d2 (inb_ok PIT_DATA_PORT); [|done].
  rewrite E3 -/d3 /ret bytes_of_count; [|by apply Z.mod_pos_bound].
  rewrite /u16 Z.mod_small //. by apply Z.mod_pos_bound.
Qed.

(** The wait ends with the first reading, at [t], that is 11931 ticks or more after the
    reading at [t0]; the one before it, at [tp], was not. *)
Lemma pit_wait_ok b t0 te :
  (∀ t, te ≤ t → 11931 ≤ pit_ticks t - pit_ticks t0) →
  ∀ fuel d l tp, pit_of d = PitRun b l → t0 ≤ tp ≤ cycle d → cycle d ≤ tp + 2 * δ →
  pit_ticks tp - pit_ticks t0 < 11931 → te ≤ cycle d + Z.of_nat fuel →
  ∃ d' t tp', pit_wait (S fuel) ((b - pit_ticks t0) mod 2 ^ 16) 11931 d = Ok (tt, d') ∧
    11931 ≤ pit_ticks t - pit_ticks t0 ∧ pit_ticks tp' - pit_ticks t0 < 11931 ∧ t0 ≤ tp' < t ∧
    t ≤ tp' + 3 * δ ∧ t < cycle d' ≤ t + 2 * δ ∧ apic_count d' = apic_count d.
Proof.
  intros Hte. induction fuel as [|fuel IH]; intros d l tp Hp Htp Hd Hlt Hfuel.
  all: destruct (pit_read_ok b l d Hp) as (d1 & t & E & Hp1 & Ht & Hd1 & Hc1).
  all: destruct (pit_ticks_step tp t ltac:(lia)) as [Hs1 Hs2].
  all: assert (pit_ticks t0 ≤ pit_ticks tp) as Hs0
    by (destruct hw_rates as ([? ?] & _); apply clock_mono; rewrite /PIT_BASE_FREQ; lia).
  all: assert (u16 ((b - pit_ticks t0) mod 2 ^ 16 - (b - pit_ticks t) mod 2 ^ 16) = pit_ticks t - pit_ticks t0) as Ed
    by (rewrite /u16 -Zminus_mod Z.mod_small; lia).
  all: cbn [pit_wait]; rewrite {1}/bind E Ed; destruct (Z.leb_spec 11931 (pit_ticks t - pit_ticks t0)) as [Hle|Hgt].
  - exists d1, t, tp. repeat split; try done; lia.
  - pose proof (Hte t ltac:(lia)). lia.
  - exists d1, t, tp. repeat split; try done; lia.
  - assert (t < te) as Hlt'. { destruct (Z.lt_ge_cases t te) as [|Hge]; [done|]. pose proof (Hte t Hge). lia. }
    destruct (IH d1 [] t Hp1) as (d2 & t2 & tp2 & E2 & R); [lia..|].
    exists d2, t2, tp2. split; [exact E2|]. destruct R as (R1 & R2 & R3 & R4 & R5 & R6). by rewrite R6.
Qed.

(** Loading the PIT leaves it running. *)
Lemma pit_prepare_ok ms d :
  ∃ d' b, pit_prepare_sleep ms d = Ok (tt, d') ∧ pit_of d' = PitRun b [] ∧
    cycle d < cycle d' ≤ cycle d + 3 * δ ∧ apic_count d' = apic_count d.
Proof.
  set n := u16 (u64 (PIT_BASE_FREQ / 1000 * ms)).
  assert (∀ k, 0 ≤ Z.land k 0xFF < 2 ^ 8) as Hb.
  { intros k. change 0xFF with (Z.ones 8). rewrite Z.land_ones; [|lia]. by apply Z.mod_pos_bound. }
  set d1 := port_out PIT_CMD_PORT 0x30 d. set d2 := port_out PIT_DATA_PORT (Z.land n 0xFF) d1.
  set d3 := port_out PIT_DATA_PORT (Z.land (Z.shiftr n 8) 0xFF) d2.
  pose proof (hw_pit_high (Z.land (Z.shiftr n 8) 0xFF) _ d2 (hw_pit_low (Z.land n 0xFF) d1 (hw_pit_load d))) as H3.
  destruct (hw_out PIT_CMD_PORT 0x30 d) as [T1 C1]. destruct (hw_out PIT_DATA_PORT (Z.land n 0xFF) d1) as [T2 C2].
  destruct (hw_out PIT_DATA_PORT (Z.land (Z.shiftr n 8) 0xFF) d2) as [T3 C3].
  fold d1 in T1, C1. fold d2 in T2, C2. fold d3 in T3, C3, H3. unfold took in *.
  exists d3; eexists. split; [|split; [exact H3|split; [lia|congruence]]].
  rewrite /pit_prepare_sleep -/n /bind (outb_ok PIT_CMD_PORT 0x30); [|done|done].
  rewrite (outb_ok PIT_DATA_PORT (Z.land n 0xFF)); [|done|done]. rewrite -/d1 -/d2.
  by rewrite (outb_ok PIT_DATA_PORT); [|done|done].
Qed.
End hw.

(** ** Calibration *)

Section calibration.
Context {S D : Type} `{FrameAllocSpec S, TimerHw D}.
Implicit Types s : timer_state S D.

Notation δ := access_max.

(** The state with another device state. *)
Definition at_dev s (d : D) : timer_state S D :=
  mkTimer (with_dev d (tm_lapic s)) (lapic_ticks_per_ms s) (tm_sched s).
Definition dev s : D := lp_dev (tm_lapic s).

Lemma on_dev_ok {A} (m : M D A) s a d d' : m d = Ok (a, d') → on_dev m (at_dev s d) = Ok (a, at_dev s d').
Proof. intros E. rewrite /on_dev /on_lapic. cbn [tm_lapic at_dev lp_dev with_dev]. by rewrite E. Qed.

Lemma write_ok s reg v :
  lapic_mapped (tm_lapic s) apic_at → 0 ≤ reg < PAGING_PAGE_SIZE →
  on_lapic (lapic_write reg v) s = Ok (tt, at_dev s (mmio_write (apic_at + reg) (u32 v) (dev s))).
Proof. intros Hm Hreg. by rewrite /on_lapic (lapic_write_ok _ apic_at). Qed.

Lemma read_ok s reg :
  lapic_mapped (tm_lapic s) apic_at → 0 ≤ reg < PAGING_PAGE_SIZE →
  on_lapic (lapic_read reg) s =
    Ok (u32 (mmio_read (apic_at + reg) (dev s)).1, at_dev s (mmio_read (apic_at + reg) (dev s)).2).
Proof. intros Hm Hreg. by rewrite /on_lapic (lapic_read_ok _ apic_at). Qed.

(** The wait on the PIT, in cycles. *)
Lemma waited t0 t tp :
  11931 ≤ pit_ticks t - pit_ticks t0 → pit_ticks tp - pit_ticks t0 < 11931 →
  11930 * tsc_hz < (t - t0) * PIT_BASE_FREQ ∧ (tp - t0) * PIT_BASE_FREQ < 11931 * tsc_hz.
Proof.
  intros Ha Hb. destruct hw_rates as ([Hf _] & _).
  pose proof (clock_elapsed PIT_BASE_FREQ tsc_hz t0 t Hf) as E1.
  pose proof (clock_elapsed PIT_BASE_FREQ tsc_hz t0 tp Hf) as E2. cbv zeta in E1, E2.
  fold (pit_ticks t0) (pit_ticks t) in E1. fold (pit_ticks t0) (pit_ticks tp) in E2. nia.
Qed.

Lemma polls_suffice t0 t : t0 + Z.of_nat poll_limit ≤ t → 11931 ≤ pit_ticks t - pit_ticks t0.
Proof.
  intros Ht. destruct hw_rates as ([Hf _] & _). pose proof hw_polls as Hp.
  pose proof (clock_elapsed PIT_BASE_FREQ tsc_hz t0 t Hf) as E1. cbv zeta in E1.
  fold (pit_ticks t0) (pit_ticks t) in E1. set n := pit_ticks t - pit_ticks t0 in E1 |- *.
  assert (Z.of_nat poll_limit * PIT_BASE_FREQ ≤ (t - t0) * PIT_BASE_FREQ) by (unfold PIT_BASE_FREQ; lia).
  assert (11932 * tsc_hz < (n + 1) * tsc_hz) as Hn by lia. apply Z.mul_lt_mono_pos_r in Hn; lia.
Qed.

(** In 22 milliseconds the APIC timer does not count to zero. *)
Lemma apic_range c c' :
  c ≤ c' → 1000 * (c' - c) ≤ 22 * tsc_hz → 0 ≤ apic_ticks c' - apic_ticks c < 2 ^ 32 - 1.
Proof.
  intros Hc Hle. destruct hw_rates as ([Hf _] & [Ha Ha'] & _).
  split; [pose proof (clock_mono apic_hz tsc_hz c c' Hf (Z.lt_le_incl _ _ Ha) Hc); unfold apic_ticks; lia|].
  pose proof (clock_elapsed apic_hz tsc_hz c c' Hf) as [E _]. cbv zeta in E.
  fold (apic_ticks c) (apic_ticks c') in E. set n := apic_ticks c' - apic_ticks c in E |- *.
  assert (1000 * (c' - c) * apic_hz ≤ 22 * tsc_hz * apic_hz) by (apply Z.mul_le_mono_nonneg_r; lia).
  assert ((1000 * (n - 1)) * tsc_hz < (22 * apic_hz) * tsc_hz) as Hn by lia. apply Z.mul_lt_mono_pos_r in Hn; lia.
Qed.

Lemma on_waited tp t0 k :
  (tp - t0) * PIT_BASE_FREQ < 11931 * tsc_hz → 0 ≤ k ≤ 12 * δ → 1000 * (tp - t0 + k) ≤ 22 * tsc_hz.
Proof. intros Hw Hk. destruct hw_rates as (? & _ & ? & ?). unfold PIT_BASE_FREQ in Hw. lia. Qed.

(** The accesses of the measurement, one after the other. *)
Record run_of (s : timer_state S D) (E T te : Z) (d : D) : Prop := {
  ru_tsc : 11930 * tsc_hz < E * PIT_BASE_FREQ ∧ (E - 9 * δ) * PIT_BASE_FREQ < 11931 * tsc_hz;
  ru_apic : ∃ e, 11930 * tsc_hz < e * PIT_BASE_FREQ ∧ (e - 9 * δ) * PIT_BASE_FREQ < 11931 * tsc_hz ∧
    (T - 1) * tsc_hz < e * apic_hz < (T + 1) * tsc_hz;
  ru_range : 0 ≤ E ∧ 1000 * E ≤ 22 * tsc_hz ∧ 0 ≤ T < 2 ^ 32;
  ru_end : cycle (dev s) < te < cycle d ∧ cycle d ≤ cycle (dev s) + tsc_hz;
}.

Lemma timer_init_run s :
  lapic_mapped (tm_lapic s) apic_at → 0 ≤ cycle (dev s) → cycle (dev s) + tsc_hz < 2 ^ 64 →
  ∃ E T te d, run_of s E T te d ∧
    let tpm := T / 10 in
    let d1 := mmio_write (apic_at + LAPIC_LVT_TIMER_REG) 0x20020 d in
    let d2 := mmio_write (apic_at + LAPIC_DIVIDE_REG) 3 d1 in
    let d3 := mmio_write (apic_at + LAPIC_INITIAL_COUNT_REG) (tpm * 10) d2 in
    timer_init s = Ok (tt, mkTimer (with_dev d3 (tm_lapic s)) tpm (with_tsc (100 * E) te (tm_sched s))).
Proof.
  intros Hm Hc0 Hcmax. destruct hw_rates as ([Hf Hf'] & _ & Hd & Hslow).
  set d0 := dev s. fold d0 in Hc0, Hcmax.
  set d1 := mmio_write (apic_at + LAPIC_DIVIDE_REG) 3 d0. destruct (hw_write (apic_at + LAPIC_DIVIDE_REG) 3 d0) as [T1 _].
  set d2 := mmio_write (apic_at + LAPIC_INITIAL_COUNT_REG) 0xFFFFFFFF d1.
  destruct (hw_write (apic_at + LAPIC_INITIAL_COUNT_REG) 0xFFFFFFFF d1) as [T2 _].
  pose proof (hw_apic_start 0xFFFFFFFF d1) as C2. cbv zeta in C2. fold d1 in T1. fold d2 in T2, C2.
  destruct (pit_prepare_ok 0xFFFF d2) as (d5 & b & E5 & P5 & T5 & C5).
  set r5 := mmio_read (apic_at + LAPIC_CURRENT_COUNT_REG) d5. set d6 := r5.2.
  destruct (hw_read (apic_at + LAPIC_CURRENT_COUNT_REG) d5) as (T6 & C6 & P6). fold r5 d6 in T6, C6, P6.
  set d7 := (tsc_read d6).2. destruct (hw_tsc d6) as (T7 & C7 & P7 & _). fold d7 in T7, C7, P7.
  destruct (pit_read_ok b [] d7) as (d8 & t0 & E8 & P8 & T8 & T8' & C8); [congruence|].
  assert (pit_ticks t0 - pit_ticks t0 < 11931) as H00 by lia.
  destruct (pit_wait_ok b t0 (t0 + Z.of_nat poll_limit) (polls_suffice t0) poll_limit d8 [] t0 P8)
    as (d9 & t & tp & E9 & Ht1 & Ht2 & Ht3 & Ht4 & T9 & C9); [lia|lia|done|lia|].
  destruct (waited t0 t tp Ht1 Ht2) as [W1 W2].
  set d10 := mmio_write (apic_at + LAPIC_LVT_TIMER_REG) 0x10000 d9.
  destruct (hw_write (apic_at + LAPIC_LVT_TIMER_REG) 0x10000 d9) as [T10 _].
  pose proof (hw_apic_mask 0x10000 d9) as C10. fold d10 in T10, C10.
  set r10 := mmio_read (apic_at + LAPIC_CURRENT_COUNT_REG) d10. set d11 := r10.2.
  destruct (hw_read (apic_at + LAPIC_CURRENT_COUNT_REG) d10) as (T11 & C11 & _). fold r10 d11 in T11, C11.
  set d12 := (tsc_read d11).2. destruct (hw_tsc d11) as (T12 & _). fold d12 in T12. unfold took in *.
  exists (cycle d11 - cycle d6), (apic_ticks (cycle d10) - apic_ticks (cycle d5)), (cycle d11), d12.
  pose proof (on_waited tp t0 (cycle d10 - cycle d2 - (tp - t0)) W2) as Hr10.
  destruct (apic_range (cycle d2) (cycle d5)) as [R5 R5']; [lia|lia|].
  destruct (apic_range (cycle d5) (cycle d10)) as [R10 R10']; [lia|lia|].
  destruct (apic_range (cycle d2) (cycle d10)) as [_ R2]; [lia|lia|].
  assert (r5.1 = 0xFFFFFFFF - (apic_ticks (cycle d5) - apic_ticks (cycle d2))) as V5.
  { rewrite /r5 hw_apic_count C5 C2; lia. }
  assert (r10.1 = 0xFFFFFFFF - (apic_ticks (cycle d10) - apic_ticks (cycle d2))) as V10.
  { rewrite /r10 hw_apic_count C10 C9 C8 C7 C6 C5 C2; lia. }
  split.
  { pose proof (on_waited tp t0 (9 * δ) W2) as H9. pose proof (clock_elapsed apic_hz tsc_hz (cycle d5) (cycle d10) Hf) as Ha.
    unfold PIT_BASE_FREQ in W1, W2. split; unfold PIT_BASE_FREQ; [lia| |lia|fold d0; lia].
    exists (cycle d10 - cycle d5). split; [lia|]. split; [lia|]. exact Ha. }
  cbv zeta. rewrite /timer_init.
  pose proof (on_waited tp t0 (12 * δ) W2) as H12.
  assert (rdtsc d6 = Ok (cycle d6, d7)) as E7 by (apply rdtsc_ok; lia).
  assert (rdtsc d11 = Ok (cycle d11, d12)) as E12 by (apply rdtsc_ok; lia).
  rewrite (bind_run _ _ s tt (at_dev s d1)); [|by rewrite write_ok].
  rewrite (bind_run _ _ _ tt (at_dev s d2)); [|by rewrite write_ok].
  rewrite (bind_run _ _ _ tt (at_dev s d5)); [|by apply on_dev_ok].
  rewrite (bind_run _ _ _ (u32 r5.1) (at_dev s d6)); [|by rewrite read_ok].
  rewrite (bind_run _ _ _ (cycle d6) (at_dev s d7)); [|by apply on_dev_ok].
  rewrite (bind_run _ _ _ ((b - pit_ticks t0) mod 2 ^ 16) (at_dev s d8)); [|by apply on_dev_ok].
  rewrite (bind_run _ _ _ tt (at_dev s d9)); [|by apply on_dev_ok].
  rewrite (bind_run _ _ _ tt (at_dev s d10)); [|by rewrite write_ok].
  rewrite (bind_run _ _ _ (u32 r10.1) (at_dev s d11)); [|by rewrite read_ok].
  rewrite (bind_run _ _ _ (cycle d11) (at_dev s d12)); [|by apply on_dev_ok].
  set T := apic_ticks (cycle d10) - apic_ticks (cycle d5) in R10 R10' *.
  assert (u32 (u32 r5.1 - u32 r10.1) = T) as -> by (rewrite V5 V10 !(u32_small (_ - _)); unfold T; lia).
  rewrite (u64_small (cycle d11 - cycle d6)); [|lia].
  rewrite (u64_small (_ * 100)); [|lia]. rewrite (Z.mul_comm _ 100).
  set s' := mkTimer (with_dev d12 (tm_lapic s)) (T / 10) (with_tsc (100 * (cycle d11 - cycle d6)) (cycle d11) (tm_sched s)).
  rewrite (bind_run (modify _) _ _ tt s'); [|done].
  rewrite (bind_run _ _ _ tt (at_dev s' (mmio_write (apic_at + LAPIC_LVT_TIMER_REG) 0x20020 d12))); [|by rewrite write_ok].
  rewrite {1}/bind write_ok; [|done|done]. rewrite /bind /gets write_ok; [|done|done].
  cbn [lapic_ticks_per_ms at_dev s']. change (1000 / TIMER_FREQUENCY_HZ) with 10.
  rewrite (u64_small (T / 10 * 10)); [|Z.div_mod_to_equations; lia].
  rewrite (u32_small (T / 10 * 10)); [|Z.div_mod_to_equations; lia]. done.
Qed.

(** ** Sleeping *)

(** Milliseconds of uptime when the counter is read at [c], with [K] cycles to each. *)
Definition uptime_at s (c : Z) : Z := (c - tsc_boot_time (tm_sched s)) / (tsc_freq_hz (tm_sched s) / 1000).

Lemma tsc_uptime_ok s d :
  0 < tsc_freq_hz (tm_sched s) / 1000 → 0 ≤ tsc_boot_time (tm_sched s) ≤ cycle d → cycle d < 2 ^ 64 →
  uptime_ms (at_dev s d) = Ok (uptime_at s (cycle d), at_dev s (tsc_read d).2).
Proof.
  intros HK Hb Hc. rewrite /uptime_ms (bind_run _ _ _ (cycle d) (at_dev s (tsc_read d).2)).
  - rewrite /on_sched /timer_get_uptime_ms /bind /gets. cbn [tm_sched at_dev].
    rewrite (proj2 (Z.eqb_neq _ 0)); [|lia]. rewrite /ret u64_small; [done|lia].
  - apply on_dev_ok, rdtsc_ok. lia.
Qed.

Lemma sleep_loop_ok s till lim :
  0 < tsc_freq_hz (tm_sched s) / 1000 → 0 ≤ tsc_boot_time (tm_sched s) →
  (∀ c, uptime_at s c < till ↔ c < lim) →
  ∀ fuel d, tsc_boot_time (tm_sched s) ≤ cycle d → Z.max (cycle d) (lim + δ) < 2 ^ 64 →
  lim ≤ cycle d + Z.of_nat fuel →
  ∃ d', sleep_loop (Datatypes.S fuel) till (at_dev s d) = Ok (tt, at_dev s d') ∧
    lim < cycle d' ∧ cycle d < cycle d' ≤ Z.max (cycle d + δ) (lim + 2 * δ).
Proof.
  intros HK Hb Hlim. induction fuel as [|fuel IH]; intros d Hd Hmax Hfuel.
  all: destruct (hw_tsc d) as (Ht & _). all: unfold took in Ht.
  all: cbn [sleep_loop]; rewrite (bind_run _ _ _ _ _ (tsc_uptime_ok s d HK ltac:(lia) ltac:(lia))).
  all: destruct (Z.ltb_spec (uptime_at s (cycle d)) till) as [Hlt|Hge].
  - apply Hlim in Hlt. lia.
  - exists (tsc_read d).2. split; [done|]. destruct (Z.lt_ge_cases (cycle d) lim) as [Hl|Hl]; [|lia].
    apply Hlim in Hl. lia.
  - apply Hlim in Hlt. destruct (IH (tsc_read d).2) as (d' & E & Hd'); [lia|lia|lia|].
    exists d'. split; [exact E|]. lia.
  - exists (tsc_read d).2. split; [done|]. destruct (Z.lt_ge_cases (cycle d) lim) as [Hl|Hl]; [|lia].
    apply Hlim in Hl. lia.
Qed.

(** ** Theorems *)

(** C38: Calibration. On hardware whose clocks run as documented, [timer_init] ends; the
    frequency it finds for the time-stamp counter is that of the counter, short by at most
    153 parts in a million and over it by no more than what nine accesses to devices take;
    the number of timer ticks per millisecond is that of the local APIC in the same sense;
    the timer is left running, with its interrupt on and a period of ten such
    milliseconds, and the rest of the kernel's state is as it was. *)
Theorem timer_init_calibrates s :
  lapic_mapped (tm_lapic s) apic_at → 0 ≤ cycle (dev s) → cycle (dev s) + tsc_hz < 2 ^ 64 →
  ∃ s' d, timer_init s = Ok (tt, s') ∧
    let freq := tsc_freq_hz (tm_sched s') in let n := lapic_ticks_per_ms s' in
    1193000 * tsc_hz < freq * PIT_BASE_FREQ < 1193100 * tsc_hz + 900 * δ * PIT_BASE_FREQ ∧
    11930 * apic_hz < (10 * n + 10) * PIT_BASE_FREQ ∧
    (10 * n - 1) * tsc_hz * PIT_BASE_FREQ < (11931 * tsc_hz + 9 * δ * PIT_BASE_FREQ) * apic_hz ∧
    dev s' = mmio_write (apic_at + LAPIC_INITIAL_COUNT_REG) (n * 10)
               (mmio_write (apic_at + LAPIC_DIVIDE_REG) 3
                  (mmio_write (apic_at + LAPIC_LVT_TIMER_REG) 0x20020 d)) ∧
    cycle (dev s) < tsc_boot_time (tm_sched s') < cycle d ∧ cycle d ≤ cycle (dev s) + tsc_hz ∧
    tm_sched s' = with_tsc freq (tsc_boot_time (tm_sched s')) (tm_sched s).
Proof.
  intros Hm Hc0 Hcmax. destruct hw_rates as ([Hf _] & [Ha _] & Hd & _).
  destruct (timer_init_run s Hm Hc0 Hcmax) as (E & T & te & d & [[G1 G2] (e & He1 & He2 & He3 & He4) Hr Hend] & Erun).
  cbv zeta in Erun. eexists _, d. split; [exact Erun|]. cbn [tm_sched tsc_freq_hz tsc_boot_time with_tsc lapic_ticks_per_ms].
  split; [unfold PIT_BASE_FREQ in *; lia|]. split; [|split; [|split; [done|split; [lia|split; [lia|done]]]]].
  - assert (e * apic_hz * PIT_BASE_FREQ < (T + 1) * tsc_hz * PIT_BASE_FREQ) as G5
      by (apply Z.mul_lt_mono_pos_r; [done|lia]).
    assert (11930 * tsc_hz * apic_hz < e * PIT_BASE_FREQ * apic_hz) as G6 by (apply Z.mul_lt_mono_pos_r; lia).
    assert (11930 * apic_hz * tsc_hz < (T + 1) * PIT_BASE_FREQ * tsc_hz) as G7 by lia.
    apply Z.mul_lt_mono_pos_r in G7; [|done]. unfold PIT_BASE_FREQ in *. Z.div_mod_to_equations. lia.
  - assert ((T - 1) * tsc_hz * PIT_BASE_FREQ < e * apic_hz * PIT_BASE_FREQ) as G5
      by (apply Z.mul_lt_mono_pos_r; [done|lia]).
    assert (e * PIT_BASE_FREQ * apic_hz < (11931 * tsc_hz + 9 * δ * PIT_BASE_FREQ) * apic_hz) as G6
      by (apply Z.mul_lt_mono_pos_r; unfold PIT_BASE_FREQ in *; lia).
    assert (10 * (T / 10) - 1 ≤ T - 1) as G7 by (Z.div_mod_to_equations; lia).
    assert ((10 * (T / 10) - 1) * (tsc_hz * PIT_BASE_FREQ) ≤ (T - 1) * (tsc_hz * PIT_BASE_FREQ)) as G8
      by (apply Z.mul_le_mono_nonneg_r; [unfold PIT_BASE_FREQ; lia|done]).
    lia.
Qed.

(** C39: [timer_sleep] ends, and not too early or late: with [K] cycles to a millisecond it
    takes more than [ms - 1] milliseconds, because the start is rounded down to a whole
    one, and at most [ms] milliseconds and two accesses to the counter. *)
Theorem timer_sleep_duration s ms :
  let q := tm_sched s in let K := tsc_freq_hz q / 1000 in
  0 < K → 0 ≤ tsc_boot_time q ≤ cycle (dev s) → 0 ≤ ms →
  cycle (dev s) + (ms + 1) * K + 2 * δ < 2 ^ 64 →
  ∃ d', timer_sleep ms s = Ok (tt, at_dev s d') ∧
    (ms - 1) * K < cycle d' - cycle (dev s) ≤ ms * K + 2 * δ.
Proof.
  intros q K HK Hb Hms Hmax. destruct hw_rates as (_ & _ & Hd & _). set d := dev s in Hb Hmax *.
  assert (s = at_dev s d) as Es by (by destruct s as [[] ? ?]).
  assert (0 ≤ (ms + 1) * K) as HmsK by (apply Z.mul_nonneg_nonneg; lia).
  assert (cycle d < 2 ^ 64) as Hc64 by lia. set u := uptime_at s (cycle d).
  assert (u * K ≤ cycle d - tsc_boot_time q < (u + 1) * K) as Hu.
  { rewrite /u /uptime_at -/q -/K. pose proof (Z.mul_div_le (cycle d - tsc_boot_time q) K HK).
    pose proof (Z.mul_succ_div_gt (cycle d - tsc_boot_time q) K HK). lia. }
  set lim := tsc_boot_time q + (u + ms) * K.
  destruct (hw_tsc d) as (Ht & _). unfold took in Ht.
  destruct (sleep_loop_ok s (u + ms) lim HK (proj1 Hb)) with (fuel := Z.to_nat ((ms + 1) * K)) (d := (tsc_read d).2)
    as (d' & E & Hd1 & Hd2).
  - intros c. rewrite /uptime_at -/q -/K /lim. split; intros Hc.
    + pose proof (Z.mul_succ_div_gt (c - tsc_boot_time q) K HK). nia.
    + apply Z.div_lt_upper_bound; lia.
  - fold q. lia.
  - unfold lim. lia.
  - unfold lim. lia.
  - exists d'. split; [|unfold lim in *; lia].
    rewrite {1}Es /timer_sleep (bind_run _ _ _ _ _ (tsc_uptime_ok s d HK Hb Hc64)) -/u.
    rewrite (bind_run _ _ _ (tsc_freq_hz q) (at_dev s (tsc_read d).2)); [|done]. fold K.
    rewrite u64_small; [exact E|].
    assert (0 < u + 1) by (apply (Z.mul_pos_cancel_r (u + 1) K HK); lia).
    assert (u * 1 ≤ u * K) by (apply Z.mul_le_mono_nonneg_l; lia).
    assert (ms * 1 ≤ ms * K) by (apply Z.mul_le_mono_nonneg_l; lia). lia.
Qed.
End calibration.

(** ** A concrete machine

    A counter at the rate of the PIT, an APIC timer at a megahertz, accesses of one cycle. *)

Record sim := mkSim { sm_cycle : Z; sm_pit : pit_mode; sm_apic : Z }.
Definition sim_apic : Z := 0xFEE00000.

Definition sim_out (p v : Z) (d : sim) : sim :=
  let t := sm_cycle d + 1 in
  let pit :=
    if p =? PIT_CMD_PORT then
      if v =? 0x30 then PitLoad0
      else match sm_pit d with
           | PitRun b _ => let n := (b - t * PIT_BASE_FREQ / PIT_BASE_FREQ) mod 2 ^ 16 in PitRun b [n mod 256; n / 256]
           | m => m
           end
    else if p =? PIT_DATA_PORT then
      match sm_pit d with
      | PitLoad0 => PitLoad1 v
      | PitLoad1 low => PitRun (low + 256 * v + t * PIT_BASE_FREQ / PIT_BASE_FREQ) []
      | m => m
      end
    else sm_pit d in
  mkSim t pit (sm_apic d).

Definition sim_in (p : Z) (d : sim) : Z * sim :=
  let t := sm_cycle d + 1 in
  match (if p =? PIT_DATA_PORT then sm_pit d else PitOther) with
  | PitRun b (x :: l) => (x, mkSim t (PitRun b l) (sm_apic d))
  | _ => (0, mkSim t (sm_pit d) (sm_apic d))
  end.

Definition sim_ticks (t : Z) : Z := t * 1000000 / PIT_BASE_FREQ.

Definition sim_write (a v : Z) (d : sim) : sim :=
  let t := sm_cycle d + 1 in
  mkSim t (sm_pit d) (if a =? sim_apic + LAPIC_INITIAL_COUNT_REG then v + sim_ticks t else sm_apic d).

#[local] Instance sim_ports : PortDevice sim :=
  {| port_in := sim_in; port_out := sim_out; poll_limit := Z.to_nat 11932 |}.
#[local] Instance sim_mmio : MmioDevice sim :=
  {| mmio_read a d := (sm_apic d - sim_ticks (sm_cycle d), mkSim (sm_cycle d + 1) (sm_pit d) (sm_apic d));
     mmio_write := sim_write |}.
#[local] Instance sim_tsc : TscDevice sim :=
  {| tsc_read d := (sm_cycle d, mkSim (sm_cycle d + 1) (sm_pit d) (sm_apic d)) |}.

#[local] Instance sim_hw : TimerHw sim.
Proof.
  refine {| cycle := sm_cycle; pit_of := sm_pit; apic_count := sm_apic; tsc_hz := PIT_BASE_FREQ;
            apic_hz := 1000000; access_max := 1; apic_at := sim_apic |}.
  - unfold PIT_BASE_FREQ. lia.
  - cbn [poll_limit sim_ports]. rewrite Z2Nat.id; lia.
  - intros p d. cbn [port_in sim_ports]. rewrite /sim_in.
    destruct (if p =? PIT_DATA_PORT then sm_pit d else PitOther) as [| | |b [|x l]]; simpl; lia.
  - intros p v d. simpl. lia.
  - intros a d. split; [simpl; lia|done].
  - intros a v d. split; [simpl; lia|done].
  - intros d. split; [simpl; lia|done].
  - intros v d. cbn [mmio_write sim_mmio]. rewrite /sim_write Z.eqb_refl. reflexivity.
  - intros v d. reflexivity.
  - intros d n _. reflexivity.
  - intros d. reflexivity.
  - intros v d E. cbn [port_out sim_ports]. rewrite /sim_out /=. by rewrite E.
  - intros v low d E. cbn [port_out sim_ports]. rewrite /sim_out /=. by rewrite E.
  - intros b l d E. cbn [port_out sim_ports]. rewrite /sim_out /=. by rewrite E.
  - intros b x l d E. cbn [port_in sim_ports]. rewrite /sim_in /=. by rewrite E.
Defined.

#[local] Existing Instance bump_alloc.
#[local] Existing Instance bump_spec.

(** Page tables in which every address leads to the page of the APIC. *)
Definition sim_mem (a : Z) : Z :=
  if a <? 0x2000 then 0x2003 else if a <? 0x3000 then 0x3003 else if a <? 0x4000 then 0x4003 else 0xFEE0001B.
Definition sim_vmm : vmm_state Z :=
  mkVmm (mkHeap (mkPaging 0x10000 sim_mem demo_offset 0x1000 0x1000 0 pat_val (mkTlb (λ _, None) (λ _, None))) 0 0 0 false ∅)
    (mkCpu 0x202) 0 0 ∅ ∅.
Definition sim_state (freq boot : Z) : timer_state Z sim :=
  mkTimer (mkLapic sim_vmm demo_regs (mkSim 1000 PitOther 0) VMM_KERNEL_START) 0 (sched_boot (mkCpu 0x202) freq boot ∅).

Lemma sim_mapped freq boot : lapic_mapped (tm_lapic (sim_state freq boot)) sim_apic.
Proof.
  split; [done|]. split; [done|]. intros write reg Hreg.
  assert (∀ v k, 0 ≤ Z.land (Z.shiftr v k) 0x1FF < 512) as Hi.
  { intros v k. change 0x1FF with (Z.ones 9). rewrite Z.land_ones; [|lia]. by apply Z.mod_pos_bound. }
  assert (∀ i, 0 ≤ i < 512 → sim_mem (0x1000 + 8 * i) = 0x2003 ∧ sim_mem (0x2000 + 8 * i) = 0x3003 ∧
    sim_mem (0x3000 + 8 * i) = 0x4003 ∧ sim_mem (0x4000 + 8 * i) = 0xFEE0001B) as Hs.
  { intros i Hii. rewrite /sim_mem.
    repeat split; repeat match goal with |- context [?a <? ?b] => destruct (Z.ltb_spec a b); try lia end. }
  assert (mmu_walk sim_mem 0x1000 (VMM_KERNEL_START + reg) = Some (Page4K 0xFEE0001B)) as Hw.
  { rewrite /mmu_walk /slot.
    rewrite (proj1 (Hs _ (Hi _ 39))). change (pte_addr 0x2003) with 0x2000.
    rewrite (proj1 (proj2 (Hs _ (Hi _ 30)))). change (pte_addr 0x3003) with 0x3000.
    rewrite (proj1 (proj2 (proj2 (Hs _ (Hi _ 21))))). change (pte_addr 0x4003) with 0x4000.
    rewrite (proj2 (proj2 (proj2 (Hs _ (Hi _ 12))))). reflexivity. }
  rewrite /translate. cbn [mem cr3 tables lp_vmm tm_lapic sim_state heap paging sim_vmm lapic_MMIO]. rewrite Hw.
  change (Z.testbit 0xFEE0001B 1) with true. rewrite orb_true_r. f_equal.
  change (pte_addr 0xFEE0001B) with sim_apic. f_equal. unfold VMM_KERNEL_START, PAGING_PAGE_SIZE in *.
  rewrite -Zplus_mod_idemp_l. change (0xFFFFC00000000000 mod 4096) with 0. by apply Z.mod_small.
Qed.

Lemma timer_init_calibrates_witness :
  ∃ s' : timer_state Z sim, timer_init (sim_state 0 0) = Ok (tt, s') ∧
    1193000 < tsc_freq_hz (tm_sched s') < 1194000 ∧ 998 ≤ lapic_ticks_per_ms s' ≤ 1001.
Proof.
  destruct (timer_init_calibrates (sim_state 0 0)) as (s' & d & E & H1 & H2 & H3 & _).
  - exact (sim_mapped 0 0).
  - simpl. lia.
  - vm_compute. reflexivity.
  - exists s'. cbn [tsc_hz apic_hz access_max sim_hw] in H1, H2, H3. unfold PIT_BASE_FREQ in H1, H2, H3.
    split; [exact E|]. lia.
Defined.

Lemma timer_sleep_duration_witness :
  ∃ d' : sim, timer_sleep 50 (sim_state 1193182 100) = Ok (tt, at_dev (sim_state 1193182 100) d') ∧
    49 * 1193 < sm_cycle d' - 1000 ≤ 50 * 1193 + 2.
Proof.
  destruct (timer_sleep_duration (sim_state 1193182 100) 50) as (d' & E & H).
  - vm_compute. reflexivity.
  - vm_compute. split; intros H; discriminate H.
  - lia.
  - vm_compute. reflexivity.
  - exists d'. split; [exact E|exact H].
Defined.
