(* ===== verification/Boot.v ===== *)
(** * From the boot loader to a running memory system (main.c, limine_requests.c)

    The first part of [kmain]: the answers of the boot loader are checked, the descriptor
    tables loaded, and the physical memory manager, the page tables, the kernel heap and
    the virtual memory manager set up, each with what the one before it provides. *)

From stdpp Require Import base gmap list numbers.
From S2P Require Import Prelude Spinlock Hhdm Pmm PmmInv PmmInit PmmSpec FrameAlloc Paging PagingSpec PagingInit Npf Kheap KheapSpec KheapMem KheapThms Vmm VmmSpec VmmInv Mmio Kernel Serial Descriptors.

(** ** Model *)

(** The answers to the Limine requests; [None] is a null [response] pointer. *)
Record limine_responses := mkLimine {
  base_revision_supported : bool;                     (** [LIMINE_BASE_REVISION_SUPPORTED] *)
  rsdp_response : option Z;                           (** [address] *)
  framebuffer_response : option Z;                    (** [framebuffer_count] *)
  hhdm_response : option Z;                           (** [offset] *)
  memmap_response : option (option (list memmap_entry));  (** [entries] *)
  executable_addr_response : option Z;                (** [physical_base] *)
}.

Definition limine_verify_requests {S} (l : limine_responses) : M S unit :=
  if negb (base_revision_supported l)
     || match rsdp_response l with None => true | Some address => address =? 0 end
     || match framebuffer_response l with None => true | Some n => n <? 1 end
     || match hhdm_response l with None => true | Some _ => false end
     || match memmap_response l with None | Some None => true | Some (Some _) => false end
     || match executable_addr_response l with None => true | Some _ => false end
  then fail Halt else ret tt.

(** The descriptor tables, and the memory components, each inside the one built on it. *)
Definition boot_state : Type := dt_state * vmm_state pmm_state.

(** Where the linker put the static tables. *)
Record static_tables := mkStatics { gdt_at : Z; idt_at : Z; isr_stub_table : list Z }.

(** Lines 77 to 98 of [kmain]; the calls that only print are left out. *)
Definition kmain_memory (l : limine_responses) (st : static_tables) (im : kernel_image)
    : M boot_state unit :=
  limine_verify_requests l;;;
  on_fst (gdt_init (gdt_at st));;;
  on_fst (idt_init (idt_at st) (isr_stub_table st));;;
  on_snd (off <- on_tables (gets hhdm_offset);; on_tables (on_frames (pmm_init off)));;;
  on_snd (on_tables (paging_init im));;;
  on_snd (on_heap (kheap_init (KERNEL_END im)));;;
  on_snd vmm_init.

(** The statics when [kmain] starts, with the registers and the memory the boot loader left. *)
Definition boot_vmm (c : cpu) (entries : list memmap_entry) (off : Z) (m : Z → Z) (r3 r4 pat : Z) (t : tlb)
    : vmm_state pmm_state :=
  mkVmm (mkHeap (mkPaging (pmm_boot c entries) m off 0 r3 r4 pat t) 0 0 0 false ∅) c 0 0 ∅ ∅.

(** ** The physical memory manager as the frame allocator *)

(** After [pmm_init] the allocator owes its clients nothing and has every usable page. *)
Lemma pmm_init_owned off c entries base es' (F : gset Z) :
  memmap_ok entries → 0 < off → base + off < 2 ^ 64 →
  carve (total_pages entries * sizeof_pmm_page) entries = Some (base, es') →
  (∀ p, p ∈ F → usable_page es' p) →
  ∃ s, pmm_init off (pmm_boot c entries) = Ok (tt, s) ∧ owned s ∅ (base.size F) ∧
    fa_top s = highest_addr 0 entries.
Proof.
  intros Hmm Ho1 Ho2 Hc HF.
  pose proof (init_wp off c entries base es' Hmm Ho1 Ho2 Hc)
    as ([] & s & E & FL & Hi & Hul & _ & _ & Ht & Hh & _ & Hp)%wp_run.
  exists s. split; [done|]. split; [|done].
  pose proof (proj1 Hmm) as Hok. destruct (total_pages_bounds entries Hok) as [Htot _].
  pose proof (highest_addr_bounds entries 0 Hok ltac:(done)) as Hhi.
  split; [rewrite Hh; lia|]. split; [rewrite Ht Hh; split; [lia|done]|].
  exists (usable_page es'), ∅, F. split; [|split; [intros f Hf; by apply elem_of_empty in Hf|done]].
  exists FL. split; [done|]. split; [done|]. intros p. by rewrite Hp.
Qed.

(** ** The kernel address space before the heap is added *)

(** Above the image nothing is mapped as a huge page. *)
Lemma above_image im off hi w e :
  image_ok im off hi → KERNEL_START im ≤ w → canonical_addr w → kernel_view im off hi w ≠ Some (Page2M e).
Proof.
  intros Hio Hw Hc. rewrite (hhdm_view_out im off hi Hio w Hc); [|by right].
  by do 4 apply seg_view_no_huge.
Qed.

(** What has to be true of the machine: the region of the kernel's areas lies between the
    direct map and the image, the heap above the image may grow to [lim], and [F] has
    enough usable pages for the tables of the kernel, the heap, and [n] more. *)
Record boot_ok (im : kernel_image) (entries es' : list memmap_entry) (off base : Z) (F : gset Z) (n : nat) (lim : Z) : Prop := {
  bt_map : memmap_ok entries;
  bt_carve : carve (total_pages entries * sizeof_pmm_page) entries = Some (base, es');
  bt_image : image_ok im off (highest_addr 0 entries);
  bt_end : DATA_END im ≤ KERNEL_END im;
  bt_base : base + off < 2 ^ 64;
  bt_heap : heap_base (KERNEL_END im) + KHEAP_STARTING_SIZE + 3 * KHEAP_EXTENDING_AMOUNT ≤ lim ∧ lim < 2 ^ 64;
  bt_gap : off + Z.of_nat (ram_pages (highest_addr 0 entries)) * PAGING_HUGE_PAGE_SIZE ≤ VMM_KERNEL_START ∧
    VMM_KERNEL_END < KERNEL_START im;
  bt_usable : ∀ p, p ∈ F → usable_page es' p;
  bt_frames : (image_frames im (highest_addr 0 entries) + frames_for KHEAP_STARTING_SIZE + n ≤ base.size F)%nat;
}.

(** The answers of a boot loader that found everything. *)
Definition limine_ok (l : limine_responses) (entries : list memmap_entry) (off : Z) (im : kernel_image) : Prop :=
  base_revision_supported l = true ∧ (∃ a, rsdp_response l = Some a ∧ a ≠ 0) ∧
  (∃ n, framebuffer_response l = Some n ∧ 1 ≤ n) ∧ hhdm_response l = Some off ∧
  memmap_response l = Some (Some entries) ∧ executable_addr_response l = Some (physical_base im).

Lemma verify_ok {S} l entries off im (s : S) :
  limine_ok l entries off im → limine_verify_requests l s = Ok (tt, s).
Proof.
  intros (E1 & (a & E2 & Ha) & (n & E3 & Hn) & E4 & E5 & E6).
  rewrite /limine_verify_requests E1 E2 E3 E4 E5 E6 (proj2 (Z.eqb_neq a 0) Ha).
  by rewrite (proj2 (Z.ltb_ge n 1) Hn).
Qed.

Lemma heap_base_above e : e ≤ heap_base e.
Proof. rewrite /heap_base /PAGING_PAGE_SIZE. Z.div_mod_to_equations. lia. Qed.

(** The heap, on the page tables [paging_init] built. *)
Lemma heap_boots im entries es' off base F n lim c m r3 r4 pat t :
  boot_ok im entries es' off base F n lim →
  ∃ fs P h T A n' fr, pmm_init off (pmm_boot c entries) = Ok (tt, fs) ∧
    paging_init im (mkPaging fs m off 0 r3 r4 pat t) = Ok (tt, P) ∧
    kheap_init (KERNEL_END im) (mkHeap P 0 0 0 false ∅) = Ok (tt, h) ∧
    kheap_start h = heap_base (KERNEL_END im) ∧
    kheap_end h = heap_base (KERNEL_END im) + KHEAP_STARTING_SIZE ∧
    heap_rep h false [(KHEAP_STARTING_SIZE - sizeof_kheap_node, true)] ∧
    heap_mem h T A n' fr lim ∧ (n ≤ n')%nat ∧ (∀ V : vmm_state pmm_state, accounts V [] T A fr ∅) ∧
    cr3 (paging h) = kernel_pml4_phys (paging h) ∧ msr_pat (paging h) = pat_val ∧ hhdm_offset (paging h) = off ∧
    (∀ w, canonical_addr w → ¬ kheap_start h ≤ w < kheap_end h →
       view (mem (paging h)) T w = kernel_view im off (highest_addr 0 entries) w).
Proof.
  intros [Hmm Hc Hio Hend Hbase [Hheap Hlim] Hgap HF Hn]. pose proof (io_off _ _ _ Hio) as Hoff.
  destruct (pmm_init_owned off c entries base es' F Hmm ltac:(lia) Hbase Hc HF) as (fs & Ef & Ho & Htop).
  pose proof (paging_init_wp im (mkPaging fs m off 0 r3 r4 pat t) ∅ (base.size F)) as Hp.
  cbn [hhdm_offset Paging.frames] in Hp. rewrite Htop in Hp.
  destruct (proj1 (wp_run _ _ _) (Hp Ho Hio ltac:(lia)))
    as ([] & P & EP & T & A & n1 & Hok & Hn1 & _ & _ & Hcr3 & HoffP & HtopP & HpatP & _ & Hview & _ & HA).
  set k := KERNEL_END im in Hend Hheap *. pose proof (heap_base_above k) as Hk.
  assert (KERNEL_START im ≤ heap_base k) as Hks.
  { pose proof (io_data _ _ _ Hio) as ([? ?] & _). lia. }
  assert (off ≤ KERNEL_START im) as Hoks.
  { pose proof (io_above _ _ _ Hio). unfold PAGING_HUGE_PAGE_SIZE in *. lia. }
  destruct (kheap_init_total (mkHeap P 0 0 0 false ∅) T A n1 lim k)
    as (h & T' & A' & n' & fr & Eh & Est & Een & Hr & Hm & Hn' & Hgw & Erg & Hv); [done|done|exact Hok| |unfold KHEAP_EXTENDING_AMOUNT in Hheap; lia|lia|].
  { unfold KHEAP_STARTING_SIZE, KHEAP_EXTENDING_AMOUNT in *. split; [|split; [split; lia|]].
    - cbn [paging]. eapply (root_ptr_nonzero im P A n1); [by rewrite HoffP HtopP|apply Hok|].
      eapply (ok_tables _ _ _ _ _ Hok []). by eapply wf_root, ok_wf.
    - intros w e Hw. cbn [paging]. rewrite Hview. apply above_image; [done|lia|right; lia]. }
  injection Erg as Eo Ek Ec _ Ep _. cbn [paging] in Eo, Ek, Ec, Ep, Hv.
  exists fs, P, h, T', A', n', fr. do 6 (split; [done|]). split; [done|]. split; [lia|]. split.
  { intros V. eapply accounts_start; [|exact Hgw]. intros f [Hf|Hf]%HA; [by apply elem_of_empty in Hf|done]. }
  split; [by rewrite Ec Ek|]. split; [by rewrite Ep|]. split; [by rewrite Eo|]. intros w Hw Hout. rewrite Hv; [apply Hview|done|by rewrite Een Est in Hout].
Qed.

(** The tables before the first instruction of [kmain], and the stubs of isr.asm. *)
Definition statics_ok (st : static_tables) (d : dt_state) : Prop :=
  length (gdt_table d) = GDT_NUM_ENTRIES ∧ length (idt d) = IDT_NUM_ENTRIES ∧ Forall gate_wf (idt d) ∧
  length (isr_stub_table st) = IDT_NUM_ENTRIES ∧ Forall (λ a, 0 ≤ a < 2 ^ 64) (isr_stub_table st).

(** ** Theorems *)

(** Nothing of the kernel's region is mapped at first. *)
Lemma region_unmapped im entries es' off base F n lim w :
  boot_ok im entries es' off base F n lim → VMM_KERNEL_START ≤ w ≤ VMM_KERNEL_END →
  kernel_view im off (highest_addr 0 entries) w = None.
Proof.
  intros Hb Hw. destruct (bt_gap _ _ _ _ _ _ _ _ Hb) as [H1 H2]. apply kernel_gap; [apply Hb|lia].
Qed.

(** The memory system boots. Whatever memory map, image and processor state the boot loader
    hands over, if its answers are complete and there are enough usable pages, the first
    part of [kmain] returns with a consistent system: every vector leads to its stub, CR3
    holds the root of well-formed page tables, which map the heap writable and everything
    else as the kernel image and the direct map ask for; the heap is intact, the kernel's
    address space is current, unlocked and empty and uses those tables, and [n] frames are
    still free. *)
Lemma kernel_memory_boots l st im entries es' off base F n lim c m r3 r4 pat t d :
  boot_ok im entries es' off base F n lim → statics_ok st d → limine_ok l entries off im →
  ∃ d' v a T A n' fr, kmain_memory l st im (d, boot_vmm c entries off m r3 r4 pat t) = Ok (tt, (d', v)) ∧
    (∀ i isr, isr_stub_table st !! i = Some isr → ∃ g, idt d' !! i = Some g ∧ kernel_gate isr g) ∧
    kernel_vm v {[ kernel_vas v := [] ]} [] [] a T A n' fr lim ∧ accounts v [] T A fr ∅ ∧ (n ≤ n')%nat ∧ current_vas v = kernel_vas v ∧
    let P := paging (heap v) in hhdm_offset P = off ∧
    kheap_start (heap v) = heap_base (KERNEL_END im) ∧
    kheap_end (heap v) = heap_base (KERNEL_END im) + KHEAP_STARTING_SIZE ∧
    (∀ w, canonical_addr w → ¬ kheap_start (heap v) ≤ w < kheap_end (heap v) →
       mmu_walk (mem P) (cr3 P) w = kernel_view im off (highest_addr 0 entries) w) ∧
    (∀ w, kheap_start (heap v) ≤ w < kheap_end (heap v) → ∃ f, f ∈ A ∧
       mmu_walk (mem P) (cr3 P) w = Some (Page4K (map_entry f HEAP_FLAGS false))).
Proof.
  intros Hb (Hd1 & Hd2 & Hd3 & Hd4 & Hd5) Hl.
  destruct (tables_init (gdt_at st) (idt_at st) (isr_stub_table st) d Hd1 Hd2 Hd3 Hd4 Hd5)
    as (d' & Ed & _ & _ & _ & _ & _ & Hgates).
  destruct (heap_boots im entries es' off base F n lim c m r3 r4 pat t Hb)
    as (fs & P & h & T & A & n' & fr & Ef & EP & Eh & Est & Een & Hr & Hm & Hn & Hac & Hcr3 & Hpat & Hoff & Hv).
  destruct (vmm_init_total (mkVmm h c 0 0 ∅ ∅) _ (KHEAP_STARTING_SIZE - sizeof_kheap_node) eq_refl Hr eq_refl)
    as (v & L' & Ev & Hrep & Hcur & Hsp & _ & Ehv); [by left|done| |].
  { rewrite /room_for. cbn [heap]. rewrite Een. pose proof (bt_heap _ _ _ _ _ _ _ _ Hb) as Hroom.
    change (Z.of_nat (kmalloc_fuel (round_size 32))) with 3. lia. }
  cbn [heap] in Ehv, Hsp. apply (ex_intro (λ ns, heap v = with_nodes ns h)) in Ehv as [ns Ehv].
  rewrite /boot_vmm. apply bind_ok in Ed as ([] & d1 & Eg & Ei).
  assert (VMM_KERNEL_END < kheap_start h) as Hab.
  { destruct (bt_gap _ _ _ _ _ _ _ _ Hb) as [_ Hg]. pose proof (bt_end _ _ _ _ _ _ _ _ Hb).
    pose proof (io_data _ _ _ (bt_image _ _ _ _ _ _ _ _ Hb)) as ([? ?] & _).
    pose proof (heap_base_above (KERNEL_END im)). rewrite Est. lia. }
  exists d', v, (mkSpace (kernel_pml4_phys (paging h)) 0 SPINLOCK_IRQ_INIT), T, A, n', fr. split.
  { rewrite /kmain_memory {1}/bind (verify_ok l entries off im _ Hl).
    rewrite {1}/bind /on_fst. cbn [fst snd]. rewrite Eg {1}/bind. cbn [fst snd]. rewrite Ei.
    by rewrite /bind /on_snd /on_tables /on_heap /on_paging /on_frames /gets /= Ef /= EP /= Eh /= Ev. }
  split; [exact Hgates|]. cbv zeta. split; [|rewrite Ehv; cbn [paging with_nodes kheap_start kheap_end]].
  - split; rewrite ?Ehv; cbn [paging with_nodes kheap_start kheap_end].
    + exact Hrep.
    + apply lookup_singleton_eq.
    + exact Hsp.
    + reflexivity.
    + exact Hcr3.
    + exact Hpat.
    + by destruct Hm.
    + exact Hab.
    + intros w e Hw. rewrite Hv; [by rewrite (region_unmapped im entries es' off base F n lim w Hb Hw)| |lia].
      apply kernel_canonical. unfold VMM_KERNEL_END in Hw. lia.
  - split; [apply Hac|]. split; [exact Hn|]. split; [exact Hcur|]. split; [exact Hoff|]. split; [exact Est|]. split; [exact Een|]. rewrite Hcr3. split.
    + intros w Hw Hout. rewrite (ok_walk _ _ T A n' w (hm_tables _ _ _ _ _ _ Hm)). by apply Hv.
    + intros w Hw. destruct (bk_view _ _ _ _ _ _ (hm_backed _ _ _ _ _ _ Hm) w Hw) as (f & Hf & Hvw).
      exists f. split; [by eapply bk_owned; [apply Hm|]|].
      by rewrite (ok_walk _ _ T A n' w (hm_tables _ _ _ _ _ _ Hm)).
Qed.

(** If an answer of the boot loader is missing, the machine halts before anything is changed. *)
Lemma kernel_refuses l st im :
  hhdm_response l = None ∨ memmap_response l = None ∨ executable_addr_response l = None ∨
    rsdp_response l = None ∨ framebuffer_response l = None ∨ base_revision_supported l = false →
  ∀ s, kmain_memory l st im s = Err Halt.
Proof.
  intros Hl s. rewrite /kmain_memory {1}/bind /limine_verify_requests.
  destruct Hl as [->|[->|[->|[->|[->| ->]]]]]; by rewrite ?orb_true_r.
Qed.

(** ** A concrete machine

    512 MiB of RAM from address 0, with an image of sixteen pages at 7 MiB. *)

Definition small_map : list memmap_entry :=
  [mkEntry 0 0x700000 LIMINE_MEMMAP_USABLE; mkEntry 0x700000 0x10000 MEMMAP_OTHER;
   mkEntry 0x710000 0x1f8f0000 LIMINE_MEMMAP_USABLE].
Definition small_image : kernel_image :=
  mkImage 0xffffffff80000000 0xffffffff80010000 0xffffffff80000000 0xffffffff80001000
    0xffffffff80001000 0xffffffff80009000 0xffffffff80009000 0xffffffff8000c000
    0xffffffff8000c000 0xffffffff80010000 0x700000.
Definition small_answers : limine_responses :=
  mkLimine true (Some 0xf5000) (Some 1) (Some demo_offset) (Some (Some small_map)) (Some 0x700000).
Definition small_statics : static_tables := mkStatics 0xffffffff8000c000 0xffffffff8000d000 demo_stubs.
Definition small_lim : Z := 0xfffffffff0000000.

Lemma small_boots (F : gset Z) :
  (∀ p, p ∈ F → 2000 ≤ p < 122000) → Z.of_nat (base.size F) = 120000 →
  ∃ es' base n, boot_ok small_image small_map es' demo_offset base F n small_lim ∧ 100000 ≤ Z.of_nat n.
Proof.
  intros HF Hsz. assert (highest_addr 0 small_map = 0x20000000) as Hhi by reflexivity.
  assert (Z.of_nat (image_frames small_image 0x20000000) < 5000) as Hi by (vm_compute; reflexivity).
  pose proof frames_for_megabyte as Hm.
  destruct (carve (total_pages small_map * sizeof_pmm_page) small_map) as [[base es']|] eqn:Ec; [|vm_compute in Ec; discriminate Ec].
  exists es', base, (base.size F - (image_frames small_image 0x20000000 + frames_for 0x100000))%nat. split; [|lia]. pose proof Ec as Ec'. vm_compute in Ec'. injection Ec' as Eb Ees. split.
  - split; repeat constructor; simpl; try lia; intros ??; simpl in *; done || lia.
  - exact Ec.
  - rewrite Hhi. split; try reflexivity; try (vm_compute; repeat split; (intros H; discriminate H) || reflexivity).
  - vm_compute. intros H; discriminate H.
  - rewrite -Eb. reflexivity.
  - vm_compute. split; [intros H; discriminate H|reflexivity].
  - rewrite Hhi. vm_compute. split; [intros H; discriminate H|reflexivity].
  - intros p Hp. apply HF in Hp. rewrite -Ees. eexists. split; [right; right; by left|].
    split; [reflexivity|]. split; simpl; rewrite /PMM_PAGE_SIZE; lia.
  - rewrite Hhi. unfold KHEAP_STARTING_SIZE. lia.
Qed.

Lemma small_ok :
  ∃ es' base F n, boot_ok small_image small_map es' demo_offset base F n small_lim ∧ 100000 ≤ Z.of_nat n.
Proof.
  destruct (small_boots (list_to_set (seqZ 2000 120000))) as (es' & base & n & H).
  - intros p. rewrite elem_of_list_to_set elem_of_seqZ. lia.
  - rewrite size_list_to_set; [|apply NoDup_seqZ]. rewrite length_seqZ. by apply Z2Nat.id.
  - by exists es', base, (list_to_set (seqZ 2000 120000)), n.
Qed.

Lemma small_statics_ok : statics_ok small_statics demo_tables.
Proof.
  split; [reflexivity|]. split; [reflexivity|]. split; [|split; [reflexivity|]].
  - apply Forall_replicate. vm_compute. repeat split; (intros H; discriminate H) || reflexivity.
  - apply (bool_decide_unpack _). vm_compute. exact I.
Qed.

Lemma small_limine_ok : limine_ok small_answers small_map demo_offset small_image.
Proof. repeat split; try reflexivity; eexists; (split; [reflexivity|]); [discriminate|lia]. Qed.
