(* ===== verification/Kmain.v ===== *)
(** * The kernel's entry point (main.c)

    All of [kmain] up to the loop of the idle thread: the memory system (Boot.v), the
    drivers, the scheduler and the two processes of the stress test. *)

From Stdlib Require Import Ascii String.
From stdpp Require Import base gmap list numbers.
From S2P Require Import Prelude Spinlock Hhdm Pmm PmmSpec FrameAlloc Paging PagingSpec PagingInit PagingThms.
From S2P Require Import Kheap KheapSpec KheapMem KheapThms Vmm VmmSpec VmmInv VmmThms Strings Npf NpfSpec Serial.
From S2P Require Import Descriptors Sched SchedSpec SchedOps Mutex SchedInv Mmio Acpi Lapic Console Kernel Tasks Timer Boot.

(** ** Model *)

Section kmain.
Context {S D T : Type} `{FrameAlloc S, !MmioDevice D, !PortDevice D, !TscDevice D, !FlantermInit T}.

(** The statics of all components: the descriptor tables; the local APIC, below which are
    the address spaces, the heap, the page tables and the frames, and beside which are the
    timer and the scheduler; the terminal; and the ACPI tables. *)
Record kernel := mkKernel {
  k_tables : dt_state;
  k_timer : timer_state S D;
  k_console : option T;
  k_acpi : acpi_state;
}.

Definition k_vmm (k : kernel) : vmm_state S := lp_vmm (tm_lapic (k_timer k)).
Definition k_sched (k : kernel) : sched_state := tm_sched (k_timer k).

Definition with_vmm (V : vmm_state S) (t : timer_state S D) : timer_state S D :=
  mkTimer (mkLapic V (lp_regs (tm_lapic t)) (lp_dev (tm_lapic t)) (lapic_MMIO (tm_lapic t)))
    (lapic_ticks_per_ms t) (tm_sched t).
Definition with_sched (q : sched_state) (t : timer_state S D) : timer_state S D :=
  mkTimer (tm_lapic t) (lapic_ticks_per_ms t) q.

Definition in_memory {A} (m : M (dt_state * vmm_state S) A) : M kernel A := λ k,
  match m (k_tables k, k_vmm k) with
  | Ok (x, (d, V)) => Ok (x, mkKernel d (with_vmm V (k_timer k)) (k_console k) (k_acpi k))
  | Err e => Err e
  end.
Definition in_console {A} (m : M (vmm_state S * option T) A) : M kernel A := λ k,
  match m (k_vmm k, k_console k) with
  | Ok (x, (V, c)) => Ok (x, mkKernel (k_tables k) (with_vmm V (k_timer k)) c (k_acpi k))
  | Err e => Err e
  end.
Definition in_acpi {A} (m : M acpi_state A) : M kernel A := λ k,
  match m (k_acpi k) with
  | Ok (x, a) => Ok (x, mkKernel (k_tables k) (k_timer k) (k_console k) a)
  | Err e => Err e
  end.
Definition in_timer {A} (m : M (timer_state S D) A) : M kernel A := λ k,
  match m (k_timer k) with
  | Ok (x, t) => Ok (x, mkKernel (k_tables k) t (k_console k) (k_acpi k))
  | Err e => Err e
  end.
Definition in_threads {A} (m : M (vmm_state S * sched_state) A) : M kernel A := λ k,
  match m (k_vmm k, k_sched k) with
  | Ok (x, (V, q)) =>
      Ok (x, mkKernel (k_tables k) (with_sched q (with_vmm V (k_timer k))) (k_console k) (k_acpi k))
  | Err e => Err e
  end.

(** Where the linker put the code and the literals [kmain] refers to, and the first
    framebuffer of the boot loader's answer. *)
Record kmain_data := mkData {
  kd_fb : limine_framebuffer;
  kd_rsdp_sig : Z;                  (** the literal ["RSD PTR "] *)
  kd_worker : Z;                    (** [stress_test_worker] *)
  kd_exit : Z;                      (** [task_current_thread_exit] *)
}.

Definition kmain_drivers (rsdp : Z) (kd : kmain_data) : M kernel unit :=
  in_console (console_init (kd_fb kd));;;
  off <- gets (λ k, hhdm_offset (paging (heap (k_vmm k))));;
  in_acpi (acpi_init off (kd_rsdp_sig kd) rsdp);;;
  in_timer (on_lapic lapic_initialize);;;
  in_timer timer_init.

(** Three threads of the stress test. *)
Definition start_workers (kd : kmain_data) (task : Z) : M (vmm_state S * sched_state) unit :=
  new_thread (kd_exit kd) task (kd_worker kd);;;
  new_thread (kd_exit kd) task (kd_worker kd);;;
  new_thread (kd_exit kd) task (kd_worker kd);;;
  ret tt.

Definition kmain_tasks (kd : kmain_data) : M (vmm_state S * sched_state) unit :=
  start_scheduler;;;
  process_a <- new_task (Some (str "Processo A"));;
  start_workers kd process_a;;;
  process_b <- new_task (Some (str "Processo B"));;
  start_workers kd process_b.

(** The instruction [sti], in the scheduler's view of the flags. *)
Definition sti : M sched_state unit :=
  modify (λ q, with_slock (scheduler_lock q) (mkCpu (Z.lor (rflags (sc_cpu q)) 0x200)) q).
End kmain.
Arguments kernel : clear implicits.

(** The pointer [acpi_init] reads from the answer; [limine_verify_requests] has checked it. *)
Definition rsdp_address (l : limine_responses) : Z := default 0 (rsdp_response l).

(** The whole of [kmain]; what follows is [kernel_idle_thread]. *)
Definition kmain {D T} `{!MmioDevice D, !PortDevice D, !TscDevice D, !FlantermInit T}
    (l : limine_responses) (st : static_tables) (im : kernel_image) (kd : kmain_data) : M (kernel pmm_state D T) unit :=
  in_memory (kmain_memory l st im);;;
  kmain_drivers (rsdp_address l) kd;;;
  in_threads (kmain_tasks kd);;;
  in_threads (on_snd sti).

(** ** The console and the memory *)

Section console_at.
Context {S T : Type} `{FrameAllocSpec S, !FlantermInit T, !FlantermSpec T}.
Implicit Types V : vmm_state S.

Notation walk V := (mmu_walk (mem (paging (heap V))) (cr3 (paging (heap V)))).

(** After [console_init] on a kernel that had mapped nothing in its region. *)
Lemma console_at V W others Tb A n fr lim fb p r (t : T) V' l' live a' Tb' A' n' fr' k :
  console_up V W others [] Tb A n fr lim fb p r t V' l' live a' Tb' A' n' fr' → accounts V [] Tb A fr ∅ →
  VMM_KERNEL_END < kheap_end (heap V) → 0 ≤ fb_bytes fb →
  (∀ w, VMM_KERNEL_START ≤ w ≤ VMM_KERNEL_END → walk V w = None) →
  (struct_frames + 3 * region_pages (fb_bytes fb) false + fl_extensions (fb_args fb r) * frames_for KHEAP_EXTENDING_AMOUNT
     + k * credit_frames ≤ n)%nat →
  kheap_end (heap V) + (2 + Z.of_nat (fl_extensions (fb_args fb r))) * KHEAP_EXTENDING_AMOUNT
    + Z.of_nat k * (3 * KHEAP_EXTENDING_AMOUNT) ≤ lim →
  kernel_at V' l' (live ++ others) (VMM_KERNEL_START + fb_bytes fb) k lim.
Proof.
  intros U Hac Hab Hz Hun Hn Hlim.
  pose proof U as [_ Uvas Urng Ufree Umin (l1 & l2 & q & El & El') Uvm Uroom Ugw Ust Uend Uregs Uvis Upg Uwalk].
  symmetry in El. apply app_nil in El as [-> ->]. cbn [app] in El'. subst l'.
  pose proof (Umin VMM_KERNEL_START ltac:(done) (Forall_nil_2 _)) as Hr.
  split.
  - eexists _, a', Tb', A', n', fr', ∅. split; [exact Uvm|]. split; [lia|]. apply (accounts_device V' [] []); [done|].
    eapply accounts_grow; [exact Hac|exact Ugw|]. intros x w Hx. by apply not_elem_of_nil in Hx.
  - unfold KHEAP_EXTENDING_AMOUNT in *. lia.
  - split; [lia|]. constructor; [rewrite /r_end /=; lia|constructor].
  - intros w Hw Hf. apply Forall_cons in Hf as [Hf _]. rewrite Uwalk; [by apply Hun| | |lia].
    + apply kernel_canonical. unfold VMM_KERNEL_END in *. lia.
    + rewrite /contains /r_end /= in Hf. lia.
Qed.
End console_at.

(** ** Tasks *)

Section tasks_ok.
Context {S : Type} `{FrameAllocSpec S}.
Context (kd : kmain_data) (Hw : kd_worker kd ≠ 0).
Implicit Types (V : vmm_state S) (q : sched_state).

Notation STACK := THREAD_INITIAL_STACK_SIZE.

Lemma start_workers_ok V q l others hi k lim A t B ths :
  system V q l others hi (9 + k) lim (A ++ (t, []) :: B) (kd_worker kd) (kd_exit kd) ths →
  hi + 3 * STACK ≤ VMM_KERNEL_END + 1 →
  ∃ x1 x2 x3 V' q' l' others', start_workers kd t (V, q) = Ok (tt, (V', q')) ∧
    system V' q' l' others' (hi + 3 * STACK) k lim (A ++ (t, [x1; x2; x3]) :: B) (kd_worker kd) (kd_exit kd)
      (x3 :: x2 :: x1 :: ths) ∧ keeps V V' ∧ sc_cpu q' = sc_cpu q.
Proof.
  intros Y0 Hhi. unfold THREAD_INITIAL_STACK_SIZE in Hhi.
  destruct (new_thread_ok V q l others hi (6 + k) lim A t [] B _ _ ths Y0 Hw)
    as (x1 & V1 & q1 & l1 & E1 & Y1 & K1 & _ & C1); [unfold THREAD_INITIAL_STACK_SIZE; lia|].
  destruct (new_thread_ok V1 q1 l1 _ _ (3 + k) lim A t _ B _ _ _ Y1 Hw)
    as (x2 & V2 & q2 & l2 & E2 & Y2 & K2 & _ & C2); [unfold THREAD_INITIAL_STACK_SIZE; lia|].
  destruct (new_thread_ok V2 q2 l2 _ _ k lim A t _ B _ _ _ Y2 Hw)
    as (x3 & V3 & q3 & l3 & E3 & Y3 & K3 & _ & C3); [unfold THREAD_INITIAL_STACK_SIZE; lia|].
  exists x1, x2, x3, V3, q3, l3. eexists. split; [by rewrite /start_workers /bind E1 E2 E3|].
  replace (hi + 3 * STACK) with (hi + STACK + STACK + STACK) by lia.
  split; [exact Y3|]. split; [by do 2 (etrans; [eassumption|])|congruence].
Qed.

(** From the end of the drivers' initialisation to six ready threads. *)
Lemma kmain_tasks_ok V q l others hi lim :
  kernel_at V l others hi 22 lim → hi + 6 * STACK ≤ VMM_KERNEL_END + 1 →
  tasks q = ∅ → thrs q = ∅ → lock_free (scheduler_lock q) → clock_ok q →
  ∃ idle it a b a1 a2 a3 b1 b2 b3 V' q' l' others', kmain_tasks kd (V, q) = Ok (tt, (V', q')) ∧
    system V' q' l' others' (hi + 6 * STACK) 0 lim [(idle, [it]); (a, [a1; a2; a3]); (b, [b1; b2; b3])]
      (kd_worker kd) (kd_exit kd) [b3; b2; b1; a3; a2; a1] ∧ keeps V V' ∧ sc_cpu q' = sc_cpu q.
Proof.
  intros HV Hhi Et Ex Hl Hc. unfold THREAD_INITIAL_STACK_SIZE in Hhi.
  destruct (start_scheduler_ok V q l others hi 20 lim (kd_worker kd) (kd_exit kd) HV Et Ex Hl Hc)
    as (idle & it & V1 & q1 & E1 & Y1 & K1 & _ & Eq1).
  assert (sc_cpu q1 = sc_cpu q) as C1 by by rewrite Eq1. clear Eq1.
  destruct (new_task_ok V1 q1 l _ hi 19 lim _ _ _ _ (str "Processo A") Y1) as (a & V2 & q2 & E2 & Y2 & K2 & _ & C2); [done|].
  destruct (start_workers_ok V2 q2 l _ hi 10 lim [(idle, [it])] a [] [] Y2)
    as (a1 & a2 & a3 & V3 & q3 & l3 & o3 & E3 & Y3 & K3 & C3); [unfold THREAD_INITIAL_STACK_SIZE; lia|].
  destruct (new_task_ok V3 q3 l3 _ _ 9 lim _ _ _ _ (str "Processo B") Y3) as (b & V4 & q4 & E4 & Y4 & K4 & _ & C4); [done|].
  destruct (start_workers_ok V4 q4 l3 _ _ 0 lim [(idle, [it]); (a, [a1; a2; a3])] b [] _ Y4)
    as (b1 & b2 & b3 & V5 & q5 & l5 & o5 & E5 & Y5 & K5 & C5); [unfold THREAD_INITIAL_STACK_SIZE; lia|].
  exists idle, it, a, b, a1, a2, a3, b1, b2, b3, V5, q5, l5, o5.
  split; [by rewrite /kmain_tasks /bind E1 E2 E3 E4 E5|].
  replace (hi + 6 * STACK) with (hi + 3 * STACK + 3 * STACK) by lia.
  split; [exact Y5|]. split; [by do 4 (etrans; [eassumption|])|congruence].
Qed.

(** Interrupts on: nothing else changes. *)
Lemma system_sti V q l others hi k lim TL entry exit_fn ths c :
  system V q l others hi k lim TL entry exit_fn ths →
  system V (with_slock (scheduler_lock q) c q) l others hi k lim TL entry exit_fn ths.
Proof.
  intros [H1 [H2 H2'] Hv H3 H4 H5]. split; [done| |done|done|done|done]. split; [|done]. destruct H2 as [C1 C2 C3 C4 C5 C6].
  split; try done. destruct C1. by split.
Qed.
End tasks_ok.

(** ** Drivers *)

Section boots.
Context {S D T : Type} `{FrameAllocSpec S, !MmioDevice D, !PortDevice D, !TscDevice D, !TimerHw D, !FlantermInit T, !FlantermSpec T}.

Notation walk V := (mmu_walk (mem (paging (heap V))) (cr3 (paging (heap V)))).

(** The machine and the data the drivers find: a framebuffer at the physical address [p]
    and the ACPI root pointer [bs] at [rsdp] in memory, a local APIC, clocks that are not about to
    wrap around, and a scheduler that has not started. *)
Record hardware_ok (rsdp : Z) (kd : kmain_data) (off p : Z) (m : bytes) (bs : list Z) (k : kernel S D T) : Prop := {
  hk_size : 0 < fb_height (kd_fb kd) * fb_pitch (kd_fb kd) ≤ 2 ^ 31;
  hk_phys : hhdm_virtToPhys off (fb_address (kd_fb kd)) = p;
  hk_page : page_addr p ∧ p + fb_bytes (kd_fb kd) ≤ 2 ^ 52;
  hk_acpi : k_acpi k = acpi_start m ∧ bytes_at m (kd_rsdp_sig kd) (str "RSD PTR ") ∧ bytes_at m rsdp bs;
  hk_rsdp : List.length bs = 36%nat ∧ rsdp_valid bs = true;
  hk_lapic : Z.land (u32 (cpuid_leaf (lp_regs (tm_lapic (k_timer k))) 1 0).2) (2 ^ 9) ≠ 0;
  hk_msr : ∃ v, msr (lp_regs (tm_lapic (k_timer k))) !! MSR_IA32_APIC_BASE = Some v ∧ 0 ≤ v < 2 ^ 64 ∧
    Z.land v APIC_BASE_MASK = apic_at;
  hk_apic : page_addr apic_at ∧ apic_at + PAGING_PAGE_SIZE ≤ 2 ^ 52;
  hk_clock : 0 ≤ cycle (dev (k_timer k)) ∧ cycle (dev (k_timer k)) + access_max + tsc_hz < 2 ^ 64 ∧ 2000 ≤ tsc_hz;
  hk_sched : tasks (k_sched k) = ∅ ∧ thrs (k_sched k) = ∅ ∧ lock_free (scheduler_lock (k_sched k));
}.

(** Frames and heap addresses for the console, the local APIC and the first threads. *)
Definition supply_ok (fb : limine_framebuffer) (n : nat) (heap_end lim : Z) : Prop := ∀ r,
  let K := fl_extensions (fb_args fb r) in
  (struct_frames + 3 * region_pages (fb_bytes fb) false + K * frames_for KHEAP_EXTENDING_AMOUNT
     + 23 * credit_frames ≤ n)%nat ∧
  heap_end + (3 + Z.of_nat K) * KHEAP_EXTENDING_AMOUNT + 23 * (3 * KHEAP_EXTENDING_AMOUNT) ≤ lim.

(** The drivers work: what the console shows is in the framebuffer's memory, the registers
    of the local APIC answer, and its timer runs with the interrupt on. *)
Record drivers_up (kd : kmain_data) (p : Z) (k : kernel S D T) : Prop := {
  du_console : ∃ t r, k_console k = Some t ∧ returns (flanterm_fb_init (fb_args (kd_fb kd) r)) (Some t) ∧
    VMM_KERNEL_START ≤ r ∧ r + fb_bytes (kd_fb kd) ≤ VMM_KERNEL_END + 1 ∧
    device_at (paging (heap (k_vmm k))) r (fb_bytes (kd_fb kd)) p;
  du_range : VMM_KERNEL_START ≤ lapic_MMIO (tm_lapic (k_timer k)) ∧
    lapic_MMIO (tm_lapic (k_timer k)) + PAGING_PAGE_SIZE ≤ VMM_KERNEL_END + 1;
  du_lapic : lapic_mapped (tm_lapic (k_timer k)) apic_at;
  du_timer : ∃ d, dev (k_timer k) = mmio_write (apic_at + LAPIC_INITIAL_COUNT_REG) (lapic_ticks_per_ms (k_timer k) * 10)
    (mmio_write (apic_at + LAPIC_DIVIDE_REG) 3 (mmio_write (apic_at + LAPIC_LVT_TIMER_REG) 0x20020 d));
}.

(** The local APIC and the timer, on a kernel with the console up. *)
Lemma timers_ok (s : timer_state S D) l others hi (k : nat) lim v :
  kernel_at (lp_vmm (tm_lapic s)) l others hi (Datatypes.S k) lim → hi + PAGING_PAGE_SIZE ≤ VMM_KERNEL_END + 1 →
  Z.land (u32 (cpuid_leaf (lp_regs (tm_lapic s)) 1 0).2) (2 ^ 9) ≠ 0 →
  msr (lp_regs (tm_lapic s)) !! MSR_IA32_APIC_BASE = Some v → 0 ≤ v < 2 ^ 64 → Z.land v APIC_BASE_MASK = apic_at →
  page_addr apic_at → apic_at + PAGING_PAGE_SIZE ≤ 2 ^ 52 →
  0 ≤ cycle (dev s) → cycle (dev s) + access_max + tsc_hz < 2 ^ 64 → 2000 ≤ tsc_hz →
  ∃ (s' : timer_state S D) l' d, (on_lapic lapic_initialize;;; timer_init) s = Ok (tt, s') ∧
    kernel_at (lp_vmm (tm_lapic s')) l' others (hi + PAGING_PAGE_SIZE) k lim ∧
    keeps (lp_vmm (tm_lapic s)) (lp_vmm (tm_lapic s')) ∧
    VMM_KERNEL_START ≤ lapic_MMIO (tm_lapic s') ∧ lapic_MMIO (tm_lapic s') + PAGING_PAGE_SIZE ≤ VMM_KERNEL_END + 1 ∧
    lapic_mapped (tm_lapic s') apic_at ∧
    dev s' = mmio_write (apic_at + LAPIC_INITIAL_COUNT_REG) (lapic_ticks_per_ms s' * 10)
      (mmio_write (apic_at + LAPIC_DIVIDE_REG) 3 (mmio_write (apic_at + LAPIC_LVT_TIMER_REG) 0x20020 d)) ∧
    ∃ freq boot, tm_sched s' = with_tsc freq boot (tm_sched s) ∧ freq / 1000 ≠ 0.
Proof.
  intros HV Hhi Hcpu Hmsr Hv Hb Hp Hp52 Hc0 Hc1 Hf.
  pose proof HV as [(W & a & Tb & A & n & fr & ar & K & Hn & Hac) Hroom [Hhi0 Hh] Hun].
  destruct (lapic_initialize_ok (tm_lapic s) W others l a Tb A n fr lim apic_at)
    as (s1 & l' & a' & T' & A' & n' & fr' & E1 & HD & Hmap & Hdev & _).
  - split; [done|unfold credit_frames in Hn; lia|unfold struct_room, KHEAP_EXTENDING_AMOUNT in *; lia|by exists v|done].
  - done.
  - exists hi. split; [lia|]. split; [lia|by apply free_above].
  - cbv zeta in HD. change PAGING_PAGE_SIZE with 4096 in HD.
    destruct (at_device _ _ _ _ k _ _ _ _ _ _ _ _ _ _ _ _ _ _ _ _ _ _ _ HV K Hn Hac (eq_refl : has LAPIC_FLAGS VMM_FLAGS_MMIO = true) Hhi HD) as [HV1 K1]; [done|vm_compute; lia|].
    set t1 := mkTimer s1 (lapic_ticks_per_ms s) (tm_sched s).
    assert (cycle (dev s) < cycle (dev t1) ≤ cycle (dev s) + access_max) as Hcy.
    { rewrite /dev. cbn [t1 tm_lapic]. rewrite Hdev. by destruct (hw_write (apic_at + 0xF0) 0x1FF (lp_dev (tm_lapic s))). }
    destruct (timer_init_run t1 Hmap ltac:(lia) ltac:(lia)) as (E & Tk & te & d & Hrun & Erun). cbv zeta in Erun.
    eexists _, l', d. split; [by rewrite /bind /on_lapic E1 -/t1 Erun|]. cbn [tm_lapic lp_vmm with_dev lapic_MMIO t1].
    split; [done|]. split; [done|]. destruct (md_range _ _ _ _ _ _ _ _ _ _ _ _ _ _ _ _ _ _ _ _ HD) as (Hr1 & Hr2 & _).
    split; [done|]. split; [done|]. split; [done|]. split; [done|].
    eexists _, _. split; [done|]. destruct (ru_tsc _ _ _ _ _ Hrun) as [Hru _]. unfold PIT_BASE_FREQ in Hru.
    clear - Hru Hf. Z.div_mod_to_equations. lia.
Qed.

Lemma fb_bytes_small fb : 0 < fb_height fb * fb_pitch fb ≤ 2 ^ 31 → 0 ≤ fb_bytes fb < 2 ^ 31 + PAGING_PAGE_SIZE.
Proof.
  intros Hsz. destruct (round_up_ok (fb_height fb * fb_pitch fb) ltac:(lia)) as (Hz & Hz' & _).
  fold (fb_bytes fb) in Hz, Hz'. unfold PAGING_PAGE_SIZE in *. lia.
Qed.

(** The drivers come up one after the other, on a kernel that has mapped nothing yet. *)
Lemma kmain_drivers_ok rsdp kd off p m bs (k : kernel S D T) a Tb A n fr lim :
  kernel_vm (k_vmm k) {[ kernel_vas (k_vmm k) := [] ]} [] [] a Tb A n fr lim → accounts (k_vmm k) [] Tb A fr ∅ →
  hhdm_offset (paging (heap (k_vmm k))) = off →
  (∀ w, VMM_KERNEL_START ≤ w ≤ VMM_KERNEL_END → walk (k_vmm k) w = None) →
  hardware_ok rsdp kd off p m bs k → supply_ok (kd_fb kd) n (kheap_end (heap (k_vmm k))) lim →
  ∃ k' l others, kmain_drivers rsdp kd k = Ok (tt, k') ∧ k_tables k' = k_tables k ∧ k_acpi k' = acpi_after m off bs ∧
    kernel_at (k_vmm k') l others (VMM_KERNEL_START + fb_bytes (kd_fb kd) + PAGING_PAGE_SIZE) 22 lim ∧
    drivers_up kd p k' ∧ ∃ freq boot, k_sched k' = with_tsc freq boot (k_sched k) ∧ freq / 1000 ≠ 0.
Proof.
  intros K Hac Hoff Hun HW Hs. pose proof HW as [Hsz Hp Hpg (Ea & Hlit & Hrsdp) (Hlen & Hval) Hcpu (v & Hmsr & Hv & Hb) [Ha1 Ha2] (Hc0 & Hc1 & Hf) _].
  pose proof (fb_bytes_small _ Hsz) as Hz.
  destruct (console_init_ok (k_vmm k) (k_console k) (kd_fb kd) p _ [] [] a Tb A n fr lim K)
    as (r & t & V1 & l1 & live & a1 & T1 & A1 & n1 & fr1 & E1 & U).
  - split; [done|by rewrite Hoff|done| |]; intros r; destruct (Hs r) as [H1 H2]; [lia|unfold KHEAP_EXTENDING_AMOUNT in *; lia].
  - exists VMM_KERNEL_START. split; [done|]. split; [|apply Forall_nil_2].
    unfold VMM_KERNEL_START, VMM_KERNEL_END, PAGING_PAGE_SIZE in *. lia.
  - pose proof (heap_not_empty _ _ _ (kv_rep _ _ _ _ _ _ _ _ _ _ K)). pose proof (kv_above _ _ _ _ _ _ _ _ _ _ K).
    destruct (Hs r) as [Hs1 Hs2].
    pose proof (console_at _ _ _ _ _ _ _ _ _ _ _ _ _ _ _ _ _ _ _ _ 23 U Hac ltac:(lia) (proj1 Hz) Hun Hs1 ltac:(unfold KHEAP_EXTENDING_AMOUNT in *; lia)) as HV1.
    pose proof U as [Uret _ [Ur1 Ur2] _ _ _ _ _ _ _ _ _ Uvis _ _].
    set t1 := with_vmm V1 (k_timer k).
    destruct (timers_ok t1 l1 (live ++ []) _ 22 lim v HV1)
      as (t2 & l2 & d & E2 & HV2 & K2 & Hl1 & Hl2 & Hlm & Hdev & freq & boot & Eq & Hfr); try done.
    { unfold VMM_KERNEL_START, VMM_KERNEL_END, PAGING_PAGE_SIZE in *. lia. }
    exists (mkKernel (k_tables k) t2 (Some t) (acpi_after m off bs)), l2, (live ++ []).
    apply bind_ok in E2 as ([] & t3 & E3 & E4).
    split.
    { rewrite /kmain_drivers /in_console {1}/bind E1. rewrite {1}/bind /gets.
      assert (hhdm_offset (paging (heap V1)) = off) as Eo.
      { pose proof (cu_regs _ _ _ _ _ _ _ _ _ _ _ _ _ _ _ _ _ _ _ _ _ U) as Er. rewrite -Hoff. by injection Er. }
      rewrite {1}/bind /in_acpi. cbn [k_acpi k_vmm k_timer lp_vmm tm_lapic with_vmm]. rewrite Eo Ea.
      rewrite (acpi_init_ok m off _ _ bs Hlit Hrsdp Hlen) Hval.
      rewrite {1}/bind /in_timer. cbn [k_timer]. fold t1. rewrite E3. cbn [k_timer]. by rewrite E4. }
    split; [done|]. split; [done|]. split; [exact HV2|]. split; [split|].
    + exists t, r. split; [done|]. split; [done|]. split; [done|]. split; [done|]. by eapply keeps_device; [exact K2| | |].
    + done.
    + done.
    + by exists d.
    + by exists freq, boot.
Qed.

(** The tables and the memory system may change before the drivers start ... *)
Lemma hardware_memory rsdp kd off p m bs d V (k : kernel S D T) :
  hardware_ok rsdp kd off p m bs k →
  hardware_ok rsdp kd off p m bs (mkKernel d (with_vmm V (k_timer k)) (k_console k) (k_acpi k)).
Proof. intros [H1 H2 H3 H4 H5 H6 H7 H8 H9 H10]. by split. Qed.

(** ... and the threads use the memory beside them. *)
Lemma drivers_keep kd p (k : kernel S D T) V q :
  drivers_up kd p k → keeps (k_vmm k) V →
  drivers_up kd p (mkKernel (k_tables k) (with_sched q (with_vmm V (k_timer k))) (k_console k) (k_acpi k)).
Proof.
  intros [(t & r & E & Hret & Hr1 & Hr2 & HD) [Hl1 Hl2] (Hm1 & Hm2 & Hm3) Hdev] Hk. split.
  - exists t, r. do 4 (split; [done|]). by eapply keeps_device.
  - done.
  - split; [done|]. split; [done|]. intros write reg Hreg. cbn [k_timer with_sched with_vmm tm_lapic lapic_MMIO lp_vmm].
    eapply keeps_translate; [exact Hk|unfold PAGING_PAGE_SIZE in *; lia|by apply Hm3].
  - exact Hdev.
Qed.
End boots.

(** ** The kernel boots *)

Section kernel_boots.
Context {D T : Type} `{!MmioDevice D, !PortDevice D, !TscDevice D, !TimerHw D, !FlantermInit T, !FlantermSpec T}.

End kernel_boots.

(** ** A concrete machine

    The machine of Boot.v, with the framebuffer and the terminal of Console.v, the root
    pointer of Acpi.v and the clocks of Timer.v. *)

#[local] Existing Instance demo_flanterm.
#[local] Existing Instance demo_flanterm_spec.
#[local] Existing Instance sim_ports.
#[local] Existing Instance sim_mmio.
#[local] Existing Instance sim_tsc.
#[local] Existing Instance sim_hw.

Definition boot_answers : limine_responses :=
  mkLimine true (Some 0x200) (Some 1) (Some demo_offset) (Some (Some small_map)) (Some 0x700000).
Definition boot_data : kmain_data := mkData (demo_fb demo_offset) 0x100 0xffffffff80000100 0xffffffff80000200.
Definition boot_kernel : kernel pmm_state sim (list Z) :=
  mkKernel demo_tables
    (mkTimer (mkLapic (boot_vmm (mkCpu 2) small_map demo_offset (λ _, 0) 0 0 0 (mkTlb (λ _, None) (λ _, None)))
                demo_regs (mkSim 1000 PitOther 0) 0)
       0 (sched_boot (mkCpu 2) 0 0 ∅))
    None (acpi_start demo_acpi).

Lemma boot_hardware : hardware_ok 0x200 boot_data demo_offset 0xE0000000 demo_acpi demo_rsdp boot_kernel.
Proof.
  split.
  - vm_compute. split; [reflexivity|discriminate].
  - vm_compute. reflexivity.
  - split; [split; [lia|reflexivity]|vm_compute; discriminate].
  - split; [reflexivity|]. split; [exact demo_literal|exact demo_pointer].
  - split; reflexivity.
  - discriminate.
  - exists 0xFEE00900. split; [reflexivity|]. split; [lia|reflexivity].
  - cbn [apic_at sim_hw]. unfold sim_apic. split; [split; [lia|reflexivity]|vm_compute; discriminate].
  - cbn [cycle access_max tsc_hz sim_hw]. unfold PIT_BASE_FREQ. cbn. lia.
  - split; [reflexivity|]. split; [reflexivity|]. repeat split; (reflexivity || discriminate).
Qed.

Lemma boot_supply n :
  100000 ≤ Z.of_nat n → supply_ok (T:=list Z) (kd_fb boot_data) n (heap_base (KERNEL_END small_image) + KHEAP_STARTING_SIZE) small_lim.
Proof.
  intros Hn r. pose proof frames_for_megabyte as Hm.
  assert (Z.of_nat (region_pages (fb_bytes (kd_fb boot_data)) false) = 300) as Hp by (vm_compute; reflexivity).
  unfold credit_frames, struct_frames, KHEAP_EXTENDING_AMOUNT. cbn [fl_extensions demo_flanterm_spec].
  split; [lia|vm_compute; discriminate].
Qed.

